(** * TinyHome front end: wheel-driven stages, anchor registry, LOD and camera director

    A shallow embedding of the scene components of the repository:

    - [MenuHome]     : [src/components/ui/MenuHome/MenuHome.tsx]
    - [Sps]          : the sphere positioning system ([SpherePositioningSystem],
                       [AnimatedCamera], [TinyHouseModel])
    - [Lod]          : the LOD optimised scene ([LODOptimizedScene],
                       [LODStaticCameraAnimation], [LODTinyHouseModel],
                       [LODPositioningSphere], [useDistanceLOD],
                       [usePerformanceMonitor])
    - [ScrollRotate] : the page whose scroll position turns the model
    - [ScrollHero]   : the page whose scroll position shrinks the hero

    JavaScript numbers are idealised as real numbers ([R]); rounding of IEEE
    doubles, NaN and signed zeros are outside the model.  React state is a
    record with one field per [useState] hook; a handler reads the values of
    the render it was created in and chains the setters it calls.  Deferred
    callbacks ([setTimeout]) are kept in a list of pending timers together with
    the values their closure captured. *)

From Stdlib Require Import Reals Lra ZArith List String Bool Lia.
Import ListNotations.
Local Open Scope R_scope.

Notation "s |> f" := (f s) (at level 45, left associativity, only parsing).

(** ** JavaScript primitives *)

Module Js.

(** [a < b], [a > b], [a >= b] as the booleans a JS condition sees. *)
Definition lt (a b : R) : bool := if Rlt_dec a b then true else false.
Definition gt (a b : R) : bool := lt b a.
Definition ge (a b : R) : bool := if Rle_dec b a then true else false.

(** [a <= b]. *)
Definition le (a b : R) : bool := ge b a.

(** Rounding toward zero, the quotient that [%] uses. *)
Definition trunc (a : R) : Z :=
  if Rle_dec 0 a then Int_part a else (- Int_part (- a))%Z.

(** [a % b] on numbers. *)
Definition rem (a b : R) : R := a - b * IZR (trunc (a / b)).

(** [Math.floor], [Math.pow(a, 2)], [Math.atan2]. *)
Definition floor (a : R) : R := IZR (Int_part a).

(** [Math.round]: the nearest integer, a tie going up. *)
Definition round (a : R) : R := floor (a + 1 / 2).
Definition pow2 (a : R) : R := a ^ 2.
Definition atan2 (b a : R) : R :=
  if Rlt_dec 0 a then atan (b / a)
  else if Rlt_dec a 0 then
         (if Rle_dec 0 b then atan (b / a) + PI else atan (b / a) - PI)
       else if Rlt_dec 0 b then PI / 2
            else if Rlt_dec b 0 then - (PI / 2) else 0.

(** Truthiness of a number and of a [number | null] value. *)
Definition truthy (n : Z) : bool := negb (n =? 0)%Z.
Definition truthyOpt (o : option Z) : bool :=
  match o with Some n => truthy n | None => false end.

(** [o === n] for [o : number | null] and a number [n]. *)
Definition eqOpt (o : option Z) (n : Z) : bool :=
  match o with Some m => (m =? n)%Z | None => false end.

(** [o !== null]. *)
Definition notNull {A} (o : option A) : bool :=
  match o with Some _ => true | None => false end.

End Js.

(** ** Data shared by the sphere variants *)

Definition Vec3 : Type := (R * R * R)%type.
Definition c0 (v : Vec3) : R := fst (fst v).
Definition c1 (v : Vec3) : R := snd (fst v).
Definition c2 (v : Vec3) : R := snd v.

(** [interface SpherePosition]. *)
Module Sphere.
Record t : Type := mk
  { id : Z; x : R; y : R; z : R;
    visible : bool; color : string; name : string }.
End Sphere.
Definition SpherePosition : Type := Sphere.t.

(** The [cameraTarget] state object. *)
Module Target.
Record t : Type := mk
  { position : Vec3; lookAt : Vec3; animating : bool }.
End Target.
Definition CameraTarget : Type := Target.t.

(** [dropdownStates]. *)
Record Dropdowns : Type := mkDropdowns
  { Living_Room : bool; Kitchen : bool; Bedroom : bool; Bathroom : bool }.

Definition allClosed : Dropdowns := mkDropdowns false false false false.

Module menuData.
Definition Living_Room : list string :=
  ["Samsung TV"; "LED lights"; "Videogame"; "Carpet"]%string.
Definition Kitchen : list string :=
  ["Oven"; "Microwave"; "Mixer"; "Cooktop"]%string.
Definition Bedroom : list string :=
  ["Bed"; "Rug"; "Desk"; "Chair"]%string.
Definition Bathroom : list string :=
  ["Shower"; "Toilet"; "LED lights"; "Towell Hanger"]%string.
End menuData.

Definition allAppliances : list string :=
  menuData.Living_Room ++ menuData.Kitchen ++ menuData.Bedroom ++ menuData.Bathroom.

Definition specificCoordinates : list Vec3 :=
  [ (-1.2, 2.4, 1.8); (-1.1, 2.6, 0.9); (-1.3, 2.2, 1.7); (-0.4, 0.1, 1.5);
    (-0.2, 0.4, -1.7); (-0.6, 0.6, -1.7); (0.5, 0.6, -1.7); (-0.1, 0.7, -1.7);
    (0.42, 2.1, 1.7); (-0.6, 2.1, 1.7); (1.3, 2.2, 1.7); (1.2, 2.2, 1.2);
    (1.5, 0.8, -1.8); (1.7, 0.3, -0.7); (1.4, 1.3, 0.1); (0.9, 0.8, -0.6) ].

Definition colors : list string :=
  [ "#ff6b6b"; "#4ecdc4"; "#45b7d1"; "#96ceb4"; "#feca57"; "#ff9ff3";
    "#54a0ff"; "#5f27cd"; "#00d2d3"; "#ff9f43"; "#ee5a24"; "#0abde3";
    "#10ac84"; "#f368e0"; "#3742fa"; "#2f3542" ]%string.

(** [Array.from({ length: 16 }, (_, index) => ({ id: index + 1, ... }))]: the
    sixteen anchors in creation order.  Every index is in range of the three
    tables, so the fallbacks of the older variant ([|| 0], [|| `Point n`]) are
    never taken and both variants seed the same registry. *)
Definition seedSphere (index : nat) : SpherePosition :=
  let c := nth index specificCoordinates (0, 0, 0) in
  {| Sphere.id := Z.of_nat index + 1;
     Sphere.x := c0 c; Sphere.y := c1 c; Sphere.z := c2 c;
     Sphere.visible := true;
     Sphere.color := nth index colors ""%string;
     Sphere.name := nth index allAppliances ""%string |}.

Definition initialSpheres : list SpherePosition := map seedSphere (seq 0 16).

(** [spheres.find((s) => s.id === sphereId)]. *)
Definition findSphere (sphereId : Z) (spheres : list SpherePosition)
  : option SpherePosition :=
  find (fun s => (Sphere.id s =? sphereId)%Z) spheres.

(** The rotation of a local anchor position about the vertical axis that the
    three focus computations write out inline:
    [worldX = x cos t - z sin t], [worldY = y], [worldZ = x sin t + z cos t]. *)
Definition rotateY (s : SpherePosition) (t : R) : Vec3 :=
  (Sphere.x s * cos t - Sphere.z s * sin t,
   Sphere.y s,
   Sphere.x s * sin t + Sphere.z s * cos t).

(** [Math.sqrt(Math.pow(a0 - b0, 2) + Math.pow(a1 - b1, 2) + Math.pow(a2 - b2, 2))]. *)
Definition distance (a b : Vec3) : R :=
  sqrt (Js.pow2 (c0 a - c0 b) + Js.pow2 (c1 a - c1 b) + Js.pow2 (c2 a - c2 b)).

(** One interpolation step [cur += (tgt - cur) * k], componentwise. *)
Definition lerp3 (cur tgt : Vec3) (k : R) : Vec3 :=
  (c0 cur + (c0 tgt - c0 cur) * k,
   c1 cur + (c1 tgt - c1 cur) * k,
   c2 cur + (c2 tgt - c2 cur) * k).

(** A source of [Math.random()] results: the value of the n-th call. *)
Definition Random : Type := nat -> R.

(** ** The sphere positioning system *)

Module Sps.

(** A pending [setTimeout]: every deferred callback of this component is
    [() => setShowNotification(false)]; the delay tells the session
    notification (3000 ms) from the transient ones (2000 ms). *)
Inductive Timer : Type :=
| HideNotification (delay : Z).

(** The [useState] hooks of [SpherePositioningSystem], then the local
    [accumulatedDegrees] of the wheel effect and the pending timers.  The
    effect's [isScrolling] flag and its 200 ms timer are written and never
    read; they are left out. *)
Record State : Type := mkState
  { sidebarOpen : bool;
    notificationShown : bool;
    showNotification : bool;
    targetRotation : R;
    titleOpacity : R;
    modelScale : R;
    rotationDegrees : R;
    showSphereControls : bool;
    selectedSphere : option Z;
    cameraTarget : CameraTarget;
    notificationText : string;
    spheres : list SpherePosition;
    dropdownStates : Dropdowns;
    accumulatedDegrees : R;
    timers : list Timer }.

Definition setSidebarOpen (v : bool) (s : State) : State :=
  mkState v (notificationShown s) (showNotification s) (targetRotation s)
    (titleOpacity s) (modelScale s) (rotationDegrees s) (showSphereControls s)
    (selectedSphere s) (cameraTarget s) (notificationText s) (spheres s)
    (dropdownStates s) (accumulatedDegrees s) (timers s).
Definition setNotificationShown (v : bool) (s : State) : State :=
  mkState (sidebarOpen s) v (showNotification s) (targetRotation s)
    (titleOpacity s) (modelScale s) (rotationDegrees s) (showSphereControls s)
    (selectedSphere s) (cameraTarget s) (notificationText s) (spheres s)
    (dropdownStates s) (accumulatedDegrees s) (timers s).
Definition setShowNotification (v : bool) (s : State) : State :=
  mkState (sidebarOpen s) (notificationShown s) v (targetRotation s)
    (titleOpacity s) (modelScale s) (rotationDegrees s) (showSphereControls s)
    (selectedSphere s) (cameraTarget s) (notificationText s) (spheres s)
    (dropdownStates s) (accumulatedDegrees s) (timers s).
Definition setTargetRotation (v : R) (s : State) : State :=
  mkState (sidebarOpen s) (notificationShown s) (showNotification s) v
    (titleOpacity s) (modelScale s) (rotationDegrees s) (showSphereControls s)
    (selectedSphere s) (cameraTarget s) (notificationText s) (spheres s)
    (dropdownStates s) (accumulatedDegrees s) (timers s).
Definition setTitleOpacity (v : R) (s : State) : State :=
  mkState (sidebarOpen s) (notificationShown s) (showNotification s)
    (targetRotation s) v (modelScale s) (rotationDegrees s) (showSphereControls
    s) (selectedSphere s) (cameraTarget s) (notificationText s) (spheres s)
    (dropdownStates s) (accumulatedDegrees s) (timers s).
Definition setModelScale (v : R) (s : State) : State :=
  mkState (sidebarOpen s) (notificationShown s) (showNotification s)
    (targetRotation s) (titleOpacity s) v (rotationDegrees s)
    (showSphereControls s) (selectedSphere s) (cameraTarget s) (notificationText
    s) (spheres s) (dropdownStates s) (accumulatedDegrees s) (timers s).
Definition setRotationDegrees (v : R) (s : State) : State :=
  mkState (sidebarOpen s) (notificationShown s) (showNotification s)
    (targetRotation s) (titleOpacity s) (modelScale s) v (showSphereControls s)
    (selectedSphere s) (cameraTarget s) (notificationText s) (spheres s)
    (dropdownStates s) (accumulatedDegrees s) (timers s).
Definition setShowSphereControls (v : bool) (s : State) : State :=
  mkState (sidebarOpen s) (notificationShown s) (showNotification s)
    (targetRotation s) (titleOpacity s) (modelScale s) (rotationDegrees s) v
    (selectedSphere s) (cameraTarget s) (notificationText s) (spheres s)
    (dropdownStates s) (accumulatedDegrees s) (timers s).
Definition setSelectedSphere (v : option Z) (s : State) : State :=
  mkState (sidebarOpen s) (notificationShown s) (showNotification s)
    (targetRotation s) (titleOpacity s) (modelScale s) (rotationDegrees s)
    (showSphereControls s) v (cameraTarget s) (notificationText s) (spheres s)
    (dropdownStates s) (accumulatedDegrees s) (timers s).
Definition setCameraTarget (v : CameraTarget) (s : State) : State :=
  mkState (sidebarOpen s) (notificationShown s) (showNotification s)
    (targetRotation s) (titleOpacity s) (modelScale s) (rotationDegrees s)
    (showSphereControls s) (selectedSphere s) v (notificationText s) (spheres s)
    (dropdownStates s) (accumulatedDegrees s) (timers s).
Definition setNotificationText (v : string) (s : State) : State :=
  mkState (sidebarOpen s) (notificationShown s) (showNotification s)
    (targetRotation s) (titleOpacity s) (modelScale s) (rotationDegrees s)
    (showSphereControls s) (selectedSphere s) (cameraTarget s) v (spheres s)
    (dropdownStates s) (accumulatedDegrees s) (timers s).
Definition setSpheres (v : list SpherePosition) (s : State) : State :=
  mkState (sidebarOpen s) (notificationShown s) (showNotification s)
    (targetRotation s) (titleOpacity s) (modelScale s) (rotationDegrees s)
    (showSphereControls s) (selectedSphere s) (cameraTarget s) (notificationText
    s) v (dropdownStates s) (accumulatedDegrees s) (timers s).
Definition setDropdownStates (v : Dropdowns) (s : State) : State :=
  mkState (sidebarOpen s) (notificationShown s) (showNotification s)
    (targetRotation s) (titleOpacity s) (modelScale s) (rotationDegrees s)
    (showSphereControls s) (selectedSphere s) (cameraTarget s) (notificationText
    s) (spheres s) v (accumulatedDegrees s) (timers s).
Definition setAccumulatedDegrees (v : R) (s : State) : State :=
  mkState (sidebarOpen s) (notificationShown s) (showNotification s)
    (targetRotation s) (titleOpacity s) (modelScale s) (rotationDegrees s)
    (showSphereControls s) (selectedSphere s) (cameraTarget s) (notificationText
    s) (spheres s) (dropdownStates s) v (timers s).
Definition setTimers (v : list Timer) (s : State) : State :=
  mkState (sidebarOpen s) (notificationShown s) (showNotification s)
    (targetRotation s) (titleOpacity s) (modelScale s) (rotationDegrees s)
    (showSphereControls s) (selectedSphere s) (cameraTarget s) (notificationText
    s) (spheres s) (dropdownStates s) (accumulatedDegrees s) v.

Definition setTimeout (t : Timer) (s : State) : State :=
  setTimers (timers s ++ [t]) s.

Definition initialState : State :=
  {| sidebarOpen := false;
     notificationShown := false;
     showNotification := false;
     targetRotation := 0;
     titleOpacity := 1;
     modelScale := 1.5;
     rotationDegrees := 0;
     showSphereControls := false;
     selectedSphere := None;
     cameraTarget :=
       {| Target.position := (0, 3, 8); Target.lookAt := (0, 0, 0);
          Target.animating := false |};
     notificationText := ""%string;
     spheres := initialSpheres;
     dropdownStates := allClosed;
     accumulatedDegrees := 0;
     timers := [] |}.

(** [handleWheel]; of the event only [deltaY] is read. *)
Definition handleWheel (deltaY : R) (st : State) : State :=
  let degreesPerScroll := 1.2 in
  let scrollDirection := if Js.gt deltaY 0 then 1 else -1 in
  let accumulatedDegrees' :=
    accumulatedDegrees st + scrollDirection * degreesPerScroll in
  let targetRadians := accumulatedDegrees' * PI / 180 in
  let displayDegrees := Js.rem (Rabs accumulatedDegrees') 360 in
  let newTitleOpacity :=
    if Js.lt displayDegrees 30 then Rmax (1 - displayDegrees / 30) 0 else 0 in
  let newModelScale :=
    if Js.lt displayDegrees 30 then 1.5
    else if Js.lt displayDegrees 60 then
           let scaleProgress := (displayDegrees - 30) / 30 in
           1.5 + scaleProgress * 1.3
         else 2.8 in
  let st1 :=
    st |> setAccumulatedDegrees accumulatedDegrees'
       |> setTargetRotation targetRadians
       |> setRotationDegrees displayDegrees
       |> setTitleOpacity newTitleOpacity
       |> setModelScale newModelScale in
  if Js.ge displayDegrees 60 && negb (sidebarOpen st) then
    let st2 := st1 |> setSidebarOpen true |> setShowSphereControls true in
    if negb (notificationShown st) then
      st2 |> setShowNotification true
          |> setTimeout (HideNotification 3000)
          |> setNotificationShown true
    else st2
  else st1.

(** The wheel effect lists [sidebarOpen, notificationShown] as dependencies:
    when a render changes one of them the effect is torn down and run again,
    and the listener it installs closes over a fresh
    [let accumulatedDegrees = 0]. *)
Definition rerunWheelEffect (before after : State) : State :=
  if eqb (sidebarOpen before) (sidebarOpen after)
     && eqb (notificationShown before) (notificationShown after)
  then after
  else after |> setAccumulatedDegrees 0.

Definition closeSidebar (st : State) : State :=
  st |> setSidebarOpen false
     |> setShowSphereControls false
     |> setSelectedSphere None
     |> setDropdownStates allClosed.

Definition handleKeyDown (key : string) (st : State) : State :=
  if String.eqb key "Escape" && sidebarOpen st then
    st |> setSidebarOpen false
       |> setShowSphereControls false
       |> setSelectedSphere None
       |> setDropdownStates allClosed
  else st.

Definition zoomToSphere (sphereId : Z) (st : State) : State :=
  match findSphere sphereId (spheres st) with
  | None => st
  | Some sphere =>
    let distance := 1.5 in
    let height := 0.8 in
    let worldX :=
      Sphere.x sphere * cos (targetRotation st)
      - Sphere.z sphere * sin (targetRotation st) in
    let worldZ :=
      Sphere.x sphere * sin (targetRotation st)
      + Sphere.z sphere * cos (targetRotation st) in
    let worldY := Sphere.y sphere in
    let angle := Js.atan2 worldZ worldX + PI / 3 in
    let cameraX := worldX + distance * cos angle in
    let cameraY := worldY + height in
    let cameraZ := worldZ + distance * sin angle in
    st |> setCameraTarget
            {| Target.position := (cameraX, cameraY, cameraZ);
               Target.lookAt := (worldX, worldY, worldZ);
               Target.animating := true |}
       |> setNotificationText ("Zooming to " ++ Sphere.name sphere)
       |> setShowNotification true
       |> setTimeout (HideNotification 2000)
  end.

Definition resetCamera (st : State) : State :=
  st |> setCameraTarget
          {| Target.position := (0, 3, 8 - (modelScale st - 1.5) * 1.5);
             Target.lookAt := (0, 0, 0);
             Target.animating := true |}
     |> setNotificationText "Returning to overview"
     |> setShowNotification true
     |> setTimeout (HideNotification 2000).

Definition handleAnimationComplete (st : State) : State :=
  st |> setCameraTarget
          {| Target.position := Target.position (cameraTarget st);
             Target.lookAt := Target.lookAt (cameraTarget st);
             Target.animating := false |}.

Inductive Axis : Type := axisX | axisY | axisZ.

Definition updateSpherePosition (id : Z) (axis : Axis) (value : R) (st : State)
  : State :=
  st |> setSpheres
          (map (fun sphere =>
                  if (Sphere.id sphere =? id)%Z then
                    match axis with
                    | axisX => Sphere.mk (Sphere.id sphere) value (Sphere.y sphere)
                                 (Sphere.z sphere) (Sphere.visible sphere)
                                 (Sphere.color sphere) (Sphere.name sphere)
                    | axisY => Sphere.mk (Sphere.id sphere) (Sphere.x sphere) value
                                 (Sphere.z sphere) (Sphere.visible sphere)
                                 (Sphere.color sphere) (Sphere.name sphere)
                    | axisZ => Sphere.mk (Sphere.id sphere) (Sphere.x sphere)
                                 (Sphere.y sphere) value (Sphere.visible sphere)
                                 (Sphere.color sphere) (Sphere.name sphere)
                    end
                  else sphere)
               (spheres st)).

Definition toggleSphereVisibility (id : Z) (st : State) : State :=
  st |> setSpheres
          (map (fun sphere =>
                  if (Sphere.id sphere =? id)%Z then
                    Sphere.mk (Sphere.id sphere) (Sphere.x sphere) (Sphere.y sphere)
                      (Sphere.z sphere) (negb (Sphere.visible sphere))
                      (Sphere.color sphere) (Sphere.name sphere)
                  else sphere)
               (spheres st)).

(** [prev.map((sphere) => ({ ...sphere, x: (Math.random() - 0.5) * 12,
    y: Math.random() * 6 - 1, z: (Math.random() - 0.5) * 12, visible: true }))]:
    three draws per sphere, in the order the literal lists them; [n] counts the
    draws made so far. *)
Fixpoint randomizeAll (random : Random) (n : nat) (prev : list SpherePosition)
  : list SpherePosition :=
  match prev with
  | [] => []
  | sphere :: rest =>
    Sphere.mk (Sphere.id sphere)
      ((random n - 0.5) * 12)
      (random (S n) * 6 - 1)
      ((random (S (S n)) - 0.5) * 12)
      true (Sphere.color sphere) (Sphere.name sphere)
    :: randomizeAll random (S (S (S n))) rest
  end.

Definition resetAllSpheres (random : Random) (st : State) : State :=
  st |> setSpheres (randomizeAll random 0 (spheres st))
     |> setSelectedSphere None.

(** [resetSpherePosition]: only the sphere that matches draws. *)
Fixpoint randomizeOne (random : Random) (n : nat) (id : Z)
  (prev : list SpherePosition) : list SpherePosition :=
  match prev with
  | [] => []
  | sphere :: rest =>
    if (Sphere.id sphere =? id)%Z then
      Sphere.mk (Sphere.id sphere)
        ((random n - 0.5) * 12)
        (random (S n) * 6 - 1)
        ((random (S (S n)) - 0.5) * 12)
        (Sphere.visible sphere) (Sphere.color sphere) (Sphere.name sphere)
      :: randomizeOne random (S (S (S n))) id rest
    else sphere :: randomizeOne random n id rest
  end.

Definition resetSpherePosition (random : Random) (id : Z) (st : State) : State :=
  st |> setSpheres (randomizeOne random 0 id (spheres st)).

Definition exportCoordinates (st : State) : State :=
  st |> setShowNotification true |> setTimeout (HideNotification 2000).

(** [getCurrentStage]. *)
Definition getCurrentStage (st : State) : string :=
  if Js.lt (rotationDegrees st) 30 then "Stage 1: Title Visible"
  else if Js.lt (rotationDegrees st) 60 then "Stage 2: Model Growing"
       else "Stage 3: Navigation + Spheres Active".

(** [totalRotations] of [getRotationDirection]: the number of full turns the
    label counts. *)
Definition totalRotations (st : State) : R :=
  Js.floor (Rabs (targetRotation st * 180 / PI) / 360).
(** *** Canvas components *)

(** The refs of [AnimatedCamera] and the three.js camera it drives:
    [position] is [camera.position], [lookedAt] the point last passed to
    [camera.lookAt]. *)
Module Cam.
Record t : Type := mk
  { currentPosition : Vec3;
    currentLookAt : Vec3;
    isAnimating : bool;
    position : Vec3;
    lookedAt : Vec3 }.
End Cam.

(** The [useFrame] callback of [AnimatedCamera].  The boolean tells whether
    the frame called [onAnimationComplete]. *)
Definition AnimatedCamera (cameraTarget : CameraTarget) (modelScale : R)
  (c : Cam.t) : Cam.t * bool :=
  let c :=
    if Target.animating cameraTarget && negb (Cam.isAnimating c) then
      Cam.mk (Cam.position c) (0, 0, 0) true (Cam.position c) (Cam.lookedAt c)
    else c in
  if Target.animating cameraTarget || Cam.isAnimating c then
    let lerpFactor := 0.08 in
    let currentPosition :=
      lerp3 (Cam.currentPosition c) (Target.position cameraTarget) lerpFactor in
    let currentLookAt :=
      lerp3 (Cam.currentLookAt c) (Target.lookAt cameraTarget) lerpFactor in
    let positionDistance :=
      distance (Target.position cameraTarget) currentPosition in
    if Js.lt positionDistance 0.1 then
      (Cam.mk currentPosition currentLookAt false currentPosition currentLookAt,
       true)
    else
      (Cam.mk currentPosition currentLookAt (Cam.isAnimating c)
         currentPosition currentLookAt,
       false)
  else
    let defaultPosition := (0, 3, 8 - (modelScale - 1.5) * 1.5) in
    if negb (Cam.isAnimating c) then
      let currentPosition := lerp3 (Cam.currentPosition c) defaultPosition 0.02 in
      let currentLookAt := lerp3 (Cam.currentLookAt c) (0, 0, 0) 0.02 in
      (Cam.mk currentPosition currentLookAt (Cam.isAnimating c)
         currentPosition currentLookAt,
       false)
    else (c, false).

(** The refs of [TinyHouseModel]; [currentRotation] is the angle written to
    [rotation.y], the rotation the model is displayed with. *)
Module Model.
Record t : Type := mk { currentRotation : R; velocity : R }.
End Model.

(** The [useFrame] callback of [TinyHouseModel]. *)
Definition TinyHouseModel (targetRotation : R) (m : Model.t) : Model.t :=
  let lerpFactor := 0.08 in
  let difference := targetRotation - Model.currentRotation m in
  let velocity := (Model.velocity m + difference * 0.02) * 0.85 in
  Model.mk (Model.currentRotation m + difference * lerpFactor + velocity * 0.1)
    velocity.

(** *** Events *)

Inductive MenuKey : Type := kLiving_Room | kKitchen | kBedroom | kBathroom.

Definition toggleDropdown (item : MenuKey) (st : State) : State :=
  let prev := dropdownStates st in
  st |> setDropdownStates
          match item with
          | kLiving_Room => mkDropdowns (negb (Living_Room prev)) (Kitchen prev)
                              (Bedroom prev) (Bathroom prev)
          | kKitchen => mkDropdowns (Living_Room prev) (negb (Kitchen prev))
                          (Bedroom prev) (Bathroom prev)
          | kBedroom => mkDropdowns (Living_Room prev) (Kitchen prev)
                          (negb (Bedroom prev)) (Bathroom prev)
          | kBathroom => mkDropdowns (Living_Room prev) (Kitchen prev)
                           (Bedroom prev) (negb (Bathroom prev))
          end.

(** Running the [n]-th pending timer. *)
Definition fireTimer (n : nat) (st : State) : State :=
  match nth_error (timers st) n with
  | Some (HideNotification _) =>
    st |> setTimers (firstn n (timers st) ++ skipn (S n) (timers st))
       |> setShowNotification false
  | None => st
  end.

(** What can happen to the component between two renders. *)
Inductive Event : Type :=
| Wheel (deltaY : R)
| KeyDown (key : string)
| CloseSidebar
| ToggleDropdown (item : MenuKey)
| ZoomToSphere (sphereId : Z)
| ResetCamera
| SelectSphere (id : option Z)
| AnimationComplete
| UpdateSpherePosition (id : Z) (axis : Axis) (value : R)
| ToggleSphereVisibility (id : Z)
| ResetSpherePosition (random : Random) (id : Z)
| ResetAllSpheres (random : Random)
| ExportCoordinates
| TimerFires (n : nat).

Definition handle (e : Event) (st : State) : State :=
  match e with
  | Wheel deltaY => handleWheel deltaY st
  | KeyDown key => handleKeyDown key st
  | CloseSidebar => closeSidebar st
  | ToggleDropdown item => toggleDropdown item st
  | ZoomToSphere sphereId => zoomToSphere sphereId st
  | ResetCamera => resetCamera st
  | SelectSphere id => setSelectedSphere id st
  | AnimationComplete => handleAnimationComplete st
  | UpdateSpherePosition id axis value => updateSpherePosition id axis value st
  | ToggleSphereVisibility id => toggleSphereVisibility id st
  | ResetSpherePosition random id => resetSpherePosition random id st
  | ResetAllSpheres random => resetAllSpheres random st
  | ExportCoordinates => exportCoordinates st
  | TimerFires n => fireTimer n st
  end.

(** One event, then the render it causes. *)
Definition step (st : State) (e : Event) : State :=
  rerunWheelEffect st (handle e st).

Definition run (st : State) (es : list Event) : State := fold_left step es st.

(** The page together with the refs of its canvas components. *)
Record Scene : Type := mkScene { app : State; cam : Cam.t; model : Model.t }.

(** One rendered frame: both [useFrame] callbacks, and the completion
    callback when the camera asks for it. *)
Definition frame (sc : Scene) : Scene :=
  let (cam', completed) :=
    AnimatedCamera (cameraTarget (app sc)) (modelScale (app sc)) (cam sc) in
  mkScene (if completed then step (app sc) AnimationComplete else app sc)
    cam' (TinyHouseModel (targetRotation (app sc)) (model sc)).

Definition event (e : Event) (sc : Scene) : Scene :=
  mkScene (step (app sc) e) (cam sc) (model sc).

(** The scene at mount; [camera0] is where the canvas puts its camera. *)
Definition initialScene (camera0 : Vec3) : Scene :=
  mkScene initialState
    (Cam.mk (0, 3, 8) (0, 0, 0) false camera0 (0, 0, 0))
    (Model.mk 0 0).

End Sps.

(** ** The LOD optimised scene *)

Module Lod.

Inductive CameraMode : Type := overview | focused | transitioning.
Inductive TransitionPhase : Type := zoom_out | zoom_in | none.

Definition CameraMode_eqb (a b : CameraMode) : bool :=
  match a, b with
  | overview, overview | focused, focused | transitioning, transitioning => true
  | _, _ => false
  end.

Definition TransitionPhase_eqb (a b : TransitionPhase) : bool :=
  match a, b with
  | zoom_out, zoom_out | zoom_in, zoom_in | none, none => true
  | _, _ => false
  end.

(** A pending [setTimeout].  [ZoomIn] is the 400 ms callback that
    [handleAnimationComplete] schedules after a zoom out; it carries the
    [pendingTarget], [spheres] and [targetRotation] of the render whose
    [handleAnimationComplete] scheduled it. *)
Inductive Timer : Type :=
| HideNotification (delay : Z)
| ZoomIn (pendingTarget : Z) (spheres : list SpherePosition) (targetRotation : R).

(** The [useState] hooks of [LODOptimizedScene] that are ever written
    ([scrollY] and [performanceMode] keep their initial value and are read
    nowhere), then the local [accumulatedDegrees] of the wheel effect and the
    pending timers.  As in the other variant [isScrolling] is left out. *)
Record State : Type := mkState
  { targetRotation : R;
    modelScale : R;
    sidebarOpen : bool;
    rotationDegrees : R;
    showSphereControls : bool;
    selectedSphere : option Z;
    notificationShown : bool;
    cameraTarget : CameraTarget;
    notificationText : string;
    showNotification : bool;
    focusedSphere : option Z;
    cameraMode : CameraMode;
    pendingTarget : option Z;
    transitionPhase : TransitionPhase;
    spheres : list SpherePosition;
    dropdownStates : Dropdowns;
    accumulatedDegrees : R;
    timers : list Timer }.

Definition setTargetRotation (v : R) (s : State) : State :=
  mkState v (modelScale s) (sidebarOpen s) (rotationDegrees s)
    (showSphereControls s) (selectedSphere s) (notificationShown s)
    (cameraTarget s) (notificationText s) (showNotification s) (focusedSphere s)
    (cameraMode s) (pendingTarget s) (transitionPhase s) (spheres s)
    (dropdownStates s) (accumulatedDegrees s) (timers s).
Definition setModelScale (v : R) (s : State) : State :=
  mkState (targetRotation s) v (sidebarOpen s) (rotationDegrees s)
    (showSphereControls s) (selectedSphere s) (notificationShown s)
    (cameraTarget s) (notificationText s) (showNotification s) (focusedSphere s)
    (cameraMode s) (pendingTarget s) (transitionPhase s) (spheres s)
    (dropdownStates s) (accumulatedDegrees s) (timers s).
Definition setSidebarOpen (v : bool) (s : State) : State :=
  mkState (targetRotation s) (modelScale s) v (rotationDegrees s)
    (showSphereControls s) (selectedSphere s) (notificationShown s)
    (cameraTarget s) (notificationText s) (showNotification s) (focusedSphere s)
    (cameraMode s) (pendingTarget s) (transitionPhase s) (spheres s)
    (dropdownStates s) (accumulatedDegrees s) (timers s).
Definition setRotationDegrees (v : R) (s : State) : State :=
  mkState (targetRotation s) (modelScale s) (sidebarOpen s) v
    (showSphereControls s) (selectedSphere s) (notificationShown s)
    (cameraTarget s) (notificationText s) (showNotification s) (focusedSphere s)
    (cameraMode s) (pendingTarget s) (transitionPhase s) (spheres s)
    (dropdownStates s) (accumulatedDegrees s) (timers s).
Definition setShowSphereControls (v : bool) (s : State) : State :=
  mkState (targetRotation s) (modelScale s) (sidebarOpen s) (rotationDegrees
    s) v (selectedSphere s) (notificationShown s) (cameraTarget s)
    (notificationText s) (showNotification s) (focusedSphere s) (cameraMode s)
    (pendingTarget s) (transitionPhase s) (spheres s) (dropdownStates s)
    (accumulatedDegrees s) (timers s).
Definition setSelectedSphere (v : option Z) (s : State) : State :=
  mkState (targetRotation s) (modelScale s) (sidebarOpen s) (rotationDegrees
    s) (showSphereControls s) v (notificationShown s) (cameraTarget s)
    (notificationText s) (showNotification s) (focusedSphere s) (cameraMode s)
    (pendingTarget s) (transitionPhase s) (spheres s) (dropdownStates s)
    (accumulatedDegrees s) (timers s).
Definition setNotificationShown (v : bool) (s : State) : State :=
  mkState (targetRotation s) (modelScale s) (sidebarOpen s) (rotationDegrees
    s) (showSphereControls s) (selectedSphere s) v (cameraTarget s)
    (notificationText s) (showNotification s) (focusedSphere s) (cameraMode s)
    (pendingTarget s) (transitionPhase s) (spheres s) (dropdownStates s)
    (accumulatedDegrees s) (timers s).
Definition setCameraTarget (v : CameraTarget) (s : State) : State :=
  mkState (targetRotation s) (modelScale s) (sidebarOpen s) (rotationDegrees
    s) (showSphereControls s) (selectedSphere s) (notificationShown s) v
    (notificationText s) (showNotification s) (focusedSphere s) (cameraMode s)
    (pendingTarget s) (transitionPhase s) (spheres s) (dropdownStates s)
    (accumulatedDegrees s) (timers s).
Definition setNotificationText (v : string) (s : State) : State :=
  mkState (targetRotation s) (modelScale s) (sidebarOpen s) (rotationDegrees
    s) (showSphereControls s) (selectedSphere s) (notificationShown s)
    (cameraTarget s) v (showNotification s) (focusedSphere s) (cameraMode s)
    (pendingTarget s) (transitionPhase s) (spheres s) (dropdownStates s)
    (accumulatedDegrees s) (timers s).
Definition setShowNotification (v : bool) (s : State) : State :=
  mkState (targetRotation s) (modelScale s) (sidebarOpen s) (rotationDegrees
    s) (showSphereControls s) (selectedSphere s) (notificationShown s)
    (cameraTarget s) (notificationText s) v (focusedSphere s) (cameraMode s)
    (pendingTarget s) (transitionPhase s) (spheres s) (dropdownStates s)
    (accumulatedDegrees s) (timers s).
Definition setFocusedSphere (v : option Z) (s : State) : State :=
  mkState (targetRotation s) (modelScale s) (sidebarOpen s) (rotationDegrees
    s) (showSphereControls s) (selectedSphere s) (notificationShown s)
    (cameraTarget s) (notificationText s) (showNotification s) v (cameraMode s)
    (pendingTarget s) (transitionPhase s) (spheres s) (dropdownStates s)
    (accumulatedDegrees s) (timers s).
Definition setCameraMode (v : CameraMode) (s : State) : State :=
  mkState (targetRotation s) (modelScale s) (sidebarOpen s) (rotationDegrees
    s) (showSphereControls s) (selectedSphere s) (notificationShown s)
    (cameraTarget s) (notificationText s) (showNotification s) (focusedSphere s)
    v (pendingTarget s) (transitionPhase s) (spheres s) (dropdownStates s)
    (accumulatedDegrees s) (timers s).
Definition setPendingTarget (v : option Z) (s : State) : State :=
  mkState (targetRotation s) (modelScale s) (sidebarOpen s) (rotationDegrees
    s) (showSphereControls s) (selectedSphere s) (notificationShown s)
    (cameraTarget s) (notificationText s) (showNotification s) (focusedSphere s)
    (cameraMode s) v (transitionPhase s) (spheres s) (dropdownStates s)
    (accumulatedDegrees s) (timers s).
Definition setTransitionPhase (v : TransitionPhase) (s : State) : State :=
  mkState (targetRotation s) (modelScale s) (sidebarOpen s) (rotationDegrees
    s) (showSphereControls s) (selectedSphere s) (notificationShown s)
    (cameraTarget s) (notificationText s) (showNotification s) (focusedSphere s)
    (cameraMode s) (pendingTarget s) v (spheres s) (dropdownStates s)
    (accumulatedDegrees s) (timers s).
Definition setSpheres (v : list SpherePosition) (s : State) : State :=
  mkState (targetRotation s) (modelScale s) (sidebarOpen s) (rotationDegrees
    s) (showSphereControls s) (selectedSphere s) (notificationShown s)
    (cameraTarget s) (notificationText s) (showNotification s) (focusedSphere s)
    (cameraMode s) (pendingTarget s) (transitionPhase s) v (dropdownStates s)
    (accumulatedDegrees s) (timers s).
Definition setDropdownStates (v : Dropdowns) (s : State) : State :=
  mkState (targetRotation s) (modelScale s) (sidebarOpen s) (rotationDegrees
    s) (showSphereControls s) (selectedSphere s) (notificationShown s)
    (cameraTarget s) (notificationText s) (showNotification s) (focusedSphere s)
    (cameraMode s) (pendingTarget s) (transitionPhase s) (spheres s) v
    (accumulatedDegrees s) (timers s).
Definition setAccumulatedDegrees (v : R) (s : State) : State :=
  mkState (targetRotation s) (modelScale s) (sidebarOpen s) (rotationDegrees
    s) (showSphereControls s) (selectedSphere s) (notificationShown s)
    (cameraTarget s) (notificationText s) (showNotification s) (focusedSphere s)
    (cameraMode s) (pendingTarget s) (transitionPhase s) (spheres s)
    (dropdownStates s) v (timers s).
Definition setTimers (v : list Timer) (s : State) : State :=
  mkState (targetRotation s) (modelScale s) (sidebarOpen s) (rotationDegrees
    s) (showSphereControls s) (selectedSphere s) (notificationShown s)
    (cameraTarget s) (notificationText s) (showNotification s) (focusedSphere s)
    (cameraMode s) (pendingTarget s) (transitionPhase s) (spheres s)
    (dropdownStates s) (accumulatedDegrees s) v.

Definition setTimeout (t : Timer) (s : State) : State :=
  setTimers (timers s ++ [t]) s.

Definition initialState : State :=
  {| targetRotation := 0;
     modelScale := 1.5;
     sidebarOpen := false;
     rotationDegrees := 0;
     showSphereControls := false;
     selectedSphere := None;
     notificationShown := false;
     cameraTarget :=
       {| Target.position := (0, 3, 8); Target.lookAt := (0, 0, 0);
          Target.animating := false |};
     notificationText := ""%string;
     showNotification := false;
     focusedSphere := None;
     cameraMode := overview;
     pendingTarget := None;
     transitionPhase := none;
     spheres := initialSpheres;
     dropdownStates := allClosed;
     accumulatedDegrees := 0;
     timers := [] |}.

(** [handleWheel]; of the event only [deltaY] is read. *)
Definition handleWheel (deltaY : R) (st : State) : State :=
  let degreesPerScroll := 1.2 in
  let scrollDirection := if Js.gt deltaY 0 then 1 else -1 in
  let accumulatedDegrees' :=
    accumulatedDegrees st + scrollDirection * degreesPerScroll in
  let targetRadians := accumulatedDegrees' * PI / 180 in
  let displayDegrees := Js.rem (Rabs accumulatedDegrees') 360 in
  let newModelScale :=
    if Js.lt displayDegrees 30 then 1.5
    else if Js.lt displayDegrees 60 then
           let scaleProgress := (displayDegrees - 30) / 30 in
           1.5 + scaleProgress * 1.3
         else 2.8 in
  let st1 :=
    st |> setAccumulatedDegrees accumulatedDegrees'
       |> setTargetRotation targetRadians
       |> setRotationDegrees displayDegrees
       |> setModelScale newModelScale in
  if Js.ge displayDegrees 60 && negb (sidebarOpen st) then
    let st2 := st1 |> setSidebarOpen true |> setShowSphereControls true in
    if negb (notificationShown st) then
      st2 |> setShowNotification true
          |> setTimeout (HideNotification 3000)
          |> setNotificationShown true
    else st2
  else st1.

(** The hero title has no opacity state here; its class is
    [rotationDegrees > 15 ? 'opacity-0' : 'opacity-100']. *)
Definition titleOpacity (st : State) : R :=
  if Js.gt (rotationDegrees st) 15 then 0 else 1.

(** The wheel effect depends on [sidebarOpen, notificationShown]; see
    [Sps.rerunWheelEffect]. *)
Definition rerunWheelEffect (before after : State) : State :=
  if eqb (sidebarOpen before) (sidebarOpen after)
     && eqb (notificationShown before) (notificationShown after)
  then after
  else after |> setAccumulatedDegrees 0.

Definition closeSidebar (st : State) : State :=
  st |> setSidebarOpen false
     |> setShowSphereControls false
     |> setSelectedSphere None
     |> setDropdownStates allClosed.

Definition handleKeyDown (key : string) (st : State) : State :=
  if String.eqb key "Escape" && sidebarOpen st then
    st |> setSidebarOpen false
       |> setShowSphereControls false
       |> setSelectedSphere None
       |> setDropdownStates allClosed
  else st.

(** [spheres.find((s) => s.id === focusedSphere)?.name] inside a template
    string. *)
Definition nameOfFocused (focusedSphere : option Z) (spheres : list SpherePosition)
  : string :=
  match focusedSphere with
  | Some id =>
    match findSphere id spheres with
    | Some s => Sphere.name s
    | None => "undefined"
    end
  | None => "undefined"
  end.

Definition performZoomToSphere (sphereId : Z) (st : State) : State :=
  match findSphere sphereId (spheres st) with
  | None => st
  | Some sphere =>
    let worldX :=
      Sphere.x sphere * cos (targetRotation st)
      - Sphere.z sphere * sin (targetRotation st) in
    let worldZ :=
      Sphere.x sphere * sin (targetRotation st)
      + Sphere.z sphere * cos (targetRotation st) in
    let worldY := Sphere.y sphere in
    let distance := 0.8 in
    let height := 0.3 in
    let angle := Js.atan2 worldZ worldX + PI / 4 in
    let cameraX := worldX + distance * cos angle in
    let cameraY := worldY + height in
    let cameraZ := worldZ + distance * sin angle in
    st |> setCameraTarget
            {| Target.position := (cameraX, cameraY, cameraZ);
               Target.lookAt := (worldX, worldY, worldZ);
               Target.animating := true |}
       |> setFocusedSphere (Some sphereId)
       |> setCameraMode focused
       |> setNotificationText
            ("Focused on " ++ Sphere.name sphere ++ " - LOD Optimized & Locked")
       |> setShowNotification true
       |> setTimeout (HideNotification 2000)
  end.

Definition zoomToSphere (sphereId : Z) (st : State) : State :=
  match findSphere sphereId (spheres st) with
  | None => st
  | Some sphere =>
    if Js.truthyOpt (focusedSphere st)
       && negb (Js.eqOpt (focusedSphere st) sphereId)
    then
      st |> setCameraMode transitioning
         |> setPendingTarget (Some sphereId)
         |> setTransitionPhase zoom_out
         |> setFocusedSphere None
         |> setCameraTarget
              {| Target.position := (0, 3, 8 - (modelScale st - 1.5) * 1.5);
                 Target.lookAt := (0, 0, 0);
                 Target.animating := true |}
         |> setNotificationText
              ("Transitioning from "
               ++ nameOfFocused (focusedSphere st) (spheres st)
               ++ " to " ++ Sphere.name sphere ++ "...")
         |> setShowNotification true
         |> setTimeout (HideNotification 2000)
    else performZoomToSphere sphereId st
  end.

Definition resetCamera (st : State) : State :=
  st |> setCameraTarget
          {| Target.position := (0, 3, 8 - (modelScale st - 1.5) * 1.5);
             Target.lookAt := (0, 0, 0);
             Target.animating := true |}
     |> setFocusedSphere None
     |> setCameraMode overview
     |> setTransitionPhase none
     |> setPendingTarget None
     |> setNotificationText "Returning to overview - LOD Optimized"
     |> setShowNotification true
     |> setTimeout (HideNotification 2000).

Definition handleAnimationComplete (st : State) : State :=
  let st1 :=
    st |> setCameraTarget
            {| Target.position := Target.position (cameraTarget st);
               Target.lookAt := Target.lookAt (cameraTarget st);
               Target.animating := false |} in
  match pendingTarget st with
  | Some target =>
    if CameraMode_eqb (cameraMode st) transitioning
       && TransitionPhase_eqb (transitionPhase st) zoom_out
       && Js.truthy target
    then st1 |> setTimeout (ZoomIn target (spheres st) (targetRotation st))
    else st1
  | None => st1
  end.

(** The body of the 400 ms callback, run on the state current when it fires
    with the values [pendingTarget], [spheres], [targetRotation] it captured. *)
Definition zoomIn (pendingTarget : Z) (spheres : list SpherePosition)
  (targetRotation : R) (st : State) : State :=
  let st1 := st |> setTransitionPhase zoom_in in
  let st2 :=
    match findSphere pendingTarget spheres with
    | Some sphere =>
      let worldX :=
        Sphere.x sphere * cos targetRotation
        - Sphere.z sphere * sin targetRotation in
      let worldZ :=
        Sphere.x sphere * sin targetRotation
        + Sphere.z sphere * cos targetRotation in
      let worldY := Sphere.y sphere in
      let distance := 0.8 in
      let height := 0.3 in
      let angle := Js.atan2 worldZ worldX + PI / 4 in
      let cameraX := worldX + distance * cos angle in
      let cameraY := worldY + height in
      let cameraZ := worldZ + distance * sin angle in
      st1 |> setCameraTarget
               {| Target.position := (cameraX, cameraY, cameraZ);
                  Target.lookAt := (worldX, worldY, worldZ);
                  Target.animating := true |}
          |> setFocusedSphere (Some pendingTarget)
          |> setCameraMode focused
          |> setNotificationText
               ("Focused on " ++ Sphere.name sphere
                ++ " - LOD Optimized & Locked")
          |> setShowNotification true
          |> setTimeout (HideNotification 2000)
    | None => st1
    end in
  st2 |> setPendingTarget None |> setTransitionPhase none.

Inductive Axis : Type := axisX | axisY | axisZ.

Definition updateSpherePosition (id : Z) (axis : Axis) (value : R) (st : State)
  : State :=
  st |> setSpheres
          (map (fun sphere =>
                  if (Sphere.id sphere =? id)%Z then
                    match axis with
                    | axisX => Sphere.mk (Sphere.id sphere) value (Sphere.y sphere)
                                 (Sphere.z sphere) (Sphere.visible sphere)
                                 (Sphere.color sphere) (Sphere.name sphere)
                    | axisY => Sphere.mk (Sphere.id sphere) (Sphere.x sphere) value
                                 (Sphere.z sphere) (Sphere.visible sphere)
                                 (Sphere.color sphere) (Sphere.name sphere)
                    | axisZ => Sphere.mk (Sphere.id sphere) (Sphere.x sphere)
                                 (Sphere.y sphere) value (Sphere.visible sphere)
                                 (Sphere.color sphere) (Sphere.name sphere)
                    end
                  else sphere)
               (spheres st)).

Definition toggleSphereVisibility (id : Z) (st : State) : State :=
  st |> setSpheres
          (map (fun sphere =>
                  if (Sphere.id sphere =? id)%Z then
                    Sphere.mk (Sphere.id sphere) (Sphere.x sphere) (Sphere.y sphere)
                      (Sphere.z sphere) (negb (Sphere.visible sphere))
                      (Sphere.color sphere) (Sphere.name sphere)
                  else sphere)
               (spheres st)).

(** [prev.map((sphere) => ({ ...sphere, x: (Math.random() - 0.5) * 16,
    y: Math.random() * 8 - 2, z: (Math.random() - 0.5) * 16 }))]. *)
Fixpoint randomizeAll (random : Random) (n : nat) (prev : list SpherePosition)
  : list SpherePosition :=
  match prev with
  | [] => []
  | sphere :: rest =>
    Sphere.mk (Sphere.id sphere)
      ((random n - 0.5) * 16)
      (random (S n) * 8 - 2)
      ((random (S (S n)) - 0.5) * 16)
      (Sphere.visible sphere) (Sphere.color sphere) (Sphere.name sphere)
    :: randomizeAll random (S (S (S n))) rest
  end.

Definition resetAllSpheres (random : Random) (st : State) : State :=
  st |> setSpheres (randomizeAll random 0 (spheres st)).

Fixpoint randomizeOne (random : Random) (n : nat) (id : Z)
  (prev : list SpherePosition) : list SpherePosition :=
  match prev with
  | [] => []
  | sphere :: rest =>
    if (Sphere.id sphere =? id)%Z then
      Sphere.mk (Sphere.id sphere)
        ((random n - 0.5) * 16)
        (random (S n) * 8 - 2)
        ((random (S (S n)) - 0.5) * 16)
        (Sphere.visible sphere) (Sphere.color sphere) (Sphere.name sphere)
      :: randomizeOne random (S (S (S n))) id rest
    else sphere :: randomizeOne random n id rest
  end.

Definition resetSpherePosition (random : Random) (id : Z) (st : State) : State :=
  st |> setSpheres (randomizeOne random 0 id (spheres st)).

Definition exportCoordinates (st : State) : State :=
  st |> setNotificationText "Coordinates exported to console"
     |> setShowNotification true
     |> setTimeout (HideNotification 2000).

(** *** Performance monitor *)

(** The state and the refs of [usePerformanceMonitor]. *)
Module Monitor.
Record t : Type := mk { fps : Z; frameCount : Z; lastTime : R }.
End Monitor.

(** The [useFrame] callback of [usePerformanceMonitor]; [currentTime] is the
    reading of [performance.now()] in the frame. *)
Definition usePerformanceMonitor (currentTime : R) (m : Monitor.t) : Monitor.t :=
  let frameCount := (Monitor.frameCount m + 1)%Z in
  if Js.ge (currentTime - Monitor.lastTime m) 1000 then
    Monitor.mk frameCount 0 currentTime
  else Monitor.mk (Monitor.fps m) frameCount (Monitor.lastTime m).

(** The monitor at mount, [now] being [performance.now()] then. *)
Definition initialMonitor (now : R) : Monitor.t := Monitor.mk 60 0 now.

(** *** Level of detail *)

Inductive LODLevel : Type := low | medium | high.

Module Detail.
Record t : Type := mk
  { detail : LODLevel;
    visible : bool;
    showWireframe : bool;
    showFloating : bool;
    widthSegments : Z;
    heightSegments : Z }.
End Detail.

(** [useDistanceLOD(position, camera, focusedSphere, sphereId?)]; [camera]
    stands for [camera.position], and an omitted [sphereId] is [None]. *)
Definition useDistanceLOD (position camera : Vec3) (focusedSphere : option Z)
  (sphereId : option Z) : Detail.t :=
  let distance := distance camera position in
  if match sphereId with
     | Some id => Js.truthy id && Js.eqOpt focusedSphere id
     | None => false
     end
  then Detail.mk high true true true 32 32
  else if Js.lt distance 2 then Detail.mk high true true true 16 16
  else if Js.lt distance 5 then Detail.mk medium true true true 12 12
  else if Js.lt distance 10 then Detail.mk low true false false 8 8
  else Detail.mk low false false false 6 6.

(** [performanceAdjustment] and [finalGeometryDetail] of
    [LODPositioningSphere]. *)
Definition performanceAdjustment (fps : Z) : R :=
  if (fps <? 30)%Z then 0.5 else if (fps <? 45)%Z then 0.75 else 1.0.

Definition finalGeometryDetail (lod : Detail.t) (fps : Z) : R * R :=
  (Rmax 4 (Js.floor (IZR (Detail.widthSegments lod) * performanceAdjustment fps)),
   Rmax 4 (Js.floor (IZR (Detail.heightSegments lod) * performanceAdjustment fps))).

(** [opacity] and the [emissiveIntensity] attribute of
    [LODPositioningSphere]. *)
Definition opacity (lod : Detail.t) (fps : Z) : R :=
  let baseOpacity := 0.9 in
  let distanceOpacity :=
    match Detail.detail lod with high => 1.0 | medium => 0.8 | low => 0.6 end in
  baseOpacity * distanceOpacity * performanceAdjustment fps.

Definition emissiveIntensity (lod : Detail.t) : R :=
  match Detail.detail lod with high => 0.3 | medium => 0.2 | low => 0.1 end.

(** What [LODPositioningSphere] returns: the segments, opacity and emissive
    intensity of the main sphere and, when it is drawn, the segments and the
    opacity of the wireframe overlay. *)
Module Mesh.
Record t : Type := mk
  { widthSegments : R;
    heightSegments : R;
    opacity : R;
    emissiveIntensity : R;
    wireframe : option (R * R * R) }.
End Mesh.

(** The render of [LODPositioningSphere]; [None] is [return null].  [camera]
    stands for [camera.position] and [fps] for the reading of the component's
    own performance monitor. *)
Definition LODPositioningSphere (position camera : Vec3) (visible : bool)
  (sphereId : Z) (focusedSphere : option Z) (fps : Z) : option Mesh.t :=
  let lod := useDistanceLOD position camera focusedSphere (Some sphereId) in
  let final := finalGeometryDetail lod fps in
  let opacity := opacity lod fps in
  if negb visible || negb (Detail.visible lod) then None
  else
    Some
      (Mesh.mk (fst final) (snd final) opacity (emissiveIntensity lod)
         (if Detail.showWireframe lod && (fps >? 30)%Z then
            Some (Rmax 6 (Js.floor (fst final * 0.75)),
                  Rmax 6 (Js.floor (snd final * 0.75)),
                  opacity * 0.4)
          else None)).

(** The [useFrame] callback of [LODPositioningSphere], for a sphere that is
    rendered: the position it sets on the mesh at [elapsedTime]. *)
Definition floatingPosition (position : Vec3) (lod : Detail.t) (fps : Z)
  (elapsedTime : R) : Vec3 :=
  if Detail.showFloating lod && (fps >? 45)%Z then
    (c0 position, c1 position + sin (elapsedTime * 2) * 0.05, c2 position)
  else (c0 position, c1 position, c2 position).




(** *** Canvas components *)

(** The refs of [LODStaticCameraAnimation] and the camera it drives. *)
Module Cam.
Record t : Type := mk
  { currentPosition : Vec3;
    currentLookAt : Vec3;
    isAnimating : bool;
    isLocked : bool;
    frameCounter : Z;
    position : Vec3;
    lookedAt : Vec3 }.
End Cam.

(** The [useFrame] callback of [LODStaticCameraAnimation]; [fps] is the
    reading of the component's performance monitor.  The boolean tells whether
    the frame called [onAnimationComplete]. *)
Definition LODStaticCameraAnimation (fps : Z) (cameraTarget : CameraTarget)
  (modelScale : R) (focusedSphere : option Z) (spheres : list SpherePosition)
  (targetRotation : R) (cameraMode : CameraMode) (c : Cam.t) : Cam.t * bool :=
  let animationQuality : R * Z :=
    if (fps <? 30)%Z then (0.15, 2%Z)
    else if (fps <? 45)%Z then (0.12, 1%Z) else (0.1, 1%Z) in
  let c :=
    Cam.mk (Cam.currentPosition c) (Cam.currentLookAt c) (Cam.isAnimating c)
      (Cam.isLocked c) (Cam.frameCounter c + 1) (Cam.position c)
      (Cam.lookedAt c) in
  if negb (Z.rem (Cam.frameCounter c) (snd animationQuality) =? 0)%Z then
    (c, false)
  else
  let c :=
    if Target.animating cameraTarget && negb (Cam.isAnimating c) then
      Cam.mk (Cam.position c)
        (c0 (Cam.position c), c1 (Cam.position c), c2 (Cam.position c) - 1)
        true (Cam.isLocked c) (Cam.frameCounter c) (Cam.position c)
        (Cam.lookedAt c)
    else c in
  if Target.animating cameraTarget || Cam.isAnimating c then
    let lerpFactor := fst animationQuality in
    let currentPosition :=
      lerp3 (Cam.currentPosition c) (Target.position cameraTarget) lerpFactor in
    let currentLookAt :=
      lerp3 (Cam.currentLookAt c) (Target.lookAt cameraTarget) lerpFactor in
    let positionDistance :=
      distance (Target.position cameraTarget) currentPosition in
    let lookAtDistance :=
      distance (Target.lookAt cameraTarget) currentLookAt in
    if Js.lt positionDistance 0.05 && Js.lt lookAtDistance 0.05 then
      (Cam.mk currentPosition currentLookAt false (Js.notNull focusedSphere)
         (Cam.frameCounter c) currentPosition currentLookAt,
       true)
    else
      (Cam.mk currentPosition currentLookAt (Cam.isAnimating c)
         (Cam.isLocked c) (Cam.frameCounter c) currentPosition currentLookAt,
       false)
  else if Cam.isLocked c
          && Js.truthyOpt focusedSphere
          && (0 <? List.length spheres)%nat
          && negb (CameraMode_eqb cameraMode transitioning)
  then
    match focusedSphere with
    | Some focusedId =>
      match findSphere focusedId spheres with
      | Some sphere =>
        let worldX :=
          Sphere.x sphere * cos targetRotation
          - Sphere.z sphere * sin targetRotation in
        let worldZ :=
          Sphere.x sphere * sin targetRotation
          + Sphere.z sphere * cos targetRotation in
        let worldY := Sphere.y sphere in
        let distance := 0.8 in
        let height := 0.3 in
        let angle := Js.atan2 worldZ worldX + PI / 4 in
        let staticCameraX := worldX + distance * cos angle in
        let staticCameraY := worldY + height in
        let staticCameraZ := worldZ + distance * sin angle in
        (Cam.mk (Cam.currentPosition c) (Cam.currentLookAt c)
           (Cam.isAnimating c) (Cam.isLocked c) (Cam.frameCounter c)
           (staticCameraX, staticCameraY, staticCameraZ)
           (worldX, worldY, worldZ),
         false)
      | None => (c, false)
      end
    | None => (c, false)
    end
  else if negb (Cam.isLocked c) then
    let defaultPosition := (0, 3, 8 - (modelScale - 1.5) * 1.5) in
    let defaultLerpFactor := if (fps >? 45)%Z then 0.02 else 0.01 in
    let currentPosition :=
      lerp3 (Cam.currentPosition c) defaultPosition defaultLerpFactor in
    let currentLookAt :=
      lerp3 (Cam.currentLookAt c) (0, 0, 0) defaultLerpFactor in
    (Cam.mk currentPosition currentLookAt (Cam.isAnimating c) (Cam.isLocked c)
       (Cam.frameCounter c) currentPosition currentLookAt,
     false)
  else (c, false).

(** The effect [if (focusedSphere === null) isLocked.current = false], run
    after a render that changed [focusedSphere]. *)
Definition unlockEffect (before after : option Z) (c : Cam.t) : Cam.t :=
  match before, after with
  | Some _, None =>
    Cam.mk (Cam.currentPosition c) (Cam.currentLookAt c) (Cam.isAnimating c)
      false (Cam.frameCounter c) (Cam.position c) (Cam.lookedAt c)
  | _, _ => c
  end.

(** The refs of [LODTinyHouseModel]; [currentRotation] is the angle written
    to [rotation.y], the rotation the model is displayed with. *)
Module Model.
Record t : Type := mk { currentRotation : R; velocity : R }.
End Model.

(** [rotationQuality]: lerp factor, momentum, damping. *)
Definition rotationQuality (fps : Z) : R * R * R :=
  if (fps <? 30)%Z then (0.12, 0.01, 0.9)
  else if (fps <? 45)%Z then (0.1, 0.015, 0.87) else (0.08, 0.02, 0.85).

(** The [useFrame] callback of [LODTinyHouseModel]. *)
Definition LODTinyHouseModel (fps : Z) (targetRotation : R) (m : Model.t)
  : Model.t :=
  let '(lerpFactor, momentum, damping) := rotationQuality fps in
  let difference := targetRotation - Model.currentRotation m in
  let velocity := (Model.velocity m + difference * momentum) * damping in
  Model.mk (Model.currentRotation m + difference * lerpFactor + velocity * 0.1)
    velocity.

(** *** Events *)

Inductive MenuKey : Type := kLiving_Room | kKitchen | kBedroom | kBathroom.

Definition toggleDropdown (item : MenuKey) (st : State) : State :=
  let prev := dropdownStates st in
  st |> setDropdownStates
          match item with
          | kLiving_Room => mkDropdowns (negb (Living_Room prev)) (Kitchen prev)
                              (Bedroom prev) (Bathroom prev)
          | kKitchen => mkDropdowns (Living_Room prev) (negb (Kitchen prev))
                          (Bedroom prev) (Bathroom prev)
          | kBedroom => mkDropdowns (Living_Room prev) (Kitchen prev)
                          (negb (Bedroom prev)) (Bathroom prev)
          | kBathroom => mkDropdowns (Living_Room prev) (Kitchen prev)
                           (Bedroom prev) (negb (Bathroom prev))
          end.

(** Running the [n]-th pending timer: it leaves the list, then its callback
    runs. *)
Definition fireTimer (n : nat) (st : State) : State :=
  match nth_error (timers st) n with
  | Some t =>
    let st1 :=
      st |> setTimers (firstn n (timers st) ++ skipn (S n) (timers st)) in
    match t with
    | HideNotification _ => st1 |> setShowNotification false
    | ZoomIn pendingTarget spheres targetRotation =>
      zoomIn pendingTarget spheres targetRotation st1
    end
  | None => st
  end.

(** What can happen to the component between two renders. *)
Inductive Event : Type :=
| Wheel (deltaY : R)
| KeyDown (key : string)
| CloseSidebar
| ToggleDropdown (item : MenuKey)
| ZoomToSphere (sphereId : Z)
| ResetCamera
| SelectSphere (id : option Z)
| AnimationComplete
| UpdateSpherePosition (id : Z) (axis : Axis) (value : R)
| ToggleSphereVisibility (id : Z)
| ResetSpherePosition (random : Random) (id : Z)
| ResetAllSpheres (random : Random)
| ExportCoordinates
| TimerFires (n : nat).

Definition handle (e : Event) (st : State) : State :=
  match e with
  | Wheel deltaY => handleWheel deltaY st
  | KeyDown key => handleKeyDown key st
  | CloseSidebar => closeSidebar st
  | ToggleDropdown item => toggleDropdown item st
  | ZoomToSphere sphereId => zoomToSphere sphereId st
  | ResetCamera => resetCamera st
  | SelectSphere id => setSelectedSphere id st
  | AnimationComplete => handleAnimationComplete st
  | UpdateSpherePosition id axis value => updateSpherePosition id axis value st
  | ToggleSphereVisibility id => toggleSphereVisibility id st
  | ResetSpherePosition random id => resetSpherePosition random id st
  | ResetAllSpheres random => resetAllSpheres random st
  | ExportCoordinates => exportCoordinates st
  | TimerFires n => fireTimer n st
  end.

(** One event, then the render it causes. *)
Definition step (st : State) (e : Event) : State :=
  rerunWheelEffect st (handle e st).

Definition run (st : State) (es : list Event) : State := fold_left step es st.

(** The page together with the refs of its canvas components. *)
Record Scene : Type := mkScene { app : State; cam : Cam.t; model : Model.t }.

Definition event (e : Event) (sc : Scene) : Scene :=
  let app' := step (app sc) e in
  mkScene app'
    (unlockEffect (focusedSphere (app sc)) (focusedSphere app') (cam sc))
    (model sc).

(** One rendered frame: both [useFrame] callbacks, each with the reading of
    its own performance monitor, and the completion callback when the camera
    asks for it. *)
Definition frame (fpsCamera fpsModel : Z) (sc : Scene) : Scene :=
  let st := app sc in
  let (cam', completed) :=
    LODStaticCameraAnimation fpsCamera (cameraTarget st) (modelScale st)
      (focusedSphere st) (spheres st) (targetRotation st) (cameraMode st)
      (cam sc) in
  mkScene (if completed then step st AnimationComplete else st)
    cam' (LODTinyHouseModel fpsModel (targetRotation st) (model sc)).

(** The scene at mount; [camera0] is where the canvas puts its camera. *)
Definition initialScene (camera0 : Vec3) : Scene :=
  mkScene initialState
    (Cam.mk (0, 3, 8) (0, 0, 0) false false 0 camera0 (0, 0, 0))
    (Model.mk 0 0).

End Lod.

(** ** The menu page *)

Module MenuHome.

Inductive Timer : Type :=
| HideNotification (delay : Z).

(** The [useState] hooks of [MenuHome], then the local [accumulatedRotation]
    of the wheel effect and the pending timers. *)
Record State : Type := mkState
  { sidebarOpen : bool;
    notificationShown : bool;
    showNotification : bool;
    targetRotation : R;
    titleOpacity : R;
    modelScale : R;
    dropdownStates : Dropdowns;
    accumulatedRotation : R;
    timers : list Timer }.

Definition setSidebarOpen (v : bool) (s : State) : State :=
  mkState v (notificationShown s) (showNotification s) (targetRotation s)
    (titleOpacity s) (modelScale s) (dropdownStates s) (accumulatedRotation s)
    (timers s).
Definition setNotificationShown (v : bool) (s : State) : State :=
  mkState (sidebarOpen s) v (showNotification s) (targetRotation s)
    (titleOpacity s) (modelScale s) (dropdownStates s) (accumulatedRotation s)
    (timers s).
Definition setShowNotification (v : bool) (s : State) : State :=
  mkState (sidebarOpen s) (notificationShown s) v (targetRotation s)
    (titleOpacity s) (modelScale s) (dropdownStates s) (accumulatedRotation s)
    (timers s).
Definition setTargetRotation (v : R) (s : State) : State :=
  mkState (sidebarOpen s) (notificationShown s) (showNotification s) v
    (titleOpacity s) (modelScale s) (dropdownStates s) (accumulatedRotation s)
    (timers s).
Definition setTitleOpacity (v : R) (s : State) : State :=
  mkState (sidebarOpen s) (notificationShown s) (showNotification s)
    (targetRotation s) v (modelScale s) (dropdownStates s) (accumulatedRotation
    s) (timers s).
Definition setModelScale (v : R) (s : State) : State :=
  mkState (sidebarOpen s) (notificationShown s) (showNotification s)
    (targetRotation s) (titleOpacity s) v (dropdownStates s)
    (accumulatedRotation s) (timers s).
Definition setDropdownStates (v : Dropdowns) (s : State) : State :=
  mkState (sidebarOpen s) (notificationShown s) (showNotification s)
    (targetRotation s) (titleOpacity s) (modelScale s) v (accumulatedRotation s)
    (timers s).
Definition setAccumulatedRotation (v : R) (s : State) : State :=
  mkState (sidebarOpen s) (notificationShown s) (showNotification s)
    (targetRotation s) (titleOpacity s) (modelScale s) (dropdownStates s) v
    (timers s).
Definition setTimers (v : list Timer) (s : State) : State :=
  mkState (sidebarOpen s) (notificationShown s) (showNotification s)
    (targetRotation s) (titleOpacity s) (modelScale s) (dropdownStates s)
    (accumulatedRotation s) v.

Definition setTimeout (t : Timer) (s : State) : State :=
  setTimers (timers s ++ [t]) s.

Definition initialState : State :=
  {| sidebarOpen := false;
     notificationShown := false;
     showNotification := false;
     targetRotation := 0;
     titleOpacity := 1;
     modelScale := 1.5;
     dropdownStates := allClosed;
     accumulatedRotation := 0;
     timers := [] |}.

(** [Math.abs((rotation * 180) / Math.PI) % 360], the [rotationDegrees] of the
    handler. *)
Definition degreesOf (rotation : R) : R :=
  Js.rem (Rabs (rotation * 180 / PI)) 360.

(** [handleWheel]; of the event only [deltaY] is read. *)
Definition handleWheel (deltaY : R) (st : State) : State :=
  let rotationSensitivity := 0.005 in
  let accumulatedRotation' :=
    accumulatedRotation st + deltaY * rotationSensitivity in
  let rotationDegrees := degreesOf accumulatedRotation' in
  let newTitleOpacity :=
    if Js.lt rotationDegrees 30 then Rmax (1 - rotationDegrees / 30) 0 else 0 in
  let newModelScale :=
    if Js.lt rotationDegrees 30 then 1.5
    else if Js.lt rotationDegrees 60 then
           let scaleProgress := (rotationDegrees - 30) / 30 in
           1.5 + scaleProgress * 1.3
         else 2.8 in
  let st1 :=
    st |> setAccumulatedRotation accumulatedRotation'
       |> setTargetRotation accumulatedRotation'
       |> setTitleOpacity newTitleOpacity
       |> setModelScale newModelScale in
  if Js.ge rotationDegrees 60 && negb (sidebarOpen st) then
    let st2 := st1 |> setSidebarOpen true in
    if negb (notificationShown st) then
      st2 |> setShowNotification true
          |> setTimeout (HideNotification 3000)
          |> setNotificationShown true
    else st2
  else st1.

(** The wheel effect depends on [sidebarOpen, notificationShown]; a render
    that changes one of them restarts it with [let accumulatedRotation = 0]. *)
Definition rerunWheelEffect (before after : State) : State :=
  if eqb (sidebarOpen before) (sidebarOpen after)
     && eqb (notificationShown before) (notificationShown after)
  then after
  else after |> setAccumulatedRotation 0.

Definition closeSidebar (st : State) : State :=
  st |> setSidebarOpen false |> setDropdownStates allClosed.

Definition handleKeyDown (key : string) (st : State) : State :=
  if String.eqb key "Escape" && sidebarOpen st then
    st |> setSidebarOpen false |> setDropdownStates allClosed
  else st.

Inductive MenuKey : Type := kLiving_Room | kKitchen | kBedroom | kBathroom.

Definition toggleDropdown (item : MenuKey) (st : State) : State :=
  let prev := dropdownStates st in
  st |> setDropdownStates
          match item with
          | kLiving_Room => mkDropdowns (negb (Living_Room prev)) (Kitchen prev)
                              (Bedroom prev) (Bathroom prev)
          | kKitchen => mkDropdowns (Living_Room prev) (negb (Kitchen prev))
                          (Bedroom prev) (Bathroom prev)
          | kBedroom => mkDropdowns (Living_Room prev) (Kitchen prev)
                          (negb (Bedroom prev)) (Bathroom prev)
          | kBathroom => mkDropdowns (Living_Room prev) (Kitchen prev)
                           (Bedroom prev) (negb (Bathroom prev))
          end.

Definition fireTimer (n : nat) (st : State) : State :=
  match nth_error (timers st) n with
  | Some (HideNotification _) =>
    st |> setTimers (firstn n (timers st) ++ skipn (S n) (timers st))
       |> setShowNotification false
  | None => st
  end.

Inductive Event : Type :=
| Wheel (deltaY : R)
| KeyDown (key : string)
| CloseSidebar
| ToggleDropdown (item : MenuKey)
| TimerFires (n : nat).

Definition handle (e : Event) (st : State) : State :=
  match e with
  | Wheel deltaY => handleWheel deltaY st
  | KeyDown key => handleKeyDown key st
  | CloseSidebar => closeSidebar st
  | ToggleDropdown item => toggleDropdown item st
  | TimerFires n => fireTimer n st
  end.

Definition step (st : State) (e : Event) : State :=
  rerunWheelEffect st (handle e st).

Definition run (st : State) (es : list Event) : State := fold_left step es st.

(** [Math.round(Math.abs((targetRotation * 180) / Math.PI) % 360)], the
    degrees on display, and [getCurrentStage], which reads them. *)
Definition rotationDegrees (st : State) : R :=
  Js.round (Js.rem (Rabs (targetRotation st * 180 / PI)) 360).

Definition getCurrentStage (st : State) : string :=
  if Js.lt (rotationDegrees st) 30 then "Stage 1: Title Visible"
  else if Js.lt (rotationDegrees st) 60 then "Stage 2: Model Growing"
       else "Stage 3: Navigation Active".

(** The [useFrame] callback of [TinyHouseModel]: the new value of the
    [currentRotation] ref, which is written to [rotation.y]. *)
Definition TinyHouseModel (targetRotation currentRotation : R) : R :=
  let lerpFactor := 0.1 in
  currentRotation + (targetRotation - currentRotation) * lerpFactor.

End MenuHome.

(** ** The window of the scroll-driven pages *)

(** What [handleScroll] reads: [window.pageYOffset],
    [document.documentElement.scrollHeight] and [window.innerHeight]. *)
Module Window.
Record t : Type := mk
  { pageYOffset : R; scrollHeight : R; innerHeight : R }.
End Window.

(** ** The page that turns the model with the scroll position *)

Module ScrollRotate.

Inductive Timer : Type :=
| HideNotification (delay : Z).

(** The [useState] hooks of the component, then whether the throttle timer
    [scrollTimeout] of the scroll effect is pending, and the pending
    notification timers. *)
Record State : Type := mkState
  { sidebarOpen : bool;
    scrollProgress : R;
    notificationShown : bool;
    showNotification : bool;
    modelRotation : R;
    heroOpacity : R;
    titleOpacity : R;
    dropdownStates : Dropdowns;
    scrollTimeout : bool;
    timers : list Timer }.

Definition setSidebarOpen (v : bool) (s : State) : State :=
  mkState v (scrollProgress s) (notificationShown s) (showNotification s)
    (modelRotation s) (heroOpacity s) (titleOpacity s) (dropdownStates s)
    (scrollTimeout s) (timers s).
Definition setScrollProgress (v : R) (s : State) : State :=
  mkState (sidebarOpen s) v (notificationShown s) (showNotification s)
    (modelRotation s) (heroOpacity s) (titleOpacity s) (dropdownStates s)
    (scrollTimeout s) (timers s).
Definition setNotificationShown (v : bool) (s : State) : State :=
  mkState (sidebarOpen s) (scrollProgress s) v (showNotification s)
    (modelRotation s) (heroOpacity s) (titleOpacity s) (dropdownStates s)
    (scrollTimeout s) (timers s).
Definition setShowNotification (v : bool) (s : State) : State :=
  mkState (sidebarOpen s) (scrollProgress s) (notificationShown s) v
    (modelRotation s) (heroOpacity s) (titleOpacity s) (dropdownStates s)
    (scrollTimeout s) (timers s).
Definition setModelRotation (v : R) (s : State) : State :=
  mkState (sidebarOpen s) (scrollProgress s) (notificationShown s)
    (showNotification s) v (heroOpacity s) (titleOpacity s) (dropdownStates s)
    (scrollTimeout s) (timers s).
Definition setHeroOpacity (v : R) (s : State) : State :=
  mkState (sidebarOpen s) (scrollProgress s) (notificationShown s)
    (showNotification s) (modelRotation s) v (titleOpacity s) (dropdownStates s)
    (scrollTimeout s) (timers s).
Definition setTitleOpacity (v : R) (s : State) : State :=
  mkState (sidebarOpen s) (scrollProgress s) (notificationShown s)
    (showNotification s) (modelRotation s) (heroOpacity s) v (dropdownStates s)
    (scrollTimeout s) (timers s).
Definition setDropdownStates (v : Dropdowns) (s : State) : State :=
  mkState (sidebarOpen s) (scrollProgress s) (notificationShown s)
    (showNotification s) (modelRotation s) (heroOpacity s) (titleOpacity s) v
    (scrollTimeout s) (timers s).
Definition setScrollTimeout (v : bool) (s : State) : State :=
  mkState (sidebarOpen s) (scrollProgress s) (notificationShown s)
    (showNotification s) (modelRotation s) (heroOpacity s) (titleOpacity s)
    (dropdownStates s) v (timers s).
Definition setTimers (v : list Timer) (s : State) : State :=
  mkState (sidebarOpen s) (scrollProgress s) (notificationShown s)
    (showNotification s) (modelRotation s) (heroOpacity s) (titleOpacity s)
    (dropdownStates s) (scrollTimeout s) v.

Definition setTimeout (t : Timer) (s : State) : State :=
  setTimers (timers s ++ [t]) s.

Definition initialState : State :=
  {| sidebarOpen := false;
     scrollProgress := 0;
     notificationShown := false;
     showNotification := false;
     modelRotation := 0;
     heroOpacity := 1;
     titleOpacity := 1;
     dropdownStates := allClosed;
     scrollTimeout := false;
     timers := [] |}.

(** [handleScroll]; it reads the window and the [sidebarOpen] and
    [notificationShown] of the render its effect ran in. *)
Definition handleScroll (window : Window.t) (st : State) : State :=
  let scrollTop := Window.pageYOffset window in
  let docHeight := Window.scrollHeight window in
  let winHeight := Window.innerHeight window in
  let scrollPercent := scrollTop / (docHeight - winHeight) * 100 in
  let maxRotationScroll := 25 in
  let rotationProgress := Rmin (scrollPercent / maxRotationScroll) 1 in
  let newRotation := rotationProgress * (PI / 2) in
  let rotationDegrees := newRotation * 180 / PI in
  let newHeroOpacity :=
    if Js.lt rotationDegrees 60 then Rmax (1 - rotationDegrees / 60 * 0.8) 0.2
    else 0 in
  let newTitleOpacity :=
    if Js.lt rotationDegrees 30 then Rmax (1 - rotationDegrees / 30) 0
    else 0 in
  let st1 :=
    st |> setScrollProgress (Js.round scrollPercent)
       |> setModelRotation newRotation
       |> setHeroOpacity newHeroOpacity
       |> setTitleOpacity newTitleOpacity in
  if Js.ge rotationDegrees 30 && negb (sidebarOpen st) then
    let st2 := st1 |> setSidebarOpen true in
    if negb (notificationShown st) then
      st2 |> setShowNotification true
          |> setTimeout (HideNotification 3000)
          |> setNotificationShown true
    else st2
  else if Js.lt rotationDegrees 30 && sidebarOpen st then
    st1 |> setSidebarOpen false |> setDropdownStates allClosed
  else st1.

(** [throttledHandleScroll]: the pending call is dropped and a new one is
    scheduled in 10 ms. *)
Definition throttledHandleScroll (st : State) : State :=
  st |> setScrollTimeout true.

(** The 10 ms timer runs out: [handleScroll] reads the window as it is then. *)
Definition fireScrollTimeout (window : Window.t) (st : State) : State :=
  if scrollTimeout st then handleScroll window (st |> setScrollTimeout false)
  else st.

(** The scroll effect depends on [sidebarOpen, notificationShown].  After a
    render that changed one of them its cleanup clears the throttle timer and
    the new effect calls [handleScroll()] at once, with the new values in its
    closure; that call may change them again, and so on.  [fuel] bounds the
    number of rounds; [None] is a loop that has not settled within them. *)
Fixpoint rerunScrollEffect (fuel : nat) (window : Window.t) (before after : State)
  : option State :=
  if eqb (sidebarOpen before) (sidebarOpen after)
     && eqb (notificationShown before) (notificationShown after)
  then Some after
  else
    match fuel with
    | O => None
    | S fuel' =>
      let cleaned := after |> setScrollTimeout false in
      rerunScrollEffect fuel' window cleaned (handleScroll window cleaned)
    end.

Definition closeSidebar (st : State) : State :=
  st |> setSidebarOpen false |> setDropdownStates allClosed.

Definition handleKeyDown (key : string) (st : State) : State :=
  if String.eqb key "Escape" && sidebarOpen st then
    st |> setSidebarOpen false |> setDropdownStates allClosed
  else st.

Inductive MenuKey : Type := kLiving_Room | kKitchen | kBedroom | kBathroom.

Definition toggleDropdown (item : MenuKey) (st : State) : State :=
  let prev := dropdownStates st in
  st |> setDropdownStates
          match item with
          | kLiving_Room => mkDropdowns (negb (Living_Room prev)) (Kitchen prev)
                              (Bedroom prev) (Bathroom prev)
          | kKitchen => mkDropdowns (Living_Room prev) (negb (Kitchen prev))
                          (Bedroom prev) (Bathroom prev)
          | kBedroom => mkDropdowns (Living_Room prev) (Kitchen prev)
                          (negb (Bedroom prev)) (Bathroom prev)
          | kBathroom => mkDropdowns (Living_Room prev) (Kitchen prev)
                           (Bedroom prev) (negb (Bathroom prev))
          end.

Definition fireTimer (n : nat) (st : State) : State :=
  match nth_error (timers st) n with
  | Some (HideNotification _) =>
    st |> setTimers (firstn n (timers st) ++ skipn (S n) (timers st))
       |> setShowNotification false
  | None => st
  end.

(** The component and the window it reads. *)
Record Page : Type := mkPage { app : State; window : Window.t }.

(** What can happen between two renders: the window is scrolled (or resized)
    to new metrics and fires a scroll event, the throttle timer runs out, a
    key is pressed, the close button or a dropdown header is clicked, a
    notification timer runs out. *)
Inductive Event : Type :=
| Scroll (window : Window.t)
| ScrollTimeout
| KeyDown (key : string)
| CloseSidebar
| ToggleDropdown (item : MenuKey)
| TimerFires (n : nat).

Definition handle (e : Event) (pg : Page) : Page :=
  match e with
  | Scroll window' => mkPage (throttledHandleScroll (app pg)) window'
  | ScrollTimeout => mkPage (fireScrollTimeout (window pg) (app pg)) (window pg)
  | KeyDown key => mkPage (handleKeyDown key (app pg)) (window pg)
  | CloseSidebar => mkPage (closeSidebar (app pg)) (window pg)
  | ToggleDropdown item => mkPage (toggleDropdown item (app pg)) (window pg)
  | TimerFires n => mkPage (fireTimer n (app pg)) (window pg)
  end.

(** One event, then the renders it causes. *)
Definition step (fuel : nat) (pg : Page) (e : Event) : option Page :=
  let pg' := handle e pg in
  match rerunScrollEffect fuel (window pg') (app pg) (app pg') with
  | Some st => Some (mkPage st (window pg'))
  | None => None
  end.

(** The mount: the first run of the scroll effect calls [handleScroll()]. *)
Definition mount (fuel : nat) (window : Window.t) : option Page :=
  match
    rerunScrollEffect fuel window initialState (handleScroll window initialState)
  with
  | Some st => Some (mkPage st window)
  | None => None
  end.

(** [Math.round((modelRotation * 180) / Math.PI)], the degrees on display. *)
Definition rotationDegrees (st : State) : R :=
  Js.round (modelRotation st * 180 / PI).

End ScrollRotate.

(** ** The page that shrinks the hero with the scroll position *)

Module ScrollHero.

Inductive Timer : Type :=
| HideNotification (delay : Z).

(** The [useState] hooks of the component, then whether the throttle timer
    [scrollTimeout] of the scroll effect is pending, and the pending
    notification timers. *)
Record State : Type := mkState
  { sidebarOpen : bool;
    scrollProgress : R;
    notificationShown : bool;
    showNotification : bool;
    heroScale : R;
    heroOpacity : R;
    titleOpacity : R;
    dropdownStates : Dropdowns;
    scrollTimeout : bool;
    timers : list Timer }.

Definition setSidebarOpen (v : bool) (s : State) : State :=
  mkState v (scrollProgress s) (notificationShown s) (showNotification s)
    (heroScale s) (heroOpacity s) (titleOpacity s) (dropdownStates s)
    (scrollTimeout s) (timers s).
Definition setScrollProgress (v : R) (s : State) : State :=
  mkState (sidebarOpen s) v (notificationShown s) (showNotification s)
    (heroScale s) (heroOpacity s) (titleOpacity s) (dropdownStates s)
    (scrollTimeout s) (timers s).
Definition setNotificationShown (v : bool) (s : State) : State :=
  mkState (sidebarOpen s) (scrollProgress s) v (showNotification s) (heroScale
    s) (heroOpacity s) (titleOpacity s) (dropdownStates s) (scrollTimeout s)
    (timers s).
Definition setShowNotification (v : bool) (s : State) : State :=
  mkState (sidebarOpen s) (scrollProgress s) (notificationShown s) v
    (heroScale s) (heroOpacity s) (titleOpacity s) (dropdownStates s)
    (scrollTimeout s) (timers s).
Definition setHeroScale (v : R) (s : State) : State :=
  mkState (sidebarOpen s) (scrollProgress s) (notificationShown s)
    (showNotification s) v (heroOpacity s) (titleOpacity s) (dropdownStates s)
    (scrollTimeout s) (timers s).
Definition setHeroOpacity (v : R) (s : State) : State :=
  mkState (sidebarOpen s) (scrollProgress s) (notificationShown s)
    (showNotification s) (heroScale s) v (titleOpacity s) (dropdownStates s)
    (scrollTimeout s) (timers s).
Definition setTitleOpacity (v : R) (s : State) : State :=
  mkState (sidebarOpen s) (scrollProgress s) (notificationShown s)
    (showNotification s) (heroScale s) (heroOpacity s) v (dropdownStates s)
    (scrollTimeout s) (timers s).
Definition setDropdownStates (v : Dropdowns) (s : State) : State :=
  mkState (sidebarOpen s) (scrollProgress s) (notificationShown s)
    (showNotification s) (heroScale s) (heroOpacity s) (titleOpacity s) v
    (scrollTimeout s) (timers s).
Definition setScrollTimeout (v : bool) (s : State) : State :=
  mkState (sidebarOpen s) (scrollProgress s) (notificationShown s)
    (showNotification s) (heroScale s) (heroOpacity s) (titleOpacity s)
    (dropdownStates s) v (timers s).
Definition setTimers (v : list Timer) (s : State) : State :=
  mkState (sidebarOpen s) (scrollProgress s) (notificationShown s)
    (showNotification s) (heroScale s) (heroOpacity s) (titleOpacity s)
    (dropdownStates s) (scrollTimeout s) v.

Definition setTimeout (t : Timer) (s : State) : State :=
  setTimers (timers s ++ [t]) s.

Definition initialState : State :=
  {| sidebarOpen := false;
     scrollProgress := 0;
     notificationShown := false;
     showNotification := false;
     heroScale := 1;
     heroOpacity := 1;
     titleOpacity := 1;
     dropdownStates := allClosed;
     scrollTimeout := false;
     timers := [] |}.

(** [handleScroll]; it reads the window and the [sidebarOpen] and
    [notificationShown] of the render its effect ran in. *)
Definition handleScroll (window : Window.t) (st : State) : State :=
  let scrollTop := Window.pageYOffset window in
  let docHeight := Window.scrollHeight window in
  let winHeight := Window.innerHeight window in
  let scrollPercent := scrollTop / (docHeight - winHeight) * 100 in
  let heroFadeThreshold := 10 in
  let newScale :=
    if Js.le scrollPercent heroFadeThreshold then
      let fadeRatio := scrollPercent / heroFadeThreshold in
      Rmax (1 - fadeRatio * 1) 0.1
    else 0 in
  let newHeroOpacity :=
    if Js.le scrollPercent heroFadeThreshold then
      let fadeRatio := scrollPercent / heroFadeThreshold in
      Rmax (1 - fadeRatio * 1) 0
    else 0 in
  let titleFadeThreshold := 8 in
  let newTitleOpacity :=
    if Js.le scrollPercent titleFadeThreshold then
      let titleFadeRatio := scrollPercent / titleFadeThreshold in
      Rmax (1 - titleFadeRatio * 1) 0
    else 0 in
  let st1 :=
    st |> setScrollProgress (Js.round scrollPercent)
       |> setHeroScale newScale
       |> setHeroOpacity newHeroOpacity
       |> setTitleOpacity newTitleOpacity in
  if Js.ge scrollPercent 10 && negb (sidebarOpen st) then
    let st2 := st1 |> setSidebarOpen true in
    if negb (notificationShown st) then
      st2 |> setShowNotification true
          |> setTimeout (HideNotification 3000)
          |> setNotificationShown true
    else st2
  else if Js.lt scrollPercent 10 && sidebarOpen st then
    st1 |> setSidebarOpen false |> setDropdownStates allClosed
  else st1.

(** [throttledHandleScroll]: the pending call is dropped and a new one is
    scheduled in 10 ms. *)
Definition throttledHandleScroll (st : State) : State :=
  st |> setScrollTimeout true.

(** The 10 ms timer runs out: [handleScroll] reads the window as it is then. *)
Definition fireScrollTimeout (window : Window.t) (st : State) : State :=
  if scrollTimeout st then handleScroll window (st |> setScrollTimeout false)
  else st.

(** The scroll effect depends on [sidebarOpen, notificationShown].  After a
    render that changed one of them its cleanup clears the throttle timer and
    the new effect calls [handleScroll()] at once, with the new values in its
    closure; that call may change them again, and so on.  [fuel] bounds the
    number of rounds; [None] is a loop that has not settled within them. *)
Fixpoint rerunScrollEffect (fuel : nat) (window : Window.t) (before after : State)
  : option State :=
  if eqb (sidebarOpen before) (sidebarOpen after)
     && eqb (notificationShown before) (notificationShown after)
  then Some after
  else
    match fuel with
    | O => None
    | S fuel' =>
      let cleaned := after |> setScrollTimeout false in
      rerunScrollEffect fuel' window cleaned (handleScroll window cleaned)
    end.

Definition closeSidebar (st : State) : State :=
  st |> setSidebarOpen false |> setDropdownStates allClosed.

Definition handleKeyDown (key : string) (st : State) : State :=
  if String.eqb key "Escape" && sidebarOpen st then
    st |> setSidebarOpen false |> setDropdownStates allClosed
  else st.

Inductive MenuKey : Type := kLiving_Room | kKitchen | kBedroom | kBathroom.

Definition toggleDropdown (item : MenuKey) (st : State) : State :=
  let prev := dropdownStates st in
  st |> setDropdownStates
          match item with
          | kLiving_Room => mkDropdowns (negb (Living_Room prev)) (Kitchen prev)
                              (Bedroom prev) (Bathroom prev)
          | kKitchen => mkDropdowns (Living_Room prev) (negb (Kitchen prev))
                          (Bedroom prev) (Bathroom prev)
          | kBedroom => mkDropdowns (Living_Room prev) (Kitchen prev)
                          (negb (Bedroom prev)) (Bathroom prev)
          | kBathroom => mkDropdowns (Living_Room prev) (Kitchen prev)
                           (Bedroom prev) (negb (Bathroom prev))
          end.

Definition fireTimer (n : nat) (st : State) : State :=
  match nth_error (timers st) n with
  | Some (HideNotification _) =>
    st |> setTimers (firstn n (timers st) ++ skipn (S n) (timers st))
       |> setShowNotification false
  | None => st
  end.

(** The component and the window it reads. *)
Record Page : Type := mkPage { app : State; window : Window.t }.

(** What can happen between two renders: the window is scrolled (or resized)
    to new metrics and fires a scroll event, the throttle timer runs out, a
    key is pressed, the close button or a dropdown header is clicked, a
    notification timer runs out. *)
Inductive Event : Type :=
| Scroll (window : Window.t)
| ScrollTimeout
| KeyDown (key : string)
| CloseSidebar
| ToggleDropdown (item : MenuKey)
| TimerFires (n : nat).

Definition handle (e : Event) (pg : Page) : Page :=
  match e with
  | Scroll window' => mkPage (throttledHandleScroll (app pg)) window'
  | ScrollTimeout => mkPage (fireScrollTimeout (window pg) (app pg)) (window pg)
  | KeyDown key => mkPage (handleKeyDown key (app pg)) (window pg)
  | CloseSidebar => mkPage (closeSidebar (app pg)) (window pg)
  | ToggleDropdown item => mkPage (toggleDropdown item (app pg)) (window pg)
  | TimerFires n => mkPage (fireTimer n (app pg)) (window pg)
  end.

(** One event, then the renders it causes. *)
Definition step (fuel : nat) (pg : Page) (e : Event) : option Page :=
  let pg' := handle e pg in
  match rerunScrollEffect fuel (window pg') (app pg) (app pg') with
  | Some st => Some (mkPage st (window pg'))
  | None => None
  end.

(** The mount: the first run of the scroll effect calls [handleScroll()]. *)
Definition mount (fuel : nat) (window : Window.t) : option Page :=
  match
    rerunScrollEffect fuel window initialState (handleScroll window initialState)
  with
  | Some st => Some (mkPage st window)
  | None => None
  end.

End ScrollHero.

(** ** Vocabulary of the properties *)

(** The signed step of one wheel event in delta mode. *)
Definition wheelStep (deltaY : R) : R := (if Js.gt deltaY 0 then 1 else -1) * 1.2.

(** The scale law of the stage classifier, as a relation between the degrees
    a handler computed and the scale it stored. *)
Definition scaleLaw (deg scale : R) : Prop :=
  (deg < 30 -> scale = 1.5)
  /\ (30 <= deg < 60 -> scale = 1.5 + ((deg - 30) / 30) * 1.3)
  /\ (60 <= deg -> scale = 2.8).

(** The three sample points the specification lists. *)
Definition scaleSamples (deg scale : R) : Prop :=
  (deg = 30 -> scale = 1.5)
  /\ (deg = 45 -> scale = 2.15)
  /\ (deg = 60 -> scale = 2.8).

(** No sphere of the registry carries the id. *)
Definition unknownId (sphereId : Z) (spheres : list SpherePosition) : Prop :=
  forall s, In s spheres -> Sphere.id s <> sphereId.

(** What [resetAll] must keep of an anchor, and what it redraws. *)
Definition identity (s : SpherePosition) : Z * string * string :=
  (Sphere.id s, Sphere.name s, Sphere.color s).

Definition coordinates (s : SpherePosition) : Vec3 :=
  (Sphere.x s, Sphere.y s, Sphere.z s).

(** A random source as [Math.random] promises it: values in [0, 1). *)
Definition unitRandom (random : Random) : Prop :=
  forall n : nat, 0 <= random n < 1.

(** Coordinates within a horizontal half-width [h] and a vertical band
    [lo, hi]. *)
Definition within (h lo hi : R) (s : SpherePosition) : Prop :=
  (- h <= Sphere.x s <= h) /\ (lo <= Sphere.y s <= hi) /\ (- h <= Sphere.z s <= h).

(** A frame in which the camera component animates: not skipped, and an
    animation requested or under way. *)
Definition lodAnimatingFrame (fps : Z) (cameraTarget : CameraTarget) (c : Lod.Cam.t) : Prop :=
  Z.rem (Lod.Cam.frameCounter c + 1) (if (fps <? 30)%Z then 2 else 1) = 0%Z
  /\ (Target.animating cameraTarget = true \/ Lod.Cam.isAnimating c = true).

Definition spsAnimatingFrame (cameraTarget : CameraTarget) (c : Sps.Cam.t) : Prop :=
  Target.animating cameraTarget = true \/ Sps.Cam.isAnimating c = true.

(** Distances against a bound, through the squares. *)
Definition sumsq (a b : Vec3) : R :=
  Js.pow2 (c0 a - c0 b) + Js.pow2 (c1 a - c1 b) + Js.pow2 (c2 a - c2 b).

(** The frame of the locked camera. *)
Definition lockedFrame (fps : Z) (cameraTarget : CameraTarget) (sphereId : Z)
  (cameraMode : Lod.CameraMode) (c : Lod.Cam.t) : Prop :=
  Z.rem (Lod.Cam.frameCounter c + 1) (if (fps <? 30)%Z then 2 else 1) = 0%Z
  /\ Target.animating cameraTarget = false
  /\ Lod.Cam.isAnimating c = false
  /\ Lod.Cam.isLocked c = true
  /\ sphereId <> 0%Z
  /\ cameraMode <> Lod.transitioning.

(** One wheel notch, one frame, then a click on the carpet anchor. *)
Definition sceneBeforeFocus : Lod.Scene :=
  Lod.frame 60 60 (Lod.event (Lod.Wheel 100) (Lod.initialScene (0, 0, 5))).

(** *** The session notification as a run sees it *)

Section Latch.
Context {State Event : Type}.
Variable step : State -> Event -> State.

(** The positions, counted from [i], of the steps of a run that satisfy [p]. *)
Fixpoint positions (p : State -> Event -> bool) (i : nat) (st : State)
  (es : list Event) : list nat :=
  match es with
  | [] => []
  | e :: es' =>
    (if p st e then [i] else []) ++ positions p (S i) (step st e) es'
  end.
End Latch.

(** Observables of the sphere positioning system. *)
Definition spsSessionTimer (t : Sps.Timer) : bool :=
  match t with Sps.HideNotification delay => (delay =? 3000)%Z end.

Definition spsPending (st : Sps.State) : nat :=
  List.length (filter spsSessionTimer (Sps.timers st)).

(** The step schedules a session notification. *)
Definition spsShows (st : Sps.State) (e : Sps.Event) : bool :=
  (spsPending st <? spsPending (Sps.step st e))%nat.

(** The step is a wheel event that brings the display to 60 degrees or more. *)
Definition spsCrosses (st : Sps.State) (e : Sps.Event) : bool :=
  match e with
  | Sps.Wheel deltaY => Js.ge (Sps.rotationDegrees (Sps.handleWheel deltaY st)) 60
  | _ => false
  end.

Definition spsInv (st : Sps.State) : Prop :=
  Sps.notificationShown st = false -> Sps.sidebarOpen st = false.

(** A step that neither touches the latch, nor opens the sidebar, nor
    schedules a session notification. *)
Definition spsQuiet (st st' : Sps.State) : Prop :=
  Sps.notificationShown st' = Sps.notificationShown st
  /\ (Sps.sidebarOpen st' = Sps.sidebarOpen st \/ Sps.sidebarOpen st' = false)
  /\ (spsPending st' <= spsPending st)%nat.

(** The same observables of the LOD scene. *)
Definition lodSessionTimer (t : Lod.Timer) : bool :=
  match t with
  | Lod.HideNotification delay => (delay =? 3000)%Z
  | Lod.ZoomIn _ _ _ => false
  end.

Definition lodPending (st : Lod.State) : nat :=
  List.length (filter lodSessionTimer (Lod.timers st)).

(** The step schedules a session notification. *)
Definition lodShows (st : Lod.State) (e : Lod.Event) : bool :=
  (lodPending st <? lodPending (Lod.step st e))%nat.

(** The step is a wheel event that brings the display to 60 degrees or more. *)
Definition lodCrosses (st : Lod.State) (e : Lod.Event) : bool :=
  match e with
  | Lod.Wheel deltaY => Js.ge (Lod.rotationDegrees (Lod.handleWheel deltaY st)) 60
  | _ => false
  end.

Definition lodInv (st : Lod.State) : Prop :=
  Lod.notificationShown st = false -> Lod.sidebarOpen st = false.

(** A step that neither touches the latch, nor opens the sidebar, nor
    schedules a session notification. *)
Definition lodQuiet (st st' : Lod.State) : Prop :=
  Lod.notificationShown st' = Lod.notificationShown st
  /\ (Lod.sidebarOpen st' = Lod.sidebarOpen st \/ Lod.sidebarOpen st' = false)
  /\ (lodPending st' <= lodPending st)%nat.

(** The same observables of the menu page. *)
Definition menuSessionTimer (t : MenuHome.Timer) : bool :=
  match t with MenuHome.HideNotification delay => (delay =? 3000)%Z end.

Definition menuPending (st : MenuHome.State) : nat :=
  List.length (filter menuSessionTimer (MenuHome.timers st)).

(** The step schedules a session notification. *)
Definition menuShows (st : MenuHome.State) (e : MenuHome.Event) : bool :=
  (menuPending st <? menuPending (MenuHome.step st e))%nat.

(** The step is a wheel event that brings the display to 60 degrees or more. *)
Definition menuCrosses (st : MenuHome.State) (e : MenuHome.Event) : bool :=
  match e with
  | MenuHome.Wheel deltaY => Js.ge (MenuHome.degreesOf
             (MenuHome.accumulatedRotation (MenuHome.handleWheel deltaY st))) 60
  | _ => false
  end.

Definition menuInv (st : MenuHome.State) : Prop :=
  MenuHome.notificationShown st = false -> MenuHome.sidebarOpen st = false.

(** A step that neither touches the latch, nor opens the sidebar, nor
    schedules a session notification. *)
Definition menuQuiet (st st' : MenuHome.State) : Prop :=
  MenuHome.notificationShown st' = MenuHome.notificationShown st
  /\ (MenuHome.sidebarOpen st' = MenuHome.sidebarOpen st \/ MenuHome.sidebarOpen st' = false)
  /\ (menuPending st' <= menuPending st)%nat.

(** *** The camera director as a run sees it *)

(** The four pieces of state that make up the camera mode of the
    specification. *)
Definition directorState (st : Lod.State)
  : Lod.CameraMode * option Z * option Z * Lod.TransitionPhase :=
  (Lod.cameraMode st, Lod.focusedSphere st, Lod.pendingTarget st,
   Lod.transitionPhase st).

Definition isZoomIn (t : Lod.Timer) : bool :=
  match t with Lod.ZoomIn _ _ _ => true | Lod.HideNotification _ => false end.

(** The pending zoom-in callbacks. *)
Definition zoomIns (st : Lod.State) : list Lod.Timer :=
  filter isZoomIn (Lod.timers st).




(** Events by who causes them: the user's camera commands, the completion
    callback of the camera, a timer running out, and everything else. *)
Definition userCamera (e : Lod.Event) : bool :=
  match e with Lod.ZoomToSphere _ | Lod.ResetCamera => true | _ => false end.

Definition isCompletion (e : Lod.Event) : bool :=
  match e with Lod.AnimationComplete => true | _ => false end.

Definition isTimer (e : Lod.Event) : bool :=
  match e with Lod.TimerFires _ => true | _ => false end.

Definition ambient (e : Lod.Event) : bool :=
  negb (userCamera e) && negb (isCompletion e) && negb (isTimer e).



(** Up to 60 degrees, the sidebar closed by the user (the display falls back
    below the threshold as the accumulator restarts), and up to 60 degrees
    again. *)
Definition crossTwice : list Sps.Event :=
  repeat (Sps.Wheel 100) 50 ++ [Sps.CloseSidebar] ++ repeat (Sps.Wheel 100) 50.

(** *** Ranges of the stage outputs *)

(** Display degrees, model scale and title opacity within their bands, and
    the depth of the overview pose that follows from the scale. *)
Definition stageRanges (degrees scale opacity : R) : Prop :=
  0 <= degrees < 360
  /\ 1.5 <= scale <= 2.8
  /\ 0 <= opacity <= 1
  /\ 6.05 <= 8 - (scale - 1.5) * 1.5 <= 8.

(** *** Forward and backward scrolling *)

(** Two states of the sphere positioning system that differ by the sign of
    the rotation only. *)
Definition spsMirrored (a b : Sps.State) : Prop :=
  Sps.accumulatedDegrees b = - Sps.accumulatedDegrees a
  /\ Sps.targetRotation b = - Sps.targetRotation a
  /\ Sps.rotationDegrees b = Sps.rotationDegrees a
  /\ Sps.modelScale b = Sps.modelScale a
  /\ Sps.titleOpacity b = Sps.titleOpacity a
  /\ Sps.sidebarOpen b = Sps.sidebarOpen a
  /\ Sps.notificationShown b = Sps.notificationShown a.

(** Two states of the LOD scene that differ by the sign of
    the rotation only. *)
Definition lodMirrored (a b : Lod.State) : Prop :=
  Lod.accumulatedDegrees b = - Lod.accumulatedDegrees a
  /\ Lod.targetRotation b = - Lod.targetRotation a
  /\ Lod.rotationDegrees b = Lod.rotationDegrees a
  /\ Lod.modelScale b = Lod.modelScale a
  /\ Lod.sidebarOpen b = Lod.sidebarOpen a
  /\ Lod.notificationShown b = Lod.notificationShown a.

(** *** Edits of one anchor *)

(** [{ ...sphere, [axis]: value }] and [{ ...sphere, visible: !sphere.visible }]
    as the two variants write them. *)
Definition withAxis (axis : Sps.Axis) (value : R) (s : SpherePosition)
  : SpherePosition :=
  match axis with
  | Sps.axisX => Sphere.mk (Sphere.id s) value (Sphere.y s) (Sphere.z s)
                   (Sphere.visible s) (Sphere.color s) (Sphere.name s)
  | Sps.axisY => Sphere.mk (Sphere.id s) (Sphere.x s) value (Sphere.z s)
                   (Sphere.visible s) (Sphere.color s) (Sphere.name s)
  | Sps.axisZ => Sphere.mk (Sphere.id s) (Sphere.x s) (Sphere.y s) value
                   (Sphere.visible s) (Sphere.color s) (Sphere.name s)
  end.

Definition fromLodAxis (axis : Lod.Axis) : Sps.Axis :=
  match axis with
  | Lod.axisX => Sps.axisX
  | Lod.axisY => Sps.axisY
  | Lod.axisZ => Sps.axisZ
  end.

Definition toggled (s : SpherePosition) : SpherePosition :=
  Sphere.mk (Sphere.id s) (Sphere.x s) (Sphere.y s) (Sphere.z s)
    (negb (Sphere.visible s)) (Sphere.color s) (Sphere.name s).

(** The sphere [resetSpherePosition] writes for a match when [n] draws were
    made before it: part_003 draws in a 12 x 6 x 12 box, part_002 in a
    16 x 8 x 16 box. *)
Definition spsRedrawn (random : Random) (n : nat) (s : SpherePosition)
  : SpherePosition :=
  Sphere.mk (Sphere.id s) ((random n - 0.5) * 12) (random (S n) * 6 - 1)
    ((random (S (S n)) - 0.5) * 12) (Sphere.visible s) (Sphere.color s)
    (Sphere.name s).

Definition lodRedrawn (random : Random) (n : nat) (s : SpherePosition)
  : SpherePosition :=
  Sphere.mk (Sphere.id s) ((random n - 0.5) * 16) (random (S n) * 8 - 2)
    ((random (S (S n)) - 0.5) * 16) (Sphere.visible s) (Sphere.color s)
    (Sphere.name s).

(** *** The camera director along a whole session *)

Definition registered (a : Z) : Prop := In a (map Sphere.id initialSpheres).

(** A pending zoom-in callback finds its anchor in the registry it captured. *)
Definition zoomInFinds (t : Lod.Timer) : Prop :=
  match t with
  | Lod.ZoomIn p sp _ => In p (map Sphere.id sp) /\ registered p
  | Lod.HideNotification _ => True
  end.

Definition directorInv (st : Lod.State) : Prop :=
  map Sphere.id (Lod.spheres st) = map Sphere.id initialSpheres
  /\ match Lod.focusedSphere st with
     | Some a => Lod.cameraMode st = Lod.focused /\ registered a
     | None => Lod.cameraMode st <> Lod.focused
     end
  /\ Lod.transitionPhase st <> Lod.zoom_in
  /\ (Lod.cameraMode st = Lod.transitioning ->
      Lod.transitionPhase st = Lod.zoom_out /\ Lod.pendingTarget st <> None)
  /\ (forall a, Lod.pendingTarget st = Some a -> registered a)
  /\ Forall zoomInFinds (zoomIns st).

(** *** Geometry of the focus pose *)

(** The square of the distance of a point from the vertical axis, and of an
    anchor in model coordinates. *)
Definition axisDistance2 (v : Vec3) : R := Js.pow2 (c0 v) + Js.pow2 (c2 v).

Definition anchorRadius (s : SpherePosition) : R :=
  sqrt (Js.pow2 (Sphere.x s) + Js.pow2 (Sphere.z s)).

(** *** Frames of the positioning scene *)

(** [n] rendered frames with no event in between. *)
Definition spsFrames (n : nat) (sc : Sps.Scene) : Sps.Scene :=
  Nat.iter n Sps.frame sc.

(** The point an animation proceeds from: the interpolated position when one
    is under way, the camera's own position when one is about to start. *)
Definition spsStart (sc : Sps.Scene) : Vec3 :=
  if Sps.Cam.isAnimating (Sps.cam sc) then Sps.Cam.currentPosition (Sps.cam sc)
  else Sps.Cam.position (Sps.cam sc).

(** The overview pose the idle camera drifts to. *)
Definition spsOverview (sc : Sps.Scene) : Vec3 :=
  (0, 3, 8 - (Sps.modelScale (Sps.app sc) - 1.5) * 1.5).

(** No animation requested and none under way. *)
Definition spsIdle (sc : Sps.Scene) : Prop :=
  Target.animating (Sps.cameraTarget (Sps.app sc)) = false
  /\ Sps.Cam.isAnimating (Sps.cam sc) = false.

(** *** Frames of the level-of-detail scene *)

(** [n] rendered frames with no event in between; [fps i] holds the readings
    of the two performance monitors (camera, model) in frame [i]. *)
Fixpoint lodFrames (fps : nat -> Z * Z) (n : nat) (sc : Lod.Scene) : Lod.Scene :=
  match n with
  | O => sc
  | S n' =>
    lodFrames (fun i => fps (S i)) n' (Lod.frame (fst (fps O)) (snd (fps O)) sc)
  end.

(** Position and look-at point an animation proceeds from: the interpolated
    ones when one is under way; the camera's own position, and the point one
    unit in front of it, when one is about to start. *)
Definition lodStart (sc : Lod.Scene) : Vec3 * Vec3 :=
  let c := Lod.cam sc in
  if Lod.Cam.isAnimating c then (Lod.Cam.currentPosition c, Lod.Cam.currentLookAt c)
  else (Lod.Cam.position c,
        (c0 (Lod.Cam.position c), c1 (Lod.Cam.position c),
         c2 (Lod.Cam.position c) - 1)).

(** The interpolation factor of [animationQuality], and whether the frame
    counter lets the frame through. *)
Definition lerpFactorOf (fps : Z) : R :=
  if (fps <? 30)%Z then 0.15 else if (fps <? 45)%Z then 0.12 else 0.1.

Definition processed (fps : Z) (sc : Lod.Scene) : bool :=
  (Z.rem (Lod.Cam.frameCounter (Lod.cam sc) + 1) (if (fps <? 30)%Z then 2 else 1)
   =? 0)%Z.

(** The animation requested in [sc] completes in frame [k + 1]: until then the
    page is as it was; in that frame the target is marked not animating, the
    camera is within 0.05 of the target position and looks within 0.05 of the
    target's look-at point, and it is locked exactly when an anchor is
    focused. *)
Definition lodCompletedAt (fps : nat -> Z * Z) (sc : Lod.Scene) (k : nat) : Prop :=
  let tgt := Lod.cameraTarget (Lod.app sc) in
  let sc' := lodFrames fps (S k) sc in
  Lod.app (lodFrames fps k sc) = Lod.app sc
  /\ Lod.cameraTarget (Lod.app sc')
     = {| Target.position := Target.position tgt;
          Target.lookAt := Target.lookAt tgt;
          Target.animating := false |}
  /\ distance (Target.position tgt) (Lod.Cam.position (Lod.cam sc')) < 0.05
  /\ distance (Target.lookAt tgt) (Lod.Cam.lookedAt (Lod.cam sc')) < 0.05
  /\ Lod.Cam.isAnimating (Lod.cam sc') = false
  /\ Lod.Cam.isLocked (Lod.cam sc') = Js.notNull (Lod.focusedSphere (Lod.app sc)).

(** The camera holds anchor [id]: nothing is animating, the anchor is focused
    and found in the registry as [s], and the camera is locked. *)
Definition lodHolding (id : Z) (s : SpherePosition) (sc : Lod.Scene) : Prop :=
  Target.animating (Lod.cameraTarget (Lod.app sc)) = false
  /\ Lod.focusedSphere (Lod.app sc) = Some id
  /\ id <> 0%Z
  /\ Lod.cameraMode (Lod.app sc) <> Lod.transitioning
  /\ findSphere id (Lod.spheres (Lod.app sc)) = Some s
  /\ Lod.Cam.isAnimating (Lod.cam sc) = false
  /\ Lod.Cam.isLocked (Lod.cam sc) = true.

(** The page after a click on the carpet anchor and the completion of the
    camera animation, with the camera locked. *)
Definition holdingCarpet : Lod.Scene :=
  Lod.mkScene
    (Lod.run Lod.initialState [Lod.ZoomToSphere 4; Lod.AnimationComplete])
    (Lod.Cam.mk (0, 3, 8) (0, 0, 0) false true 0 (0, 3, 8) (0, 0, 0))
    (Lod.Model.mk 0 0).

(** *** The rotation the model is displayed with *)

(** How far a model is from rest at the target rotation: the larger of the
    distance of the displayed rotation from the target and twice the speed. *)
Definition unrest (targetRotation currentRotation velocity : R) : R :=
  Rmax (Rabs (targetRotation - currentRotation)) (2 * Rabs velocity).

(** [n] frames of the level-of-detail model with a fixed target; [fps i] is
    the reading of the model's performance monitor in frame [i]. *)
Fixpoint lodModelFrames (fps : nat -> Z) (targetRotation : R) (n : nat)
  (m : Lod.Model.t) : Lod.Model.t :=
  match n with
  | O => m
  | S n' =>
    lodModelFrames (fun i => fps (S i)) targetRotation n'
      (Lod.LODTinyHouseModel (fps O) targetRotation m)
  end.

(** *** Level of detail by distance *)

(** The order low < medium < high, as a number. *)
Definition detailRank (l : Lod.LODLevel) : Z :=
  match l with Lod.low => 0 | Lod.medium => 1 | Lod.high => 2 end.

(** The anchor with id [sphereId] is not the one singled out as focused. *)
Definition notFocused (focusedSphere : option Z) (sphereId : Z) : Prop :=
  Js.truthy sphereId && Js.eqOpt focusedSphere sphereId = false.

(** [b] implies [b'], for flags. *)
Definition flagLe (b b' : bool) : Prop := b = true -> b' = true.

(** *** Quality of a rendered sphere *)

(** Numerator of the quality factor over 4: [performanceAdjustment] is 2/4,
    3/4 or 4/4. *)
Definition quarters (fps : Z) : Z :=
  if (fps <? 30)%Z then 2 else if (fps <? 45)%Z then 3 else 4.

(** The segment counts [useDistanceLOD] can return. *)
Definition segmentCounts : list Z := [6; 8; 12; 16; 32]%Z.

(** *** The spheres on the canvas *)


(** *** The scroll-driven pages *)

(** [scrollPercent] as [handleScroll] computes it, and the degrees the first
    page derives from it. *)
Definition scrollPercentOf (w : Window.t) : R :=
  Window.pageYOffset w / (Window.scrollHeight w - Window.innerHeight w) * 100.

Definition scrollDegreesOf (w : Window.t) : R :=
  Rmin (scrollPercentOf w / 25) 1 * (PI / 2) * 180 / PI.

(** A window that can be scrolled, at a position the browser allows. *)
Definition scrollable (w : Window.t) : Prop :=
  Window.innerHeight w < Window.scrollHeight w
  /\ 0 <= Window.pageYOffset w <= Window.scrollHeight w - Window.innerHeight w.



(** *** Stage labels *)

(** The three outputs of the stage classifier at [deg] degrees. *)
Definition stageAt (deg scale opacity : R) : Prop :=
  scale = (if Js.lt deg 30 then 1.5
           else if Js.lt deg 60 then 1.5 + (deg - 30) / 30 * 1.3 else 2.8)
  /\ opacity = (if Js.lt deg 30 then Rmax (1 - deg / 30) 0 else 0).

(** What the positioning scene keeps true of its state: the degrees on
    display are the magnitude of the target rotation modulo a full turn, and
    scale and title opacity are the classifier's outputs at them. *)
Definition spsStaged (st : Sps.State) : Prop :=
  Sps.rotationDegrees st = Js.rem (Rabs (Sps.targetRotation st * 180 / PI)) 360
  /\ stageAt (Sps.rotationDegrees st) (Sps.modelScale st) (Sps.titleOpacity st).

Definition menuStaged (st : MenuHome.State) : Prop :=
  stageAt (MenuHome.degreesOf (MenuHome.targetRotation st))
    (MenuHome.modelScale st) (MenuHome.titleOpacity st).

(** *** Frames at a steady rate *)

(** The monitor after [n] frames that follow one another every [dt]
    milliseconds, the first one [dt] after [t0]. *)
Fixpoint monitorFrames (t0 dt : R) (n : nat) (m : Lod.Monitor.t) : Lod.Monitor.t :=
  match n with
  | O => m
  | S n' =>
    Lod.usePerformanceMonitor (t0 + INR n * dt) (monitorFrames t0 dt n' m)
  end.

(** * Properties *)

(** ** Facts about the primitives *)

Lemma lt_true (a b : R) : Js.lt a b = true <-> a < b.
Proof.
  unfold Js.lt. destruct (Rlt_dec a b); split; intros; trivial;
    try discriminate; contradiction.
Qed.

Lemma lt_false (a b : R) : Js.lt a b = false <-> b <= a.
Proof.
  unfold Js.lt. destruct (Rlt_dec a b); split; intros; trivial;
    try discriminate; lra.
Qed.

Lemma ge_true (a b : R) : Js.ge a b = true <-> b <= a.
Proof.
  unfold Js.ge. destruct (Rle_dec b a); split; intros; trivial;
    try discriminate; contradiction.
Qed.

Lemma ge_false (a b : R) : Js.ge a b = false <-> a < b.
Proof.
  unfold Js.ge. destruct (Rle_dec b a); split; intros; trivial;
    try discriminate; lra.
Qed.

Lemma gt_true (a b : R) : Js.gt a b = true <-> b < a.
Proof. unfold Js.gt. apply lt_true. Qed.

Lemma gt_false (a b : R) : Js.gt a b = false <-> a <= b.
Proof. unfold Js.gt. apply lt_false. Qed.

(** Below the modulus, [%] returns its left operand. *)
Lemma rem_small (a b : R) : 0 <= a < b -> Js.rem a b = a.
Proof.
  intros [Ha Hb]. unfold Js.rem, Js.trunc.
  assert (Hq : 0 <= a / b < 1).
  { split.
    - apply Rmult_le_pos; [ lra | left; apply Rinv_0_lt_compat; lra ].
    - apply (Rmult_lt_reg_r b); [ lra | ].
      unfold Rdiv. rewrite Rmult_assoc, Rinv_l by lra. lra. }
  destruct (Rle_dec 0 (a / b)) as [_ | n]; [ | lra ].
  rewrite <- (Int_part_spec (a / b) 0%Z); simpl; lra.
Qed.

(** [%] by a positive modulus maps non-negative numbers into [0, b). *)
Lemma rem_range (a b : R) : 0 <= a -> 0 < b -> 0 <= Js.rem a b < b.
Proof.
  intros Ha Hb. unfold Js.rem, Js.trunc.
  assert (Hq : 0 <= a / b).
  { apply Rmult_le_pos; [ lra | left; apply Rinv_0_lt_compat; lra ]. }
  destruct (Rle_dec 0 (a / b)) as [_ | n]; [ | lra ].
  destruct (base_Int_part (a / b)) as [H1 H2].
  assert (Hab : a = b * (a / b)) by (field; lra).
  set (k := IZR (Int_part (a / b))) in *.
  split.
  - assert (b * k <= b * (a / b)) by (apply Rmult_le_compat_l; lra). lra.
  - assert (b * (a / b - k) < b * 1) by (apply Rmult_lt_compat_l; lra). lra.
Qed.

(** ** The wheel handlers, field by field *)

(** Unfold a handler, split on every condition it tests and compare the
    resulting records. *)
Ltac split_leaf c :=
  lazymatch c with
  | andb ?a _ => split_leaf a
  | orb ?a _ => split_leaf a
  | negb ?a => split_leaf a
  | _ => destruct c eqn:?
  end.

Ltac by_cases h :=
  unfold h;
  repeat (match goal with
          | |- context [if ?c then _ else _] => split_leaf c
          end; cbn [andb orb negb]);
  rewrite ?orb_false_r, ?orb_true_r, ?andb_false_r, ?andb_true_r;
  first [ reflexivity | assumption | symmetry; assumption | discriminate
        | congruence ].

Section SpsWheel.
Variables (deltaY : R) (st : Sps.State).
Let st' := Sps.handleWheel deltaY st.
Let deg := Js.rem (Rabs (Sps.accumulatedDegrees st + wheelStep deltaY)) 360.

Lemma sps_wheel_accumulated :
  Sps.accumulatedDegrees st' = Sps.accumulatedDegrees st + wheelStep deltaY.
Proof. subst st'. unfold wheelStep. by_cases Sps.handleWheel. Qed.

Lemma sps_wheel_degrees : Sps.rotationDegrees st' = deg.
Proof. subst st' deg. unfold wheelStep. by_cases Sps.handleWheel. Qed.

Lemma sps_wheel_target :
  Sps.targetRotation st' = (Sps.accumulatedDegrees st + wheelStep deltaY) * PI / 180.
Proof. subst st'. unfold wheelStep. by_cases Sps.handleWheel. Qed.

Lemma sps_wheel_scale :
  Sps.modelScale st' =
  if Js.lt deg 30 then 1.5
  else if Js.lt deg 60 then 1.5 + (deg - 30) / 30 * 1.3 else 2.8.
Proof. subst st' deg. unfold wheelStep. by_cases Sps.handleWheel. Qed.

Lemma sps_wheel_title :
  Sps.titleOpacity st' = if Js.lt deg 30 then Rmax (1 - deg / 30) 0 else 0.
Proof. subst st' deg. unfold wheelStep. by_cases Sps.handleWheel. Qed.

Lemma sps_wheel_sidebar :
  Sps.sidebarOpen st' = Sps.sidebarOpen st || Js.ge deg 60.
Proof. subst st' deg. unfold wheelStep. by_cases Sps.handleWheel. Qed.

Lemma sps_wheel_shown :
  Sps.notificationShown st' =
  Sps.notificationShown st || (Js.ge deg 60 && negb (Sps.sidebarOpen st)).
Proof. subst st' deg. unfold wheelStep. by_cases Sps.handleWheel. Qed.

Lemma sps_wheel_show :
  Sps.showNotification st' =
  Sps.showNotification st
  || (Js.ge deg 60 && negb (Sps.sidebarOpen st) && negb (Sps.notificationShown st)).
Proof. subst st' deg. unfold wheelStep. by_cases Sps.handleWheel. Qed.

Lemma sps_wheel_timers :
  Sps.timers st' =
  if Js.ge deg 60 && negb (Sps.sidebarOpen st) && negb (Sps.notificationShown st)
  then Sps.timers st ++ [Sps.HideNotification 3000] else Sps.timers st.
Proof. subst st' deg. unfold wheelStep. by_cases Sps.handleWheel. Qed.
End SpsWheel.

Section LodWheel.
Variables (deltaY : R) (st : Lod.State).
Let st' := Lod.handleWheel deltaY st.
Let deg := Js.rem (Rabs (Lod.accumulatedDegrees st + wheelStep deltaY)) 360.

Lemma lod_wheel_accumulated :
  Lod.accumulatedDegrees st' = Lod.accumulatedDegrees st + wheelStep deltaY.
Proof. subst st'. unfold wheelStep. by_cases Lod.handleWheel. Qed.

Lemma lod_wheel_degrees : Lod.rotationDegrees st' = deg.
Proof. subst st' deg. unfold wheelStep. by_cases Lod.handleWheel. Qed.

Lemma lod_wheel_target :
  Lod.targetRotation st' = (Lod.accumulatedDegrees st + wheelStep deltaY) * PI / 180.
Proof. subst st'. unfold wheelStep. by_cases Lod.handleWheel. Qed.

Lemma lod_wheel_scale :
  Lod.modelScale st' =
  if Js.lt deg 30 then 1.5
  else if Js.lt deg 60 then 1.5 + (deg - 30) / 30 * 1.3 else 2.8.
Proof. subst st' deg. unfold wheelStep. by_cases Lod.handleWheel. Qed.

Lemma lod_wheel_sidebar :
  Lod.sidebarOpen st' = Lod.sidebarOpen st || Js.ge deg 60.
Proof. subst st' deg. unfold wheelStep. by_cases Lod.handleWheel. Qed.

Lemma lod_wheel_shown :
  Lod.notificationShown st' =
  Lod.notificationShown st || (Js.ge deg 60 && negb (Lod.sidebarOpen st)).
Proof. subst st' deg. unfold wheelStep. by_cases Lod.handleWheel. Qed.

Lemma lod_wheel_show :
  Lod.showNotification st' =
  Lod.showNotification st
  || (Js.ge deg 60 && negb (Lod.sidebarOpen st) && negb (Lod.notificationShown st)).
Proof. subst st' deg. unfold wheelStep. by_cases Lod.handleWheel. Qed.

Lemma lod_wheel_timers :
  Lod.timers st' =
  if Js.ge deg 60 && negb (Lod.sidebarOpen st) && negb (Lod.notificationShown st)
  then Lod.timers st ++ [Lod.HideNotification 3000] else Lod.timers st.
Proof. subst st' deg. unfold wheelStep. by_cases Lod.handleWheel. Qed.

Lemma lod_wheel_camera :
  Lod.cameraMode st' = Lod.cameraMode st
  /\ Lod.focusedSphere st' = Lod.focusedSphere st
  /\ Lod.pendingTarget st' = Lod.pendingTarget st
  /\ Lod.transitionPhase st' = Lod.transitionPhase st
  /\ Lod.cameraTarget st' = Lod.cameraTarget st
  /\ Lod.spheres st' = Lod.spheres st.
Proof. subst st'. repeat split; by_cases Lod.handleWheel. Qed.
End LodWheel.

Section MenuWheel.
Variables (deltaY : R) (st : MenuHome.State).
Let st' := MenuHome.handleWheel deltaY st.
Let deg := MenuHome.degreesOf (MenuHome.accumulatedRotation st + deltaY * 0.005).

Lemma menu_wheel_accumulated :
  MenuHome.accumulatedRotation st' = MenuHome.accumulatedRotation st + deltaY * 0.005.
Proof. subst st'. by_cases MenuHome.handleWheel. Qed.

Lemma menu_wheel_scale :
  MenuHome.modelScale st' =
  if Js.lt deg 30 then 1.5
  else if Js.lt deg 60 then 1.5 + (deg - 30) / 30 * 1.3 else 2.8.
Proof. subst st' deg. by_cases MenuHome.handleWheel. Qed.

Lemma menu_wheel_sidebar :
  MenuHome.sidebarOpen st' = MenuHome.sidebarOpen st || Js.ge deg 60.
Proof. subst st' deg. by_cases MenuHome.handleWheel. Qed.

Lemma menu_wheel_shown :
  MenuHome.notificationShown st' =
  MenuHome.notificationShown st || (Js.ge deg 60 && negb (MenuHome.sidebarOpen st)).
Proof. subst st' deg. by_cases MenuHome.handleWheel. Qed.

Lemma menu_wheel_show :
  MenuHome.showNotification st' =
  MenuHome.showNotification st
  || (Js.ge deg 60 && negb (MenuHome.sidebarOpen st)
      && negb (MenuHome.notificationShown st)).
Proof. subst st' deg. by_cases MenuHome.handleWheel. Qed.

Lemma menu_wheel_timers :
  MenuHome.timers st' =
  if Js.ge deg 60 && negb (MenuHome.sidebarOpen st)
     && negb (MenuHome.notificationShown st)
  then MenuHome.timers st ++ [MenuHome.HideNotification 3000]
  else MenuHome.timers st.
Proof. subst st' deg. by_cases MenuHome.handleWheel. Qed.
End MenuWheel.

(** ** Direction of a wheel event *)

Lemma wheelStep_cases (d : R) :
  (0 < d /\ wheelStep d = 1.2) \/ (d <= 0 /\ wheelStep d = -1.2).
Proof.
  unfold wheelStep. destruct (Js.gt d 0) eqn:E.
  - left. apply gt_true in E. split; lra.
  - right. apply gt_false in E. split; lra.
Qed.

(** C10.  In the delta-mode handlers a wheel event with [deltaY = 0] counts
    as backward: it lowers the accumulated rotation by 1.2 degrees, and the
    accumulated rotation grows exactly on events with [deltaY > 0]. *)
Theorem wheel_zero_delta_is_backward :
  (forall st : Sps.State,
      Sps.accumulatedDegrees (Sps.handleWheel 0 st)
      = Sps.accumulatedDegrees st - 1.2)
  /\ (forall st : Lod.State,
      Lod.accumulatedDegrees (Lod.handleWheel 0 st)
      = Lod.accumulatedDegrees st - 1.2)
  /\ (forall (deltaY : R) (st : Sps.State),
      Sps.accumulatedDegrees st < Sps.accumulatedDegrees (Sps.handleWheel deltaY st)
      <-> 0 < deltaY)
  /\ (forall (deltaY : R) (st : Lod.State),
      Lod.accumulatedDegrees st < Lod.accumulatedDegrees (Lod.handleWheel deltaY st)
      <-> 0 < deltaY).
Proof.
  repeat split; intros.
  - rewrite sps_wheel_accumulated.
    destruct (wheelStep_cases 0) as [[? ?]|[? ?]]; lra.
  - rewrite lod_wheel_accumulated.
    destruct (wheelStep_cases 0) as [[? ?]|[? ?]]; lra.
  - rewrite sps_wheel_accumulated in H.
    destruct (wheelStep_cases deltaY) as [[? ?]|[? ?]]; lra.
  - rewrite sps_wheel_accumulated.
    destruct (wheelStep_cases deltaY) as [[? ?]|[? ?]]; lra.
  - rewrite lod_wheel_accumulated in H.
    destruct (wheelStep_cases deltaY) as [[? ?]|[? ?]]; lra.
  - rewrite lod_wheel_accumulated.
    destruct (wheelStep_cases deltaY) as [[? ?]|[? ?]]; lra.
Qed.

(** ** Model scale *)

Lemma scale_law_of_branches (deg : R) :
  scaleLaw deg
    (if Js.lt deg 30 then 1.5
     else if Js.lt deg 60 then 1.5 + (deg - 30) / 30 * 1.3 else 2.8).
Proof.
  unfold scaleLaw.
  destruct (Js.lt deg 30) eqn:E1; [ apply lt_true in E1 | apply lt_false in E1 ];
    (destruct (Js.lt deg 60) eqn:E2; [ apply lt_true in E2 | apply lt_false in E2 ]);
    repeat split; intros; try lra.
Qed.

Lemma scale_samples_of_law (deg scale : R) :
  scaleLaw deg scale -> scaleSamples deg scale.
Proof.
  intros (H1 & H2 & H3). repeat split; intros ->.
  - rewrite H2; lra.
  - rewrite H2; lra.
  - rewrite H3; lra.
Qed.

(** C5.  In each of the three wheel handlers the scale stored is 1.5 when the
    degrees the handler computed are below 30, [1.5 + ((deg - 30) / 30) * 1.3]
    on [30, 60), and 2.8 from 60 on; so it is 1.5 at 30, 2.15 at 45 and 2.8 at
    60. *)
Theorem model_scale_piecewise :
  (forall (deltaY : R) (st : Sps.State),
      let st' := Sps.handleWheel deltaY st in
      scaleLaw (Sps.rotationDegrees st') (Sps.modelScale st')
      /\ scaleSamples (Sps.rotationDegrees st') (Sps.modelScale st'))
  /\ (forall (deltaY : R) (st : Lod.State),
      let st' := Lod.handleWheel deltaY st in
      scaleLaw (Lod.rotationDegrees st') (Lod.modelScale st')
      /\ scaleSamples (Lod.rotationDegrees st') (Lod.modelScale st'))
  /\ (forall (deltaY : R) (st : MenuHome.State),
      let st' := MenuHome.handleWheel deltaY st in
      let rotationDegrees := MenuHome.degreesOf (MenuHome.accumulatedRotation st') in
      scaleLaw rotationDegrees (MenuHome.modelScale st')
      /\ scaleSamples rotationDegrees (MenuHome.modelScale st')).
Proof.
  assert (both : forall deg scale, scaleLaw deg scale ->
                   scaleLaw deg scale /\ scaleSamples deg scale)
    by (intros; split; [ | apply scale_samples_of_law ]; assumption).
  split; [ | split ]; intros; apply both.
  - subst st'. rewrite sps_wheel_scale, sps_wheel_degrees.
    apply scale_law_of_branches.
  - subst st'. rewrite lod_wheel_scale, lod_wheel_degrees.
    apply scale_law_of_branches.
  - subst rotationDegrees st'. rewrite menu_wheel_scale, menu_wheel_accumulated.
    apply scale_law_of_branches.
Qed.

Lemma Rabs_nonneg (a : R) : 0 <= a -> Rabs a = a.
Proof. intros; apply Rabs_pos_eq; assumption. Qed.

(** The sample point 45: one forward event from 43.8 accumulated degrees. *)
Lemma model_scale_piecewise_witness :
  Sps.modelScale
    (Sps.handleWheel 1 (Sps.setAccumulatedDegrees 43.8 Sps.initialState))
  = 2.15.
Proof.
  refine (proj1 (proj2 (proj2 (proj1 model_scale_piecewise 1
            (Sps.setAccumulatedDegrees 43.8 Sps.initialState)))) _).
  rewrite sps_wheel_degrees.
  replace (Sps.accumulatedDegrees _ + wheelStep 1) with 45.
  - rewrite Rabs_nonneg by lra. apply rem_small; lra.
  - destruct (wheelStep_cases 1) as [[? ->]|[? ?]]; [ | lra ].
    cbn [Sps.accumulatedDegrees Sps.setAccumulatedDegrees]. lra.
Defined.

(** ** Runs of forward wheel events *)

Lemma repeat_snoc {A} (a : A) (n : nat) : repeat a (S n) = repeat a n ++ [a].
Proof. cbn [repeat]. apply repeat_cons. Qed.

Lemma sps_step_wheel_below (d : R) (st : Sps.State) :
  Js.rem (Rabs (Sps.accumulatedDegrees st + wheelStep d)) 360 < 60 ->
  Sps.step st (Sps.Wheel d) = Sps.handleWheel d st.
Proof.
  intros H. unfold Sps.step, Sps.rerunWheelEffect. cbn [Sps.handle].
  rewrite sps_wheel_sidebar, sps_wheel_shown.
  apply ge_false in H. rewrite H. cbn [andb].
  rewrite !orb_false_r, !eqb_reflx. reflexivity.
Qed.

Lemma run_snoc_sps (st : Sps.State) (es : list Sps.Event) (e : Sps.Event) :
  Sps.run st (es ++ [e]) = Sps.step (Sps.run st es) e.
Proof. unfold Sps.run. rewrite fold_left_app. reflexivity. Qed.

Lemma sps_forward (d : R) (n : nat) :
  0 < d -> INR n * 1.2 < 60 ->
  let st := Sps.run Sps.initialState (repeat (Sps.Wheel d) n) in
  Sps.accumulatedDegrees st = INR n * 1.2
  /\ Sps.sidebarOpen st = false
  /\ Sps.notificationShown st = false.
Proof.
  intros Hd. induction n as [| n IH]; intros Hn st.
  - subst st. cbn. repeat split; lra.
  - rewrite S_INR in Hn.
    assert (Hpos : 0 <= INR n) by apply pos_INR.
    destruct IH as (Ha & Hs & Hf); [ lra | ].
    subst st. rewrite repeat_snoc, run_snoc_sps.
    set (st := Sps.run Sps.initialState (repeat (Sps.Wheel d) n)) in *.
    assert (Hw : wheelStep d = 1.2)
      by (destruct (wheelStep_cases d) as [[? ?]|[? ?]]; [ assumption | lra ]).
    assert (Hdeg : Js.rem (Rabs (Sps.accumulatedDegrees st + wheelStep d)) 360
                   = (INR n + 1) * 1.2).
    { rewrite Ha, Hw. rewrite Rabs_nonneg by lra. rewrite rem_small; lra. }
    rewrite sps_step_wheel_below by lra.
    rewrite sps_wheel_accumulated, sps_wheel_sidebar, sps_wheel_shown.
    rewrite Hdeg, Ha, Hw, Hs, Hf.
    replace (Js.ge ((INR n + 1) * 1.2) 60) with false
      by (symmetry; apply ge_false; lra).
    rewrite S_INR. cbn [orb andb negb]. repeat split; lra.
Qed.

(** Forty-two forward events from the mounted page. *)
Lemma sps_42 (d : R) : 0 < d ->
  let st := Sps.run Sps.initialState (repeat (Sps.Wheel d) 42) in
  Sps.rotationDegrees st = 50.4
  /\ Sps.getCurrentStage st = "Stage 2: Model Growing"%string
  /\ Sps.modelScale st = 2.384
  /\ Sps.sidebarOpen st = false
  /\ Sps.titleOpacity st = 0.
Proof.
  intros Hd st. subst st.
  change 42%nat with (S 41). rewrite repeat_snoc, run_snoc_sps.
  destruct (sps_forward d 41 Hd) as (Ha & Hs & Hf).
  { rewrite INR_IZR_INZ. simpl. lra. }
  rewrite INR_IZR_INZ in Ha. simpl Z.of_nat in Ha.
  set (st := Sps.run Sps.initialState (repeat (Sps.Wheel d) 41)) in *.
  assert (Hw : wheelStep d = 1.2)
    by (destruct (wheelStep_cases d) as [[? ?]|[? ?]]; [ assumption | lra ]).
  assert (Hdeg : Js.rem (Rabs (Sps.accumulatedDegrees st + wheelStep d)) 360 = 50.4).
  { rewrite Ha, Hw. rewrite Rabs_nonneg by lra. rewrite rem_small; lra. }
  rewrite sps_step_wheel_below by lra.
  assert (H30 : Js.lt 50.4 30 = false) by (apply lt_false; lra).
  assert (H60 : Js.lt 50.4 60 = true) by (apply lt_true; lra).
  assert (G60 : Js.ge 50.4 60 = false) by (apply ge_false; lra).
  unfold Sps.getCurrentStage.
  rewrite sps_wheel_degrees, sps_wheel_scale, sps_wheel_sidebar, sps_wheel_title.
  rewrite Hdeg, H30, H60, G60, Hs. repeat split; try reflexivity. lra.
Qed.

Lemma lod_step_wheel_below (d : R) (st : Lod.State) :
  Js.rem (Rabs (Lod.accumulatedDegrees st + wheelStep d)) 360 < 60 ->
  Lod.step st (Lod.Wheel d) = Lod.handleWheel d st.
Proof.
  intros H. unfold Lod.step, Lod.rerunWheelEffect. cbn [Lod.handle].
  rewrite lod_wheel_sidebar, lod_wheel_shown.
  apply ge_false in H. rewrite H. cbn [andb].
  rewrite !orb_false_r, !eqb_reflx. reflexivity.
Qed.

Lemma run_snoc_lod (st : Lod.State) (es : list Lod.Event) (e : Lod.Event) :
  Lod.run st (es ++ [e]) = Lod.step (Lod.run st es) e.
Proof. unfold Lod.run. rewrite fold_left_app. reflexivity. Qed.

Lemma lod_forward (d : R) (n : nat) :
  0 < d -> INR n * 1.2 < 60 ->
  let st := Lod.run Lod.initialState (repeat (Lod.Wheel d) n) in
  Lod.accumulatedDegrees st = INR n * 1.2
  /\ Lod.sidebarOpen st = false
  /\ Lod.notificationShown st = false.
Proof.
  intros Hd. induction n as [| n IH]; intros Hn st.
  - subst st. cbn. repeat split; lra.
  - rewrite S_INR in Hn.
    assert (Hpos : 0 <= INR n) by apply pos_INR.
    destruct IH as (Ha & Hs & Hf); [ lra | ].
    subst st. rewrite repeat_snoc, run_snoc_lod.
    set (st := Lod.run Lod.initialState (repeat (Lod.Wheel d) n)) in *.
    assert (Hw : wheelStep d = 1.2)
      by (destruct (wheelStep_cases d) as [[? ?]|[? ?]]; [ assumption | lra ]).
    assert (Hdeg : Js.rem (Rabs (Lod.accumulatedDegrees st + wheelStep d)) 360
                   = (INR n + 1) * 1.2).
    { rewrite Ha, Hw. rewrite Rabs_nonneg by lra. rewrite rem_small; lra. }
    rewrite lod_step_wheel_below by lra.
    rewrite lod_wheel_accumulated, lod_wheel_sidebar, lod_wheel_shown.
    rewrite Hdeg, Ha, Hw, Hs, Hf.
    replace (Js.ge ((INR n + 1) * 1.2) 60) with false
      by (symmetry; apply ge_false; lra).
    rewrite S_INR. cbn [orb andb negb]. repeat split; lra.
Qed.

Lemma lod_42 (d : R) : 0 < d ->
  let st := Lod.run Lod.initialState (repeat (Lod.Wheel d) 42) in
  Lod.rotationDegrees st = 50.4
  /\ Lod.modelScale st = 2.384
  /\ Lod.sidebarOpen st = false
  /\ Lod.titleOpacity st = 0.
Proof.
  intros Hd st. subst st.
  change 42%nat with (S 41). rewrite repeat_snoc, run_snoc_lod.
  destruct (lod_forward d 41 Hd) as (Ha & Hs & Hf).
  { rewrite INR_IZR_INZ. simpl. lra. }
  rewrite INR_IZR_INZ in Ha. simpl Z.of_nat in Ha.
  set (st := Lod.run Lod.initialState (repeat (Lod.Wheel d) 41)) in *.
  assert (Hw : wheelStep d = 1.2)
    by (destruct (wheelStep_cases d) as [[? ?]|[? ?]]; [ assumption | lra ]).
  assert (Hdeg : Js.rem (Rabs (Lod.accumulatedDegrees st + wheelStep d)) 360 = 50.4).
  { rewrite Ha, Hw. rewrite Rabs_nonneg by lra. rewrite rem_small; lra. }
  rewrite lod_step_wheel_below by lra.
  assert (H30 : Js.lt 50.4 30 = false) by (apply lt_false; lra).
  assert (H60 : Js.lt 50.4 60 = true) by (apply lt_true; lra).
  assert (G60 : Js.ge 50.4 60 = false) by (apply ge_false; lra).
  assert (G15 : Js.gt 50.4 15 = true) by (apply gt_true; lra).
  unfold Lod.titleOpacity.
  rewrite lod_wheel_degrees, lod_wheel_scale, lod_wheel_sidebar.
  rewrite Hdeg, H30, H60, G60, G15, Hs. repeat split; try reflexivity. lra.
Qed.

(** C3, as the code has it.  Forty-two forward wheel events from the mounted
    page accumulate 50.4 degrees; the stage is "Model Growing", the model
    scale is 2.384, the sidebar is closed and the title opacity is 0. *)
Theorem scenario_fifty_degrees (d : R) :
  0 < d ->
  (let st := Sps.run Sps.initialState (repeat (Sps.Wheel d) 42) in
   Sps.rotationDegrees st = 50.4
   /\ Sps.getCurrentStage st = "Stage 2: Model Growing"%string
   /\ Sps.modelScale st = 2.384
   /\ Sps.sidebarOpen st = false
   /\ Sps.titleOpacity st = 0)
  /\ (let st := Lod.run Lod.initialState (repeat (Lod.Wheel d) 42) in
      Lod.rotationDegrees st = 50.4
      /\ Lod.modelScale st = 2.384
      /\ Lod.sidebarOpen st = false
      /\ Lod.titleOpacity st = 0).
Proof.
  intros Hd. split; [ apply sps_42 | apply lod_42 ]; assumption.
Qed.

Lemma scenario_fifty_degrees_witness :
  0 < 100
  /\ Sps.modelScale (Sps.run Sps.initialState (repeat (Sps.Wheel 100) 42)) = 2.384
  /\ Lod.modelScale (Lod.run Lod.initialState (repeat (Lod.Wheel 100) 42)) = 2.384.
Proof.
  assert (H : 0 < 100) by lra.
  split; [ exact H | ].
  split.
  - exact (proj1 (proj2 (proj2 (proj1 (scenario_fifty_degrees 100 H))))).
  - exact (proj1 (proj2 (proj2 (scenario_fifty_degrees 100 H)))).
Defined.

(** C3, as the specification has it: the scale after the forty-two events is
    not within 0.2 of the 2.17 it names. *)
Lemma scenario_fifty_degrees_scale_not_2_17 :
  ~ (Rabs (Sps.modelScale (Sps.run Sps.initialState (repeat (Sps.Wheel 100) 42))
           - 2.17) <= 0.2)
  /\ ~ (Rabs (Lod.modelScale (Lod.run Lod.initialState (repeat (Lod.Wheel 100) 42))
              - 2.17) <= 0.2).
Proof.
  assert (H : 0 < 100) by lra.
  destruct (sps_42 100 H) as (_ & _ & Hs & _).
  destruct (lod_42 100 H) as (_ & Hl & _).
  rewrite Hs, Hl.
  replace (2.384 - 2.17) with 0.214 by lra.
  rewrite Rabs_nonneg by lra. split; lra.
Qed.

(** ** Focus on an unknown anchor *)

Lemma findSphere_unknown (sphereId : Z) (spheres : list SpherePosition) :
  unknownId sphereId spheres -> findSphere sphereId spheres = None.
Proof.
  intros H. unfold findSphere.
  destruct (find (fun s => (Sphere.id s =? sphereId)%Z) spheres) as [s |] eqn:E;
    [ | reflexivity ].
  apply find_some in E. destruct E as [Hin Heq].
  apply Z.eqb_eq in Heq. exfalso. exact (H s Hin Heq).
Qed.

Lemma sps_rerun_same (st : Sps.State) : Sps.rerunWheelEffect st st = st.
Proof. unfold Sps.rerunWheelEffect. rewrite !eqb_reflx. reflexivity. Qed.

Lemma lod_rerun_same (st : Lod.State) : Lod.rerunWheelEffect st st = st.
Proof. unfold Lod.rerunWheelEffect. rewrite !eqb_reflx. reflexivity. Qed.

(** C7.  [zoomToSphere] with an id that no sphere of the registry carries
    returns the state it was given: camera target, focused sphere, camera
    mode, notification and every other field are unchanged, also after the
    render that follows; the function is total, nothing is thrown. *)
Theorem focus_unknown_anchor_is_noop (sphereId : Z) :
  (forall st : Sps.State,
      unknownId sphereId (Sps.spheres st) ->
      Sps.zoomToSphere sphereId st = st
      /\ Sps.step st (Sps.ZoomToSphere sphereId) = st)
  /\ (forall st : Lod.State,
      unknownId sphereId (Lod.spheres st) ->
      Lod.zoomToSphere sphereId st = st
      /\ Lod.performZoomToSphere sphereId st = st
      /\ Lod.step st (Lod.ZoomToSphere sphereId) = st).
Proof.
  split; intros st H; apply findSphere_unknown in H.
  - assert (E : Sps.zoomToSphere sphereId st = st)
      by (unfold Sps.zoomToSphere; rewrite H; reflexivity).
    split; [ exact E | ].
    unfold Sps.step. cbn [Sps.handle]. rewrite E. apply sps_rerun_same.
  - assert (E : Lod.zoomToSphere sphereId st = st)
      by (unfold Lod.zoomToSphere; rewrite H; reflexivity).
    split; [ exact E | ]. split.
    + unfold Lod.performZoomToSphere; rewrite H; reflexivity.
    + unfold Lod.step. cbn [Lod.handle]. rewrite E. apply lod_rerun_same.
Qed.

Lemma initial_ids (s : SpherePosition) :
  In s initialSpheres -> (1 <= Sphere.id s <= 16)%Z.
Proof.
  unfold initialSpheres. rewrite in_map_iff. intros (i & <- & Hi).
  apply in_seq in Hi. cbn [Sphere.id seedSphere]. lia.
Qed.

Lemma focus_unknown_anchor_is_noop_witness :
  unknownId 99 (Sps.spheres Sps.initialState)
  /\ Sps.zoomToSphere 99 Sps.initialState = Sps.initialState
  /\ unknownId 99 (Lod.spheres Lod.initialState)
  /\ Lod.zoomToSphere 99 Lod.initialState = Lod.initialState.
Proof.
  assert (H : unknownId 99 initialSpheres).
  { intros s Hin. apply initial_ids in Hin. lia. }
  split; [ exact H | ]. split.
  - exact (proj1 (proj1 (focus_unknown_anchor_is_noop 99) Sps.initialState H)).
  - split; [ exact H | ].
    exact (proj1 (proj2 (focus_unknown_anchor_is_noop 99) Lod.initialState H)).
Defined.

(** ** Level of detail of the focused anchor *)

(** C8.  For an anchor (ids are positive) that is the focused one,
    [useDistanceLOD] returns high detail, visible, wireframe and floating on
    and 32 by 32 segments, whatever the positions of anchor and camera; no
    call of the selector returns more than 32 segments. *)
Theorem focused_anchor_gets_full_detail (position camera : Vec3) (sphereId : Z) :
  (0 < sphereId)%Z ->
  Lod.useDistanceLOD position camera (Some sphereId) (Some sphereId)
  = Lod.Detail.mk Lod.high true true true 32 32
  /\ (forall position' camera' focusedSphere' sphereId',
         let lod := Lod.useDistanceLOD position' camera' focusedSphere' sphereId' in
         (Lod.Detail.widthSegments lod <= 32)%Z
         /\ (Lod.Detail.heightSegments lod <= 32)%Z).
Proof.
  intros Hpos. split.
  - unfold Lod.useDistanceLOD, Js.truthy, Js.eqOpt.
    replace (sphereId =? 0)%Z with false by (symmetry; apply Z.eqb_neq; lia).
    rewrite Z.eqb_refl. reflexivity.
  - intros. subst lod. unfold Lod.useDistanceLOD.
    repeat match goal with
           | |- context [if ?c then _ else _] => destruct c
           end; cbn [Lod.Detail.widthSegments Lod.Detail.heightSegments]; lia.
Qed.

Lemma focused_anchor_gets_full_detail_witness :
  (0 < 5)%Z
  /\ Lod.useDistanceLOD (0.42, 2.1, 1.7) (0, 3, 8) (Some 5%Z) (Some 5%Z)
     = Lod.Detail.mk Lod.high true true true 32 32.
Proof.
  assert (H : (0 < 5)%Z) by lia.
  split; [ exact H | ].
  exact (proj1 (focused_anchor_gets_full_detail (0.42, 2.1, 1.7) (0, 3, 8) 5 H)).
Defined.

(** ** Resetting every anchor *)

Lemma sps_randomizeAll_identity (random : Random) (prev : list SpherePosition) :
  forall n, map identity (Sps.randomizeAll random n prev) = map identity prev.
Proof.
  induction prev as [| s rest IH]; intros n; cbn [Sps.randomizeAll map].
  - reflexivity.
  - rewrite IH. reflexivity.
Qed.

Lemma sps_randomizeAll_within (random : Random) (prev : list SpherePosition) :
  unitRandom random ->
  forall n, Forall (within 6 (-1) 5) (Sps.randomizeAll random n prev).
Proof.
  intros Hr. induction prev as [| s rest IH]; intros n; cbn [Sps.randomizeAll].
  - constructor.
  - constructor; [ | apply IH ].
    pose proof (Hr n). pose proof (Hr (S n)). pose proof (Hr (S (S n))).
    unfold within. cbn [Sphere.x Sphere.y Sphere.z]. lra.
Qed.

Lemma sps_randomizeAll_draws (random : Random) (prev : list SpherePosition) :
  forall n,
    map coordinates (Sps.randomizeAll random n prev)
    = map (fun i => ((random (n + 3 * i)%nat - 0.5) * 12,
                     random (n + 3 * i + 1)%nat * 6 - 1,
                     (random (n + 3 * i + 2)%nat - 0.5) * 12))
          (seq 0 (List.length prev)).
Proof.
  induction prev as [| s rest IH]; intros n; cbn [Sps.randomizeAll map List.length seq].
  - reflexivity.
  - rewrite IH, <- seq_shift, map_map. unfold coordinates at 1.
    cbn [Sphere.x Sphere.y Sphere.z].
    replace (n + 3 * 0)%nat with n by lia.
    replace (n + 1)%nat with (S n) by lia.
    replace (n + 2)%nat with (S (S n)) by lia.
    f_equal. apply map_ext. intros i.
    replace (S (S (S n)) + 3 * i)%nat with (n + 3 * S i)%nat by lia.
    reflexivity.
Qed.

Lemma lod_randomizeAll_identity (random : Random) (prev : list SpherePosition) :
  forall n, map identity (Lod.randomizeAll random n prev) = map identity prev.
Proof.
  induction prev as [| s rest IH]; intros n; cbn [Lod.randomizeAll map].
  - reflexivity.
  - rewrite IH. reflexivity.
Qed.

Lemma lod_randomizeAll_within (random : Random) (prev : list SpherePosition) :
  unitRandom random ->
  forall n, Forall (within 8 (-2) 6) (Lod.randomizeAll random n prev).
Proof.
  intros Hr. induction prev as [| s rest IH]; intros n; cbn [Lod.randomizeAll].
  - constructor.
  - constructor; [ | apply IH ].
    pose proof (Hr n). pose proof (Hr (S n)). pose proof (Hr (S (S n))).
    unfold within. cbn [Sphere.x Sphere.y Sphere.z]. lra.
Qed.

Lemma lod_randomizeAll_draws (random : Random) (prev : list SpherePosition) :
  forall n,
    map coordinates (Lod.randomizeAll random n prev)
    = map (fun i => ((random (n + 3 * i)%nat - 0.5) * 16,
                     random (n + 3 * i + 1)%nat * 8 - 2,
                     (random (n + 3 * i + 2)%nat - 0.5) * 16))
          (seq 0 (List.length prev)).
Proof.
  induction prev as [| s rest IH]; intros n; cbn [Lod.randomizeAll map List.length seq].
  - reflexivity.
  - rewrite IH, <- seq_shift, map_map. unfold coordinates at 1.
    cbn [Sphere.x Sphere.y Sphere.z].
    replace (n + 3 * 0)%nat with n by lia.
    replace (n + 1)%nat with (S n) by lia.
    replace (n + 2)%nat with (S (S n)) by lia.
    f_equal. apply map_ext. intros i.
    replace (S (S (S n)) + 3 * i)%nat with (n + 3 * S i)%nat by lia.
    reflexivity.
Qed.

(** C9.  [resetAllSpheres] keeps the id, name and color of every anchor, in
    order, so the sixteen triples of the seeded registry are unchanged; every
    anchor gets three fresh draws as coordinates, x and z within [-6, 6] and y
    within [-1, 5] in the sphere positioning system, x and z within [-8, 8]
    and y within [-2, 6] in the LOD scene. *)
Theorem reset_all_keeps_identity (random : Random) :
  unitRandom random ->
  (forall st : Sps.State,
      let st' := Sps.resetAllSpheres random st in
      map identity (Sps.spheres st') = map identity (Sps.spheres st)
      /\ Forall (within 6 (-1) 5) (Sps.spheres st')
      /\ map coordinates (Sps.spheres st')
         = map (fun i => ((random (3 * i)%nat - 0.5) * 12,
                          random (3 * i + 1)%nat * 6 - 1,
                          (random (3 * i + 2)%nat - 0.5) * 12))
               (seq 0 (List.length (Sps.spheres st))))
  /\ (forall st : Lod.State,
      let st' := Lod.resetAllSpheres random st in
      map identity (Lod.spheres st') = map identity (Lod.spheres st)
      /\ Forall (within 8 (-2) 6) (Lod.spheres st')
      /\ map coordinates (Lod.spheres st')
         = map (fun i => ((random (3 * i)%nat - 0.5) * 16,
                          random (3 * i + 1)%nat * 8 - 2,
                          (random (3 * i + 2)%nat - 0.5) * 16))
               (seq 0 (List.length (Lod.spheres st))))
  /\ List.length (Sps.spheres (Sps.resetAllSpheres random Sps.initialState)) = 16%nat
  /\ List.length (Lod.spheres (Lod.resetAllSpheres random Lod.initialState)) = 16%nat.
Proof.
  intros Hr. split; [ | split; [ | split ] ].
  - intros st st'. subst st'. unfold Sps.resetAllSpheres.
    cbn [Sps.spheres Sps.setSpheres Sps.setSelectedSphere].
    split; [ apply sps_randomizeAll_identity | ].
    split; [ apply sps_randomizeAll_within; assumption | ].
    apply (sps_randomizeAll_draws random (Sps.spheres st) 0).
  - intros st st'. subst st'. unfold Lod.resetAllSpheres.
    cbn [Lod.spheres Lod.setSpheres].
    split; [ apply lod_randomizeAll_identity | ].
    split; [ apply lod_randomizeAll_within; assumption | ].
    apply (lod_randomizeAll_draws random (Lod.spheres st) 0).
  - rewrite <- (length_map identity). unfold Sps.resetAllSpheres.
    cbn [Sps.spheres Sps.setSpheres Sps.setSelectedSphere].
    rewrite sps_randomizeAll_identity, length_map. reflexivity.
  - rewrite <- (length_map identity). unfold Lod.resetAllSpheres.
    cbn [Lod.spheres Lod.setSpheres].
    rewrite lod_randomizeAll_identity, length_map. reflexivity.
Qed.

(** A source that always draws one half puts every anchor at the centre of
    the horizontal range. *)
Lemma reset_all_keeps_identity_witness :
  unitRandom (fun _ => 0.5)
  /\ map identity (Sps.spheres (Sps.resetAllSpheres (fun _ => 0.5) Sps.initialState))
     = map identity initialSpheres
  /\ Forall (within 8 (-2) 6)
       (Lod.spheres (Lod.resetAllSpheres (fun _ => 0.5) Lod.initialState)).
Proof.
  assert (H : unitRandom (fun _ => 0.5)) by (intros n; lra).
  split; [ exact H | ]. split.
  - exact (proj1 (proj1 (reset_all_keeps_identity _ H) Sps.initialState)).
  - exact (proj1 (proj2 (proj1 (proj2 (reset_all_keeps_identity _ H))
                           Lod.initialState))).
Defined.

(** ** Completion of a camera animation *)

Ltac reflect_cmp :=
  repeat match goal with
         | H : Js.lt _ _ = true |- _ => apply lt_true in H
         | H : Js.lt _ _ = false |- _ => apply lt_false in H
         | H : Js.ge _ _ = true |- _ => apply ge_true in H
         | H : Js.ge _ _ = false |- _ => apply ge_false in H
         | H : Js.gt _ _ = true |- _ => apply gt_true in H
         | H : Js.gt _ _ = false |- _ => apply gt_false in H
         end.

Lemma lod_camera_complete (fps : Z) (tgt : CameraTarget) (modelScale : R)
  (focusedSphere : option Z) (spheres : list SpherePosition) (targetRotation : R)
  (cameraMode : Lod.CameraMode) (c : Lod.Cam.t) :
  let r := Lod.LODStaticCameraAnimation fps tgt modelScale focusedSphere spheres
             targetRotation cameraMode c in
  snd r = true <->
  lodAnimatingFrame fps tgt c
  /\ distance (Target.position tgt) (Lod.Cam.currentPosition (fst r)) < 0.05
  /\ distance (Target.lookAt tgt) (Lod.Cam.currentLookAt (fst r)) < 0.05.
Proof.
  intros r. subst r. unfold lodAnimatingFrame, Lod.LODStaticCameraAnimation.
  cbn [Lod.Cam.frameCounter].
  assert (Hq : snd (if (fps <? 30)%Z then (0.15, 2%Z)
                    else if (fps <? 45)%Z then (0.12, 1%Z) else (0.1, 1%Z))
               = if (fps <? 30)%Z then 2%Z else 1%Z)
    by (destruct (fps <? 30)%Z, (fps <? 45)%Z; reflexivity).
  rewrite Hq. clear Hq.
  set (q := fst _).
  set (u := if (fps <? 30)%Z then 2%Z else 1%Z).
  destruct (Z.rem (Lod.Cam.frameCounter c + 1) u =? 0)%Z eqn:Hskip;
    cbn [negb fst snd].
  2:{ apply Z.eqb_neq in Hskip. split; [ discriminate | tauto ]. }
  apply Z.eqb_eq in Hskip.
  destruct (Target.animating tgt) eqn:Ha, (Lod.Cam.isAnimating c) eqn:Hi;
    cbn [andb orb negb Lod.Cam.isAnimating Lod.Cam.currentPosition
         Lod.Cam.currentLookAt Lod.Cam.position Lod.Cam.isLocked].
  all: try (match goal with
            | |- context [Js.lt ?a 0.05 && Js.lt ?b 0.05] =>
              destruct (Js.lt a 0.05) eqn:Hp, (Js.lt b 0.05) eqn:Hl
            end;
            cbn [andb fst snd Lod.Cam.currentPosition Lod.Cam.currentLookAt];
            reflect_cmp;
            (split; [ try discriminate; intros _; tauto
                    | intros (_ & H1 & H2); try reflexivity; lra ])).
  (* neither animating *)
  split.
  - repeat match goal with
           | |- context [if ?b then _ else _] => destruct b
           | |- context [match ?b with _ => _ end] => destruct b
           end; cbn [snd]; discriminate.
  - intros ((_ & [H | H]) & _); discriminate.
Qed.

Lemma sps_camera_complete (tgt : CameraTarget) (modelScale : R) (c : Sps.Cam.t) :
  let r := Sps.AnimatedCamera tgt modelScale c in
  snd r = true <->
  spsAnimatingFrame tgt c
  /\ distance (Target.position tgt) (Sps.Cam.currentPosition (fst r)) < 0.1.
Proof.
  intros r. subst r. unfold spsAnimatingFrame, Sps.AnimatedCamera.
  destruct (Target.animating tgt) eqn:Ha, (Sps.Cam.isAnimating c) eqn:Hi;
    cbn [andb orb negb Sps.Cam.isAnimating Sps.Cam.currentPosition
         Sps.Cam.currentLookAt Sps.Cam.position]; try rewrite Hi.
  all: try (match goal with
            | |- context [if Js.lt ?a 0.1 then _ else _] =>
              destruct (Js.lt a 0.1) eqn:Hp
            end;
            cbn [fst snd Sps.Cam.currentPosition];
            reflect_cmp;
            (split; [ try discriminate; intros _; tauto
                    | intros (_ & H1); try reflexivity; lra ])).
  cbn [negb snd]. split; [ discriminate | intros ([H | H] & _); discriminate ].
Qed.

Lemma distance_zero (a b : Vec3) : sumsq a b = 0 -> distance a b = 0.
Proof. unfold distance, sumsq. intros ->. apply sqrt_0. Qed.

Lemma distance_at_least (a b : Vec3) (e : R) :
  0 <= e -> e * e <= sumsq a b -> e <= distance a b.
Proof.
  intros He H. unfold distance. fold (sumsq a b).
  rewrite <- (sqrt_square e He). apply sqrt_le_1_alt. exact H.
Qed.

Lemma sps_zoom_found (sphereId : Z) (sphere : SpherePosition) (st : Sps.State) :
  findSphere sphereId (Sps.spheres st) = Some sphere ->
  Target.lookAt (Sps.cameraTarget (Sps.zoomToSphere sphereId st))
  = (Sphere.x sphere * cos (Sps.targetRotation st)
     - Sphere.z sphere * sin (Sps.targetRotation st),
     Sphere.y sphere,
     Sphere.x sphere * sin (Sps.targetRotation st)
     + Sphere.z sphere * cos (Sps.targetRotation st))
  /\ Target.animating (Sps.cameraTarget (Sps.zoomToSphere sphereId st)) = true.
Proof. intros H. unfold Sps.zoomToSphere. rewrite H. split; reflexivity. Qed.

Lemma carpet_found : findSphere 4 initialSpheres = Some (seedSphere 3).
Proof. reflexivity. Qed.

(** C4, as the code has it.  [LODStaticCameraAnimation] reports completion
    exactly in an animating frame after whose interpolation step both the
    position and the look-at point are closer than 0.05 to their targets;
    [AnimatedCamera] reports it exactly in an animating frame after whose step
    the position is closer than 0.1 to its target, and does not consult the
    look-at point. *)
Theorem camera_animation_completion :
  (forall (fps : Z) (tgt : CameraTarget) (modelScale : R)
          (focusedSphere : option Z) (spheres : list SpherePosition)
          (targetRotation : R) (cameraMode : Lod.CameraMode) (c : Lod.Cam.t),
      let r := Lod.LODStaticCameraAnimation fps tgt modelScale focusedSphere
                 spheres targetRotation cameraMode c in
      snd r = true <->
      lodAnimatingFrame fps tgt c
      /\ distance (Target.position tgt) (Lod.Cam.currentPosition (fst r)) < 0.05
      /\ distance (Target.lookAt tgt) (Lod.Cam.currentLookAt (fst r)) < 0.05)
  /\ (forall (tgt : CameraTarget) (modelScale : R) (c : Sps.Cam.t),
      let r := Sps.AnimatedCamera tgt modelScale c in
      snd r = true <->
      spsAnimatingFrame tgt c
      /\ distance (Target.position tgt) (Sps.Cam.currentPosition (fst r)) < 0.1).
Proof.
  split; intros.
  - apply lod_camera_complete.
  - apply sps_camera_complete.
Qed.

(** C4, as the specification has it, fails on [AnimatedCamera]: the carpet
    anchor is focused on the mounted page while the camera already stands at
    the pose computed for it.  The first frame restarts the look-at point at
    the origin, finds the position at distance 0 and reports completion with
    the look-at point still more than 0.1 away from its target. *)
Lemma animated_camera_completes_on_position_alone :
  let tgt := Sps.cameraTarget (Sps.zoomToSphere 4 Sps.initialState) in
  let c := Sps.Cam.mk (0, 3, 8) (0, 0, 0) false (Target.position tgt) (0, 0, 0) in
  let r := Sps.AnimatedCamera tgt 1.5 c in
  snd r = true
  /\ ~ (distance (Target.lookAt tgt) (Sps.Cam.currentLookAt (fst r)) < 0.1).
Proof.
  intros tgt c r.
  destruct (sps_zoom_found 4 (seedSphere 3) Sps.initialState carpet_found)
    as [Hl Ha].
  fold tgt in Hl, Ha.
  assert (Hp : distance (Target.position tgt)
                 (lerp3 (Target.position tgt) (Target.position tgt) 0.08) = 0).
  { apply distance_zero. unfold sumsq, lerp3, Js.pow2. cbn [c0 c1 c2 fst snd]. ring. }
  assert (Hr : r = (Sps.Cam.mk
                      (lerp3 (Target.position tgt) (Target.position tgt) 0.08)
                      (lerp3 (0, 0, 0) (Target.lookAt tgt) 0.08) false
                      (lerp3 (Target.position tgt) (Target.position tgt) 0.08)
                      (lerp3 (0, 0, 0) (Target.lookAt tgt) 0.08), true)).
  { subst r. unfold Sps.AnimatedCamera. rewrite Ha. subst c.
    cbn [Sps.Cam.isAnimating Sps.Cam.position Sps.Cam.currentPosition
         Sps.Cam.currentLookAt negb andb orb].
    rewrite Hp. replace (Js.lt 0 0.1) with true by (symmetry; apply lt_true; lra).
    reflexivity. }
  rewrite Hr. cbn [fst snd Sps.Cam.currentLookAt]. split; [ reflexivity | ].
  rewrite Hl. cbn [Sps.targetRotation Sps.initialState].
  rewrite cos_0, sin_0. cbn [Sphere.x Sphere.y Sphere.z seedSphere nth specificCoordinates c0 c1 c2 fst snd].
  apply Rle_not_lt. apply distance_at_least; [ lra | ].
  unfold sumsq, lerp3, Js.pow2. cbn [c0 c1 c2 fst snd]. lra.
Qed.

(** ** World position of an anchor *)

Lemma lod_perform_found (sphereId : Z) (sphere : SpherePosition) (st : Lod.State) :
  findSphere sphereId (Lod.spheres st) = Some sphere ->
  Target.lookAt (Lod.cameraTarget (Lod.performZoomToSphere sphereId st))
  = rotateY sphere (Lod.targetRotation st).
Proof. intros H. unfold Lod.performZoomToSphere. rewrite H. reflexivity. Qed.

Lemma lod_zoomIn_found (pendingTarget : Z) (sphere : SpherePosition)
  (spheres : list SpherePosition) (targetRotation : R) (st : Lod.State) :
  findSphere pendingTarget spheres = Some sphere ->
  Target.lookAt (Lod.cameraTarget (Lod.zoomIn pendingTarget spheres targetRotation st))
  = rotateY sphere targetRotation.
Proof. intros H. unfold Lod.zoomIn. rewrite H. reflexivity. Qed.

Lemma lod_locked_found (fps : Z) (tgt : CameraTarget) (modelScale : R)
  (sphereId : Z) (sphere : SpherePosition) (spheres : list SpherePosition)
  (targetRotation : R) (cameraMode : Lod.CameraMode) (c : Lod.Cam.t) :
  lockedFrame fps tgt sphereId cameraMode c ->
  findSphere sphereId spheres = Some sphere ->
  Lod.Cam.lookedAt
    (fst (Lod.LODStaticCameraAnimation fps tgt modelScale (Some sphereId) spheres
            targetRotation cameraMode c))
  = rotateY sphere targetRotation.
Proof.
  intros (Hf & Ha & Hi & Hl & Hid & Hm) Hs.
  unfold Lod.LODStaticCameraAnimation. cbn [Lod.Cam.frameCounter].
  assert (Hq : snd (if (fps <? 30)%Z then (0.15, 2%Z)
                    else if (fps <? 45)%Z then (0.12, 1%Z) else (0.1, 1%Z))
               = if (fps <? 30)%Z then 2%Z else 1%Z)
    by (destruct (fps <? 30)%Z, (fps <? 45)%Z; reflexivity).
  rewrite Hq, Hf, Ha. cbn [Z.eqb negb andb orb Lod.Cam.isAnimating Lod.Cam.isLocked].
  rewrite Hi, Hl. cbn [andb Js.truthyOpt]. unfold Js.truthy.
  replace (sphereId =? 0)%Z with false by (symmetry; apply Z.eqb_neq; assumption).
  assert (Hn : (0 <? List.length spheres)%nat = true).
  { destruct spheres; [ discriminate Hs | reflexivity ]. }
  rewrite Hn.
  replace (Lod.CameraMode_eqb cameraMode Lod.transitioning) with false
    by (destruct cameraMode; try reflexivity; congruence).
  cbn [negb andb]. rewrite Hs. reflexivity.
Qed.

Lemma sps_zoom_lookAt (sphereId : Z) (sphere : SpherePosition) (st : Sps.State) :
  findSphere sphereId (Sps.spheres st) = Some sphere ->
  Target.lookAt (Sps.cameraTarget (Sps.zoomToSphere sphereId st))
  = rotateY sphere (Sps.targetRotation st).
Proof. intros H. apply (sps_zoom_found sphereId sphere st H). Qed.

(** C1, as the code has it.  Wherever a world position of an anchor is
    computed it is [(x cos t - z sin t, y, x sin t + z cos t)] with [t] the
    [targetRotation] state, the raw target the wheel handler stored: in the
    focus pose of [Sps.zoomToSphere] and of [Lod.performZoomToSphere], in the
    frame of the locked camera, and in the deferred zoom-in, where [t] is the
    [targetRotation] its closure captured. *)
Theorem world_position_uses_target_rotation :
  (forall (sphereId : Z) (sphere : SpherePosition) (st : Sps.State),
      findSphere sphereId (Sps.spheres st) = Some sphere ->
      Target.lookAt (Sps.cameraTarget (Sps.zoomToSphere sphereId st))
      = rotateY sphere (Sps.targetRotation st))
  /\ (forall (sphereId : Z) (sphere : SpherePosition) (st : Lod.State),
      findSphere sphereId (Lod.spheres st) = Some sphere ->
      Target.lookAt (Lod.cameraTarget (Lod.performZoomToSphere sphereId st))
      = rotateY sphere (Lod.targetRotation st))
  /\ (forall (fps : Z) (tgt : CameraTarget) (modelScale : R) (sphereId : Z)
             (sphere : SpherePosition) (spheres : list SpherePosition)
             (targetRotation : R) (cameraMode : Lod.CameraMode) (c : Lod.Cam.t),
      lockedFrame fps tgt sphereId cameraMode c ->
      findSphere sphereId spheres = Some sphere ->
      Lod.Cam.lookedAt
        (fst (Lod.LODStaticCameraAnimation fps tgt modelScale (Some sphereId)
                spheres targetRotation cameraMode c))
      = rotateY sphere targetRotation)
  /\ (forall (pendingTarget : Z) (sphere : SpherePosition)
             (spheres : list SpherePosition) (targetRotation : R) (st : Lod.State),
      findSphere pendingTarget spheres = Some sphere ->
      Target.lookAt
        (Lod.cameraTarget (Lod.zoomIn pendingTarget spheres targetRotation st))
      = rotateY sphere targetRotation).
Proof.
  split; [ exact sps_zoom_lookAt | ].
  split; [ exact lod_perform_found | ].
  split; [ exact lod_locked_found | exact lod_zoomIn_found ].
Qed.

Lemma world_position_uses_target_rotation_witness :
  findSphere 4 (Sps.spheres Sps.initialState) = Some (seedSphere 3)
  /\ Target.lookAt (Sps.cameraTarget (Sps.zoomToSphere 4 Sps.initialState))
     = rotateY (seedSphere 3) 0.
Proof.
  split; [ exact carpet_found | ].
  exact (proj1 world_position_uses_target_rotation 4%Z (seedSphere 3)
           Sps.initialState carpet_found).
Defined.

Lemma lod_rerun_keeps (before after : Lod.State) :
  Lod.cameraTarget (Lod.rerunWheelEffect before after) = Lod.cameraTarget after
  /\ Lod.focusedSphere (Lod.rerunWheelEffect before after) = Lod.focusedSphere after
  /\ Lod.cameraMode (Lod.rerunWheelEffect before after) = Lod.cameraMode after
  /\ Lod.pendingTarget (Lod.rerunWheelEffect before after) = Lod.pendingTarget after
  /\ Lod.transitionPhase (Lod.rerunWheelEffect before after) = Lod.transitionPhase after
  /\ Lod.timers (Lod.rerunWheelEffect before after) = Lod.timers after
  /\ Lod.spheres (Lod.rerunWheelEffect before after) = Lod.spheres after
  /\ Lod.targetRotation (Lod.rerunWheelEffect before after) = Lod.targetRotation after
  /\ Lod.modelScale (Lod.rerunWheelEffect before after) = Lod.modelScale after.
Proof.
  unfold Lod.rerunWheelEffect.
  destruct (eqb _ _ && eqb _ _); repeat split; reflexivity.
Qed.

Lemma scene_before_focus :
  Lod.app sceneBeforeFocus = Lod.handleWheel 100 Lod.initialState
  /\ Lod.Model.currentRotation (Lod.model sceneBeforeFocus) = 0.0817 * (1.2 * PI / 180)
  /\ Lod.targetRotation (Lod.app sceneBeforeFocus) = 1.2 * PI / 180.
Proof.
  assert (Hw : wheelStep 100 = 1.2)
    by (destruct (wheelStep_cases 100) as [[? ?]|[? ?]]; [ assumption | lra ]).
  assert (Hstep : Lod.step Lod.initialState (Lod.Wheel 100)
                  = Lod.handleWheel 100 Lod.initialState).
  { apply lod_step_wheel_below. rewrite Hw.
    cbn [Lod.accumulatedDegrees Lod.initialState].
    rewrite Rabs_nonneg by lra. rewrite rem_small; lra. }
  assert (Ht : Lod.targetRotation (Lod.handleWheel 100 Lod.initialState)
               = 1.2 * PI / 180).
  { rewrite lod_wheel_target, Hw. cbn [Lod.accumulatedDegrees Lod.initialState].
    lra. }
  destruct (lod_wheel_camera 100 Lod.initialState) as (_ & _ & _ & _ & Hc & _).
  unfold sceneBeforeFocus, Lod.frame, Lod.event.
  cbn [Lod.app Lod.cam Lod.model Lod.initialScene Lod.unlockEffect
       Lod.focusedSphere Lod.initialState].
  rewrite Hstep.
  set (st := Lod.handleWheel 100 Lod.initialState) in *.
  set (c := Lod.Cam.mk _ _ _ _ _ _ _).
  pose proof (proj1 (lod_camera_complete 60 (Lod.cameraTarget st)
                       (Lod.modelScale st) (Lod.focusedSphere st) (Lod.spheres st)
                       (Lod.targetRotation st) (Lod.cameraMode st) c)) as H.
  cbv zeta in H.
  destruct (Lod.LODStaticCameraAnimation 60 (Lod.cameraTarget st)
              (Lod.modelScale st) (Lod.focusedSphere st) (Lod.spheres st)
              (Lod.targetRotation st) (Lod.cameraMode st) c)
    as [cam' completed].
  assert (Hdone : completed = false).
  { destruct completed; [ | reflexivity ].
    destruct (H eq_refl) as ((_ & [Ha | Ha]) & _).
    - rewrite Hc in Ha. discriminate Ha.
    - discriminate Ha. }
  rewrite Hdone. cbn [Lod.app Lod.model]. split; [ reflexivity | ].
  split; [ | exact Ht ].
  rewrite Ht. unfold Lod.LODTinyHouseModel, Lod.rotationQuality.
  cbn [Z.ltb Z.compare Pos.compare Pos.compare_cont Lod.Model.currentRotation
       Lod.Model.velocity]. lra.
Qed.

Lemma small_angles :
  0 < 0.0817 * (1.2 * PI / 180) < 1.2 * PI / 180 /\ 1.2 * PI / 180 < PI / 2.
Proof. pose proof PI_RGT_0. repeat split; lra. Qed.

(** Rotating the carpet anchor by the two angles gives different depths. *)
Lemma carpet_depth_differs :
  c2 (rotateY (seedSphere 3) (1.2 * PI / 180))
  < c2 (rotateY (seedSphere 3) (0.0817 * (1.2 * PI / 180))).
Proof.
  destruct small_angles as [[H0 H1] H2]. pose proof PI_RGT_0 as Hpi.
  unfold rotateY. cbn [c2 snd Sphere.x Sphere.z seedSphere nth specificCoordinates c0 fst].
  assert (Hs : sin (0.0817 * (1.2 * PI / 180)) < sin (1.2 * PI / 180))
    by (apply sin_increasing_1; lra).
  assert (Hc : cos (1.2 * PI / 180) < cos (0.0817 * (1.2 * PI / 180)))
    by (apply cos_decreasing_1; lra).
  lra.
Qed.

(** C1, as the specification has it, fails: one wheel notch sets the target
    rotation to 1.2 degrees, the next frame displays the model at 0.0817 times
    that angle, and a click on the carpet anchor then aims the camera at the
    anchor rotated by the target, not by the displayed angle. *)
Lemma focus_pose_ignores_displayed_rotation :
  Target.lookAt
    (Lod.cameraTarget (Lod.app (Lod.event (Lod.ZoomToSphere 4) sceneBeforeFocus)))
  <> rotateY (seedSphere 3) (Lod.Model.currentRotation (Lod.model sceneBeforeFocus)).
Proof.
  destruct scene_before_focus as (Ha & Hm & Ht).
  unfold Lod.event. cbn [Lod.app]. unfold Lod.step. cbn [Lod.handle].
  destruct (lod_rerun_keeps (Lod.app sceneBeforeFocus)
              (Lod.zoomToSphere 4 (Lod.app sceneBeforeFocus))) as (-> & _).
  destruct (lod_wheel_camera 100 Lod.initialState) as (_ & Hf & _ & _ & _ & Hs).
  rewrite <- Ha in Hf, Hs.
  assert (Hfind : findSphere 4 (Lod.spheres (Lod.app sceneBeforeFocus))
                  = Some (seedSphere 3)) by (rewrite Hs; reflexivity).
  assert (Hz : Lod.zoomToSphere 4 (Lod.app sceneBeforeFocus)
               = Lod.performZoomToSphere 4 (Lod.app sceneBeforeFocus)).
  { unfold Lod.zoomToSphere. rewrite Hfind, Hf. reflexivity. }
  rewrite Hz, (lod_perform_found 4 (seedSphere 3) _ Hfind), Ht, Hm.
  intros Heq. apply (f_equal c2) in Heq.
  pose proof carpet_depth_differs. lra.
Qed.

(** ** The notification latch *)

Section LatchFacts.
Context {State Event : Type}.
Variable step : State -> Event -> State.
Variables shows crosses : State -> Event -> bool.
Variable latch : State -> bool.
Variable Inv : State -> Prop.
Hypothesis inv_step : forall st e, Inv st -> Inv (step st e).
Hypothesis latch_step :
  forall st e, Inv st -> latch (step st e) = latch st || crosses st e.
Hypothesis shows_step :
  forall st e, Inv st -> shows st e = negb (latch st) && crosses st e.

Lemma latched_is_silent (es : list Event) :
  forall i st, Inv st -> latch st = true -> positions step shows i st es = [].
Proof.
  induction es as [| e es IH]; intros i st Hi Hl; cbn [positions].
  - reflexivity.
  - rewrite (shows_step st e Hi), Hl. cbn [negb andb app].
    apply IH; [ apply inv_step; assumption | ].
    rewrite latch_step, Hl by assumption. reflexivity.
Qed.

Lemma shown_at_first_crossing (es : list Event) :
  forall i st, Inv st -> latch st = false ->
    positions step shows i st es = firstn 1 (positions step crosses i st es).
Proof.
  induction es as [| e es IH]; intros i st Hi Hl; cbn [positions].
  - reflexivity.
  - rewrite (shows_step st e Hi), Hl. cbn [negb andb].
    destruct (crosses st e) eqn:Hc; cbn [app firstn].
    + rewrite latched_is_silent; [ reflexivity | apply inv_step; assumption | ].
      rewrite latch_step, Hl, Hc by assumption. reflexivity.
    + apply IH; [ apply inv_step; assumption | ].
      rewrite latch_step, Hl, Hc by assumption. reflexivity.
Qed.
End LatchFacts.

Lemma filter_remove_le {A} (p : A -> bool) (n : nat) (l : list A) :
  (List.length (filter p (firstn n l ++ skipn (S n) l)) <= List.length (filter p l))%nat.
Proof.
  revert n. induction l as [| a l IH]; intros [| n].
  - cbn. lia.
  - cbn. lia.
  - change (skipn 1 (a :: l)) with l. cbn [firstn app filter].
    destruct (p a); cbn [List.length]; lia.
  - change (skipn (S (S n)) (a :: l)) with (skipn (S n) l).
    specialize (IH n). cbn [firstn app filter].
    destruct (p a); cbn [List.length]; lia.
Qed.

Lemma sps_rerun_keeps (before after : Sps.State) :
  Sps.notificationShown (Sps.rerunWheelEffect before after) = Sps.notificationShown after
  /\ Sps.sidebarOpen (Sps.rerunWheelEffect before after) = Sps.sidebarOpen after
  /\ Sps.timers (Sps.rerunWheelEffect before after) = Sps.timers after.
Proof.
  unfold Sps.rerunWheelEffect.
  destruct (eqb _ _ && eqb _ _); repeat split; reflexivity.
Qed.

Lemma sps_pending_transient (l : list Sps.Timer) :
  List.length (filter spsSessionTimer (l ++ [Sps.HideNotification 2000]))
  = List.length (filter spsSessionTimer l).
Proof. rewrite filter_app. cbn. rewrite app_nil_r. reflexivity. Qed.

Lemma sps_other_events (e : Sps.Event) (st : Sps.State) :
  match e with
  | Sps.Wheel _ => True
  | _ => spsQuiet st (Sps.handle e st)
  end.
Proof.
  unfold spsQuiet, spsPending.
  destruct e; try exact I; cbn [Sps.handle].
  all: try (split; [ reflexivity
                   | split; [ (left; reflexivity) || (right; reflexivity) | ] ]).
  all: try (cbn; lia).
  - unfold Sps.handleKeyDown.
    destruct (String.eqb key "Escape" && Sps.sidebarOpen st);
      (split; [ reflexivity | split; [ auto | cbn; lia ] ]).
  - unfold Sps.zoomToSphere. destruct (findSphere sphereId (Sps.spheres st));
      (split; [ reflexivity | split; [ left; reflexivity | ] ]); [ | lia ].
    unfold Sps.setTimeout.
    cbn [Sps.timers Sps.setTimers Sps.setShowNotification Sps.setNotificationText
         Sps.setCameraTarget].
    rewrite sps_pending_transient. lia.
  - unfold Sps.resetCamera, Sps.setTimeout.
    cbn [Sps.timers Sps.setTimers Sps.setShowNotification Sps.setNotificationText
         Sps.setCameraTarget].
    rewrite sps_pending_transient. lia.
  - unfold Sps.exportCoordinates, Sps.setTimeout.
    cbn [Sps.timers Sps.setTimers Sps.setShowNotification].
    rewrite sps_pending_transient. lia.
  - unfold Sps.fireTimer. destruct (nth_error (Sps.timers st) n) as [[delay] |];
      (split; [ reflexivity | split; [ left; reflexivity | ] ]); [ | lia ].
    cbn [Sps.timers Sps.setTimers Sps.setShowNotification].
    apply filter_remove_le.
Qed.

Lemma sps_inv_step (st : Sps.State) (e : Sps.Event) :
  spsInv st -> spsInv (Sps.step st e).
Proof.
  unfold spsInv, Sps.step. intros Hi.
  destruct (sps_rerun_keeps st (Sps.handle e st)) as (-> & -> & _).
  pose proof (sps_other_events e st) as Hq.
  destruct e; cbn [Sps.handle] in *.
  1:{ rewrite sps_wheel_shown, sps_wheel_sidebar.
      destruct (Sps.notificationShown st); [ discriminate | ].
      rewrite (Hi eq_refl). cbn [orb andb negb]. rewrite andb_true_r. auto. }
  all: destruct Hq as (Hn & [Hs | Hs] & _); rewrite Hn, Hs; auto.
Qed.

Lemma sps_latch_step (st : Sps.State) (e : Sps.Event) :
  spsInv st ->
  Sps.notificationShown (Sps.step st e)
  = Sps.notificationShown st || spsCrosses st e.
Proof.
  unfold spsInv, Sps.step. intros Hi.
  destruct (sps_rerun_keeps st (Sps.handle e st)) as (-> & _ & _).
  pose proof (sps_other_events e st) as Hq.
  destruct e; cbn [Sps.handle spsCrosses] in *.
  1:{ rewrite sps_wheel_shown, sps_wheel_degrees.
      destruct (Sps.notificationShown st); [ reflexivity | ].
      rewrite (Hi eq_refl). cbn [orb andb negb]. apply andb_true_r. }
  all: destruct Hq as (Hn & _ & _); rewrite Hn, orb_false_r; reflexivity.
Qed.

Lemma sps_shows_step (st : Sps.State) (e : Sps.Event) :
  spsInv st ->
  spsShows st e = negb (Sps.notificationShown st) && spsCrosses st e.
Proof.
  unfold spsInv, spsShows, Sps.step, spsPending. intros Hi.
  destruct (sps_rerun_keeps st (Sps.handle e st)) as (_ & _ & ->).
  pose proof (sps_other_events e st) as Hq.
  destruct e; cbn [Sps.handle spsCrosses] in *.
  1:{ rewrite sps_wheel_timers, sps_wheel_degrees.
      destruct (Sps.notificationShown st) eqn:Hn.
      - rewrite andb_false_r. cbn [negb andb]. apply Nat.ltb_irrefl.
      - rewrite (Hi eq_refl). cbn [negb andb]. rewrite !andb_true_r.
        destruct (Js.ge _ 60).
        + rewrite filter_app, length_app. cbn. apply Nat.ltb_lt. lia.
        + apply Nat.ltb_irrefl. }
  all: destruct Hq as (_ & _ & Hp); unfold spsPending in Hp;
    rewrite andb_false_r; apply Nat.ltb_ge; exact Hp.
Qed.

Lemma sps_latch :
  forall es : list Sps.Event,
    positions Sps.step spsShows 0 Sps.initialState es
    = firstn 1 (positions Sps.step spsCrosses 0 Sps.initialState es).
Proof.
  intros es.
  apply (shown_at_first_crossing Sps.step spsShows spsCrosses
           Sps.notificationShown spsInv sps_inv_step sps_latch_step sps_shows_step).
  - intros _. reflexivity.
  - reflexivity.
Qed.

Lemma lod_rerun_flags (before after : Lod.State) :
  Lod.notificationShown (Lod.rerunWheelEffect before after) = Lod.notificationShown after
  /\ Lod.sidebarOpen (Lod.rerunWheelEffect before after) = Lod.sidebarOpen after
  /\ Lod.timers (Lod.rerunWheelEffect before after) = Lod.timers after.
Proof.
  unfold Lod.rerunWheelEffect.
  destruct (eqb _ _ && eqb _ _); repeat split; reflexivity.
Qed.

Lemma lod_pending_transient (l : list Lod.Timer) :
  List.length (filter lodSessionTimer (l ++ [Lod.HideNotification 2000]))
  = List.length (filter lodSessionTimer l).
Proof. rewrite filter_app. cbn. rewrite app_nil_r. reflexivity. Qed.

Lemma lod_pending_zoom (l : list Lod.Timer) (p : Z) (sp : list SpherePosition)
  (t : R) :
  List.length (filter lodSessionTimer (l ++ [Lod.ZoomIn p sp t]))
  = List.length (filter lodSessionTimer l).
Proof. rewrite filter_app. cbn. rewrite app_nil_r. reflexivity. Qed.

Lemma lod_zoomIn_quiet (p : Z) (sp : list SpherePosition) (t : R) (st : Lod.State) :
  lodQuiet st (Lod.zoomIn p sp t st).
Proof.
  unfold lodQuiet, lodPending, Lod.zoomIn.
  destruct (findSphere p sp);
    (split; [ reflexivity | split; [ left; reflexivity | ] ]); [ | cbn; lia ].
  unfold Lod.setTimeout.
  cbn [Lod.timers Lod.setTimers Lod.setShowNotification Lod.setNotificationText
       Lod.setCameraTarget Lod.setFocusedSphere Lod.setCameraMode
       Lod.setPendingTarget Lod.setTransitionPhase].
  rewrite lod_pending_transient. lia.
Qed.

Lemma lod_other_events (e : Lod.Event) (st : Lod.State) :
  match e with
  | Lod.Wheel _ => True
  | _ => lodQuiet st (Lod.handle e st)
  end.
Proof.
  destruct e; try exact I; cbn [Lod.handle].
  all: unfold lodQuiet, lodPending.
  all: try (split; [ reflexivity
                   | split; [ (left; reflexivity) || (right; reflexivity) | ] ]).
  all: try (cbn; lia).
  - unfold Lod.handleKeyDown.
    destruct (String.eqb key "Escape" && Lod.sidebarOpen st);
      (split; [ reflexivity | split; [ auto | cbn; lia ] ]).
  - unfold Lod.zoomToSphere, Lod.performZoomToSphere.
    destruct (findSphere sphereId (Lod.spheres st)); [ | repeat split; auto ].
    destruct (Js.truthyOpt (Lod.focusedSphere st)
              && negb (Js.eqOpt (Lod.focusedSphere st) sphereId));
      (split; [ reflexivity | split; [ left; reflexivity | ] ]);
      unfold Lod.setTimeout;
      cbn [Lod.timers Lod.setTimers Lod.setShowNotification
           Lod.setNotificationText Lod.setCameraTarget Lod.setFocusedSphere
           Lod.setCameraMode Lod.setPendingTarget Lod.setTransitionPhase];
      rewrite lod_pending_transient; lia.
  - unfold Lod.resetCamera, Lod.setTimeout.
    cbn [Lod.timers Lod.setTimers Lod.setShowNotification Lod.setNotificationText
         Lod.setCameraTarget Lod.setFocusedSphere Lod.setCameraMode
         Lod.setPendingTarget Lod.setTransitionPhase].
    rewrite lod_pending_transient. lia.
  - unfold Lod.handleAnimationComplete.
    destruct (Lod.pendingTarget st) as [target |];
      [ destruct (Lod.CameraMode_eqb (Lod.cameraMode st) Lod.transitioning
                  && Lod.TransitionPhase_eqb (Lod.transitionPhase st) Lod.zoom_out
                  && Js.truthy target) | ];
      (split; [ reflexivity | split; [ left; reflexivity | ] ]);
      try (cbn; lia).
    unfold Lod.setTimeout. cbn [Lod.timers Lod.setTimers Lod.setCameraTarget].
    rewrite lod_pending_zoom. lia.
  - unfold Lod.exportCoordinates, Lod.setTimeout.
    cbn [Lod.timers Lod.setTimers Lod.setShowNotification Lod.setNotificationText].
    rewrite lod_pending_transient. lia.
  - unfold Lod.fireTimer.
    destruct (nth_error (Lod.timers st) n) as [[delay | p sp t] |];
      [ | | repeat split; auto ].
    + split; [ reflexivity | split; [ left; reflexivity | ] ].
      cbn [Lod.timers Lod.setTimers Lod.setShowNotification].
      apply filter_remove_le.
    + destruct (lod_zoomIn_quiet p sp t
                  (Lod.setTimers (firstn n (Lod.timers st)
                                  ++ skipn (S n) (Lod.timers st)) st))
        as (Hn & Hs & Hp).
      split; [ exact Hn | split; [ exact Hs | ] ].
      unfold lodPending in Hp. cbn [Lod.timers Lod.setTimers] in Hp.
      pose proof (filter_remove_le lodSessionTimer n (Lod.timers st)). lia.
Qed.

Lemma lod_inv_step (st : Lod.State) (e : Lod.Event) :
  lodInv st -> lodInv (Lod.step st e).
Proof.
  unfold lodInv, Lod.step. intros Hi.
  destruct (lod_rerun_flags st (Lod.handle e st)) as (-> & -> & _).
  pose proof (lod_other_events e st) as Hq.
  destruct e; cbn [Lod.handle] in *.
  1:{ rewrite lod_wheel_shown, lod_wheel_sidebar.
      destruct (Lod.notificationShown st); [ discriminate | ].
      rewrite (Hi eq_refl). cbn [orb andb negb]. rewrite andb_true_r. auto. }
  all: destruct Hq as (Hn & [Hs | Hs] & _); rewrite Hn, Hs; auto.
Qed.

Lemma lod_latch_step (st : Lod.State) (e : Lod.Event) :
  lodInv st ->
  Lod.notificationShown (Lod.step st e)
  = Lod.notificationShown st || lodCrosses st e.
Proof.
  unfold lodInv, Lod.step. intros Hi.
  destruct (lod_rerun_flags st (Lod.handle e st)) as (-> & _ & _).
  pose proof (lod_other_events e st) as Hq.
  destruct e; cbn [Lod.handle lodCrosses] in *.
  1:{ rewrite lod_wheel_shown, lod_wheel_degrees.
      destruct (Lod.notificationShown st); [ reflexivity | ].
      rewrite (Hi eq_refl). cbn [orb andb negb]. apply andb_true_r. }
  all: destruct Hq as (Hn & _ & _); rewrite Hn, orb_false_r; reflexivity.
Qed.

Lemma lod_shows_step (st : Lod.State) (e : Lod.Event) :
  lodInv st ->
  lodShows st e = negb (Lod.notificationShown st) && lodCrosses st e.
Proof.
  unfold lodInv, lodShows, Lod.step, lodPending. intros Hi.
  destruct (lod_rerun_flags st (Lod.handle e st)) as (_ & _ & ->).
  pose proof (lod_other_events e st) as Hq.
  destruct e; cbn [Lod.handle lodCrosses] in *.
  1:{ rewrite lod_wheel_timers, lod_wheel_degrees.
      destruct (Lod.notificationShown st) eqn:Hn.
      - rewrite andb_false_r. cbn [negb andb]. apply Nat.ltb_irrefl.
      - rewrite (Hi eq_refl). cbn [negb andb]. rewrite !andb_true_r.
        destruct (Js.ge _ 60).
        + rewrite filter_app, length_app. cbn. apply Nat.ltb_lt. lia.
        + apply Nat.ltb_irrefl. }
  all: destruct Hq as (_ & _ & Hp); unfold lodPending in Hp;
    rewrite andb_false_r; apply Nat.ltb_ge; exact Hp.
Qed.

Lemma menu_rerun_keeps (before after : MenuHome.State) :
  MenuHome.notificationShown (MenuHome.rerunWheelEffect before after) = MenuHome.notificationShown after
  /\ MenuHome.sidebarOpen (MenuHome.rerunWheelEffect before after) = MenuHome.sidebarOpen after
  /\ MenuHome.timers (MenuHome.rerunWheelEffect before after) = MenuHome.timers after.
Proof.
  unfold MenuHome.rerunWheelEffect.
  destruct (eqb _ _ && eqb _ _); repeat split; reflexivity.
Qed.

Lemma menu_other_events (e : MenuHome.Event) (st : MenuHome.State) :
  match e with
  | MenuHome.Wheel _ => True
  | _ => menuQuiet st (MenuHome.handle e st)
  end.
Proof.
  unfold menuQuiet, menuPending.
  destruct e; try exact I; cbn [MenuHome.handle].
  all: try (split; [ reflexivity
                   | split; [ (left; reflexivity) || (right; reflexivity) | ] ]).
  all: try (cbn; lia).
  - unfold MenuHome.handleKeyDown.
    destruct (String.eqb key "Escape" && MenuHome.sidebarOpen st);
      (split; [ reflexivity | split; [ auto | cbn; lia ] ]).
  - unfold MenuHome.fireTimer.
    destruct (nth_error (MenuHome.timers st) n) as [[delay] |];
      (split; [ reflexivity | split; [ left; reflexivity | ] ]); [ | lia ].
    cbn [MenuHome.timers MenuHome.setTimers MenuHome.setShowNotification].
    apply filter_remove_le.
Qed.

Lemma menu_inv_step (st : MenuHome.State) (e : MenuHome.Event) :
  menuInv st -> menuInv (MenuHome.step st e).
Proof.
  unfold menuInv, MenuHome.step. intros Hi.
  destruct (menu_rerun_keeps st (MenuHome.handle e st)) as (-> & -> & _).
  pose proof (menu_other_events e st) as Hq.
  destruct e; cbn [MenuHome.handle] in *.
  1:{ rewrite menu_wheel_shown, menu_wheel_sidebar.
      destruct (MenuHome.notificationShown st); [ discriminate | ].
      rewrite (Hi eq_refl). cbn [orb andb negb]. rewrite andb_true_r. auto. }
  all: destruct Hq as (Hn & [Hs | Hs] & _); rewrite Hn, Hs; auto.
Qed.

Lemma menu_latch_step (st : MenuHome.State) (e : MenuHome.Event) :
  menuInv st ->
  MenuHome.notificationShown (MenuHome.step st e)
  = MenuHome.notificationShown st || menuCrosses st e.
Proof.
  unfold menuInv, MenuHome.step. intros Hi.
  destruct (menu_rerun_keeps st (MenuHome.handle e st)) as (-> & _ & _).
  pose proof (menu_other_events e st) as Hq.
  destruct e; cbn [MenuHome.handle menuCrosses] in *.
  1:{ rewrite menu_wheel_shown, menu_wheel_accumulated.
      destruct (MenuHome.notificationShown st); [ reflexivity | ].
      rewrite (Hi eq_refl). cbn [orb andb negb]. apply andb_true_r. }
  all: destruct Hq as (Hn & _ & _); rewrite Hn, orb_false_r; reflexivity.
Qed.

Lemma menu_shows_step (st : MenuHome.State) (e : MenuHome.Event) :
  menuInv st ->
  menuShows st e = negb (MenuHome.notificationShown st) && menuCrosses st e.
Proof.
  unfold menuInv, menuShows, MenuHome.step, menuPending. intros Hi.
  destruct (menu_rerun_keeps st (MenuHome.handle e st)) as (_ & _ & ->).
  pose proof (menu_other_events e st) as Hq.
  destruct e; cbn [MenuHome.handle menuCrosses] in *.
  1:{ rewrite menu_wheel_timers, menu_wheel_accumulated.
      destruct (MenuHome.notificationShown st) eqn:Hn.
      - rewrite andb_false_r. cbn [negb andb]. apply Nat.ltb_irrefl.
      - rewrite (Hi eq_refl). cbn [negb andb]. rewrite !andb_true_r.
        destruct (Js.ge _ 60).
        + rewrite filter_app, length_app. cbn. apply Nat.ltb_lt. lia.
        + apply Nat.ltb_irrefl. }
  all: destruct Hq as (_ & _ & Hp); unfold menuPending in Hp;
    rewrite andb_false_r; apply Nat.ltb_ge; exact Hp.
Qed.

(** ** A run that crosses the threshold twice *)

Lemma positions_app {State Event : Type} (step : State -> Event -> State)
  (p : State -> Event -> bool) (es1 es2 : list Event) :
  forall i st,
    positions step p i st (es1 ++ es2)
    = positions step p i st es1
      ++ positions step p (i + List.length es1) (fold_left step es1 st) es2.
Proof.
  induction es1 as [| e es1 IH]; intros i st;
    cbn [app positions fold_left List.length].
  - rewrite Nat.add_0_r. reflexivity.
  - rewrite IH, <- app_assoc.
    replace (i + S (List.length es1))%nat with (S i + List.length es1)%nat by lia.
    reflexivity.
Qed.

Lemma sps_positions_app (p : Sps.State -> Sps.Event -> bool)
  (es1 es2 : list Sps.Event) (i : nat) (st : Sps.State) :
  positions Sps.step p i st (es1 ++ es2)
  = positions Sps.step p i st es1
    ++ positions Sps.step p (i + List.length es1) (Sps.run st es1) es2.
Proof. apply positions_app. Qed.

(** The crossings of a run of wheel events, by its last event. *)
Lemma sps_crossings_snoc (d : R) (st0 : Sps.State) (n i : nat) :
  positions Sps.step spsCrosses i st0 (repeat (Sps.Wheel d) (S n))
  = positions Sps.step spsCrosses i st0 (repeat (Sps.Wheel d) n)
    ++ (if Js.ge (Sps.rotationDegrees
                    (Sps.handleWheel d (Sps.run st0 (repeat (Sps.Wheel d) n))))
                 60
        then [(i + n)%nat] else []).
Proof.
  rewrite repeat_snoc, sps_positions_app, repeat_length.
  cbn [positions spsCrosses]. rewrite app_nil_r. reflexivity.
Qed.

(** Forward events below the threshold, from any state whose accumulator is
    at zero and whose sidebar is closed: nothing is crossed, the flags stay. *)
Lemma sps_forward_from (d : R) (st0 : Sps.State) (n : nat) :
  0 < d -> Sps.accumulatedDegrees st0 = 0 -> Sps.sidebarOpen st0 = false ->
  INR n * 1.2 < 60 ->
  let st := Sps.run st0 (repeat (Sps.Wheel d) n) in
  Sps.accumulatedDegrees st = INR n * 1.2
  /\ Sps.sidebarOpen st = false
  /\ Sps.notificationShown st = Sps.notificationShown st0
  /\ forall i, positions Sps.step spsCrosses i st0 (repeat (Sps.Wheel d) n) = [].
Proof.
  intros Hd H0 Hs0. induction n as [| n IH]; intros Hn st.
  - subst st. cbn. repeat split; try assumption. lra.
  - rewrite S_INR in Hn.
    assert (Hpos : 0 <= INR n) by apply pos_INR.
    destruct IH as (Ha & Hs & Hf & Hp); [ lra | ].
    pose proof (fun i => sps_crossings_snoc d st0 n i) as Hc.
    subst st. rewrite repeat_snoc, run_snoc_sps.
    set (st := Sps.run st0 (repeat (Sps.Wheel d) n)) in *.
    assert (Hw : wheelStep d = 1.2)
      by (destruct (wheelStep_cases d) as [[? ?]|[? ?]]; [ assumption | lra ]).
    assert (Hdeg : Js.rem (Rabs (Sps.accumulatedDegrees st + wheelStep d)) 360
                   = (INR n + 1) * 1.2).
    { rewrite Ha, Hw. rewrite Rabs_nonneg by lra. rewrite rem_small; lra. }
    assert (Hge : Js.ge ((INR n + 1) * 1.2) 60 = false) by (apply ge_false; lra).
    rewrite sps_step_wheel_below by lra.
    rewrite sps_wheel_accumulated, sps_wheel_sidebar, sps_wheel_shown.
    rewrite Hdeg, Ha, Hw, Hs, Hf, Hge, S_INR. cbn [orb andb negb].
    rewrite orb_false_r.
    split; [ lra | ]. split; [ reflexivity | ]. split; [ reflexivity | ].
    intros i. rewrite <- repeat_snoc, Hc, Hp, sps_wheel_degrees, Hdeg, Hge.
    reflexivity.
Qed.

(** The fiftieth forward event reaches 60 degrees: the sidebar opens, and the
    render restarts the wheel effect with its accumulator at zero. *)
Lemma sps_fiftieth (d : R) (st0 : Sps.State) :
  0 < d -> Sps.accumulatedDegrees st0 = 0 -> Sps.sidebarOpen st0 = false ->
  let es := repeat (Sps.Wheel d) 50 in
  let st := Sps.run st0 es in
  Sps.accumulatedDegrees st = 0
  /\ Sps.sidebarOpen st = true
  /\ Sps.notificationShown st = true
  /\ forall i, positions Sps.step spsCrosses i st0 es = [(i + 49)%nat].
Proof.
  intros Hd H0 Hs0 es st. subst st es.
  pose proof (fun i => sps_crossings_snoc d st0 49 i) as Hc.
  change 50%nat with (S 49). rewrite repeat_snoc, run_snoc_sps.
  destruct (sps_forward_from d st0 49 Hd H0 Hs0) as (Ha & Hs & Hf & Hp).
  { rewrite INR_IZR_INZ. simpl. lra. }
  rewrite INR_IZR_INZ in Ha. simpl Z.of_nat in Ha.
  set (st := Sps.run st0 (repeat (Sps.Wheel d) 49)) in *.
  assert (Hw : wheelStep d = 1.2)
    by (destruct (wheelStep_cases d) as [[? ?]|[? ?]]; [ assumption | lra ]).
  assert (Hdeg : Js.rem (Rabs (Sps.accumulatedDegrees st + wheelStep d)) 360 = 60).
  { rewrite Ha, Hw. rewrite Rabs_nonneg by lra. rewrite rem_small; lra. }
  assert (Hge : Js.ge 60 60 = true) by (apply ge_true; lra).
  assert (Hopen : Sps.sidebarOpen (Sps.handleWheel d st) = true)
    by (rewrite sps_wheel_sidebar, Hdeg, Hge; apply orb_true_r).
  assert (Hshown : Sps.notificationShown (Sps.handleWheel d st) = true)
    by (rewrite sps_wheel_shown, Hdeg, Hge, Hs; apply orb_true_r).
  assert (Hstep : Sps.step st (Sps.Wheel d)
                  = Sps.setAccumulatedDegrees 0 (Sps.handleWheel d st)).
  { unfold Sps.step, Sps.rerunWheelEffect. cbn [Sps.handle].
    rewrite Hopen, Hs. reflexivity. }
  rewrite Hstep.
  split; [ reflexivity | ]. split; [ exact Hopen | ]. split; [ exact Hshown | ].
  intros i. rewrite <- repeat_snoc, Hc, Hp, sps_wheel_degrees, Hdeg, Hge.
  reflexivity.
Qed.

Lemma cross_twice_show_once :
  positions Sps.step spsCrosses 0 Sps.initialState crossTwice = [49; 100]%nat
  /\ positions Sps.step spsShows 0 Sps.initialState crossTwice = [49]%nat.
Proof.
  assert (Hd : 0 < 100) by lra.
  assert (Hc : positions Sps.step spsCrosses 0 Sps.initialState crossTwice
               = [49; 100]%nat).
  { unfold crossTwice.
    destruct (sps_fiftieth 100 Sps.initialState Hd eq_refl eq_refl)
      as (Ha & Hs & Hf & Hp).
    rewrite sps_positions_app, Hp, repeat_length.
    remember (Sps.run Sps.initialState (repeat (Sps.Wheel 100) 50)) as st.
    cbn [app positions spsCrosses Nat.add].
    assert (Hclose : Sps.accumulatedDegrees (Sps.step st Sps.CloseSidebar) = 0
                     /\ Sps.sidebarOpen (Sps.step st Sps.CloseSidebar) = false).
    { unfold Sps.step, Sps.rerunWheelEffect. cbn [Sps.handle].
      unfold Sps.closeSidebar.
      cbn [Sps.sidebarOpen Sps.setSidebarOpen Sps.setShowSphereControls
           Sps.setSelectedSphere Sps.setDropdownStates].
      rewrite Hs. cbn [eqb andb]. split; [ | reflexivity ].
      cbn [Sps.accumulatedDegrees Sps.setAccumulatedDegrees]. reflexivity. }
    destruct Hclose as [Ha' Hs'].
    destruct (sps_fiftieth 100 _ Hd Ha' Hs') as (_ & _ & _ & Hp').
    rewrite Hp'. reflexivity. }
  split; [ exact Hc | ].
  rewrite sps_latch, Hc. reflexivity.
Qed.

(** C6.  Along every run of events from the mounted page, in each of the
    three variants, the steps that schedule the session notification are
    exactly the first wheel step that brings the display to 60 degrees or
    more: that step shows it, and no later step does, however often the
    threshold is crossed again.  In the run [crossTwice] the threshold is
    reached at steps 49 and 100 and the notification is shown at step 49
    only. *)
Theorem notification_latch_fires_once :
  (forall es : list Sps.Event,
      positions Sps.step spsShows 0 Sps.initialState es
      = firstn 1 (positions Sps.step spsCrosses 0 Sps.initialState es))
  /\ (forall es : list Lod.Event,
      positions Lod.step lodShows 0 Lod.initialState es
      = firstn 1 (positions Lod.step lodCrosses 0 Lod.initialState es))
  /\ (forall es : list MenuHome.Event,
      positions MenuHome.step menuShows 0 MenuHome.initialState es
      = firstn 1 (positions MenuHome.step menuCrosses 0 MenuHome.initialState es))
  /\ (positions Sps.step spsCrosses 0 Sps.initialState crossTwice = [49; 100]%nat
      /\ positions Sps.step spsShows 0 Sps.initialState crossTwice = [49]%nat).
Proof.
  split; [ | split; [ | split ] ].
  - intros es.
    apply (shown_at_first_crossing Sps.step spsShows spsCrosses
             Sps.notificationShown spsInv sps_inv_step sps_latch_step
             sps_shows_step).
    + intros _. reflexivity.
    + reflexivity.
  - intros es.
    apply (shown_at_first_crossing Lod.step lodShows lodCrosses
             Lod.notificationShown lodInv lod_inv_step lod_latch_step
             lod_shows_step).
    + intros _. reflexivity.
    + reflexivity.
  - intros es.
    apply (shown_at_first_crossing MenuHome.step menuShows menuCrosses
             MenuHome.notificationShown menuInv menu_inv_step menu_latch_step
             menu_shows_step).
    + intros _. reflexivity.
    + reflexivity.
  - exact cross_twice_show_once.
Qed.

(** ** The two-phase transition *)

Lemma randomizeAll_ids (random : Random) (prev : list SpherePosition) :
  forall n, map Sphere.id (Lod.randomizeAll random n prev) = map Sphere.id prev.
Proof.
  induction prev as [| s rest IH]; intros n; cbn [Lod.randomizeAll map].
  - reflexivity.
  - rewrite IH. reflexivity.
Qed.

Lemma randomizeOne_ids (random : Random) (id : Z) (prev : list SpherePosition) :
  forall n, map Sphere.id (Lod.randomizeOne random n id prev) = map Sphere.id prev.
Proof.
  induction prev as [| s rest IH]; intros n; cbn [Lod.randomizeOne map].
  - reflexivity.
  - destruct (Sphere.id s =? id)%Z; cbn [map]; rewrite IH; reflexivity.
Qed.

Lemma map_ids_same (f : SpherePosition -> SpherePosition)
  (l : list SpherePosition) :
  (forall s, Sphere.id (f s) = Sphere.id s) ->
  map Sphere.id (map f l) = map Sphere.id l.
Proof. intros H. rewrite map_map. apply map_ext. exact H. Qed.

Lemma zoomIns_snoc_hide (l : list Lod.Timer) (d : Z) :
  filter isZoomIn (l ++ [Lod.HideNotification d]) = filter isZoomIn l.
Proof. rewrite filter_app. cbn. apply app_nil_r. Qed.

Lemma lod_ambient_step (e : Lod.Event) (st : Lod.State) :
  ambient e = true ->
  directorState (Lod.step st e) = directorState st
  /\ map Sphere.id (Lod.spheres (Lod.step st e)) = map Sphere.id (Lod.spheres st)
  /\ zoomIns (Lod.step st e) = zoomIns st.
Proof.
  intros Ha. unfold directorState, zoomIns, Lod.step.
  destruct (lod_rerun_keeps st (Lod.handle e st))
    as (_ & -> & -> & -> & -> & -> & -> & _).
  destruct e; try discriminate Ha; cbn [Lod.handle].
  - destruct (lod_wheel_camera deltaY st) as (-> & -> & -> & -> & _ & ->).
    rewrite lod_wheel_timers.
    split; [ reflexivity | split; [ reflexivity | ] ].
    destruct (Js.ge _ 60 && _ && _); [ apply zoomIns_snoc_hide | reflexivity ].
  - unfold Lod.handleKeyDown.
    destruct (String.eqb key "Escape" && Lod.sidebarOpen st); repeat split.
  - repeat split.
  - repeat split.
  - repeat split.
  - split; [ reflexivity | split; [ | reflexivity ] ].
    unfold Lod.updateSpherePosition. cbn [Lod.spheres Lod.setSpheres].
    apply map_ids_same. intros s.
    destruct (Sphere.id s =? id)%Z; [ destruct axis | ]; reflexivity.
  - split; [ reflexivity | split; [ | reflexivity ] ].
    unfold Lod.toggleSphereVisibility. cbn [Lod.spheres Lod.setSpheres].
    apply map_ids_same. intros s.
    destruct (Sphere.id s =? id)%Z; reflexivity.
  - split; [ reflexivity | split; [ | reflexivity ] ].
    apply randomizeOne_ids.
  - split; [ reflexivity | split; [ | reflexivity ] ].
    apply randomizeAll_ids.
  - split; [ reflexivity | split; [ reflexivity | ] ].
    apply zoomIns_snoc_hide.
Qed.

Lemma findSphere_known (a : Z) (l : list SpherePosition) :
  In a (map Sphere.id l) -> exists s, findSphere a l = Some s.
Proof.
  intros H. apply in_map_iff in H. destruct H as (s & Hid & Hin).
  unfold findSphere.
  destruct (find (fun s => (Sphere.id s =? a)%Z) l) as [s' |] eqn:E.
  - exists s'. reflexivity.
  - exfalso. apply (find_none _ _ E) in Hin. apply Z.eqb_neq in Hin. auto.
Qed.

Lemma findSphere_id (a : Z) (l : list SpherePosition) (s : SpherePosition) :
  findSphere a l = Some s -> In a (map Sphere.id l).
Proof.
  unfold findSphere. intros H. apply find_some in H. destruct H as [Hin Heq].
  apply Z.eqb_eq in Heq. subst a. apply in_map. exact Hin.
Qed.


Lemma filter_remove_Forall {A} (p : A -> bool) (Q : A -> Prop) (n : nat)
  (l : list A) :
  Forall Q (filter p l) -> Forall Q (filter p (firstn n l ++ skipn (S n) l)).
Proof.
  revert n. induction l as [| a l IH]; intros [| n] H.
  - exact H.
  - exact H.
  - change (skipn 1 (a :: l)) with l. cbn [firstn app filter] in *.
    destruct (p a); [ inversion H; assumption | exact H ].
  - change (skipn (S (S n)) (a :: l)) with (skipn (S n) l).
    cbn [firstn app filter] in *.
    destruct (p a).
    + inversion H; subst. constructor; [ assumption | apply IH; assumption ].
    + apply IH; assumption.
Qed.



(** What the zoom-in callback makes of a state, whatever it was. *)
Lemma zoomIn_focuses (a : Z) (sp : list SpherePosition) (t : R) (st : Lod.State) :
  In a (map Sphere.id sp) ->
  directorState (Lod.zoomIn a sp t st) = (Lod.focused, Some a, None, Lod.none)
  /\ Target.animating (Lod.cameraTarget (Lod.zoomIn a sp t st)) = true
  /\ Lod.spheres (Lod.zoomIn a sp t st) = Lod.spheres st
  /\ zoomIns (Lod.zoomIn a sp t st) = zoomIns st.
Proof.
  intros Hin. destruct (findSphere_known a sp Hin) as [s Hs].
  unfold directorState, zoomIns, Lod.zoomIn. rewrite Hs.
  repeat split. unfold Lod.setTimeout.
  cbn [Lod.timers Lod.setTimers Lod.setShowNotification Lod.setNotificationText
       Lod.setCameraTarget Lod.setFocusedSphere Lod.setCameraMode
       Lod.setPendingTarget Lod.setTransitionPhase].
  apply zoomIns_snoc_hide.
Qed.

Lemma lod_rerun_director (before after : Lod.State) :
  directorState (Lod.rerunWheelEffect before after) = directorState after
  /\ Lod.spheres (Lod.rerunWheelEffect before after) = Lod.spheres after
  /\ zoomIns (Lod.rerunWheelEffect before after) = zoomIns after
  /\ Lod.cameraTarget (Lod.rerunWheelEffect before after) = Lod.cameraTarget after.
Proof.
  unfold directorState, zoomIns.
  destruct (lod_rerun_keeps before after)
    as (-> & -> & -> & -> & -> & -> & -> & _).
  repeat split.
Qed.


Lemma run_cons (st : Lod.State) (e : Lod.Event) (es : list Lod.Event) :
  Lod.run st (e :: es) = Lod.run (Lod.step st e) es.
Proof. reflexivity. Qed.


Lemma event_kinds (e : Lod.Event) :
  userCamera e = false ->
  ambient e = true \/ e = Lod.AnimationComplete \/ exists n, e = Lod.TimerFires n.
Proof.
  destruct e; cbn; intros H; try discriminate H; auto.
  right. right. exists n. reflexivity.
Qed.







Lemma seven_in_registry : In 7%Z (map Sphere.id initialSpheres).
Proof.
  apply in_map_iff. exists (seedSphere 6). split; [ reflexivity | ].
  unfold initialSpheres. apply in_map. apply in_seq. lia.
Qed.



(** ** Ranges of the stage outputs *)

Lemma scale_branches_range (deg : R) :
  1.5 <= (if Js.lt deg 30 then 1.5
          else if Js.lt deg 60 then 1.5 + (deg - 30) / 30 * 1.3 else 2.8) <= 2.8.
Proof.
  destruct (Js.lt deg 30) eqn:E1; [ lra | ].
  destruct (Js.lt deg 60) eqn:E2; [ | lra ].
  apply lt_false in E1. apply lt_true in E2. lra.
Qed.

Lemma title_branches_range (deg : R) :
  0 <= (if Js.lt deg 30 then Rmax (1 - deg / 30) 0 else 0) <= 1 \/ deg < 0.
Proof.
  destruct (Rlt_dec deg 0) as [Hn | Hn]; [ right; exact Hn | left ].
  destruct (Js.lt deg 30); [ | lra ].
  split; [ apply Rmax_r | ]. apply Rmax_lub; lra.
Qed.

Lemma sps_step_fields (st : Sps.State) (e : Sps.Event) :
  match e with
  | Sps.Wheel deltaY =>
    Sps.rotationDegrees (Sps.step st e)
    = Sps.rotationDegrees (Sps.handleWheel deltaY st)
    /\ Sps.modelScale (Sps.step st e) = Sps.modelScale (Sps.handleWheel deltaY st)
    /\ Sps.titleOpacity (Sps.step st e)
       = Sps.titleOpacity (Sps.handleWheel deltaY st)
  | _ =>
    Sps.rotationDegrees (Sps.step st e) = Sps.rotationDegrees st
    /\ Sps.modelScale (Sps.step st e) = Sps.modelScale st
    /\ Sps.titleOpacity (Sps.step st e) = Sps.titleOpacity st
  end.
Proof.
  assert (R : forall a b,
             Sps.rotationDegrees (Sps.rerunWheelEffect a b) = Sps.rotationDegrees b
             /\ Sps.modelScale (Sps.rerunWheelEffect a b) = Sps.modelScale b
             /\ Sps.titleOpacity (Sps.rerunWheelEffect a b) = Sps.titleOpacity b).
  { intros a b. unfold Sps.rerunWheelEffect.
    destruct (eqb _ _ && eqb _ _); repeat split. }
  unfold Sps.step. destruct e; cbn [Sps.handle];
    match goal with |- context [Sps.rerunWheelEffect ?a ?b] =>
      destruct (R a b) as (-> & -> & ->) end;
    try (repeat split; reflexivity).
  - unfold Sps.handleKeyDown.
    destruct (String.eqb key "Escape" && Sps.sidebarOpen st); repeat split.
  - unfold Sps.zoomToSphere.
    destruct (findSphere sphereId (Sps.spheres st)); repeat split.
  - unfold Sps.fireTimer.
    destruct (nth_error (Sps.timers st) n) as [[d] |]; repeat split.
Qed.

Lemma lod_step_fields (st : Lod.State) (e : Lod.Event) :
  match e with
  | Lod.Wheel deltaY =>
    Lod.rotationDegrees (Lod.step st e)
    = Lod.rotationDegrees (Lod.handleWheel deltaY st)
    /\ Lod.modelScale (Lod.step st e) = Lod.modelScale (Lod.handleWheel deltaY st)
  | _ =>
    Lod.rotationDegrees (Lod.step st e) = Lod.rotationDegrees st
    /\ Lod.modelScale (Lod.step st e) = Lod.modelScale st
  end.
Proof.
  assert (R : forall a b,
             Lod.rotationDegrees (Lod.rerunWheelEffect a b) = Lod.rotationDegrees b
             /\ Lod.modelScale (Lod.rerunWheelEffect a b) = Lod.modelScale b).
  { intros a b. unfold Lod.rerunWheelEffect.
    destruct (eqb _ _ && eqb _ _); repeat split. }
  unfold Lod.step. destruct e; cbn [Lod.handle];
    match goal with |- context [Lod.rerunWheelEffect ?a ?b] =>
      destruct (R a b) as (-> & ->) end;
    try (repeat split; reflexivity).
  - unfold Lod.handleKeyDown.
    destruct (String.eqb key "Escape" && Lod.sidebarOpen st); repeat split.
  - unfold Lod.zoomToSphere, Lod.performZoomToSphere.
    destruct (findSphere sphereId (Lod.spheres st)); [ | repeat split ].
    destruct (Js.truthyOpt _ && _); repeat split.
  - unfold Lod.handleAnimationComplete.
    destruct (Lod.pendingTarget st); [ | repeat split ].
    destruct (_ && _ && _); repeat split.
  - unfold Lod.fireTimer.
    destruct (nth_error (Lod.timers st) n) as [[d | p sp t] |]; try (repeat split).
    all: unfold Lod.zoomIn; destruct (findSphere p sp); reflexivity.
Qed.

Lemma menu_step_fields (st : MenuHome.State) (e : MenuHome.Event) :
  match e with
  | MenuHome.Wheel deltaY =>
    MenuHome.targetRotation (MenuHome.step st e)
    = MenuHome.accumulatedRotation st + deltaY * 0.005
    /\ MenuHome.modelScale (MenuHome.step st e)
       = MenuHome.modelScale (MenuHome.handleWheel deltaY st)
    /\ MenuHome.titleOpacity (MenuHome.step st e)
       = MenuHome.titleOpacity (MenuHome.handleWheel deltaY st)
  | _ =>
    MenuHome.targetRotation (MenuHome.step st e) = MenuHome.targetRotation st
    /\ MenuHome.modelScale (MenuHome.step st e) = MenuHome.modelScale st
    /\ MenuHome.titleOpacity (MenuHome.step st e) = MenuHome.titleOpacity st
  end.
Proof.
  assert (R : forall a b,
             MenuHome.targetRotation (MenuHome.rerunWheelEffect a b)
             = MenuHome.targetRotation b
             /\ MenuHome.modelScale (MenuHome.rerunWheelEffect a b)
                = MenuHome.modelScale b
             /\ MenuHome.titleOpacity (MenuHome.rerunWheelEffect a b)
                = MenuHome.titleOpacity b).
  { intros a b. unfold MenuHome.rerunWheelEffect.
    destruct (eqb _ _ && eqb _ _); repeat split. }
  unfold MenuHome.step. destruct e; cbn [MenuHome.handle];
    match goal with |- context [MenuHome.rerunWheelEffect ?a ?b] =>
      destruct (R a b) as (-> & -> & ->) end;
    try (repeat split; reflexivity).
  - split; [ | split; reflexivity ]. by_cases MenuHome.handleWheel.
  - unfold MenuHome.handleKeyDown.
    destruct (String.eqb key "Escape" && MenuHome.sidebarOpen st); repeat split.
  - unfold MenuHome.fireTimer.
    destruct (nth_error (MenuHome.timers st) n) as [[d] |]; repeat split.
Qed.

Lemma menu_wheel_title (deltaY : R) (st : MenuHome.State) :
  MenuHome.titleOpacity (MenuHome.handleWheel deltaY st)
  = let deg := MenuHome.degreesOf (MenuHome.accumulatedRotation st + deltaY * 0.005) in
    if Js.lt deg 30 then Rmax (1 - deg / 30) 0 else 0.
Proof. cbv zeta. by_cases MenuHome.handleWheel. Qed.

Lemma degrees_range (a : R) : 0 <= Js.rem (Rabs a) 360 < 360.
Proof. apply rem_range; [ apply Rabs_pos | lra ]. Qed.

Lemma stage_ranges_intro (deg scale opacity : R) :
  0 <= deg < 360 -> 1.5 <= scale <= 2.8 -> 0 <= opacity <= 1 ->
  stageRanges deg scale opacity.
Proof. unfold stageRanges. intros. repeat split; lra. Qed.

Lemma sps_ranges_step (st : Sps.State) (e : Sps.Event) :
  stageRanges (Sps.rotationDegrees st) (Sps.modelScale st) (Sps.titleOpacity st) ->
  stageRanges (Sps.rotationDegrees (Sps.step st e)) (Sps.modelScale (Sps.step st e))
    (Sps.titleOpacity (Sps.step st e)).
Proof.
  intros H. pose proof (sps_step_fields st e) as F.
  destruct e; destruct F as (-> & -> & ->); try exact H.
  rewrite sps_wheel_degrees, sps_wheel_scale, sps_wheel_title.
  pose proof (degrees_range (Sps.accumulatedDegrees st + wheelStep deltaY)) as Hd.
  apply stage_ranges_intro; [ exact Hd | apply scale_branches_range | ].
  destruct (title_branches_range
              (Js.rem (Rabs (Sps.accumulatedDegrees st + wheelStep deltaY)) 360));
    [ assumption | lra ].
Qed.

Lemma lod_title_range (st : Lod.State) : 0 <= Lod.titleOpacity st <= 1.
Proof. unfold Lod.titleOpacity. destruct (Js.gt _ 15); lra. Qed.

Lemma lod_ranges_step (st : Lod.State) (e : Lod.Event) :
  stageRanges (Lod.rotationDegrees st) (Lod.modelScale st) (Lod.titleOpacity st) ->
  stageRanges (Lod.rotationDegrees (Lod.step st e)) (Lod.modelScale (Lod.step st e))
    (Lod.titleOpacity (Lod.step st e)).
Proof.
  intros H. pose proof (lod_step_fields st e) as F.
  assert (G : forall st', Lod.rotationDegrees st' = Lod.rotationDegrees st ->
                          Lod.modelScale st' = Lod.modelScale st ->
                          stageRanges (Lod.rotationDegrees st') (Lod.modelScale st')
                            (Lod.titleOpacity st')).
  { intros st' Hr Hm. destruct H as (H1 & H2 & _ & _).
    apply stage_ranges_intro; [ rewrite Hr | rewrite Hm | apply lod_title_range ];
      assumption. }
  destruct e; destruct F as (Hr & Hm); try (apply G; assumption).
  apply stage_ranges_intro; [ | | apply lod_title_range ].
  - rewrite Hr, lod_wheel_degrees. apply degrees_range.
  - rewrite Hm, lod_wheel_scale. apply scale_branches_range.
Qed.

Lemma menu_ranges_step (st : MenuHome.State) (e : MenuHome.Event) :
  stageRanges (MenuHome.degreesOf (MenuHome.targetRotation st))
    (MenuHome.modelScale st) (MenuHome.titleOpacity st) ->
  stageRanges (MenuHome.degreesOf (MenuHome.targetRotation (MenuHome.step st e)))
    (MenuHome.modelScale (MenuHome.step st e))
    (MenuHome.titleOpacity (MenuHome.step st e)).
Proof.
  intros H. pose proof (menu_step_fields st e) as F.
  destruct e; destruct F as (-> & -> & ->); try exact H.
  rewrite menu_wheel_scale, menu_wheel_title. cbv zeta.
  assert (Hd : 0 <= MenuHome.degreesOf (MenuHome.accumulatedRotation st + deltaY * 0.005)
               < 360) by apply degrees_range.
  apply stage_ranges_intro; [ exact Hd | apply scale_branches_range | ].
  destruct (title_branches_range
              (MenuHome.degreesOf (MenuHome.accumulatedRotation st + deltaY * 0.005)));
    [ assumption | lra ].
Qed.

Lemma fold_invariant {S E : Type} (step : S -> E -> S) (P : S -> Prop) :
  (forall st e, P st -> P (step st e)) ->
  forall es st, P st -> P (fold_left step es st).
Proof.
  intros Hs. induction es as [| e es IH]; intros st H; cbn [fold_left].
  - exact H.
  - apply IH, Hs, H.
Qed.

Lemma zero_degrees : Js.rem (Rabs 0) 360 = 0.
Proof. rewrite Rabs_R0. apply rem_small. lra. Qed.

(** X1.  Along every run from the mounted page, in each of the three wheel
    variants, the display degrees stay in [0, 360), the model scale in
    [1.5, 2.8] and the title opacity in [0, 1]; the overview pose computed from
    the scale therefore has its depth in [6.05, 8]. *)
Theorem stage_outputs_stay_in_range :
  (forall es : list Sps.Event,
      let st := Sps.run Sps.initialState es in
      stageRanges (Sps.rotationDegrees st) (Sps.modelScale st) (Sps.titleOpacity st))
  /\ (forall es : list Lod.Event,
      let st := Lod.run Lod.initialState es in
      stageRanges (Lod.rotationDegrees st) (Lod.modelScale st) (Lod.titleOpacity st))
  /\ (forall es : list MenuHome.Event,
      let st := MenuHome.run MenuHome.initialState es in
      stageRanges (MenuHome.degreesOf (MenuHome.targetRotation st))
        (MenuHome.modelScale st) (MenuHome.titleOpacity st)).
Proof.
  split; [ | split ]; intros es st; subst st.
  - apply (fold_invariant Sps.step
             (fun st => stageRanges (Sps.rotationDegrees st) (Sps.modelScale st)
                          (Sps.titleOpacity st)) sps_ranges_step).
    apply stage_ranges_intro; cbn [Sps.rotationDegrees Sps.modelScale
                                   Sps.titleOpacity Sps.initialState]; lra.
  - apply (fold_invariant Lod.step
             (fun st => stageRanges (Lod.rotationDegrees st) (Lod.modelScale st)
                          (Lod.titleOpacity st)) lod_ranges_step).
    apply stage_ranges_intro; [ | | apply lod_title_range ];
      cbn [Lod.rotationDegrees Lod.modelScale Lod.initialState]; lra.
  - apply (fold_invariant MenuHome.step
             (fun st => stageRanges (MenuHome.degreesOf (MenuHome.targetRotation st))
                          (MenuHome.modelScale st) (MenuHome.titleOpacity st))
             menu_ranges_step).
    apply stage_ranges_intro;
      cbn [MenuHome.targetRotation MenuHome.modelScale MenuHome.titleOpacity
           MenuHome.initialState]; try lra.
    unfold MenuHome.degreesOf.
    replace (0 * 180 / PI) with 0 by (unfold Rdiv; ring).
    rewrite zero_degrees. lra.
Qed.

(** ** The wheel effect restarts with the sidebar *)

Lemma sps_opening_step (d : R) (st : Sps.State) :
  Sps.sidebarOpen st = false ->
  60 <= Sps.rotationDegrees (Sps.handleWheel d st) ->
  Sps.step st (Sps.Wheel d) = Sps.setAccumulatedDegrees 0 (Sps.handleWheel d st)
  /\ Sps.sidebarOpen (Sps.handleWheel d st) = true.
Proof.
  intros Hs Hd.
  assert (Hopen : Sps.sidebarOpen (Sps.handleWheel d st) = true).
  { rewrite sps_wheel_sidebar, Hs. rewrite sps_wheel_degrees in Hd.
    apply ge_true in Hd. rewrite Hd. reflexivity. }
  split; [ | exact Hopen ].
  unfold Sps.step, Sps.rerunWheelEffect. cbn [Sps.handle].
  rewrite Hopen, Hs. reflexivity.
Qed.

Lemma sps_first_notch (d : R) (st : Sps.State) :
  0 < d -> Sps.accumulatedDegrees st = 0 ->
  Sps.rotationDegrees (Sps.handleWheel d st) = 1.2
  /\ Sps.modelScale (Sps.handleWheel d st) = 1.5
  /\ Sps.targetRotation (Sps.handleWheel d st) = 1.2 * PI / 180.
Proof.
  intros Hd Ha.
  assert (Hw : wheelStep d = 1.2)
    by (destruct (wheelStep_cases d) as [[? ?]|[? ?]]; [ assumption | lra ]).
  assert (Hdeg : Js.rem (Rabs (Sps.accumulatedDegrees st + wheelStep d)) 360 = 1.2).
  { rewrite Ha, Hw. rewrite Rabs_nonneg by lra. rewrite rem_small; lra. }
  rewrite sps_wheel_degrees, sps_wheel_scale, sps_wheel_target, Hdeg, Ha, Hw.
  replace (Js.lt 1.2 30) with true by (symmetry; apply lt_true; lra).
  repeat split. lra.
Qed.

Lemma sps_restart (d d' : R) (st : Sps.State) :
  Sps.sidebarOpen st = false ->
  60 <= Sps.rotationDegrees (Sps.handleWheel d st) ->
  0 < d' ->
  let st1 := Sps.step st (Sps.Wheel d) in
  let st2 := Sps.step st1 (Sps.Wheel d') in
  Sps.sidebarOpen st1 = true
  /\ Sps.modelScale st1 = 2.8
  /\ Sps.targetRotation st1 = (Sps.accumulatedDegrees st + wheelStep d) * PI / 180
  /\ Sps.accumulatedDegrees st1 = 0
  /\ Sps.rotationDegrees st2 = 1.2
  /\ Sps.modelScale st2 = 1.5
  /\ Sps.targetRotation st2 = 1.2 * PI / 180.
Proof.
  intros Hs Hd Hd' st1 st2.
  destruct (sps_opening_step d st Hs Hd) as [Hstep Hopen].
  assert (H1 : Sps.sidebarOpen st1 = true) by (subst st1; rewrite Hstep; exact Hopen).
  assert (Ha : Sps.accumulatedDegrees st1 = 0) by (subst st1; rewrite Hstep; reflexivity).
  assert (Hm : Sps.modelScale st1 = 2.8).
  { subst st1. rewrite Hstep.
    change (Sps.modelScale (Sps.handleWheel d st) = 2.8).
    rewrite sps_wheel_scale. rewrite sps_wheel_degrees in Hd.
    replace (Js.lt _ 30) with false by (symmetry; apply lt_false; lra).
    replace (Js.lt _ 60) with false by (symmetry; apply lt_false; lra).
    reflexivity. }
  assert (Ht : Sps.targetRotation st1
               = (Sps.accumulatedDegrees st + wheelStep d) * PI / 180).
  { subst st1. rewrite Hstep.
    change (Sps.targetRotation (Sps.handleWheel d st)
            = (Sps.accumulatedDegrees st + wheelStep d) * PI / 180).
    apply sps_wheel_target. }
  destruct (sps_first_notch d' st1 Hd' Ha) as (N1 & N2 & N3).
  assert (Hstep2 : st2 = Sps.handleWheel d' st1).
  { subst st2. apply sps_step_wheel_below. rewrite <- sps_wheel_degrees, N1. lra. }
  rewrite Hstep2. repeat split; assumption.
Qed.


Lemma lod_opening_step (d : R) (st : Lod.State) :
  Lod.sidebarOpen st = false ->
  60 <= Lod.rotationDegrees (Lod.handleWheel d st) ->
  Lod.step st (Lod.Wheel d) = Lod.setAccumulatedDegrees 0 (Lod.handleWheel d st)
  /\ Lod.sidebarOpen (Lod.handleWheel d st) = true.
Proof.
  intros Hs Hd.
  assert (Hopen : Lod.sidebarOpen (Lod.handleWheel d st) = true).
  { rewrite lod_wheel_sidebar, Hs. rewrite lod_wheel_degrees in Hd.
    apply ge_true in Hd. rewrite Hd. reflexivity. }
  split; [ | exact Hopen ].
  unfold Lod.step, Lod.rerunWheelEffect. cbn [Lod.handle].
  rewrite Hopen, Hs. reflexivity.
Qed.

Lemma lod_first_notch (d : R) (st : Lod.State) :
  0 < d -> Lod.accumulatedDegrees st = 0 ->
  Lod.rotationDegrees (Lod.handleWheel d st) = 1.2
  /\ Lod.modelScale (Lod.handleWheel d st) = 1.5
  /\ Lod.targetRotation (Lod.handleWheel d st) = 1.2 * PI / 180.
Proof.
  intros Hd Ha.
  assert (Hw : wheelStep d = 1.2)
    by (destruct (wheelStep_cases d) as [[? ?]|[? ?]]; [ assumption | lra ]).
  assert (Hdeg : Js.rem (Rabs (Lod.accumulatedDegrees st + wheelStep d)) 360 = 1.2).
  { rewrite Ha, Hw. rewrite Rabs_nonneg by lra. rewrite rem_small; lra. }
  rewrite lod_wheel_degrees, lod_wheel_scale, lod_wheel_target, Hdeg, Ha, Hw.
  replace (Js.lt 1.2 30) with true by (symmetry; apply lt_true; lra).
  repeat split. lra.
Qed.

Lemma lod_restart (d d' : R) (st : Lod.State) :
  Lod.sidebarOpen st = false ->
  60 <= Lod.rotationDegrees (Lod.handleWheel d st) ->
  0 < d' ->
  let st1 := Lod.step st (Lod.Wheel d) in
  let st2 := Lod.step st1 (Lod.Wheel d') in
  Lod.sidebarOpen st1 = true
  /\ Lod.modelScale st1 = 2.8
  /\ Lod.targetRotation st1 = (Lod.accumulatedDegrees st + wheelStep d) * PI / 180
  /\ Lod.accumulatedDegrees st1 = 0
  /\ Lod.rotationDegrees st2 = 1.2
  /\ Lod.modelScale st2 = 1.5
  /\ Lod.targetRotation st2 = 1.2 * PI / 180.
Proof.
  intros Hs Hd Hd' st1 st2.
  destruct (lod_opening_step d st Hs Hd) as [Hstep Hopen].
  assert (H1 : Lod.sidebarOpen st1 = true) by (subst st1; rewrite Hstep; exact Hopen).
  assert (Ha : Lod.accumulatedDegrees st1 = 0) by (subst st1; rewrite Hstep; reflexivity).
  assert (Hm : Lod.modelScale st1 = 2.8).
  { subst st1. rewrite Hstep.
    change (Lod.modelScale (Lod.handleWheel d st) = 2.8).
    rewrite lod_wheel_scale. rewrite lod_wheel_degrees in Hd.
    replace (Js.lt _ 30) with false by (symmetry; apply lt_false; lra).
    replace (Js.lt _ 60) with false by (symmetry; apply lt_false; lra).
    reflexivity. }
  assert (Ht : Lod.targetRotation st1
               = (Lod.accumulatedDegrees st + wheelStep d) * PI / 180).
  { subst st1. rewrite Hstep.
    change (Lod.targetRotation (Lod.handleWheel d st)
            = (Lod.accumulatedDegrees st + wheelStep d) * PI / 180).
    apply lod_wheel_target. }
  destruct (lod_first_notch d' st1 Hd' Ha) as (N1 & N2 & N3).
  assert (Hstep2 : st2 = Lod.handleWheel d' st1).
  { subst st2. apply lod_step_wheel_below. rewrite <- lod_wheel_degrees, N1. lra. }
  rewrite Hstep2. repeat split; assumption.
Qed.


(** X2.  In the delta-mode variants the wheel step that opens the sidebar restarts
    the wheel effect: the target rotation and the scale 2.8 it stored stay,
    but the accumulator is back at zero, so the next forward event sets the
    display to 1.2 degrees, the scale to 1.5 and the target rotation to 1.2
    degrees. *)
Theorem opening_the_sidebar_restarts_rotation (d d' : R) :
  0 < d' ->
  (forall st : Sps.State,
      Sps.sidebarOpen st = false ->
      60 <= Sps.rotationDegrees (Sps.handleWheel d st) ->
      let st1 := Sps.step st (Sps.Wheel d) in
      let st2 := Sps.step st1 (Sps.Wheel d') in
      Sps.sidebarOpen st1 = true
      /\ Sps.modelScale st1 = 2.8
      /\ Sps.targetRotation st1 = (Sps.accumulatedDegrees st + wheelStep d) * PI / 180
      /\ Sps.accumulatedDegrees st1 = 0
      /\ Sps.rotationDegrees st2 = 1.2
      /\ Sps.modelScale st2 = 1.5
      /\ Sps.targetRotation st2 = 1.2 * PI / 180)
  /\ (forall st : Lod.State,
      Lod.sidebarOpen st = false ->
      60 <= Lod.rotationDegrees (Lod.handleWheel d st) ->
      let st1 := Lod.step st (Lod.Wheel d) in
      let st2 := Lod.step st1 (Lod.Wheel d') in
      Lod.sidebarOpen st1 = true
      /\ Lod.modelScale st1 = 2.8
      /\ Lod.targetRotation st1 = (Lod.accumulatedDegrees st + wheelStep d) * PI / 180
      /\ Lod.accumulatedDegrees st1 = 0
      /\ Lod.rotationDegrees st2 = 1.2
      /\ Lod.modelScale st2 = 1.5
      /\ Lod.targetRotation st2 = 1.2 * PI / 180).
Proof.
  intros Hd'. split; intros st Hs Hd.
  - apply sps_restart; assumption.
  - apply lod_restart; assumption.
Qed.

Lemma opening_the_sidebar_restarts_rotation_witness :
  let st := Sps.setAccumulatedDegrees 58.8 Sps.initialState in
  0 < 100
  /\ Sps.sidebarOpen st = false
  /\ 60 <= Sps.rotationDegrees (Sps.handleWheel 100 st)
  /\ Sps.rotationDegrees (Sps.step (Sps.step st (Sps.Wheel 100)) (Sps.Wheel 100)) = 1.2.
Proof.
  intros st.
  assert (Hs : Sps.sidebarOpen st = false) by reflexivity.
  assert (Hd : 60 <= Sps.rotationDegrees (Sps.handleWheel 100 st)).
  { rewrite sps_wheel_degrees.
    destruct (wheelStep_cases 100) as [[_ ->]|[? _]]; [ | lra ].
    replace (Sps.accumulatedDegrees st + 1.2) with 60
      by (subst st; cbn [Sps.accumulatedDegrees Sps.setAccumulatedDegrees]; lra).
    rewrite Rabs_nonneg by lra. rewrite rem_small; lra. }
  assert (H100 : 0 < 100) by lra.
  split; [ exact H100 | ]. split; [ exact Hs | ]. split; [ exact Hd | ].
  exact (proj1 (proj2 (proj2 (proj2 (proj2
           (proj1 (opening_the_sidebar_restarts_rotation 100 100 H100) st Hs Hd)))))).
Defined.

(** ** Forward and backward scrolling *)

Lemma sps_rerun_accumulated (a b : Sps.State) :
  Sps.accumulatedDegrees (Sps.rerunWheelEffect a b)
  = if eqb (Sps.sidebarOpen a) (Sps.sidebarOpen b)
       && eqb (Sps.notificationShown a) (Sps.notificationShown b)
    then Sps.accumulatedDegrees b else 0.
Proof. unfold Sps.rerunWheelEffect. destruct (eqb _ _ && eqb _ _); reflexivity. Qed.

Lemma sps_rerun_target (a b : Sps.State) :
  Sps.targetRotation (Sps.rerunWheelEffect a b) = Sps.targetRotation b.
Proof. unfold Sps.rerunWheelEffect. destruct (eqb _ _ && eqb _ _); reflexivity. Qed.

Lemma sps_mirror_step (d d' : R) (a b : Sps.State) :
  0 < d -> d' <= 0 -> spsMirrored a b ->
  spsMirrored (Sps.step a (Sps.Wheel d)) (Sps.step b (Sps.Wheel d')).
Proof.
  intros Hd Hd' (Ha & Ht & Hr & Hm & Ho & Hs & Hn).
  assert (Hw : wheelStep d = 1.2)
    by (destruct (wheelStep_cases d) as [[? ?]|[? ?]]; [ assumption | lra ]).
  assert (Hw' : wheelStep d' = -1.2)
    by (destruct (wheelStep_cases d') as [[? ?]|[? ?]]; [ lra | assumption ]).
  assert (Hacc : Sps.accumulatedDegrees b + wheelStep d'
                 = - (Sps.accumulatedDegrees a + wheelStep d))
    by (rewrite Ha, Hw, Hw'; lra).
  assert (Hdeg : Js.rem (Rabs (Sps.accumulatedDegrees b + wheelStep d')) 360
                 = Js.rem (Rabs (Sps.accumulatedDegrees a + wheelStep d)) 360)
    by (rewrite Hacc, Rabs_Ropp; reflexivity).
  pose proof (sps_step_fields a (Sps.Wheel d)) as (Fa1 & Fa2 & Fa3).
  pose proof (sps_step_fields b (Sps.Wheel d')) as (Fb1 & Fb2 & Fb3).
  assert (Hside : Sps.sidebarOpen (Sps.handleWheel d' b)
                  = Sps.sidebarOpen (Sps.handleWheel d a))
    by (rewrite !sps_wheel_sidebar, Hdeg, Hs; reflexivity).
  assert (Hshown : Sps.notificationShown (Sps.handleWheel d' b)
                   = Sps.notificationShown (Sps.handleWheel d a))
    by (rewrite !sps_wheel_shown, Hdeg, Hs, Hn; reflexivity).
  unfold spsMirrored. rewrite Fa1, Fa2, Fa3, Fb1, Fb2, Fb3.
  unfold Sps.step. cbn [Sps.handle].
  destruct (sps_rerun_keeps a (Sps.handleWheel d a)) as (-> & -> & _).
  destruct (sps_rerun_keeps b (Sps.handleWheel d' b)) as (-> & -> & _).
  rewrite !sps_rerun_accumulated, !sps_rerun_target.
  rewrite Hside, Hshown, Hs, Hn.
  rewrite !sps_wheel_accumulated, !sps_wheel_target, !sps_wheel_degrees,
    !sps_wheel_scale, !sps_wheel_title, Hdeg, Hacc.
  repeat split; try reflexivity.
  - destruct (eqb _ _ && eqb _ _); lra.
  - lra.
Qed.

Lemma sps_mirror_run (d d' : R) (n : nat) :
  0 < d -> d' <= 0 ->
  spsMirrored (Sps.run Sps.initialState (repeat (Sps.Wheel d) n))
              (Sps.run Sps.initialState (repeat (Sps.Wheel d') n)).
Proof.
  intros Hd Hd'. induction n as [| n IH].
  - cbn. unfold spsMirrored. cbn. repeat split; lra.
  - rewrite !repeat_snoc, !run_snoc_sps. apply sps_mirror_step; assumption.
Qed.

Lemma lod_rerun_accumulated (a b : Lod.State) :
  Lod.accumulatedDegrees (Lod.rerunWheelEffect a b)
  = if eqb (Lod.sidebarOpen a) (Lod.sidebarOpen b)
       && eqb (Lod.notificationShown a) (Lod.notificationShown b)
    then Lod.accumulatedDegrees b else 0.
Proof. unfold Lod.rerunWheelEffect. destruct (eqb _ _ && eqb _ _); reflexivity. Qed.

Lemma lod_rerun_target (a b : Lod.State) :
  Lod.targetRotation (Lod.rerunWheelEffect a b) = Lod.targetRotation b.
Proof. unfold Lod.rerunWheelEffect. destruct (eqb _ _ && eqb _ _); reflexivity. Qed.

Lemma lod_mirror_step (d d' : R) (a b : Lod.State) :
  0 < d -> d' <= 0 -> lodMirrored a b ->
  lodMirrored (Lod.step a (Lod.Wheel d)) (Lod.step b (Lod.Wheel d')).
Proof.
  intros Hd Hd' (Ha & Ht & Hr & Hm & Hs & Hn).
  assert (Hw : wheelStep d = 1.2)
    by (destruct (wheelStep_cases d) as [[? ?]|[? ?]]; [ assumption | lra ]).
  assert (Hw' : wheelStep d' = -1.2)
    by (destruct (wheelStep_cases d') as [[? ?]|[? ?]]; [ lra | assumption ]).
  assert (Hacc : Lod.accumulatedDegrees b + wheelStep d'
                 = - (Lod.accumulatedDegrees a + wheelStep d))
    by (rewrite Ha, Hw, Hw'; lra).
  assert (Hdeg : Js.rem (Rabs (Lod.accumulatedDegrees b + wheelStep d')) 360
                 = Js.rem (Rabs (Lod.accumulatedDegrees a + wheelStep d)) 360)
    by (rewrite Hacc, Rabs_Ropp; reflexivity).
  pose proof (lod_step_fields a (Lod.Wheel d)) as (Fa1 & Fa2).
  pose proof (lod_step_fields b (Lod.Wheel d')) as (Fb1 & Fb2).
  assert (Hside : Lod.sidebarOpen (Lod.handleWheel d' b)
                  = Lod.sidebarOpen (Lod.handleWheel d a))
    by (rewrite !lod_wheel_sidebar, Hdeg, Hs; reflexivity).
  assert (Hshown : Lod.notificationShown (Lod.handleWheel d' b)
                   = Lod.notificationShown (Lod.handleWheel d a))
    by (rewrite !lod_wheel_shown, Hdeg, Hs, Hn; reflexivity).
  unfold lodMirrored. rewrite Fa1, Fa2, Fb1, Fb2.
  unfold Lod.step. cbn [Lod.handle].
  destruct (lod_rerun_flags a (Lod.handleWheel d a)) as (-> & -> & _).
  destruct (lod_rerun_flags b (Lod.handleWheel d' b)) as (-> & -> & _).
  rewrite !lod_rerun_accumulated, !lod_rerun_target.
  rewrite Hside, Hshown, Hs, Hn.
  rewrite !lod_wheel_accumulated, !lod_wheel_target, !lod_wheel_degrees,
    !lod_wheel_scale, Hdeg, Hacc.
  repeat split; try reflexivity.
  - destruct (eqb _ _ && eqb _ _); lra.
  - lra.
Qed.

Lemma lod_mirror_run (d d' : R) (n : nat) :
  0 < d -> d' <= 0 ->
  lodMirrored (Lod.run Lod.initialState (repeat (Lod.Wheel d) n))
              (Lod.run Lod.initialState (repeat (Lod.Wheel d') n)).
Proof.
  intros Hd Hd'. induction n as [| n IH].
  - cbn. unfold lodMirrored. cbn. repeat split; lra.
  - rewrite !repeat_snoc, !run_snoc_lod. apply lod_mirror_step; assumption.
Qed.

(** X3.  The stage follows the magnitude of the rotation: after [n] backward
    events (a zero delta counts as backward) the page shows the same degrees,
    scale, title opacity and sidebar as after [n] forward events, and the
    target rotation is the opposite angle. *)
Theorem backward_scrolling_mirrors_forward (d d' : R) (n : nat) :
  0 < d -> d' <= 0 ->
  spsMirrored (Sps.run Sps.initialState (repeat (Sps.Wheel d) n))
              (Sps.run Sps.initialState (repeat (Sps.Wheel d') n))
  /\ lodMirrored (Lod.run Lod.initialState (repeat (Lod.Wheel d) n))
                 (Lod.run Lod.initialState (repeat (Lod.Wheel d') n)).
Proof.
  intros Hd Hd'. split.
  - apply sps_mirror_run; assumption.
  - apply lod_mirror_run; assumption.
Qed.

Lemma backward_scrolling_mirrors_forward_witness :
  0 < 100 /\ -100 <= 0
  /\ Sps.modelScale (Sps.run Sps.initialState (repeat (Sps.Wheel (-100)) 42))
     = Sps.modelScale (Sps.run Sps.initialState (repeat (Sps.Wheel 100) 42)).
Proof.
  assert (H1 : 0 < 100) by lra. assert (H2 : -100 <= 0) by lra.
  split; [ exact H1 | ]. split; [ exact H2 | ].
  exact (proj1 (proj2 (proj2 (proj2
           (proj1 (backward_scrolling_mirrors_forward 100 (-100) 42 H1 H2)))))).
Defined.

(** ** A full turn *)





(** ** Closing the sidebar *)

Lemma escape_only (key : string) : key <> "Escape"%string -> String.eqb key "Escape" = false.
Proof. intros H. apply String.eqb_neq. exact H. Qed.

(** X5.  In the three wheel variants the close button leaves the sidebar
    closed and every dropdown collapsed (and, where there are spheres, the
    sphere controls hidden and no sphere selected); closing twice is closing
    once; the Escape key does the same while the sidebar is open and nothing
    while it is closed; any other key does nothing. *)
Theorem closing_collapses_everything :
  (forall st : Sps.State,
      let st' := Sps.closeSidebar st in
      Sps.sidebarOpen st' = false
      /\ Sps.dropdownStates st' = allClosed
      /\ Sps.showSphereControls st' = false
      /\ Sps.selectedSphere st' = None
      /\ Sps.closeSidebar st' = st'
      /\ Sps.handleKeyDown "Escape" st
         = (if Sps.sidebarOpen st then st' else st)
      /\ forall key, key <> "Escape"%string -> Sps.handleKeyDown key st = st)
  /\ (forall st : Lod.State,
      let st' := Lod.closeSidebar st in
      Lod.sidebarOpen st' = false
      /\ Lod.dropdownStates st' = allClosed
      /\ Lod.showSphereControls st' = false
      /\ Lod.selectedSphere st' = None
      /\ Lod.closeSidebar st' = st'
      /\ Lod.handleKeyDown "Escape" st
         = (if Lod.sidebarOpen st then st' else st)
      /\ forall key, key <> "Escape"%string -> Lod.handleKeyDown key st = st)
  /\ (forall st : MenuHome.State,
      let st' := MenuHome.closeSidebar st in
      MenuHome.sidebarOpen st' = false
      /\ MenuHome.dropdownStates st' = allClosed
      /\ MenuHome.closeSidebar st' = st'
      /\ MenuHome.handleKeyDown "Escape" st
         = (if MenuHome.sidebarOpen st then st' else st)
      /\ forall key, key <> "Escape"%string -> MenuHome.handleKeyDown key st = st).
Proof.
  split; [ | split ]; intros st st'; subst st'.
  - repeat (split; [ reflexivity | ]).
    intros key Hk. unfold Sps.handleKeyDown. rewrite (escape_only key Hk).
    reflexivity.
  - repeat (split; [ reflexivity | ]).
    intros key Hk. unfold Lod.handleKeyDown. rewrite (escape_only key Hk).
    reflexivity.
  - repeat (split; [ reflexivity | ]).
    intros key Hk. unfold MenuHome.handleKeyDown. rewrite (escape_only key Hk).
    reflexivity.
Qed.

Lemma closing_collapses_everything_witness :
  "Enter"%string <> "Escape"%string
  /\ Lod.handleKeyDown "Enter" Lod.initialState = Lod.initialState.
Proof.
  assert (H : "Enter"%string <> "Escape"%string) by discriminate.
  split; [ exact H | ].
  exact (proj2 (proj2 (proj2 (proj2 (proj2 (proj2
           (proj1 (proj2 closing_collapses_everything) Lod.initialState))))))
           "Enter"%string H).
Defined.

(** ** Dropdowns and sphere controls *)

Lemma sps_toggle_twice (item : Sps.MenuKey) (st : Sps.State) :
  Sps.toggleDropdown item (Sps.toggleDropdown item st) = st.
Proof.
  destruct st as [? ? ? ? ? ? ? ? ? ? ? ? [l k b t] ? ?].
  destruct item; unfold Sps.toggleDropdown, Sps.setDropdownStates;
    cbn; rewrite negb_involutive; reflexivity.
Qed.

Lemma lod_toggle_twice (item : Lod.MenuKey) (st : Lod.State) :
  Lod.toggleDropdown item (Lod.toggleDropdown item st) = st.
Proof.
  destruct st as [? ? ? ? ? ? ? ? ? ? ? ? ? ? ? [l k b t] ? ?].
  destruct item; unfold Lod.toggleDropdown, Lod.setDropdownStates;
    cbn; rewrite negb_involutive; reflexivity.
Qed.

Lemma menu_toggle_twice (item : MenuHome.MenuKey) (st : MenuHome.State) :
  MenuHome.toggleDropdown item (MenuHome.toggleDropdown item st) = st.
Proof.
  destruct st as [? ? ? ? ? ? [l k b t] ? ?].
  destruct item; unfold MenuHome.toggleDropdown, MenuHome.setDropdownStates;
    cbn; rewrite negb_involutive; reflexivity.
Qed.

(** X6.  Toggling a dropdown twice restores the state, toggles of two
    dropdowns commute, and closing the sidebar after a toggle gives the same
    state as closing it before; in each of the three wheel variants. *)
Theorem dropdown_toggles_compose :
  (forall (a b : Sps.MenuKey) (st : Sps.State),
      Sps.toggleDropdown a (Sps.toggleDropdown a st) = st
      /\ Sps.toggleDropdown a (Sps.toggleDropdown b st)
         = Sps.toggleDropdown b (Sps.toggleDropdown a st)
      /\ Sps.closeSidebar (Sps.toggleDropdown a st) = Sps.closeSidebar st)
  /\ (forall (a b : Lod.MenuKey) (st : Lod.State),
      Lod.toggleDropdown a (Lod.toggleDropdown a st) = st
      /\ Lod.toggleDropdown a (Lod.toggleDropdown b st)
         = Lod.toggleDropdown b (Lod.toggleDropdown a st)
      /\ Lod.closeSidebar (Lod.toggleDropdown a st) = Lod.closeSidebar st)
  /\ (forall (a b : MenuHome.MenuKey) (st : MenuHome.State),
      MenuHome.toggleDropdown a (MenuHome.toggleDropdown a st) = st
      /\ MenuHome.toggleDropdown a (MenuHome.toggleDropdown b st)
         = MenuHome.toggleDropdown b (MenuHome.toggleDropdown a st)
      /\ MenuHome.closeSidebar (MenuHome.toggleDropdown a st)
         = MenuHome.closeSidebar st).
Proof.
  split; [ | split ]; intros a b st.
  - split; [ apply sps_toggle_twice | ].
    split; [ destruct a, b; reflexivity | destruct a; reflexivity ].
  - split; [ apply lod_toggle_twice | ].
    split; [ destruct a, b; reflexivity | destruct a; reflexivity ].
  - split; [ apply menu_toggle_twice | ].
    split; [ destruct a, b; reflexivity | destruct a; reflexivity ].
Qed.






(** ** The registry keeps its anchors *)

Lemma map_identity_same (f : SpherePosition -> SpherePosition)
  (l : list SpherePosition) :
  (forall s, identity (f s) = identity s) ->
  map identity (map f l) = map identity l.
Proof. intros H. rewrite map_map. apply map_ext. exact H. Qed.

Lemma sps_randomizeOne_identity (random : Random) (id : Z)
  (prev : list SpherePosition) :
  forall n, map identity (Sps.randomizeOne random n id prev) = map identity prev.
Proof.
  induction prev as [| s rest IH]; intros n; cbn [Sps.randomizeOne map].
  - reflexivity.
  - destruct (Sphere.id s =? id)%Z; cbn [map]; rewrite IH; reflexivity.
Qed.

Lemma lod_randomizeOne_identity (random : Random) (id : Z)
  (prev : list SpherePosition) :
  forall n, map identity (Lod.randomizeOne random n id prev) = map identity prev.
Proof.
  induction prev as [| s rest IH]; intros n; cbn [Lod.randomizeOne map].
  - reflexivity.
  - destruct (Sphere.id s =? id)%Z; cbn [map]; rewrite IH; reflexivity.
Qed.

Lemma sps_step_identity (st : Sps.State) (e : Sps.Event) :
  map identity (Sps.spheres (Sps.step st e)) = map identity (Sps.spheres st).
Proof.
  assert (R : forall a b, Sps.spheres (Sps.rerunWheelEffect a b) = Sps.spheres b).
  { intros a b. unfold Sps.rerunWheelEffect.
    destruct (eqb _ _ && eqb _ _); reflexivity. }
  unfold Sps.step. rewrite R. destruct e; cbn [Sps.handle]; try reflexivity.
  - by_cases Sps.handleWheel.
  - unfold Sps.handleKeyDown.
    destruct (String.eqb key "Escape" && Sps.sidebarOpen st); reflexivity.
  - unfold Sps.zoomToSphere.
    destruct (findSphere sphereId (Sps.spheres st)); reflexivity.
  - unfold Sps.updateSpherePosition. cbn [Sps.spheres Sps.setSpheres].
    apply map_identity_same. intros s.
    destruct (Sphere.id s =? id)%Z; [ destruct axis | ]; reflexivity.
  - unfold Sps.toggleSphereVisibility. cbn [Sps.spheres Sps.setSpheres].
    apply map_identity_same. intros s.
    destruct (Sphere.id s =? id)%Z; reflexivity.
  - apply sps_randomizeOne_identity.
  - apply sps_randomizeAll_identity.
  - unfold Sps.fireTimer.
    destruct (nth_error (Sps.timers st) n) as [[d] |]; reflexivity.
Qed.

Lemma lod_step_identity (st : Lod.State) (e : Lod.Event) :
  map identity (Lod.spheres (Lod.step st e)) = map identity (Lod.spheres st).
Proof.
  assert (R : forall a b, Lod.spheres (Lod.rerunWheelEffect a b) = Lod.spheres b).
  { intros a b. unfold Lod.rerunWheelEffect.
    destruct (eqb _ _ && eqb _ _); reflexivity. }
  unfold Lod.step. rewrite R. destruct e; cbn [Lod.handle]; try reflexivity.
  - by_cases Lod.handleWheel.
  - unfold Lod.handleKeyDown.
    destruct (String.eqb key "Escape" && Lod.sidebarOpen st); reflexivity.
  - unfold Lod.zoomToSphere, Lod.performZoomToSphere.
    destruct (findSphere sphereId (Lod.spheres st)); [ | reflexivity ].
    destruct (Js.truthyOpt _ && _); reflexivity.
  - unfold Lod.handleAnimationComplete.
    destruct (Lod.pendingTarget st); [ | reflexivity ].
    destruct (_ && _ && _); reflexivity.
  - unfold Lod.updateSpherePosition. cbn [Lod.spheres Lod.setSpheres].
    apply map_identity_same. intros s.
    destruct (Sphere.id s =? id)%Z; [ destruct axis | ]; reflexivity.
  - unfold Lod.toggleSphereVisibility. cbn [Lod.spheres Lod.setSpheres].
    apply map_identity_same. intros s.
    destruct (Sphere.id s =? id)%Z; reflexivity.
  - apply lod_randomizeOne_identity.
  - apply lod_randomizeAll_identity.
  - unfold Lod.fireTimer.
    destruct (nth_error (Lod.timers st) n) as [[d | p sp t] |]; try reflexivity.
    unfold Lod.zoomIn. destruct (findSphere p sp); reflexivity.
Qed.

Lemma initial_identities :
  map Sphere.id initialSpheres
  = [1; 2; 3; 4; 5; 6; 7; 8; 9; 10; 11; 12; 13; 14; 15; 16]%Z
  /\ map Sphere.name initialSpheres = allAppliances
  /\ map Sphere.color initialSpheres = colors.
Proof. repeat split. Qed.

(** X8.  An anchor never changes its id, name or color and no anchor is ever
    added or removed: along every run from the mounted page, in both sphere
    variants, the registry holds the sixteen seeded identities in creation
    order, with the ids 1 to 16 and the names of the catalog. *)
Theorem registry_identities_are_invariant :
  (forall es : list Sps.Event,
      map identity (Sps.spheres (Sps.run Sps.initialState es))
      = map identity initialSpheres)
  /\ (forall es : list Lod.Event,
      map identity (Lod.spheres (Lod.run Lod.initialState es))
      = map identity initialSpheres)
  /\ map Sphere.id initialSpheres
     = [1; 2; 3; 4; 5; 6; 7; 8; 9; 10; 11; 12; 13; 14; 15; 16]%Z
  /\ map Sphere.name initialSpheres = allAppliances
  /\ map Sphere.color initialSpheres = colors.
Proof.
  split; [ | split; [ | exact initial_identities ] ]; intros es.
  - apply (fold_invariant Sps.step
             (fun st => map identity (Sps.spheres st) = map identity initialSpheres)).
    + intros st e H. rewrite sps_step_identity. exact H.
    + reflexivity.
  - apply (fold_invariant Lod.step
             (fun st => map identity (Lod.spheres st) = map identity initialSpheres)).
    + intros st e H. rewrite lod_step_identity. exact H.
    + reflexivity.
Qed.

(** ** Edits of one anchor *)

(** Looking an id up after a map that edits the spheres with one id and
    leaves every id as it is. *)
Lemma findSphere_map_same (k id : Z) (f : SpherePosition -> SpherePosition)
  (l : list SpherePosition) :
  (forall s, Sphere.id (f s) = Sphere.id s) ->
  findSphere k (map (fun s => if (Sphere.id s =? id)%Z then f s else s) l)
  = if (k =? id)%Z then option_map f (findSphere k l) else findSphere k l.
Proof.
  intros Hf. unfold findSphere.
  induction l as [| s l IH]; cbn [map find option_map].
  - destruct (k =? id)%Z; reflexivity.
  - destruct (Sphere.id s =? id)%Z eqn:Es.
    + rewrite Hf. destruct (Sphere.id s =? k)%Z eqn:Ek.
      * apply Z.eqb_eq in Es, Ek. subst.
        rewrite Z.eqb_refl. reflexivity.
      * exact IH.
    + destruct (Sphere.id s =? k)%Z eqn:Ek.
      * apply Z.eqb_eq in Ek. subst k. rewrite Es. reflexivity.
      * exact IH.
Qed.

Lemma map_unknown (id : Z) (f : SpherePosition -> SpherePosition)
  (l : list SpherePosition) :
  unknownId id l ->
  map (fun s => if (Sphere.id s =? id)%Z then f s else s) l = l.
Proof.
  intros H. rewrite <- (map_id l) at 2. apply map_ext_in. intros s Hin.
  replace (Sphere.id s =? id)%Z with false; [ reflexivity | ].
  symmetry. apply Z.eqb_neq. apply H. exact Hin.
Qed.

Lemma withAxis_id (axis : Sps.Axis) (value : R) (s : SpherePosition) :
  Sphere.id (withAxis axis value s) = Sphere.id s.
Proof. destruct axis; reflexivity. Qed.

Lemma toggled_twice (s : SpherePosition) : toggled (toggled s) = s.
Proof. destruct s. unfold toggled. cbn. rewrite negb_involutive. reflexivity. Qed.

Lemma sps_setSpheres_same (st : Sps.State) : Sps.setSpheres (Sps.spheres st) st = st.
Proof. destruct st. reflexivity. Qed.

Lemma sps_set_set (l l' : list SpherePosition) (st : Sps.State) :
  Sps.setSpheres l (Sps.setSpheres l' st) = Sps.setSpheres l st.
Proof. destruct st. reflexivity. Qed.

Lemma sps_spheres_set (l : list SpherePosition) (st : Sps.State) :
  Sps.spheres (Sps.setSpheres l st) = l.
Proof. reflexivity. Qed.

Lemma sps_update_spheres (id : Z) (axis : Sps.Axis) (value : R) (st : Sps.State) :
  Sps.updateSpherePosition id axis value st
  = Sps.setSpheres
      (map (fun s => if (Sphere.id s =? id)%Z then withAxis axis value s else s)
           (Sps.spheres st)) st.
Proof. reflexivity. Qed.

Lemma sps_update_lookup (id : Z) (axis : Sps.Axis) (value : R) (st : Sps.State) :
  let st' := Sps.updateSpherePosition id axis value st in
  findSphere id (Sps.spheres st')
  = option_map (withAxis axis value) (findSphere id (Sps.spheres st))
  /\ (forall id', id' <> id ->
        findSphere id' (Sps.spheres st') = findSphere id' (Sps.spheres st))
  /\ (unknownId id (Sps.spheres st) -> st' = st)
  /\ Sps.updateSpherePosition id axis value st' = st'.
Proof.
  intros st'. subst st'. rewrite !sps_update_spheres.
  cbn [Sps.spheres Sps.setSpheres].
  split; [ | split; [ | split ] ].
  - rewrite (findSphere_map_same id id _ _ (withAxis_id axis value)), Z.eqb_refl.
    reflexivity.
  - intros id' Hne.
    rewrite (findSphere_map_same id' id _ _ (withAxis_id axis value)).
    replace (id' =? id)%Z with false by (symmetry; apply Z.eqb_neq; assumption).
    reflexivity.
  - intros Hu. rewrite map_unknown by assumption. apply sps_setSpheres_same.
  - rewrite sps_set_set.
    apply (f_equal (fun l => Sps.setSpheres l st)).
    rewrite map_map. apply map_ext. intros s.
    destruct (Sphere.id s =? id)%Z eqn:E.
    + rewrite withAxis_id, E. destruct axis; reflexivity.
    + rewrite E. reflexivity.
Qed.

Lemma sps_toggle_lookup (id : Z) (st : Sps.State) :
  let st' := Sps.toggleSphereVisibility id st in
  findSphere id (Sps.spheres st') = option_map toggled (findSphere id (Sps.spheres st))
  /\ (forall id', id' <> id ->
        findSphere id' (Sps.spheres st') = findSphere id' (Sps.spheres st))
  /\ (unknownId id (Sps.spheres st) -> st' = st)
  /\ Sps.toggleSphereVisibility id st' = st.
Proof.
  intros st'. subst st'.
  change (Sps.toggleSphereVisibility id st)
    with (Sps.setSpheres
            (map (fun s => if (Sphere.id s =? id)%Z then toggled s else s)
                 (Sps.spheres st)) st).
  change (Sps.toggleSphereVisibility id ?x)
    with (Sps.setSpheres
            (map (fun s => if (Sphere.id s =? id)%Z then toggled s else s)
                 (Sps.spheres x)) x).
  rewrite !sps_spheres_set.
  split; [ | split; [ | split ] ].
  - rewrite (findSphere_map_same id id toggled _ (fun s => eq_refl)), Z.eqb_refl.
    reflexivity.
  - intros id' Hne.
    rewrite (findSphere_map_same id' id toggled _ (fun s => eq_refl)).
    replace (id' =? id)%Z with false by (symmetry; apply Z.eqb_neq; assumption).
    reflexivity.
  - intros Hu. rewrite map_unknown by assumption. apply sps_setSpheres_same.
  - rewrite sps_set_set. rewrite map_map.
    transitivity (Sps.setSpheres (Sps.spheres st) st);
      [ | apply sps_setSpheres_same ].
    apply (f_equal (fun l => Sps.setSpheres l st)).
    rewrite <- (map_id (Sps.spheres st)) at 2. apply map_ext. intros s.
    destruct (Sphere.id s =? id)%Z eqn:E.
    + change (Sphere.id (toggled s)) with (Sphere.id s). rewrite E.
      apply toggled_twice.
    + rewrite E. reflexivity.
Qed.

Lemma sps_randomizeOne_lookup (random : Random) (id k : Z)
  (prev : list SpherePosition) (n : nat) :
  findSphere k (Sps.randomizeOne random n id prev)
  = if (k =? id)%Z then option_map (spsRedrawn random n) (findSphere k prev)
    else findSphere k prev.
Proof.
  revert n. unfold findSphere.
  induction prev as [| s rest IH]; intros n; cbn [Sps.randomizeOne find option_map].
  - destruct (k =? id)%Z; reflexivity.
  - destruct (Sphere.id s =? id)%Z eqn:Es.
    + cbn [find Sphere.id]. destruct (Sphere.id s =? k)%Z eqn:Ek.
      * apply Z.eqb_eq in Es, Ek. subst. rewrite Z.eqb_refl. reflexivity.
      * destruct (k =? id)%Z eqn:Ekid.
        -- apply Z.eqb_eq in Es, Ekid. subst. rewrite Z.eqb_refl in Ek.
           discriminate.
        -- apply IH.
    + cbn [find]. destruct (Sphere.id s =? k)%Z eqn:Ek.
      * apply Z.eqb_eq in Ek. subst k. rewrite Es. reflexivity.
      * apply IH.
Qed.

Lemma sps_randomizeOne_unknown (random : Random) (id : Z)
  (prev : list SpherePosition) (n : nat) :
  unknownId id prev -> Sps.randomizeOne random n id prev = prev.
Proof.
  revert n. induction prev as [| s rest IH]; intros n Hu; cbn [Sps.randomizeOne].
  - reflexivity.
  - replace (Sphere.id s =? id)%Z with false.
    + f_equal. apply IH. intros s' Hin. apply Hu. right. exact Hin.
    + symmetry. apply Z.eqb_neq. apply Hu. left. reflexivity.
Qed.

Lemma sps_redrawn_within (random : Random) (n : nat) (s : SpherePosition) :
  unitRandom random -> within 6 (-1) 5 (spsRedrawn random n s).
Proof.
  intros Hr. unfold within, spsRedrawn. cbn [Sphere.x Sphere.y Sphere.z].
  pose proof (Hr n). pose proof (Hr (S n)). pose proof (Hr (S (S n))).
  repeat split; lra.
Qed.

Lemma lod_setSpheres_same (st : Lod.State) : Lod.setSpheres (Lod.spheres st) st = st.
Proof. destruct st. reflexivity. Qed.

Lemma lod_set_set (l l' : list SpherePosition) (st : Lod.State) :
  Lod.setSpheres l (Lod.setSpheres l' st) = Lod.setSpheres l st.
Proof. destruct st. reflexivity. Qed.

Lemma lod_spheres_set (l : list SpherePosition) (st : Lod.State) :
  Lod.spheres (Lod.setSpheres l st) = l.
Proof. reflexivity. Qed.

Lemma lod_update_spheres (id : Z) (axis : Lod.Axis) (value : R) (st : Lod.State) :
  Lod.updateSpherePosition id axis value st
  = Lod.setSpheres
      (map (fun s => if (Sphere.id s =? id)%Z then withAxis (fromLodAxis axis) value s else s)
           (Lod.spheres st)) st.
Proof. destruct axis; reflexivity. Qed.

Lemma lod_update_lookup (id : Z) (axis : Lod.Axis) (value : R) (st : Lod.State) :
  let st' := Lod.updateSpherePosition id axis value st in
  findSphere id (Lod.spheres st')
  = option_map (withAxis (fromLodAxis axis) value) (findSphere id (Lod.spheres st))
  /\ (forall id', id' <> id ->
        findSphere id' (Lod.spheres st') = findSphere id' (Lod.spheres st))
  /\ (unknownId id (Lod.spheres st) -> st' = st)
  /\ Lod.updateSpherePosition id axis value st' = st'.
Proof.
  intros st'. subst st'. rewrite !lod_update_spheres.
  cbn [Lod.spheres Lod.setSpheres].
  split; [ | split; [ | split ] ].
  - rewrite (findSphere_map_same id id _ _ (withAxis_id (fromLodAxis axis) value)), Z.eqb_refl.
    reflexivity.
  - intros id' Hne.
    rewrite (findSphere_map_same id' id _ _ (withAxis_id (fromLodAxis axis) value)).
    replace (id' =? id)%Z with false by (symmetry; apply Z.eqb_neq; assumption).
    reflexivity.
  - intros Hu. rewrite map_unknown by assumption. apply lod_setSpheres_same.
  - rewrite lod_set_set.
    apply (f_equal (fun l => Lod.setSpheres l st)).
    rewrite map_map. apply map_ext. intros s.
    destruct (Sphere.id s =? id)%Z eqn:E.
    + rewrite withAxis_id, E. destruct axis; reflexivity.
    + rewrite E. reflexivity.
Qed.

Lemma lod_toggle_lookup (id : Z) (st : Lod.State) :
  let st' := Lod.toggleSphereVisibility id st in
  findSphere id (Lod.spheres st') = option_map toggled (findSphere id (Lod.spheres st))
  /\ (forall id', id' <> id ->
        findSphere id' (Lod.spheres st') = findSphere id' (Lod.spheres st))
  /\ (unknownId id (Lod.spheres st) -> st' = st)
  /\ Lod.toggleSphereVisibility id st' = st.
Proof.
  intros st'. subst st'.
  change (Lod.toggleSphereVisibility id st)
    with (Lod.setSpheres
            (map (fun s => if (Sphere.id s =? id)%Z then toggled s else s)
                 (Lod.spheres st)) st).
  change (Lod.toggleSphereVisibility id ?x)
    with (Lod.setSpheres
            (map (fun s => if (Sphere.id s =? id)%Z then toggled s else s)
                 (Lod.spheres x)) x).
  rewrite !lod_spheres_set.
  split; [ | split; [ | split ] ].
  - rewrite (findSphere_map_same id id toggled _ (fun s => eq_refl)), Z.eqb_refl.
    reflexivity.
  - intros id' Hne.
    rewrite (findSphere_map_same id' id toggled _ (fun s => eq_refl)).
    replace (id' =? id)%Z with false by (symmetry; apply Z.eqb_neq; assumption).
    reflexivity.
  - intros Hu. rewrite map_unknown by assumption. apply lod_setSpheres_same.
  - rewrite lod_set_set. rewrite map_map.
    transitivity (Lod.setSpheres (Lod.spheres st) st);
      [ | apply lod_setSpheres_same ].
    apply (f_equal (fun l => Lod.setSpheres l st)).
    rewrite <- (map_id (Lod.spheres st)) at 2. apply map_ext. intros s.
    destruct (Sphere.id s =? id)%Z eqn:E.
    + change (Sphere.id (toggled s)) with (Sphere.id s). rewrite E.
      apply toggled_twice.
    + rewrite E. reflexivity.
Qed.

Lemma lod_randomizeOne_lookup (random : Random) (id k : Z)
  (prev : list SpherePosition) (n : nat) :
  findSphere k (Lod.randomizeOne random n id prev)
  = if (k =? id)%Z then option_map (lodRedrawn random n) (findSphere k prev)
    else findSphere k prev.
Proof.
  revert n. unfold findSphere.
  induction prev as [| s rest IH]; intros n; cbn [Lod.randomizeOne find option_map].
  - destruct (k =? id)%Z; reflexivity.
  - destruct (Sphere.id s =? id)%Z eqn:Es.
    + cbn [find Sphere.id]. destruct (Sphere.id s =? k)%Z eqn:Ek.
      * apply Z.eqb_eq in Es, Ek. subst. rewrite Z.eqb_refl. reflexivity.
      * destruct (k =? id)%Z eqn:Ekid.
        -- apply Z.eqb_eq in Es, Ekid. subst. rewrite Z.eqb_refl in Ek.
           discriminate.
        -- apply IH.
    + cbn [find]. destruct (Sphere.id s =? k)%Z eqn:Ek.
      * apply Z.eqb_eq in Ek. subst k. rewrite Es. reflexivity.
      * apply IH.
Qed.

Lemma lod_randomizeOne_unknown (random : Random) (id : Z)
  (prev : list SpherePosition) (n : nat) :
  unknownId id prev -> Lod.randomizeOne random n id prev = prev.
Proof.
  revert n. induction prev as [| s rest IH]; intros n Hu; cbn [Lod.randomizeOne].
  - reflexivity.
  - replace (Sphere.id s =? id)%Z with false.
    + f_equal. apply IH. intros s' Hin. apply Hu. right. exact Hin.
    + symmetry. apply Z.eqb_neq. apply Hu. left. reflexivity.
Qed.

Lemma lod_redrawn_within (random : Random) (n : nat) (s : SpherePosition) :
  unitRandom random -> within 8 (-2) 6 (lodRedrawn random n s).
Proof.
  intros Hr. unfold within, lodRedrawn. cbn [Sphere.x Sphere.y Sphere.z].
  pose proof (Hr n). pose proof (Hr (S n)). pose proof (Hr (S (S n))).
  repeat split; lra.
Qed.

(** X9.  Editing one coordinate of an anchor ([updateSpherePosition], both
    scene variants): looking the anchor up afterwards gives the same anchor
    with that coordinate replaced by the value; every other id looks up as
    before; an id that is not in the registry leaves the whole state as it
    was; and repeating the same edit changes nothing more. *)
Theorem coordinate_edit_reads_back (id : Z) (value : R) :
  (forall (axis : Sps.Axis) (st : Sps.State),
      let st' := Sps.updateSpherePosition id axis value st in
      findSphere id (Sps.spheres st')
      = option_map (withAxis axis value) (findSphere id (Sps.spheres st))
      /\ (forall id', id' <> id ->
            findSphere id' (Sps.spheres st') = findSphere id' (Sps.spheres st))
      /\ (unknownId id (Sps.spheres st) -> st' = st)
      /\ Sps.updateSpherePosition id axis value st' = st')
  /\ (forall (axis : Lod.Axis) (st : Lod.State),
      let st' := Lod.updateSpherePosition id axis value st in
      findSphere id (Lod.spheres st')
      = option_map (withAxis (fromLodAxis axis) value)
          (findSphere id (Lod.spheres st))
      /\ (forall id', id' <> id ->
            findSphere id' (Lod.spheres st') = findSphere id' (Lod.spheres st))
      /\ (unknownId id (Lod.spheres st) -> st' = st)
      /\ Lod.updateSpherePosition id axis value st' = st').
Proof.
  split; intros axis st.
  - apply sps_update_lookup.
  - apply lod_update_lookup.
Qed.

Lemma coordinate_edit_reads_back_witness :
  findSphere 4 (Sps.spheres (Sps.updateSpherePosition 4 Sps.axisY 2 Sps.initialState))
  = Some (withAxis Sps.axisY 2 (seedSphere 3))
  /\ findSphere 5 (Sps.spheres (Sps.updateSpherePosition 4 Sps.axisY 2 Sps.initialState))
     = findSphere 5 (Sps.spheres Sps.initialState)
  /\ Lod.updateSpherePosition 99 Lod.axisX 2 Lod.initialState = Lod.initialState.
Proof.
  split; [ | split ].
  - exact (proj1 (proj1 (coordinate_edit_reads_back 4 2) Sps.axisY Sps.initialState)).
  - apply (proj1 (proj2 (proj1 (coordinate_edit_reads_back 4 2) Sps.axisY
                                Sps.initialState))).
    lia.
  - apply (proj1 (proj2 (proj2 (proj2 (coordinate_edit_reads_back 99 2) Lod.axisX
                                       Lod.initialState)))).
    intros s Hin. apply initial_ids in Hin. lia.
Defined.

(** X10.  The visibility switch of one anchor ([toggleSphereVisibility], both
    scene variants): the anchor looks up with its flag negated and everything
    else as it was; every other id looks up as before; an unknown id leaves
    the state as it was; and switching twice restores the state exactly. *)
Theorem visibility_switch_is_an_involution (id : Z) :
  (forall st : Sps.State,
      let st' := Sps.toggleSphereVisibility id st in
      findSphere id (Sps.spheres st')
      = option_map toggled (findSphere id (Sps.spheres st))
      /\ (forall id', id' <> id ->
            findSphere id' (Sps.spheres st') = findSphere id' (Sps.spheres st))
      /\ (unknownId id (Sps.spheres st) -> st' = st)
      /\ Sps.toggleSphereVisibility id st' = st)
  /\ (forall st : Lod.State,
      let st' := Lod.toggleSphereVisibility id st in
      findSphere id (Lod.spheres st')
      = option_map toggled (findSphere id (Lod.spheres st))
      /\ (forall id', id' <> id ->
            findSphere id' (Lod.spheres st') = findSphere id' (Lod.spheres st))
      /\ (unknownId id (Lod.spheres st) -> st' = st)
      /\ Lod.toggleSphereVisibility id st' = st).
Proof.
  split; intros st.
  - apply sps_toggle_lookup.
  - apply lod_toggle_lookup.
Qed.

Lemma visibility_switch_is_an_involution_witness :
  findSphere 4 (Lod.spheres (Lod.toggleSphereVisibility 4 Lod.initialState))
  = Some (toggled (seedSphere 3))
  /\ findSphere 5 (Lod.spheres (Lod.toggleSphereVisibility 4 Lod.initialState))
     = findSphere 5 (Lod.spheres Lod.initialState)
  /\ Sps.toggleSphereVisibility 99 Sps.initialState = Sps.initialState.
Proof.
  split; [ | split ].
  - exact (proj1 (proj2 (visibility_switch_is_an_involution 4) Lod.initialState)).
  - apply (proj1 (proj2 (proj2 (visibility_switch_is_an_involution 4)
                                Lod.initialState))).
    lia.
  - apply (proj1 (proj2 (proj2 (proj1 (visibility_switch_is_an_involution 99)
                                       Sps.initialState)))).
    intros s Hin. apply initial_ids in Hin. lia.
Defined.

(** X11.  Redrawing the position of one anchor ([resetSpherePosition], both
    scene variants), with a random source that returns values in [0, 1): the
    anchor looks up with its id, name, colour and visibility kept and with
    coordinates made of the first three draws, inside the 12 x 6 x 12 box of
    the positioning scene (x, z in [-6, 6], y in [-1, 5]) and the 16 x 8 x 16
    box of the level-of-detail scene (x, z in [-8, 8], y in [-2, 6]); every
    other id looks up as before, and an unknown id leaves the state as it
    was. *)
Theorem single_redraw_touches_one_anchor (random : Random) (id : Z) :
  unitRandom random ->
  (forall st : Sps.State,
      let st' := Sps.resetSpherePosition random id st in
      findSphere id (Sps.spheres st')
      = option_map (spsRedrawn random 0) (findSphere id (Sps.spheres st))
      /\ (forall s, findSphere id (Sps.spheres st') = Some s -> within 6 (-1) 5 s)
      /\ (forall id', id' <> id ->
            findSphere id' (Sps.spheres st') = findSphere id' (Sps.spheres st))
      /\ (unknownId id (Sps.spheres st) -> st' = st))
  /\ (forall st : Lod.State,
      let st' := Lod.resetSpherePosition random id st in
      findSphere id (Lod.spheres st')
      = option_map (lodRedrawn random 0) (findSphere id (Lod.spheres st))
      /\ (forall s, findSphere id (Lod.spheres st') = Some s -> within 8 (-2) 6 s)
      /\ (forall id', id' <> id ->
            findSphere id' (Lod.spheres st') = findSphere id' (Lod.spheres st))
      /\ (unknownId id (Lod.spheres st) -> st' = st)).
Proof.
  intros Hr. split; intros st st'; subst st'.
  - unfold Sps.resetSpherePosition. rewrite !sps_spheres_set.
    split; [ | split; [ | split ] ].
    + rewrite sps_randomizeOne_lookup, Z.eqb_refl. reflexivity.
    + intros s. rewrite sps_randomizeOne_lookup, Z.eqb_refl.
      destruct (findSphere id (Sps.spheres st)) as [s0 |]; cbn [option_map];
        [ | discriminate ].
      intros [= <-]. apply sps_redrawn_within. exact Hr.
    + intros id' Hne. rewrite sps_randomizeOne_lookup.
      replace (id' =? id)%Z with false by (symmetry; apply Z.eqb_neq; assumption).
      reflexivity.
    + intros Hu. rewrite sps_randomizeOne_unknown by assumption.
      apply sps_setSpheres_same.
  - unfold Lod.resetSpherePosition. rewrite !lod_spheres_set.
    split; [ | split; [ | split ] ].
    + rewrite lod_randomizeOne_lookup, Z.eqb_refl. reflexivity.
    + intros s. rewrite lod_randomizeOne_lookup, Z.eqb_refl.
      destruct (findSphere id (Lod.spheres st)) as [s0 |]; cbn [option_map];
        [ | discriminate ].
      intros [= <-]. apply lod_redrawn_within. exact Hr.
    + intros id' Hne. rewrite lod_randomizeOne_lookup.
      replace (id' =? id)%Z with false by (symmetry; apply Z.eqb_neq; assumption).
      reflexivity.
    + intros Hu. rewrite lod_randomizeOne_unknown by assumption.
      apply lod_setSpheres_same.
Qed.

Lemma single_redraw_touches_one_anchor_witness :
  unitRandom (fun _ => 1 / 2)
  /\ findSphere 4 (Sps.spheres (Sps.resetSpherePosition (fun _ => 1 / 2) 4
                                  Sps.initialState))
     = Some (spsRedrawn (fun _ => 1 / 2) 0 (seedSphere 3))
  /\ findSphere 4 (Lod.spheres (Lod.resetSpherePosition (fun _ => 1 / 2) 4
                                  Lod.initialState))
     = Some (lodRedrawn (fun _ => 1 / 2) 0 (seedSphere 3)).
Proof.
  assert (Hr : unitRandom (fun _ => 1 / 2)) by (intros n; lra).
  split; [ exact Hr | ]. split.
  - exact (proj1 (proj1 (single_redraw_touches_one_anchor (fun _ => 1 / 2) 4 Hr)
                        Sps.initialState)).
  - exact (proj1 (proj2 (single_redraw_touches_one_anchor (fun _ => 1 / 2) 4 Hr)
                        Lod.initialState)).
Defined.

(** ** The camera director along a whole session *)

Lemma director_inv_initial : directorInv Lod.initialState.
Proof.
  unfold directorInv. cbn [Lod.initialState Lod.spheres Lod.focusedSphere
    Lod.cameraMode Lod.transitionPhase Lod.pendingTarget].
  split; [ reflexivity | ]. split; [ discriminate | ].
  split; [ discriminate | ]. split; [ discriminate | ].
  split; [ discriminate | ]. constructor.
Qed.

Lemma director_inv_of (st st' : Lod.State) :
  directorState st' = directorState st ->
  map Sphere.id (Lod.spheres st') = map Sphere.id (Lod.spheres st) ->
  zoomIns st' = zoomIns st ->
  directorInv st -> directorInv st'.
Proof.
  unfold directorState, directorInv. intros Hd Hs Hz.
  injection Hd as -> -> -> ->. rewrite Hs, Hz. tauto.
Qed.

Lemma registered_nonzero (a : Z) : registered a -> a <> 0%Z.
Proof.
  unfold registered. rewrite in_map_iff. intros (s & <- & Hin).
  apply initial_ids in Hin. lia.
Qed.

Lemma director_inv_handle (e : Lod.Event) (st : Lod.State) :
  directorInv st -> directorInv (Lod.handle e st).
Proof.
  intros Hinv.
  destruct (userCamera e) eqn:Hu.
  - destruct e; try discriminate Hu; cbn [Lod.handle].
    + (* zoomToSphere *)
      destruct Hinv as (Hids & Hf & Hph & Htr & Hp & Hz).
      unfold Lod.zoomToSphere.
      destruct (findSphere sphereId (Lod.spheres st)) as [s |] eqn:Hs;
        [ | unfold directorInv; tauto ].
      assert (Hreg : registered sphereId).
      { unfold registered. rewrite <- Hids. exact (findSphere_id _ _ _ Hs). }
      destruct (Js.truthyOpt (Lod.focusedSphere st)
                && negb (Js.eqOpt (Lod.focusedSphere st) sphereId)).
      * unfold directorInv, zoomIns, Lod.setTimeout.
        cbn [Lod.spheres Lod.focusedSphere Lod.cameraMode Lod.transitionPhase
             Lod.pendingTarget Lod.timers Lod.setTimers Lod.setShowNotification
             Lod.setNotificationText Lod.setCameraTarget Lod.setFocusedSphere
             Lod.setTransitionPhase Lod.setPendingTarget Lod.setCameraMode].
        rewrite zoomIns_snoc_hide.
        split; [ exact Hids | ]. split; [ discriminate | ].
        split; [ discriminate | ].
        split; [ intros _; split; [ reflexivity | discriminate ] | ].
        split; [ intros a [= <-]; exact Hreg | exact Hz ].
      * unfold Lod.performZoomToSphere. rewrite Hs.
        unfold directorInv, zoomIns, Lod.setTimeout.
        cbn [Lod.spheres Lod.focusedSphere Lod.cameraMode Lod.transitionPhase
             Lod.pendingTarget Lod.timers Lod.setTimers Lod.setShowNotification
             Lod.setNotificationText Lod.setCameraTarget Lod.setFocusedSphere
             Lod.setTransitionPhase Lod.setPendingTarget Lod.setCameraMode].
        rewrite zoomIns_snoc_hide.
        split; [ exact Hids | ]. split; [ split; [ reflexivity | exact Hreg ] | ].
        split; [ exact Hph | ].
        split; [ discriminate | ]. split; [ exact Hp | exact Hz ].
    + (* resetCamera *)
      destruct Hinv as (Hids & Hf & Hph & Htr & Hp & Hz).
      unfold directorInv, zoomIns, Lod.resetCamera, Lod.setTimeout.
      cbn [Lod.spheres Lod.focusedSphere Lod.cameraMode Lod.transitionPhase
           Lod.pendingTarget Lod.timers Lod.setTimers Lod.setShowNotification
           Lod.setNotificationText Lod.setCameraTarget Lod.setFocusedSphere
           Lod.setTransitionPhase Lod.setPendingTarget Lod.setCameraMode].
      rewrite zoomIns_snoc_hide.
      split; [ exact Hids | ]. split; [ discriminate | ].
      split; [ discriminate | ]. split; [ discriminate | ].
      split; [ discriminate | exact Hz ].
  - destruct (event_kinds e Hu) as [Hamb | [-> | [n ->]]].
    + destruct (lod_ambient_step e st Hamb) as (Hd & Hs & Hz).
      unfold Lod.step in Hd, Hs, Hz.
      destruct (lod_rerun_director st (Lod.handle e st)) as (Hr1 & Hr2 & Hr3 & _).
      rewrite Hr1 in Hd. rewrite Hr2 in Hs. rewrite Hr3 in Hz.
      exact (director_inv_of _ _ Hd Hs Hz Hinv).
    + (* the camera reports completion *)
      destruct Hinv as (Hids & Hf & Hph & Htr & Hp & Hz).
      cbn [Lod.handle]. unfold Lod.handleAnimationComplete.
      destruct (Lod.pendingTarget st) as [target |] eqn:Hpt.
      * destruct (Lod.CameraMode_eqb (Lod.cameraMode st) Lod.transitioning
                  && Lod.TransitionPhase_eqb (Lod.transitionPhase st) Lod.zoom_out
                  && Js.truthy target).
        -- unfold directorInv, zoomIns, Lod.setTimeout.
           cbn [Lod.spheres Lod.focusedSphere Lod.cameraMode Lod.transitionPhase
                Lod.pendingTarget Lod.timers Lod.setTimers Lod.setCameraTarget].
           rewrite Hpt, filter_app. cbn [filter isZoomIn].
           split; [ exact Hids | ]. split; [ exact Hf | ].
           split; [ exact Hph | ]. split; [ exact Htr | ].
           split; [ exact Hp | ].
           apply Forall_app. split; [ exact Hz | ].
           constructor; [ | constructor ].
           cbn [zoomInFinds]. rewrite Hids.
           split; exact (Hp target eq_refl).
        -- unfold directorInv, zoomIns.
           cbn [Lod.spheres Lod.focusedSphere Lod.cameraMode Lod.transitionPhase
                Lod.pendingTarget Lod.timers Lod.setCameraTarget].
           rewrite Hpt. tauto.
      * unfold directorInv, zoomIns.
        cbn [Lod.spheres Lod.focusedSphere Lod.cameraMode Lod.transitionPhase
             Lod.pendingTarget Lod.timers Lod.setCameraTarget].
        rewrite Hpt. tauto.
    + (* a timer runs out *)
      cbn [Lod.handle]. unfold Lod.fireTimer.
      destruct (nth_error (Lod.timers st) n) as [t |] eqn:Hn; [ | exact Hinv ].
      destruct Hinv as (Hids & Hf & Hph & Htr & Hp & Hz).
      assert (Hz' : Forall zoomInFinds
                      (filter isZoomIn
                         (firstn n (Lod.timers st) ++ skipn (S n) (Lod.timers st))))
        by (apply filter_remove_Forall; exact Hz).
      destruct t as [d | p sp rot].
      * unfold directorInv, zoomIns.
        cbn [Lod.spheres Lod.focusedSphere Lod.cameraMode Lod.transitionPhase
             Lod.pendingTarget Lod.timers Lod.setTimers Lod.setShowNotification].
        tauto.
      * assert (Hfind : In p (map Sphere.id sp) /\ registered p).
        { apply nth_error_In in Hn.
          assert (Hin : In (Lod.ZoomIn p sp rot) (zoomIns st))
            by (apply filter_In; split; [ exact Hn | reflexivity ]).
          exact (proj1 (Forall_forall _ _) Hz _ Hin). }
        destruct (zoomIn_focuses p sp rot
                    (Lod.setTimers
                       (firstn n (Lod.timers st) ++ skipn (S n) (Lod.timers st)) st)
                    (proj1 Hfind)) as (Hd & _ & Hsp & Hzi).
        unfold directorState in Hd.
        assert (Hm := f_equal (fun x => fst (fst (fst x))) Hd).
        assert (Hfo := f_equal (fun x => snd (fst (fst x))) Hd).
        assert (Hpe := f_equal (fun x => snd (fst x)) Hd).
        assert (Hph' := f_equal snd Hd).
        cbn [fst snd] in Hm, Hfo, Hpe, Hph'.
        unfold directorInv. rewrite Hm, Hfo, Hpe, Hph', Hsp, Hzi.
        split; [ exact Hids | ].
        split.
        { split; [ reflexivity | exact (proj2 Hfind) ]. }
        split; [ discriminate | ]. split; [ discriminate | ].
        split; [ discriminate | exact Hz' ].
Qed.

Lemma director_inv_step (e : Lod.Event) (st : Lod.State) :
  directorInv st -> directorInv (Lod.step st e).
Proof.
  intros Hinv. unfold Lod.step.
  destruct (lod_rerun_director st (Lod.handle e st)) as (Hd & Hs & Hz & _).
  refine (director_inv_of _ _ Hd _ Hz (director_inv_handle e st Hinv)).
  rewrite Hs. reflexivity.
Qed.

Lemma director_inv_run (es : list Lod.Event) :
  forall st, directorInv st -> directorInv (Lod.run st es).
Proof.
  induction es as [| e es IH]; intros st H.
  - exact H.
  - rewrite run_cons. apply IH. apply director_inv_step. exact H.
Qed.

Lemma registered_range (a : Z) : registered a -> (1 <= a <= 16)%Z.
Proof.
  unfold registered. rewrite in_map_iff. intros (s & <- & Hin).
  apply initial_ids. exact Hin.
Qed.

(** X12.  In every session of the level-of-detail scene, from the mount on
    and after any events: the camera mode is [focused] exactly when an anchor
    is focused; a focused anchor is one of the sixteen of the registry and is
    found in it; the [zoom_in] phase is never left standing between two
    events; while the mode is [transitioning] the phase is [zoom_out] and the
    pending target is one of the sixteen; and every scheduled zoom-in callback
    finds its anchor in the registry it captured, so its [if (sphere)] guard
    never skips the focus. *)
Theorem director_is_consistent_along_sessions (es : list Lod.Event) :
  let st := Lod.run Lod.initialState es in
  (Lod.cameraMode st = Lod.focused <-> exists a, Lod.focusedSphere st = Some a)
  /\ (forall a, Lod.focusedSphere st = Some a ->
        (1 <= a <= 16)%Z /\ exists s, findSphere a (Lod.spheres st) = Some s)
  /\ Lod.transitionPhase st <> Lod.zoom_in
  /\ (Lod.cameraMode st = Lod.transitioning ->
        Lod.transitionPhase st = Lod.zoom_out
        /\ exists a, Lod.pendingTarget st = Some a /\ (1 <= a <= 16)%Z)
  /\ (forall n p sp rot,
        nth_error (Lod.timers st) n = Some (Lod.ZoomIn p sp rot) ->
        exists s, findSphere p sp = Some s).
Proof.
  intros st.
  destruct (director_inv_run es _ director_inv_initial)
    as (Hids & Hf & Hph & Htr & Hp & Hz).
  fold st in Hids, Hf, Hph, Htr, Hp, Hz.
  split; [ | split; [ | split; [ exact Hph | split ] ] ].
  - destruct (Lod.focusedSphere st) as [a |].
    + split; [ intros _; exists a; reflexivity | intros _; exact (proj1 Hf) ].
    + split; [ intros H; contradiction | intros [a H]; discriminate H ].
  - intros a Ha. rewrite Ha in Hf. destruct Hf as [_ Hreg].
    split; [ exact (registered_range a Hreg) | ].
    apply findSphere_known. rewrite Hids. exact Hreg.
  - intros Hm. destruct (Htr Hm) as [Hzo Hpt].
    split; [ exact Hzo | ].
    destruct (Lod.pendingTarget st) as [a |] eqn:E; [ | contradiction ].
    exists a. split; [ reflexivity | ].
    apply registered_range. apply Hp. reflexivity.
  - intros n p sp rot Hn. apply findSphere_known.
    apply nth_error_In in Hn.
    assert (Hin : In (Lod.ZoomIn p sp rot) (zoomIns st))
      by (apply filter_In; split; [ exact Hn | reflexivity ]).
    exact (proj1 (proj1 (Forall_forall _ _) Hz _ Hin)).
Qed.

Lemma director_is_consistent_along_sessions_witness :
  let st := Lod.run Lod.initialState [Lod.ZoomToSphere 5; Lod.ZoomToSphere 7] in
  Lod.cameraMode st = Lod.transitioning
  /\ Lod.transitionPhase st = Lod.zoom_out
  /\ exists a, Lod.pendingTarget st = Some a /\ (1 <= a <= 16)%Z.
Proof.
  intros st.
  assert (Hm : Lod.cameraMode st = Lod.transitioning) by reflexivity.
  split; [ exact Hm | ].
  exact (proj1 (proj2 (proj2 (proj2
           (director_is_consistent_along_sessions
              [Lod.ZoomToSphere 5; Lod.ZoomToSphere 7])))) Hm).
Defined.

(** ** A scheduled zoom-in outlives the return to overview *)

Lemma lod_step_reset (st : Lod.State) :
  directorState (Lod.step st Lod.ResetCamera) = (Lod.overview, None, None, Lod.none)
  /\ Lod.timers (Lod.step st Lod.ResetCamera)
     = Lod.timers st ++ [Lod.HideNotification 2000]
  /\ Lod.cameraTarget (Lod.step st Lod.ResetCamera)
     = {| Target.position := (0, 3, 8 - (Lod.modelScale st - 1.5) * 1.5);
          Target.lookAt := (0, 0, 0);
          Target.animating := true |}.
Proof.
  unfold Lod.step.
  destruct (lod_rerun_director st (Lod.handle Lod.ResetCamera st))
    as (-> & _ & _ & ->).
  destruct (lod_rerun_keeps st (Lod.handle Lod.ResetCamera st))
    as (_ & _ & _ & _ & _ & -> & _).
  repeat split.
Qed.

(** X13.  [resetCamera] does not cancel a scheduled zoom-in callback.  With a
    zoom-in for anchor [p] pending (and [p] in the registry the callback
    captured), the reset puts the director in overview with no focus and no
    pending target and points the camera at the overview pose; the callback
    is still in the queue at the same place, and when it fires the scene is
    focused on [p] again, with a new camera animation requested. *)
Theorem reset_does_not_cancel_zoom_in (st : Lod.State) (n : nat) (p : Z)
  (sp : list SpherePosition) (rot : R) :
  nth_error (Lod.timers st) n = Some (Lod.ZoomIn p sp rot) ->
  In p (map Sphere.id sp) ->
  let st1 := Lod.step st Lod.ResetCamera in
  let st2 := Lod.step st1 (Lod.TimerFires n) in
  directorState st1 = (Lod.overview, None, None, Lod.none)
  /\ Target.position (Lod.cameraTarget st1)
     = (0, 3, 8 - (Lod.modelScale st - 1.5) * 1.5)
  /\ nth_error (Lod.timers st1) n = Some (Lod.ZoomIn p sp rot)
  /\ directorState st2 = (Lod.focused, Some p, None, Lod.none)
  /\ Target.animating (Lod.cameraTarget st2) = true.
Proof.
  intros Hn Hin st1 st2.
  destruct (lod_step_reset st) as (Hd & Ht & Hc). fold st1 in Hd, Ht, Hc.
  assert (Hn1 : nth_error (Lod.timers st1) n = Some (Lod.ZoomIn p sp rot)).
  { rewrite Ht, nth_error_app1; [ exact Hn | ].
    apply nth_error_Some. rewrite Hn. discriminate. }
  split; [ exact Hd | ]. split; [ rewrite Hc; reflexivity | ].
  split; [ exact Hn1 | ].
  subst st2. unfold Lod.step.
  destruct (lod_rerun_director st1 (Lod.handle (Lod.TimerFires n) st1))
    as (-> & _ & _ & ->).
  cbn [Lod.handle]. unfold Lod.fireTimer. rewrite Hn1.
  destruct (zoomIn_focuses p sp rot
              (Lod.setTimers
                 (firstn n (Lod.timers st1) ++ skipn (S n) (Lod.timers st1)) st1)
              Hin) as (H1 & H2 & _).
  split; assumption.
Qed.

Lemma reset_does_not_cancel_zoom_in_witness :
  let st :=
    Lod.run Lod.initialState
      [Lod.ZoomToSphere 5; Lod.ZoomToSphere 7; Lod.AnimationComplete] in
  nth_error (Lod.timers st) 2 = Some (Lod.ZoomIn 7 initialSpheres 0)
  /\ directorState (Lod.step st Lod.ResetCamera) = (Lod.overview, None, None, Lod.none)
  /\ directorState (Lod.step (Lod.step st Lod.ResetCamera) (Lod.TimerFires 2))
     = (Lod.focused, Some 7%Z, None, Lod.none).
Proof.
  intros st.
  assert (Hn : nth_error (Lod.timers st) 2 = Some (Lod.ZoomIn 7 initialSpheres 0))
    by reflexivity.
  pose proof (reset_does_not_cancel_zoom_in st 2 7 initialSpheres 0 Hn
                seven_in_registry) as (H1 & _ & _ & H2 & _).
  split; [ exact Hn | ]. split; [ exact H1 | exact H2 ].
Defined.

(** ** Geometry of the focus pose *)

(** [Math.atan2(b, a)] is the polar angle of [(a, b)]. *)
Lemma atan2_polar (b a : R) :
  sqrt (a ^ 2 + b ^ 2) * cos (Js.atan2 b a) = a
  /\ sqrt (a ^ 2 + b ^ 2) * sin (Js.atan2 b a) = b.
Proof.
  assert (Hpos : forall t, 0 < 1 + t ^ 2) by (intros t; nra).
  assert (Hs : forall t, 0 < sqrt (1 + t ^ 2)) by (intros t; apply sqrt_lt_R0, Hpos).
  assert (Hq : forall t, sqrt (1 + t ^ 2) * sqrt (1 + t ^ 2) = 1 + t ^ 2)
    by (intros t; apply sqrt_sqrt; specialize (Hpos t); lra).
  assert (Hc : forall t, cos (atan t) = 1 / sqrt (1 + t ^ 2)).
  { intros t. rewrite cos_atan. unfold Rsqr. repeat f_equal. ring. }
  assert (Hsn : forall t, sin (atan t) = t / sqrt (1 + t ^ 2)).
  { intros t. rewrite sin_atan. unfold Rsqr. repeat f_equal. ring. }
  unfold Js.atan2.
  destruct (Rlt_dec 0 a) as [Ha | Ha].
  - assert (Hr : sqrt (a ^ 2 + b ^ 2) = a * sqrt (1 + (b / a) ^ 2)).
    { pose proof (Hs (b / a)) as Hsq. pose proof (Hq (b / a)) as Hqq.
      apply sqrt_lem_1; [ nra | nra | ].
      replace (a * sqrt (1 + (b / a) ^ 2) * (a * sqrt (1 + (b / a) ^ 2)))
        with (a ^ 2 * (sqrt (1 + (b / a) ^ 2) * sqrt (1 + (b / a) ^ 2))) by ring.
      rewrite Hqq. field. lra. }
    rewrite Hr, Hc, Hsn. pose proof (Hs (b / a)). split; field; lra.
  - destruct (Rlt_dec a 0) as [Ha' | Ha'].
    + assert (Hr : sqrt (a ^ 2 + b ^ 2) = - a * sqrt (1 + (b / a) ^ 2)).
      { pose proof (Hs (b / a)) as Hsq. pose proof (Hq (b / a)) as Hqq.
        apply sqrt_lem_1; [ nra | nra | ].
        replace (- a * sqrt (1 + (b / a) ^ 2) * (- a * sqrt (1 + (b / a) ^ 2)))
          with (a ^ 2 * (sqrt (1 + (b / a) ^ 2) * sqrt (1 + (b / a) ^ 2))) by ring.
        rewrite Hqq. field. lra. }
      pose proof (Hs (b / a)).
      destruct (Rle_dec 0 b).
      * rewrite neg_cos, neg_sin, Hr, Hc, Hsn. split; field; lra.
      * unfold Rminus. rewrite cos_plus, sin_plus, cos_neg, sin_neg, cos_PI, sin_PI.
        rewrite Hr, Hc, Hsn. split; field; lra.
    + assert (a = 0) by lra. subst a.
      replace (0 ^ 2 + b ^ 2) with (b ^ 2) by ring.
      destruct (Rlt_dec 0 b) as [Hb | Hb].
      * rewrite cos_PI2, sin_PI2.
        replace (b ^ 2) with (b * b) by ring. rewrite sqrt_square by lra.
        split; ring.
      * destruct (Rlt_dec b 0) as [Hb' | Hb'].
        -- rewrite cos_neg, sin_neg, cos_PI2, sin_PI2.
           replace (b ^ 2) with ((- b) * (- b)) by ring. rewrite sqrt_square by lra.
           split; ring.
        -- assert (b = 0) by lra. subst b.
           rewrite cos_0, sin_0. replace (0 ^ 2) with 0 by ring. rewrite sqrt_0.
           split; ring.
Qed.

(** A point placed at horizontal distance [d] from [(wx, wz)] in the direction
    of its polar angle turned by [phi]. *)
Lemma offset_radius (wx wz d phi : R) :
  let angle := Js.atan2 wz wx + phi in
  (wx + d * cos angle) ^ 2 + (wz + d * sin angle) ^ 2
  = wx ^ 2 + wz ^ 2 + d ^ 2 + 2 * d * sqrt (wx ^ 2 + wz ^ 2) * cos phi.
Proof.
  intros angle. subst angle.
  destruct (atan2_polar wz wx) as [Hx Hz].
  set (t := Js.atan2 wz wx) in *. set (r := sqrt (wx ^ 2 + wz ^ 2)) in *.
  rewrite cos_plus, sin_plus.
  pose proof (sin2_cos2 t) as Ht. pose proof (sin2_cos2 phi) as Hp.
  unfold Rsqr in Ht, Hp.
  rewrite <- Hx at 1 2. rewrite <- Hz at 1 2.
  replace ((r * cos t + d * (cos t * cos phi - sin t * sin phi)) ^ 2
           + (r * sin t + d * (sin t * cos phi + cos t * sin phi)) ^ 2)
    with ((r ^ 2 + d ^ 2 * (sin phi * sin phi + cos phi * cos phi)
           + 2 * d * r * cos phi) * (sin t * sin t + cos t * cos t)) by ring.
  replace ((r * cos t) ^ 2 + (r * sin t) ^ 2)
    with (r ^ 2 * (sin t * sin t + cos t * cos t)) by ring.
  rewrite Ht, Hp. ring.
Qed.

Lemma rotateY_radius (s : SpherePosition) (t : R) :
  axisDistance2 (rotateY s t) = Js.pow2 (Sphere.x s) + Js.pow2 (Sphere.z s)
  /\ c1 (rotateY s t) = Sphere.y s.
Proof.
  unfold axisDistance2, rotateY, c0, c1, c2, Js.pow2. cbn [fst snd].
  split; [ | reflexivity ].
  pose proof (sin2_cos2 t) as Ht. unfold Rsqr in Ht.
  replace ((Sphere.x s * cos t - Sphere.z s * sin t) ^ 2
           + (Sphere.x s * sin t + Sphere.z s * cos t) ^ 2)
    with ((Sphere.x s ^ 2 + Sphere.z s ^ 2) * (sin t * sin t + cos t * cos t))
    by ring.
  rewrite Ht. ring.
Qed.

Lemma anchorRadius_sq (s : SpherePosition) :
  anchorRadius s ^ 2 = Js.pow2 (Sphere.x s) + Js.pow2 (Sphere.z s).
Proof.
  unfold anchorRadius, Js.pow2.
  replace (sqrt (Sphere.x s ^ 2 + Sphere.z s ^ 2) ^ 2)
    with (sqrt (Sphere.x s ^ 2 + Sphere.z s ^ 2)
          * sqrt (Sphere.x s ^ 2 + Sphere.z s ^ 2)) by ring.
  apply sqrt_sqrt. nra.
Qed.

Lemma rotateY_polar_radius (s : SpherePosition) (t : R) :
  sqrt (c0 (rotateY s t) ^ 2 + c2 (rotateY s t) ^ 2) = anchorRadius s.
Proof.
  unfold anchorRadius. f_equal. exact (proj1 (rotateY_radius s t)).
Qed.

(** The pose a focus request computes, from the anchor, the rotation, the
    horizontal distance, the height and the turn of the polar angle. *)
Lemma focus_pose (s : SpherePosition) (t d h phi : R) :
  let look := rotateY s t in
  let angle := Js.atan2 (c2 look) (c0 look) + phi in
  let pos := (c0 look + d * cos angle, c1 look + h, c2 look + d * sin angle) in
  sumsq pos look = d ^ 2 + h ^ 2
  /\ c1 pos = Sphere.y s + h
  /\ axisDistance2 look = anchorRadius s ^ 2
  /\ axisDistance2 pos
     = anchorRadius s ^ 2 + d ^ 2 + 2 * d * anchorRadius s * cos phi.
Proof.
  intros look angle pos.
  split; [ | split; [ | split ] ].
  - unfold sumsq, pos, c0, c1, c2, Js.pow2. cbn [fst snd].
    pose proof (sin2_cos2 angle) as Ha. unfold Rsqr in Ha.
    replace ((fst (fst look) + d * cos angle - fst (fst look)) ^ 2
             + (snd (fst look) + h - snd (fst look)) ^ 2
             + (snd look + d * sin angle - snd look) ^ 2)
      with (d ^ 2 * (sin angle * sin angle + cos angle * cos angle) + h ^ 2)
      by ring.
    rewrite Ha. ring.
  - reflexivity.
  - rewrite anchorRadius_sq. exact (proj1 (rotateY_radius s t)).
  - unfold axisDistance2, pos, Js.pow2.
    change (c0 (?a, ?b, ?c)) with a. change (c2 (?a, ?b, ?c)) with c.
    subst angle look. rewrite offset_radius.
    rewrite (rotateY_polar_radius s t).
    change (c0 (rotateY s t) ^ 2 + c2 (rotateY s t) ^ 2)
      with (axisDistance2 (rotateY s t)).
    rewrite (proj1 (rotateY_radius s t)), <- anchorRadius_sq. ring.
Qed.

Lemma sps_zoom_pose (sphereId : Z) (s : SpherePosition) (st : Sps.State) :
  findSphere sphereId (Sps.spheres st) = Some s ->
  Sps.cameraTarget (Sps.zoomToSphere sphereId st)
  = let look := rotateY s (Sps.targetRotation st) in
    let angle := Js.atan2 (c2 look) (c0 look) + PI / 3 in
    {| Target.position :=
         (c0 look + 1.5 * cos angle, c1 look + 0.8, c2 look + 1.5 * sin angle);
       Target.lookAt := look;
       Target.animating := true |}.
Proof. intros H. unfold Sps.zoomToSphere. rewrite H. reflexivity. Qed.

Lemma lod_perform_pose (sphereId : Z) (s : SpherePosition) (st : Lod.State) :
  findSphere sphereId (Lod.spheres st) = Some s ->
  Lod.cameraTarget (Lod.performZoomToSphere sphereId st)
  = let look := rotateY s (Lod.targetRotation st) in
    let angle := Js.atan2 (c2 look) (c0 look) + PI / 4 in
    {| Target.position :=
         (c0 look + 0.8 * cos angle, c1 look + 0.3, c2 look + 0.8 * sin angle);
       Target.lookAt := look;
       Target.animating := true |}.
Proof. intros H. unfold Lod.performZoomToSphere. rewrite H. reflexivity. Qed.

Lemma lod_zoomIn_pose (p : Z) (s : SpherePosition) (sp : list SpherePosition)
  (rot : R) (st : Lod.State) :
  findSphere p sp = Some s ->
  Lod.cameraTarget (Lod.zoomIn p sp rot st)
  = let look := rotateY s rot in
    let angle := Js.atan2 (c2 look) (c0 look) + PI / 4 in
    {| Target.position :=
         (c0 look + 0.8 * cos angle, c1 look + 0.3, c2 look + 0.8 * sin angle);
       Target.lookAt := look;
       Target.animating := true |}.
Proof. intros H. unfold Lod.zoomIn. rewrite H. reflexivity. Qed.

(** X14.  The pose a focus request asks the camera for.  In the positioning
    scene the camera target is exactly 1.7 away from the anchor's world
    position, 0.8 above it, and its distance from the vertical axis, squared,
    is [r^2 + 1.5 r + 2.25] for an anchor at distance [r] from the axis: the
    camera is asked to stand outside the anchor and look inwards.  In the
    level-of-detail scene ([performZoomToSphere] and the deferred zoom-in) the
    squared distance to the anchor is 0.73, the height 0.3 and the squared
    axis distance [r^2 + 1.6 r / sqrt 2 + 0.64].  A rotation of the model
    never changes the anchor's distance from the axis. *)
Theorem focus_pose_geometry (sphereId : Z) (s : SpherePosition) :
  (forall st : Sps.State,
      findSphere sphereId (Sps.spheres st) = Some s ->
      let t := Sps.cameraTarget (Sps.zoomToSphere sphereId st) in
      distance (Target.position t) (Target.lookAt t) = 1.7
      /\ c1 (Target.position t) = Sphere.y s + 0.8
      /\ axisDistance2 (Target.lookAt t) = anchorRadius s ^ 2
      /\ axisDistance2 (Target.position t)
         = anchorRadius s ^ 2 + 1.5 * anchorRadius s + 2.25)
  /\ (forall st : Lod.State,
      findSphere sphereId (Lod.spheres st) = Some s ->
      let t := Lod.cameraTarget (Lod.performZoomToSphere sphereId st) in
      sumsq (Target.position t) (Target.lookAt t) = 0.73
      /\ c1 (Target.position t) = Sphere.y s + 0.3
      /\ axisDistance2 (Target.lookAt t) = anchorRadius s ^ 2
      /\ axisDistance2 (Target.position t)
         = anchorRadius s ^ 2 + 1.6 * anchorRadius s / sqrt 2 + 0.64)
  /\ (forall (sp : list SpherePosition) (rot : R) (st : Lod.State),
      findSphere sphereId sp = Some s ->
      let t := Lod.cameraTarget (Lod.zoomIn sphereId sp rot st) in
      sumsq (Target.position t) (Target.lookAt t) = 0.73
      /\ c1 (Target.position t) = Sphere.y s + 0.3
      /\ axisDistance2 (Target.lookAt t) = anchorRadius s ^ 2
      /\ axisDistance2 (Target.position t)
         = anchorRadius s ^ 2 + 1.6 * anchorRadius s / sqrt 2 + 0.64).
Proof.
  split; [ | split ].
  - intros st H t. subst t. rewrite (sps_zoom_pose sphereId s st H).
    cbv zeta. cbn [Target.position Target.lookAt].
    destruct (focus_pose s (Sps.targetRotation st) 1.5 0.8 (PI / 3))
      as (H1 & H2 & H3 & H4).
    cbv zeta in H1, H2, H3, H4.
    split; [ | split; [ exact H2 | split; [ exact H3 | ] ] ].
    + unfold distance. fold (sumsq (c0 (rotateY s (Sps.targetRotation st))
        + 1.5 * cos (Js.atan2 (c2 (rotateY s (Sps.targetRotation st)))
                       (c0 (rotateY s (Sps.targetRotation st))) + PI / 3),
        c1 (rotateY s (Sps.targetRotation st)) + 0.8,
        c2 (rotateY s (Sps.targetRotation st))
        + 1.5 * sin (Js.atan2 (c2 (rotateY s (Sps.targetRotation st)))
                       (c0 (rotateY s (Sps.targetRotation st))) + PI / 3))
        (rotateY s (Sps.targetRotation st))).
      rewrite H1. replace (1.5 ^ 2 + 0.8 ^ 2) with (1.7 * 1.7) by lra.
      apply sqrt_square. lra.
    + rewrite H4, cos_PI3. lra.
  - intros st H t. subst t. rewrite (lod_perform_pose sphereId s st H).
    cbv zeta. cbn [Target.position Target.lookAt].
    destruct (focus_pose s (Lod.targetRotation st) 0.8 0.3 (PI / 4))
      as (H1 & H2 & H3 & H4).
    cbv zeta in H1, H2, H3, H4.
    split; [ rewrite H1; lra | split; [ exact H2 | split; [ exact H3 | ] ] ].
    rewrite H4, cos_PI4. unfold Rdiv. generalize (/ sqrt 2). intros q. nra.
  - intros sp rot st H t. subst t. rewrite (lod_zoomIn_pose sphereId s sp rot st H).
    cbv zeta. cbn [Target.position Target.lookAt].
    destruct (focus_pose s rot 0.8 0.3 (PI / 4)) as (H1 & H2 & H3 & H4).
    cbv zeta in H1, H2, H3, H4.
    split; [ rewrite H1; lra | split; [ exact H2 | split; [ exact H3 | ] ] ].
    rewrite H4, cos_PI4. unfold Rdiv. generalize (/ sqrt 2). intros q. nra.
Qed.

Lemma focus_pose_geometry_witness :
  findSphere 4 (Sps.spheres Sps.initialState) = Some (seedSphere 3)
  /\ distance
       (Target.position (Sps.cameraTarget (Sps.zoomToSphere 4 Sps.initialState)))
       (Target.lookAt (Sps.cameraTarget (Sps.zoomToSphere 4 Sps.initialState)))
     = 1.7.
Proof.
  split; [ exact carpet_found | ].
  exact (proj1 (proj1 (focus_pose_geometry 4 (seedSphere 3)) Sps.initialState
                      carpet_found)).
Defined.

(** ** The camera animation *)

Lemma sumsq_lerp3 (tgt cur : Vec3) (k : R) :
  sumsq tgt (lerp3 cur tgt k) = (1 - k) ^ 2 * sumsq tgt cur.
Proof.
  unfold sumsq, lerp3, c0, c1, c2, Js.pow2. cbn [fst snd]. ring.
Qed.

Lemma sumsq_nonneg (a b : Vec3) : 0 <= sumsq a b.
Proof.
  unfold sumsq, Js.pow2.
  pose proof (pow2_ge_0 (c0 a - c0 b)). pose proof (pow2_ge_0 (c1 a - c1 b)).
  pose proof (pow2_ge_0 (c2 a - c2 b)). lra.
Qed.

(** One interpolation step shrinks the distance to the target by [1 - k]. *)
Lemma distance_lerp3 (tgt cur : Vec3) (k : R) :
  0 <= k <= 1 ->
  distance tgt (lerp3 cur tgt k) = (1 - k) * distance tgt cur.
Proof.
  intros Hk. unfold distance. fold (sumsq tgt (lerp3 cur tgt k)).
  fold (sumsq tgt cur). rewrite sumsq_lerp3.
  rewrite sqrt_mult; [ | apply pow2_ge_0 | apply sumsq_nonneg ].
  replace ((1 - k) ^ 2) with ((1 - k) * (1 - k)) by ring.
  rewrite sqrt_square by lra. reflexivity.
Qed.

Lemma distance_nonneg (a b : Vec3) : 0 <= distance a b.
Proof. unfold distance. apply sqrt_pos. Qed.

Lemma sps_rerun_cameraTarget (before after : Sps.State) :
  Sps.cameraTarget (Sps.rerunWheelEffect before after) = Sps.cameraTarget after
  /\ Sps.modelScale (Sps.rerunWheelEffect before after) = Sps.modelScale after.
Proof.
  unfold Sps.rerunWheelEffect. destruct (eqb _ _ && eqb _ _); split; reflexivity.
Qed.

Lemma sps_step_complete (st : Sps.State) :
  Sps.cameraTarget (Sps.step st Sps.AnimationComplete)
  = {| Target.position := Target.position (Sps.cameraTarget st);
       Target.lookAt := Target.lookAt (Sps.cameraTarget st);
       Target.animating := false |}
  /\ Sps.modelScale (Sps.step st Sps.AnimationComplete) = Sps.modelScale st.
Proof.
  unfold Sps.step.
  destruct (sps_rerun_cameraTarget st (Sps.handle Sps.AnimationComplete st))
    as [-> ->].
  split; reflexivity.
Qed.

(** One frame of a requested animation: it either completes, or moves on and
    leaves the page as it is. *)
Lemma sps_frame_animating (sc : Sps.Scene) :
  Target.animating (Sps.cameraTarget (Sps.app sc)) = true ->
  let tgt := Target.position (Sps.cameraTarget (Sps.app sc)) in
  let d := 0.92 * distance tgt (spsStart sc) in
  (d < 0.1 ->
   Sps.cameraTarget (Sps.app (Sps.frame sc))
   = {| Target.position := tgt;
        Target.lookAt := Target.lookAt (Sps.cameraTarget (Sps.app sc));
        Target.animating := false |}
   /\ distance tgt (Sps.Cam.position (Sps.cam (Sps.frame sc))) = d
   /\ Sps.Cam.isAnimating (Sps.cam (Sps.frame sc)) = false)
  /\ (0.1 <= d ->
      Sps.app (Sps.frame sc) = Sps.app sc
      /\ Sps.Cam.isAnimating (Sps.cam (Sps.frame sc)) = true
      /\ spsStart (Sps.frame sc) = lerp3 (spsStart sc) tgt 0.08).
Proof.
  intros Ha tgt d.
  assert (Hd : d = distance tgt (lerp3 (spsStart sc) tgt 0.08)).
  { subst d. rewrite distance_lerp3 by lra. lra. }
  unfold Sps.frame, Sps.AnimatedCamera. rewrite Ha. cbn [andb orb].
  assert (Hcur : Sps.Cam.currentPosition
                   (if negb (Sps.Cam.isAnimating (Sps.cam sc))
                    then Sps.Cam.mk (Sps.Cam.position (Sps.cam sc)) (0, 0, 0) true
                           (Sps.Cam.position (Sps.cam sc))
                           (Sps.Cam.lookedAt (Sps.cam sc))
                    else Sps.cam sc) = spsStart sc).
  { unfold spsStart. destruct (Sps.Cam.isAnimating (Sps.cam sc)); reflexivity. }
  assert (Hani : Sps.Cam.isAnimating
                   (if negb (Sps.Cam.isAnimating (Sps.cam sc))
                    then Sps.Cam.mk (Sps.Cam.position (Sps.cam sc)) (0, 0, 0) true
                           (Sps.Cam.position (Sps.cam sc))
                           (Sps.Cam.lookedAt (Sps.cam sc))
                    else Sps.cam sc) = true).
  { destruct (Sps.Cam.isAnimating (Sps.cam sc)) eqn:E; [ exact E | reflexivity ]. }
  rewrite Hcur, Hani. fold tgt. rewrite <- Hd.
  destruct (Js.lt d 0.1) eqn:Hlt; reflect_cmp.
  - split; [ intros _ | intros H; lra ].
    cbn [Sps.app Sps.cam Sps.Cam.position Sps.Cam.isAnimating].
    destruct (sps_step_complete (Sps.app sc)) as [-> _].
    split; [ reflexivity | split; [ symmetry; exact Hd | reflexivity ] ].
  - split; [ intros H; lra | intros _ ].
    cbn [Sps.app Sps.cam Sps.Cam.isAnimating].
    split; [ reflexivity | split; [ reflexivity | ] ].
    unfold spsStart at 1. cbn [Sps.cam Sps.Cam.isAnimating Sps.Cam.currentPosition].
    reflexivity.
Qed.

Lemma spsFrames_succ (n : nat) (sc : Sps.Scene) :
  spsFrames (S n) sc = spsFrames n (Sps.frame sc).
Proof. unfold spsFrames. apply Nat.iter_succ_r. Qed.

Lemma sps_completes_within (m : nat) :
  forall sc : Sps.Scene,
    Target.animating (Sps.cameraTarget (Sps.app sc)) = true ->
    let tgt := Target.position (Sps.cameraTarget (Sps.app sc)) in
    let D := distance tgt (spsStart sc) in
    0.92 ^ S m * D < 0.1 ->
    exists k : nat,
      (k <= m)%nat
      /\ 0.92 ^ S k * D < 0.1
      /\ (forall j, (j < k)%nat -> 0.1 <= 0.92 ^ S j * D)
      /\ Sps.app (spsFrames k sc) = Sps.app sc
      /\ Sps.cameraTarget (Sps.app (spsFrames (S k) sc))
         = {| Target.position := tgt;
              Target.lookAt := Target.lookAt (Sps.cameraTarget (Sps.app sc));
              Target.animating := false |}
      /\ distance tgt (Sps.Cam.position (Sps.cam (spsFrames (S k) sc)))
         = 0.92 ^ S k * D
      /\ Sps.Cam.isAnimating (Sps.cam (spsFrames (S k) sc)) = false.
Proof.
  induction m as [| m IH]; intros sc Ha tgt D Hm.
  - destruct (sps_frame_animating sc Ha) as [Hdone _].
    fold tgt in Hdone. fold D in Hdone.
    assert (Hd : 0.92 * D < 0.1) by lra.
    destruct (Hdone Hd) as (H1 & H2 & H3).
    exists 0%nat. split; [ lia | ]. split; [ lra | ].
    split; [ intros j Hj; lia | ]. split; [ reflexivity | ].
    change (spsFrames 1 sc) with (Sps.frame sc).
    split; [ exact H1 | split; [ rewrite H2; cbn [pow]; lra | exact H3 ] ].
  - destruct (sps_frame_animating sc Ha) as [Hdone Hgo].
    fold tgt in Hdone, Hgo. fold D in Hdone, Hgo.
    destruct (Rlt_dec (0.92 * D) 0.1) as [Hd | Hd].
    + destruct (Hdone Hd) as (H1 & H2 & H3).
      exists 0%nat. split; [ lia | ]. split; [ lra | ].
      split; [ intros j Hj; lia | ]. split; [ reflexivity | ].
      change (spsFrames 1 sc) with (Sps.frame sc).
    split; [ exact H1 | split; [ rewrite H2; cbn [pow]; lra | exact H3 ] ].
    + destruct (Hgo ltac:(lra)) as (Happ & Hani & Hstart).
      assert (Ha' : Target.animating (Sps.cameraTarget (Sps.app (Sps.frame sc)))
                    = true) by (rewrite Happ; exact Ha).
      assert (HD' : distance (Target.position
                                (Sps.cameraTarget (Sps.app (Sps.frame sc))))
                      (spsStart (Sps.frame sc)) = 0.92 * D).
      { rewrite Happ, Hstart. fold tgt. rewrite distance_lerp3 by lra.
        fold D. lra. }
      destruct (IH (Sps.frame sc) Ha') as (k & Hk & Hlt & Hmin & Hsame & Hc & Hp & Hi).
      { rewrite HD'. cbn [pow] in Hm |- *. lra. }
      rewrite HD' in Hlt, Hmin, Hp. rewrite Happ in Hsame, Hc, Hp.
      fold tgt in Hc, Hp.
      exists (S k). split; [ lia | ].
      split; [ cbn [pow] in Hlt |- *; lra | ].
      split.
      { intros [| j] Hj; [ cbn [pow]; lra | ].
        specialize (Hmin j ltac:(lia)). cbn [pow] in Hmin |- *. lra. }
      rewrite (spsFrames_succ k sc), (spsFrames_succ (S k) sc).
      split; [ exact Hsame | ].
      split; [ exact Hc | ].
      split; [ rewrite Hp; cbn [pow]; lra | exact Hi ].
Qed.

Lemma pow_small (q D e : R) :
  0 <= q < 1 -> 0 <= D -> 0 < e -> exists n : nat, q ^ S n * D < e.
Proof.
  intros Hq HD He.
  destruct (pow_lt_1_zero q) with (y := e / (D + 1)) as [N HN].
  - rewrite Rabs_pos_eq; lra.
  - apply Rdiv_lt_0_compat; lra.
  - exists N. specialize (HN (S N) ltac:(lia)).
    assert (Hp : 0 <= q ^ S N) by (apply pow_le; lra).
    rewrite Rabs_pos_eq in HN by exact Hp.
    assert (HD1 : 0 < D + 1) by lra.
    assert (H1 : q ^ S N * (D + 1) < e).
    { apply (Rmult_lt_compat_r (D + 1)) in HN; [ | exact HD1 ].
      replace (e / (D + 1) * (D + 1)) with e in HN by (field; lra). exact HN. }
    nra.
Qed.

(** X15.  In the positioning scene every requested camera animation completes.
    From a scene whose camera target is marked animating, with no event in
    between, the completion is reported in frame [n + 1], where [n] is the
    least number with [0.92^(n+1) * D < 0.1] and [D] the distance of the camera
    from the target position when the animation starts: each frame shrinks
    that distance by the factor 0.92.  Until then the page is as it was; in
    that frame the target is marked not animating, its position and look-at
    point unchanged, and the camera stands [0.92^(n+1) * D] from the target
    position. *)
Theorem camera_animation_terminates (sc : Sps.Scene) :
  Target.animating (Sps.cameraTarget (Sps.app sc)) = true ->
  let tgt := Target.position (Sps.cameraTarget (Sps.app sc)) in
  let D := distance tgt (spsStart sc) in
  exists n : nat,
    0.92 ^ S n * D < 0.1
    /\ (forall j, (j < n)%nat -> 0.1 <= 0.92 ^ S j * D)
    /\ Sps.app (spsFrames n sc) = Sps.app sc
    /\ Sps.cameraTarget (Sps.app (spsFrames (S n) sc))
       = {| Target.position := tgt;
            Target.lookAt := Target.lookAt (Sps.cameraTarget (Sps.app sc));
            Target.animating := false |}
    /\ distance tgt (Sps.Cam.position (Sps.cam (spsFrames (S n) sc)))
       = 0.92 ^ S n * D
    /\ Sps.Cam.isAnimating (Sps.cam (spsFrames (S n) sc)) = false.
Proof.
  intros Ha tgt D.
  destruct (pow_small 0.92 D 0.1) as [m Hm];
    [ lra | apply distance_nonneg | lra | ].
  destruct (sps_completes_within m sc Ha Hm) as (k & _ & H).
  exists k. exact H.
Qed.

Lemma camera_animation_terminates_witness :
  let sc := Sps.event (Sps.ZoomToSphere 4) (Sps.initialScene (0, 3, 8)) in
  Target.animating (Sps.cameraTarget (Sps.app sc)) = true
  /\ exists n : nat,
      Target.animating (Sps.cameraTarget (Sps.app (spsFrames (S n) sc))) = false.
Proof.
  intros sc.
  assert (Ha : Target.animating (Sps.cameraTarget (Sps.app sc)) = true)
    by reflexivity.
  split; [ exact Ha | ].
  destruct (camera_animation_terminates sc Ha) as (n & _ & _ & _ & Hc & _).
  exists n. rewrite Hc. reflexivity.
Defined.

(** ** The idle camera *)

Lemma sps_frame_idle (sc : Sps.Scene) :
  spsIdle sc ->
  Sps.app (Sps.frame sc) = Sps.app sc
  /\ spsIdle (Sps.frame sc)
  /\ Sps.Cam.currentPosition (Sps.cam (Sps.frame sc))
     = lerp3 (Sps.Cam.currentPosition (Sps.cam sc)) (spsOverview sc) 0.02
  /\ Sps.Cam.currentLookAt (Sps.cam (Sps.frame sc))
     = lerp3 (Sps.Cam.currentLookAt (Sps.cam sc)) (0, 0, 0) 0.02
  /\ Sps.Cam.position (Sps.cam (Sps.frame sc))
     = Sps.Cam.currentPosition (Sps.cam (Sps.frame sc))
  /\ Sps.Cam.lookedAt (Sps.cam (Sps.frame sc))
     = Sps.Cam.currentLookAt (Sps.cam (Sps.frame sc)).
Proof.
  intros [Ha Hi]. unfold spsIdle, Sps.frame, Sps.AnimatedCamera.
  rewrite Ha. cbn [andb orb]. rewrite Hi. cbn [negb].
  cbn [Sps.app Sps.cam Sps.Cam.isAnimating Sps.Cam.currentPosition
       Sps.Cam.currentLookAt Sps.Cam.position Sps.Cam.lookedAt].
  repeat split; assumption.
Qed.

Lemma sps_frames_idle (sc : Sps.Scene) (n : nat) :
  spsIdle sc ->
  Sps.app (spsFrames n sc) = Sps.app sc
  /\ spsIdle (spsFrames n sc)
  /\ distance (spsOverview sc) (Sps.Cam.currentPosition (Sps.cam (spsFrames n sc)))
     = 0.98 ^ n * distance (spsOverview sc) (Sps.Cam.currentPosition (Sps.cam sc))
  /\ distance (0, 0, 0) (Sps.Cam.currentLookAt (Sps.cam (spsFrames n sc)))
     = 0.98 ^ n * distance (0, 0, 0) (Sps.Cam.currentLookAt (Sps.cam sc))
  /\ ((0 < n)%nat ->
      Sps.Cam.position (Sps.cam (spsFrames n sc))
      = Sps.Cam.currentPosition (Sps.cam (spsFrames n sc))
      /\ Sps.Cam.lookedAt (Sps.cam (spsFrames n sc))
         = Sps.Cam.currentLookAt (Sps.cam (spsFrames n sc))).
Proof.
  intros Hidle. induction n as [| n IH].
  - change (spsFrames 0 sc) with sc.
    split; [ reflexivity | ]. split; [ exact Hidle | ].
    split; [ cbn [pow]; lra | ]. split; [ cbn [pow]; lra | intros H; lia ].
  - destruct IH as (Happ & Hid & Hp & Hl & _).
    change (spsFrames (S n) sc) with (Sps.frame (spsFrames n sc)).
    destruct (sps_frame_idle _ Hid) as (Happ' & Hid' & Hp' & Hl' & Hpos & Hlook).
    assert (Ho : spsOverview (spsFrames n sc) = spsOverview sc)
      by (unfold spsOverview; rewrite Happ; reflexivity).
    rewrite Ho in Hp'.
    split; [ rewrite Happ'; exact Happ | ]. split; [ exact Hid' | ].
    split; [ rewrite Hp', distance_lerp3, Hp by lra; cbn [pow]; lra | ].
    split; [ rewrite Hl', distance_lerp3, Hl by lra; cbn [pow]; lra | ].
    intros _. split; assumption.
Qed.

(** X16.  The positioning scene does not hold a pose.  With no animation
    requested and none under way, every frame moves the camera 2% of the way
    to the overview pose [(0, 3, 8 - (scale - 1.5) * 1.5)] and its look-at
    point 2% of the way to the origin: after [n] frames the distances are
    [0.98^n] times what they were, the page itself is untouched, and the
    camera comes as close to the overview pose as one likes.  This is the
    state every completed focus animation leaves behind. *)
Theorem idle_camera_returns_to_overview (sc : Sps.Scene) :
  spsIdle sc ->
  (forall n : nat,
      Sps.app (spsFrames n sc) = Sps.app sc
      /\ spsIdle (spsFrames n sc)
      /\ distance (spsOverview sc)
           (Sps.Cam.currentPosition (Sps.cam (spsFrames n sc)))
         = 0.98 ^ n
           * distance (spsOverview sc) (Sps.Cam.currentPosition (Sps.cam sc))
      /\ distance (0, 0, 0) (Sps.Cam.currentLookAt (Sps.cam (spsFrames n sc)))
         = 0.98 ^ n * distance (0, 0, 0) (Sps.Cam.currentLookAt (Sps.cam sc))
      /\ ((0 < n)%nat ->
          Sps.Cam.position (Sps.cam (spsFrames n sc))
          = Sps.Cam.currentPosition (Sps.cam (spsFrames n sc))
          /\ Sps.Cam.lookedAt (Sps.cam (spsFrames n sc))
             = Sps.Cam.currentLookAt (Sps.cam (spsFrames n sc))))
  /\ (forall eps : R, 0 < eps ->
      exists N : nat, forall n : nat, (N <= n)%nat ->
        distance (spsOverview sc)
          (Sps.Cam.currentPosition (Sps.cam (spsFrames n sc))) < eps).
Proof.
  intros Hidle. split; [ intros n; apply sps_frames_idle; exact Hidle | ].
  intros eps Heps.
  set (D := distance (spsOverview sc) (Sps.Cam.currentPosition (Sps.cam sc))).
  assert (HD : 0 <= D) by apply distance_nonneg.
  destruct (pow_lt_1_zero 0.98) with (y := eps / (D + 1)) as [N HN].
  - rewrite Rabs_pos_eq; lra.
  - apply Rdiv_lt_0_compat; lra.
  - exists N. intros n Hn.
    destruct (sps_frames_idle sc n Hidle) as (_ & _ & -> & _). fold D.
    specialize (HN n ltac:(lia)).
    assert (Hp : 0 <= 0.98 ^ n) by (apply pow_le; lra).
    rewrite Rabs_pos_eq in HN by exact Hp.
    assert (H1 : 0.98 ^ n * (D + 1) < eps).
    { apply (Rmult_lt_compat_r (D + 1)) in HN; [ | lra ].
      replace (eps / (D + 1) * (D + 1)) with eps in HN by (field; lra). exact HN. }
    nra.
Qed.

Lemma idle_camera_returns_to_overview_witness :
  spsIdle (Sps.initialScene (0, 0, 5))
  /\ Sps.Cam.position (Sps.cam (spsFrames 1 (Sps.initialScene (0, 0, 5))))
     = Sps.Cam.currentPosition (Sps.cam (spsFrames 1 (Sps.initialScene (0, 0, 5)))).
Proof.
  assert (H : spsIdle (Sps.initialScene (0, 0, 5))) by (split; reflexivity).
  split; [ exact H | ].
  destruct (proj1 (idle_camera_returns_to_overview _ H) 1%nat)
    as (_ & _ & _ & _ & Hpos).
  exact (proj1 (Hpos ltac:(lia))).
Defined.

(** ** The camera animation of the level-of-detail scene *)

Lemma lod_step_complete (st : Lod.State) :
  Lod.cameraTarget (Lod.step st Lod.AnimationComplete)
  = {| Target.position := Target.position (Lod.cameraTarget st);
       Target.lookAt := Target.lookAt (Lod.cameraTarget st);
       Target.animating := false |}.
Proof.
  unfold Lod.step.
  destruct (lod_rerun_keeps st (Lod.handle Lod.AnimationComplete st)) as (-> & _).
  cbn [Lod.handle]. unfold Lod.handleAnimationComplete.
  destruct (Lod.pendingTarget st) as [target |]; [ | reflexivity ].
  destruct (Lod.CameraMode_eqb _ _ && Lod.TransitionPhase_eqb _ _ && Js.truthy target);
    reflexivity.
Qed.

Lemma quality_of (fps : Z) :
  (if (fps <? 30)%Z then (0.15, 2%Z)
   else if (fps <? 45)%Z then (0.12, 1%Z) else (0.1, 1%Z))
  = (lerpFactorOf fps, if (fps <? 30)%Z then 2%Z else 1%Z).
Proof. unfold lerpFactorOf. destruct (fps <? 30)%Z, (fps <? 45)%Z; reflexivity. Qed.

Lemma lerpFactorOf_range (fps : Z) : 0.1 <= lerpFactorOf fps <= 0.15.
Proof. unfold lerpFactorOf. destruct (fps <? 30)%Z, (fps <? 45)%Z; lra. Qed.

(** One frame while an animation is requested. *)
Lemma lod_frame_animating (fpsC fpsM : Z) (sc : Lod.Scene) :
  Target.animating (Lod.cameraTarget (Lod.app sc)) = true ->
  let tgt := Lod.cameraTarget (Lod.app sc) in
  let q := lerpFactorOf fpsC in
  let p1 := lerp3 (fst (lodStart sc)) (Target.position tgt) q in
  let l1 := lerp3 (snd (lodStart sc)) (Target.lookAt tgt) q in
  let sc' := Lod.frame fpsC fpsM sc in
  (processed fpsC sc = false ->
   Lod.app sc' = Lod.app sc /\ lodStart sc' = lodStart sc
   /\ Lod.Cam.frameCounter (Lod.cam sc') = (Lod.Cam.frameCounter (Lod.cam sc) + 1)%Z)
  /\ (processed fpsC sc = true ->
      (distance (Target.position tgt) p1 < 0.05
       /\ distance (Target.lookAt tgt) l1 < 0.05 ->
       Lod.cameraTarget (Lod.app sc')
       = {| Target.position := Target.position tgt;
            Target.lookAt := Target.lookAt tgt;
            Target.animating := false |}
       /\ Lod.Cam.position (Lod.cam sc') = p1
       /\ Lod.Cam.lookedAt (Lod.cam sc') = l1
       /\ Lod.Cam.isAnimating (Lod.cam sc') = false
       /\ Lod.Cam.isLocked (Lod.cam sc') = Js.notNull (Lod.focusedSphere (Lod.app sc)))
      /\ (~ (distance (Target.position tgt) p1 < 0.05
             /\ distance (Target.lookAt tgt) l1 < 0.05) ->
          Lod.app sc' = Lod.app sc /\ lodStart sc' = (p1, l1))).
Proof.
  intros Ha tgt q p1 l1 sc'. subst sc'.
  unfold processed, Lod.frame, Lod.LODStaticCameraAnimation.
  cbv zeta. rewrite quality_of, Ha. cbn [fst snd Lod.Cam.frameCounter]. fold tgt.
  destruct (Z.rem (Lod.Cam.frameCounter (Lod.cam sc) + 1)
              (if (fpsC <? 30)%Z then 2 else 1) =? 0)%Z eqn:Hproc;
    cbn [negb].
  2:{ split; [ intros _ | intros H; discriminate H ].
      cbn [Lod.app Lod.cam]. unfold lodStart.
      cbn [Lod.cam Lod.Cam.isAnimating Lod.Cam.currentPosition
           Lod.Cam.currentLookAt Lod.Cam.position Lod.Cam.frameCounter].
      repeat split. }
  split; [ intros H; discriminate H | intros _ ].
  cbn [andb orb Lod.Cam.isAnimating Lod.Cam.position
       Lod.Cam.currentPosition Lod.Cam.currentLookAt].
  set (c1' := if negb (Lod.Cam.isAnimating (Lod.cam sc)) then _ else _).
  assert (Hcur : (Lod.Cam.currentPosition c1', Lod.Cam.currentLookAt c1')
                 = lodStart sc).
  { subst c1'. unfold lodStart.
    destruct (Lod.Cam.isAnimating (Lod.cam sc)); reflexivity. }
  assert (Hani : Lod.Cam.isAnimating c1' = true).
  { subst c1'. destruct (Lod.Cam.isAnimating (Lod.cam sc)); reflexivity. }
  assert (Hp : Lod.Cam.currentPosition c1' = fst (lodStart sc))
    by (rewrite <- Hcur; reflexivity).
  assert (Hl : Lod.Cam.currentLookAt c1' = snd (lodStart sc))
    by (rewrite <- Hcur; reflexivity).
  rewrite Hp, Hl, Hani. fold q. fold p1. fold l1.
  destruct (Js.lt (distance (Target.position tgt) p1) 0.05) eqn:H1;
    destruct (Js.lt (distance (Target.lookAt tgt) l1) 0.05) eqn:H2;
    cbn [andb Lod.app Lod.cam Lod.Cam.position Lod.Cam.lookedAt
         Lod.Cam.isAnimating Lod.Cam.isLocked];
    reflect_cmp.
  - split; [ intros _ | intros H; exfalso; apply H; split; assumption ].
    rewrite lod_step_complete. repeat split.
  - split; [ intros [_ H]; lra | intros _ ].
    split; [ reflexivity | ]. unfold lodStart.
    cbn [Lod.cam Lod.Cam.isAnimating Lod.Cam.currentPosition Lod.Cam.currentLookAt].
    reflexivity.
  - split; [ intros [H _]; lra | intros _ ].
    split; [ reflexivity | ]. unfold lodStart.
    cbn [Lod.cam Lod.Cam.isAnimating Lod.Cam.currentPosition Lod.Cam.currentLookAt].
    reflexivity.
  - split; [ intros [H _]; lra | intros _ ].
    split; [ reflexivity | ]. unfold lodStart.
    cbn [Lod.cam Lod.Cam.isAnimating Lod.Cam.currentPosition Lod.Cam.currentLookAt].
    reflexivity.
Qed.

Lemma rem_two_next (x : Z) : Z.rem x 2 <> 0%Z -> Z.rem (x + 1) 2 = 0%Z.
Proof.
  intros H. destruct (Z.Even_or_Odd x) as [[k ->] | [k ->]].
  - exfalso. apply H. rewrite Z.mul_comm. apply Z.rem_mul. lia.
  - replace (2 * k + 1 + 1)%Z with ((k + 1) * 2)%Z by lia. apply Z.rem_mul. lia.
Qed.

(** Of two consecutive frames the counter lets at least one through. *)
Lemma processed_next (f f' fM : Z) (sc : Lod.Scene) :
  Target.animating (Lod.cameraTarget (Lod.app sc)) = true ->
  processed f sc = false -> processed f' (Lod.frame f fM sc) = true.
Proof.
  intros Ha Hs.
  destruct (lod_frame_animating f fM sc Ha) as [Hskip _].
  destruct (Hskip Hs) as (_ & _ & Hc).
  unfold processed in *. rewrite Hc.
  apply Z.eqb_neq in Hs. apply Z.eqb_eq.
  destruct (f <? 30)%Z; [ | exfalso; apply Hs; apply Z.rem_1_r ].
  destruct (f' <? 30)%Z; [ apply rem_two_next; exact Hs | apply Z.rem_1_r ].
Qed.

Lemma lodCompletedAt_shift (fps : nat -> Z * Z) (sc : Lod.Scene) (k : nat) :
  Lod.app (Lod.frame (fst (fps O)) (snd (fps O)) sc) = Lod.app sc ->
  lodCompletedAt (fun i => fps (S i)) (Lod.frame (fst (fps O)) (snd (fps O)) sc) k ->
  lodCompletedAt fps sc (S k).
Proof.
  intros Happ H. unfold lodCompletedAt in H |- *. cbv zeta in H |- *.
  rewrite Happ in H.
  change (lodFrames fps (S k) sc)
    with (lodFrames (fun i => fps (S i)) k (Lod.frame (fst (fps O)) (snd (fps O)) sc)).
  change (lodFrames fps (S (S k)) sc)
    with (lodFrames (fun i => fps (S i)) (S k)
            (Lod.frame (fst (fps O)) (snd (fps O)) sc)).
  exact H.
Qed.

Section LodCompletion.
Variable m : nat.

(** The statement for a scene whose next frame the counter lets through, and
    the one for any scene. *)
Let Through : Prop :=
  forall (fps : nat -> Z * Z) (sc : Lod.Scene),
    Target.animating (Lod.cameraTarget (Lod.app sc)) = true ->
    processed (fst (fps O)) sc = true ->
    0.9 ^ S m
    * distance (Target.position (Lod.cameraTarget (Lod.app sc))) (fst (lodStart sc))
    < 0.05 ->
    0.9 ^ S m
    * distance (Target.lookAt (Lod.cameraTarget (Lod.app sc))) (snd (lodStart sc))
    < 0.05 ->
    exists k : nat, lodCompletedAt fps sc k.

Let Any : Prop :=
  forall (fps : nat -> Z * Z) (sc : Lod.Scene),
    Target.animating (Lod.cameraTarget (Lod.app sc)) = true ->
    0.9 ^ S m
    * distance (Target.position (Lod.cameraTarget (Lod.app sc))) (fst (lodStart sc))
    < 0.05 ->
    0.9 ^ S m
    * distance (Target.lookAt (Lod.cameraTarget (Lod.app sc))) (snd (lodStart sc))
    < 0.05 ->
    exists k : nat, lodCompletedAt fps sc k.

Lemma lod_any_of_through : Through -> Any.
Proof.
  intros HT fps sc Ha Hp Hl.
  destruct (processed (fst (fps O)) sc) eqn:Hproc.
  - exact (HT fps sc Ha Hproc Hp Hl).
  - destruct (lod_frame_animating (fst (fps O)) (snd (fps O)) sc Ha) as [Hskip _].
    destruct (Hskip Hproc) as (Happ & Hstart & _).
    destruct (HT (fun i => fps (S i)) (Lod.frame (fst (fps O)) (snd (fps O)) sc))
      as [k Hk].
    + rewrite Happ. exact Ha.
    + apply processed_next; assumption.
    + rewrite Happ, Hstart. exact Hp.
    + rewrite Happ, Hstart. exact Hl.
    + exists (S k). apply lodCompletedAt_shift; assumption.
Qed.
End LodCompletion.

Lemma lod_completes_through (m : nat) :
  forall (fps : nat -> Z * Z) (sc : Lod.Scene),
    Target.animating (Lod.cameraTarget (Lod.app sc)) = true ->
    processed (fst (fps O)) sc = true ->
    0.9 ^ S m
    * distance (Target.position (Lod.cameraTarget (Lod.app sc))) (fst (lodStart sc))
    < 0.05 ->
    0.9 ^ S m
    * distance (Target.lookAt (Lod.cameraTarget (Lod.app sc))) (snd (lodStart sc))
    < 0.05 ->
    exists k : nat, lodCompletedAt fps sc k.
Proof.
  induction m as [| m IH]; intros fps sc Ha Hproc Hp Hl.
  - destruct (lod_frame_animating (fst (fps O)) (snd (fps O)) sc Ha) as [_ Hgo].
    destruct (Hgo Hproc) as [Hdone _].
    pose proof (lerpFactorOf_range (fst (fps O))) as Hq.
    pose proof (distance_nonneg (Target.position (Lod.cameraTarget (Lod.app sc)))
                  (fst (lodStart sc))) as H0p.
    pose proof (distance_nonneg (Target.lookAt (Lod.cameraTarget (Lod.app sc)))
                  (snd (lodStart sc))) as H0l.
    rewrite !distance_lerp3 in Hdone by lra.
    destruct Hdone as (Hc & Hpos & Hlook & Hani & Hlock).
    { cbn [pow] in Hp, Hl. split; nra. }
    exists 0%nat. unfold lodCompletedAt. cbn [lodFrames].
    rewrite Hc, Hpos, Hlook, !distance_lerp3 by lra.
    cbn [pow] in Hp, Hl.
    split; [ reflexivity | ]. split; [ reflexivity | ].
    split; [ nra | ]. split; [ nra | ]. split; assumption.
  - destruct (lod_frame_animating (fst (fps O)) (snd (fps O)) sc Ha) as [_ Hgo].
    destruct (Hgo Hproc) as [Hdone Hmore].
    pose proof (lerpFactorOf_range (fst (fps O))) as Hq.
    pose proof (distance_nonneg (Target.position (Lod.cameraTarget (Lod.app sc)))
                  (fst (lodStart sc))) as H0p.
    pose proof (distance_nonneg (Target.lookAt (Lod.cameraTarget (Lod.app sc)))
                  (snd (lodStart sc))) as H0l.
    rewrite !distance_lerp3 in Hdone, Hmore by lra.
    set (Dp := distance (Target.position (Lod.cameraTarget (Lod.app sc)))
                 (fst (lodStart sc))) in *.
    set (Dl := distance (Target.lookAt (Lod.cameraTarget (Lod.app sc)))
                 (snd (lodStart sc))) in *.
    set (q := lerpFactorOf (fst (fps O))) in *.
    destruct (Rlt_dec ((1 - q) * Dp) 0.05) as [H1 | H1];
      [ destruct (Rlt_dec ((1 - q) * Dl) 0.05) as [H2 | H2] | ].
    + destruct (Hdone (conj H1 H2)) as (Hc & Hpos & Hlook & Hani & Hlock).
      exists 0%nat. unfold lodCompletedAt. cbn [lodFrames].
      rewrite Hc, Hpos, Hlook, !distance_lerp3 by lra.
      fold Dp. fold Dl. fold q.
      split; [ reflexivity | ]. split; [ reflexivity | ].
      split; [ exact H1 | ]. split; [ exact H2 | ]. split; assumption.
    + destruct Hmore as (Happ & Hstart); [ intros [_ H]; contradiction | ].
      destruct (lod_any_of_through m IH (fun i => fps (S i))
                  (Lod.frame (fst (fps O)) (snd (fps O)) sc)) as [k Hk].
      * rewrite Happ. exact Ha.
      * rewrite Happ, Hstart. cbn [fst]. rewrite distance_lerp3 by lra.
        fold Dp. fold q. cbn [pow] in Hp |- *.
        assert (0 <= 0.9 ^ m) by (apply pow_le; lra). nra.
      * rewrite Happ, Hstart. cbn [snd]. rewrite distance_lerp3 by lra.
        fold Dl. fold q. cbn [pow] in Hl |- *.
        assert (0 <= 0.9 ^ m) by (apply pow_le; lra). nra.
      * exists (S k). apply lodCompletedAt_shift; assumption.
    + destruct Hmore as (Happ & Hstart); [ intros [H _]; contradiction | ].
      destruct (lod_any_of_through m IH (fun i => fps (S i))
                  (Lod.frame (fst (fps O)) (snd (fps O)) sc)) as [k Hk].
      * rewrite Happ. exact Ha.
      * rewrite Happ, Hstart. cbn [fst]. rewrite distance_lerp3 by lra.
        fold Dp. fold q. cbn [pow] in Hp |- *.
        assert (0 <= 0.9 ^ m) by (apply pow_le; lra). nra.
      * rewrite Happ, Hstart. cbn [snd]. rewrite distance_lerp3 by lra.
        fold Dl. fold q. cbn [pow] in Hl |- *.
        assert (0 <= 0.9 ^ m) by (apply pow_le; lra). nra.
      * exists (S k). apply lodCompletedAt_shift; assumption.
Qed.

(** X17.  In the level-of-detail scene every requested camera animation
    completes, whatever the frame rates the performance monitor reads from
    frame to frame: from a scene whose camera target is marked animating, with
    no event in between, some frame reports completion.  Until then the page
    is as it was; in that frame the target is marked not animating with its
    position and look-at point unchanged, the camera is within 0.05 of the
    target position and looks within 0.05 of the target's look-at point, and
    the camera is locked exactly when an anchor is focused. *)
Theorem lod_camera_animation_terminates (fps : nat -> Z * Z) (sc : Lod.Scene) :
  Target.animating (Lod.cameraTarget (Lod.app sc)) = true ->
  exists k : nat, lodCompletedAt fps sc k.
Proof.
  intros Ha.
  set (Dp := distance (Target.position (Lod.cameraTarget (Lod.app sc)))
               (fst (lodStart sc))).
  set (Dl := distance (Target.lookAt (Lod.cameraTarget (Lod.app sc)))
               (snd (lodStart sc))).
  assert (H0p : 0 <= Dp) by apply distance_nonneg.
  assert (H0l : 0 <= Dl) by apply distance_nonneg.
  destruct (pow_small 0.9 (Rmax Dp Dl) 0.05) as [m Hm];
    [ lra | apply Rle_trans with Dp; [ exact H0p | apply Rmax_l ] | lra | ].
  assert (Hpow : 0 <= 0.9 ^ S m) by (apply pow_le; lra).
  pose proof (Rmax_l Dp Dl) as Hl. pose proof (Rmax_r Dp Dl) as Hr.
  apply (lod_any_of_through m (lod_completes_through m) fps sc Ha).
  - fold Dp. nra.
  - fold Dl. nra.
Qed.

Lemma lod_camera_animation_terminates_witness :
  let sc := Lod.event (Lod.ZoomToSphere 4) (Lod.initialScene (0, 3, 8)) in
  Target.animating (Lod.cameraTarget (Lod.app sc)) = true
  /\ exists k : nat, lodCompletedAt (fun _ => (60, 60)%Z) sc k.
Proof.
  intros sc.
  assert (Ha : Target.animating (Lod.cameraTarget (Lod.app sc)) = true)
    by reflexivity.
  split; [ exact Ha | ].
  exact (lod_camera_animation_terminates (fun _ => (60, 60)%Z) sc Ha).
Defined.

(** ** The locked camera *)

Lemma lod_frame_holding (id : Z) (s : SpherePosition) (fpsC fpsM : Z)
  (sc : Lod.Scene) :
  lodHolding id s sc ->
  let sc' := Lod.frame fpsC fpsM sc in
  let look := rotateY s (Lod.targetRotation (Lod.app sc)) in
  let angle := Js.atan2 (c2 look) (c0 look) + PI / 4 in
  Lod.app sc' = Lod.app sc
  /\ lodHolding id s sc'
  /\ (processed fpsC sc = true ->
      Lod.Cam.lookedAt (Lod.cam sc') = look
      /\ Lod.Cam.position (Lod.cam sc')
         = (c0 look + 0.8 * cos angle, c1 look + 0.3, c2 look + 0.8 * sin angle))
  /\ (processed fpsC sc = false ->
      Lod.Cam.lookedAt (Lod.cam sc') = Lod.Cam.lookedAt (Lod.cam sc)
      /\ Lod.Cam.position (Lod.cam sc') = Lod.Cam.position (Lod.cam sc)).
Proof.
  intros (Ha & Hf & Hid & Hm & Hs & Hi & Hl) sc' look angle. subst sc'.
  unfold lodHolding, processed, Lod.frame, Lod.LODStaticCameraAnimation.
  cbv zeta. rewrite quality_of, Ha, Hf. cbn [fst snd Lod.Cam.frameCounter].
  destruct (Z.rem (Lod.Cam.frameCounter (Lod.cam sc) + 1)
              (if (fpsC <? 30)%Z then 2 else 1) =? 0)%Z eqn:Hproc;
    cbn [negb].
  2:{ cbn [Lod.app Lod.cam Lod.Cam.isAnimating Lod.Cam.isLocked Lod.Cam.lookedAt
           Lod.Cam.position].
      rewrite Ha, Hf. repeat split; try assumption; discriminate. }
  cbn [andb orb Lod.Cam.isAnimating Lod.Cam.isLocked]. rewrite Hi, Hl.
  cbn [andb orb Js.truthyOpt]. unfold Js.truthy.
  replace (id =? 0)%Z with false by (symmetry; apply Z.eqb_neq; assumption).
  assert (Hn : (0 <? List.length (Lod.spheres (Lod.app sc)))%nat = true).
  { destruct (Lod.spheres (Lod.app sc)); [ discriminate Hs | reflexivity ]. }
  rewrite Hn.
  replace (Lod.CameraMode_eqb (Lod.cameraMode (Lod.app sc)) Lod.transitioning)
    with false
    by (destruct (Lod.cameraMode (Lod.app sc)); try reflexivity; congruence).
  cbn [negb andb]. rewrite Hs.
  cbn [Lod.app Lod.cam Lod.Cam.isAnimating Lod.Cam.isLocked Lod.Cam.lookedAt
       Lod.Cam.position].
  rewrite Ha, Hf.
  split; [ reflexivity | ].
  split; [ repeat split; try assumption | ].
  split; [ intros _; split; reflexivity | intros H; discriminate H ].
Qed.

Lemma lod_frames_holding (id : Z) (s : SpherePosition) (n : nat) :
  forall (fps : nat -> Z * Z) (sc : Lod.Scene),
    lodHolding id s sc ->
    Lod.app (lodFrames fps n sc) = Lod.app sc
    /\ lodHolding id s (lodFrames fps n sc).
Proof.
  induction n as [| n IH]; intros fps sc H; cbn [lodFrames].
  - split; [ reflexivity | exact H ].
  - destruct (lod_frame_holding id s (fst (fps O)) (snd (fps O)) sc H)
      as (Happ & Hh & _).
    destruct (IH (fun i => fps (S i)) _ Hh) as [Happ' Hh'].
    split; [ rewrite Happ'; exact Happ | exact Hh' ].
Qed.

Lemma lod_wheel_holding (id : Z) (s : SpherePosition) (deltaY : R)
  (sc : Lod.Scene) :
  lodHolding id s sc -> lodHolding id s (Lod.event (Lod.Wheel deltaY) sc).
Proof.
  intros (Ha & Hf & Hid & Hm & Hs & Hi & Hl).
  unfold lodHolding, Lod.event. cbv zeta. cbn [Lod.app Lod.cam].
  unfold Lod.step.
  destruct (lod_rerun_keeps (Lod.app sc) (Lod.handle (Lod.Wheel deltaY) (Lod.app sc)))
    as (-> & -> & -> & _ & _ & _ & -> & _).
  cbn [Lod.handle].
  destruct (lod_wheel_camera deltaY (Lod.app sc)) as (-> & -> & _ & _ & -> & ->).
  rewrite Hf. cbn [Lod.unlockEffect].
  repeat split; assumption.
Qed.

(** X18.  The level-of-detail scene holds a focused anchor.  With nothing
    animating, an anchor focused and the camera locked, frames change neither
    the page nor that situation; every frame the counter lets through puts the
    camera at the focus pose computed from the target rotation of that moment:
    it looks at the anchor's world position, from 0.3 above it and at a
    squared distance of 0.73.  A wheel event leaves the camera holding, so the
    next such frame follows the new target rotation at once, with no
    interpolation. *)
Theorem locked_camera_holds_the_anchor (id : Z) (s : SpherePosition)
  (sc : Lod.Scene) :
  lodHolding id s sc ->
  (forall (fps : nat -> Z * Z) (n : nat),
      Lod.app (lodFrames fps n sc) = Lod.app sc
      /\ lodHolding id s (lodFrames fps n sc))
  /\ (forall fpsC fpsM : Z,
      processed fpsC sc = true ->
      let c := Lod.cam (Lod.frame fpsC fpsM sc) in
      Lod.Cam.lookedAt c = rotateY s (Lod.targetRotation (Lod.app sc))
      /\ sumsq (Lod.Cam.position c) (Lod.Cam.lookedAt c) = 0.73
      /\ c1 (Lod.Cam.position c) = Sphere.y s + 0.3
      /\ axisDistance2 (Lod.Cam.position c)
         = anchorRadius s ^ 2 + 1.6 * anchorRadius s / sqrt 2 + 0.64)
  /\ (forall deltaY : R, lodHolding id s (Lod.event (Lod.Wheel deltaY) sc)).
Proof.
  intros H. split; [ | split ].
  - intros fps n. apply lod_frames_holding. exact H.
  - intros fpsC fpsM Hproc c. subst c.
    destruct (lod_frame_holding id s fpsC fpsM sc H) as (_ & _ & Hgo & _).
    destruct (Hgo Hproc) as [-> ->].
    destruct (focus_pose s (Lod.targetRotation (Lod.app sc)) 0.8 0.3 (PI / 4))
      as (H1 & H2 & _ & H4).
    cbv zeta in H1, H2, H4.
    split; [ reflexivity | ]. split; [ rewrite H1; lra | ].
    split; [ exact H2 | ].
    rewrite H4, cos_PI4. unfold Rdiv. generalize (/ sqrt 2). intros q. nra.
  - intros deltaY. apply lod_wheel_holding. exact H.
Qed.

Lemma locked_camera_holds_the_anchor_witness :
  lodHolding 4 (seedSphere 3) holdingCarpet
  /\ lodHolding 4 (seedSphere 3) (Lod.event (Lod.Wheel 100) holdingCarpet).
Proof.
  assert (H : lodHolding 4 (seedSphere 3) holdingCarpet).
  { unfold lodHolding.
    split; [ reflexivity | ]. split; [ reflexivity | ]. split; [ lia | ].
    split; [ discriminate | ]. split; [ reflexivity | split; reflexivity ]. }
  split; [ exact H | ].
  exact (proj2 (proj2 (locked_camera_holds_the_anchor 4 (seedSphere 3)
                         holdingCarpet H)) 100).
Defined.

(** ** The rotation the model is displayed with *)

Lemma Rabs_le_bounds (a b : R) : Rabs a <= b -> - b <= a <= b.
Proof.
  intros H. pose proof (Rle_abs a) as H1. pose proof (Rle_abs (- a)) as H2.
  rewrite Rabs_Ropp in H2. lra.
Qed.

Lemma unrest_bounds (t c v N : R) :
  unrest t c v <= N -> - N <= t - c <= N /\ - N <= 2 * v <= N.
Proof.
  unfold unrest. intros H.
  pose proof (Rmax_l (Rabs (t - c)) (2 * Rabs v)) as H1.
  pose proof (Rmax_r (Rabs (t - c)) (2 * Rabs v)) as H2.
  assert (Ha : Rabs (t - c) <= N) by lra.
  assert (Hb : Rabs v <= N / 2) by lra.
  apply Rabs_le_bounds in Ha. apply Rabs_le_bounds in Hb. lra.
Qed.

Lemma unrest_le (t c v N : R) :
  - N <= t - c <= N -> - N <= 2 * v <= N -> unrest t c v <= N.
Proof.
  intros H1 H2. unfold unrest. apply Rmax_lub.
  - apply Rabs_le. lra.
  - assert (Rabs v <= N / 2) by (apply Rabs_le; lra). lra.
Qed.

Lemma unrest_nonneg (t c v : R) : 0 <= unrest t c v.
Proof.
  unfold unrest.
  apply Rle_trans with (Rabs (t - c)); [ apply Rabs_pos | apply Rmax_l ].
Qed.

Lemma sps_model_frame (t : R) (m : Sps.Model.t) :
  let m' := Sps.TinyHouseModel t m in
  unrest t (Sps.Model.currentRotation m') (Sps.Model.velocity m')
  <= 0.9608 * unrest t (Sps.Model.currentRotation m) (Sps.Model.velocity m).
Proof.
  intros m'. subst m'.
  set (N := unrest t (Sps.Model.currentRotation m) (Sps.Model.velocity m)).
  destruct (unrest_bounds t _ _ N (Rle_refl _)) as [He Hv].
  unfold Sps.TinyHouseModel. cbn [Sps.Model.currentRotation Sps.Model.velocity].
  apply unrest_le; lra.
Qed.

Lemma lod_model_frame (fps : Z) (t : R) (m : Lod.Model.t) :
  let m' := Lod.LODTinyHouseModel fps t m in
  unrest t (Lod.Model.currentRotation m') (Lod.Model.velocity m')
  <= 0.9608 * unrest t (Lod.Model.currentRotation m) (Lod.Model.velocity m).
Proof.
  intros m'. subst m'.
  set (N := unrest t (Lod.Model.currentRotation m) (Lod.Model.velocity m)).
  destruct (unrest_bounds t _ _ N (Rle_refl _)) as [He Hv].
  unfold Lod.LODTinyHouseModel, Lod.rotationQuality.
  destruct (fps <? 30)%Z; [ | destruct (fps <? 45)%Z ];
    cbn [Lod.Model.currentRotation Lod.Model.velocity];
    apply unrest_le; lra.
Qed.

Lemma sps_model_frames (t : R) (m : Sps.Model.t) (n : nat) :
  let m' := Nat.iter n (Sps.TinyHouseModel t) m in
  unrest t (Sps.Model.currentRotation m') (Sps.Model.velocity m')
  <= 0.9608 ^ n * unrest t (Sps.Model.currentRotation m) (Sps.Model.velocity m).
Proof.
  induction n as [| n IH]; cbv zeta in *; cbn [pow].
  - change (Nat.iter 0 (Sps.TinyHouseModel t) m) with m. lra.
  - change (Nat.iter (S n) (Sps.TinyHouseModel t) m)
      with (Sps.TinyHouseModel t (Nat.iter n (Sps.TinyHouseModel t) m)).
    pose proof (sps_model_frame t (Nat.iter n (Sps.TinyHouseModel t) m)) as H.
    cbv zeta in H. lra.
Qed.

Lemma lod_model_frames (t : R) (n : nat) :
  forall (fps : nat -> Z) (m : Lod.Model.t),
    let m' := lodModelFrames fps t n m in
    unrest t (Lod.Model.currentRotation m') (Lod.Model.velocity m')
    <= 0.9608 ^ n * unrest t (Lod.Model.currentRotation m) (Lod.Model.velocity m).
Proof.
  induction n as [| n IH]; intros fps m; cbv zeta; cbn [lodModelFrames pow].
  - lra.
  - pose proof (lod_model_frame (fps O) t m) as H.
    pose proof (IH (fun i => fps (S i)) (Lod.LODTinyHouseModel (fps O) t m)) as H'.
    cbv zeta in H, H'.
    assert (0 <= 0.9608 ^ n) by (apply pow_le; lra).
    nra.
Qed.

Lemma menu_model_frames (t c : R) (n : nat) :
  t - Nat.iter n (MenuHome.TinyHouseModel t) c = 0.9 ^ n * (t - c).
Proof.
  induction n as [| n IH]; cbn [pow].
  - change (Nat.iter 0 (MenuHome.TinyHouseModel t) c) with c. lra.
  - change (Nat.iter (S n) (MenuHome.TinyHouseModel t) c)
      with (MenuHome.TinyHouseModel t (Nat.iter n (MenuHome.TinyHouseModel t) c)).
    unfold MenuHome.TinyHouseModel at 1. lra.
Qed.

(** X19.  With the target rotation fixed, the rotation a model is displayed
    with settles at the target and never swings away from it.  In the
    positioning scene and in the level-of-detail scene (whatever the frame
    rates read from frame to frame) the larger of the distance to the target
    and twice the speed shrinks at least by the factor 0.9608 in every frame;
    in the menu page the distance to the target shrinks exactly by the factor
    0.9.  A model at rest at the target stays there, and after enough frames
    the displayed rotation is as close to the target as one likes. *)
Theorem model_rotation_settles (t : R) (n : nat) :
  (forall m : Sps.Model.t,
      let m' := Nat.iter n (Sps.TinyHouseModel t) m in
      Rabs (t - Sps.Model.currentRotation m')
      <= 0.9608 ^ n * unrest t (Sps.Model.currentRotation m) (Sps.Model.velocity m)
      /\ 2 * Rabs (Sps.Model.velocity m')
         <= 0.9608 ^ n
            * unrest t (Sps.Model.currentRotation m) (Sps.Model.velocity m))
  /\ (forall (fps : nat -> Z) (m : Lod.Model.t),
      let m' := lodModelFrames fps t n m in
      Rabs (t - Lod.Model.currentRotation m')
      <= 0.9608 ^ n * unrest t (Lod.Model.currentRotation m) (Lod.Model.velocity m)
      /\ 2 * Rabs (Lod.Model.velocity m')
         <= 0.9608 ^ n
            * unrest t (Lod.Model.currentRotation m) (Lod.Model.velocity m))
  /\ (forall c : R,
      t - Nat.iter n (MenuHome.TinyHouseModel t) c = 0.9 ^ n * (t - c))
  /\ (forall (fps : nat -> Z) (m : Lod.Model.t) (eps : R),
      0 < eps ->
      exists N : nat, forall k : nat, (N <= k)%nat ->
        Rabs (t - Lod.Model.currentRotation (lodModelFrames fps t k m)) < eps).
Proof.
  split; [ | split; [ | split ] ].
  - intros m m'. pose proof (sps_model_frames t m n) as H. cbv zeta in H.
    fold m' in H. unfold unrest at 1 in H.
    pose proof (Rmax_l (Rabs (t - Sps.Model.currentRotation m'))
                  (2 * Rabs (Sps.Model.velocity m'))).
    pose proof (Rmax_r (Rabs (t - Sps.Model.currentRotation m'))
                  (2 * Rabs (Sps.Model.velocity m'))).
    split; lra.
  - intros fps m m'. pose proof (lod_model_frames t n fps m) as H. cbv zeta in H.
    fold m' in H. unfold unrest at 1 in H.
    pose proof (Rmax_l (Rabs (t - Lod.Model.currentRotation m'))
                  (2 * Rabs (Lod.Model.velocity m'))).
    pose proof (Rmax_r (Rabs (t - Lod.Model.currentRotation m'))
                  (2 * Rabs (Lod.Model.velocity m'))).
    split; lra.
  - intros c. apply menu_model_frames.
  - intros fps m eps Heps.
    set (D := unrest t (Lod.Model.currentRotation m) (Lod.Model.velocity m)).
    assert (HD : 0 <= D) by apply unrest_nonneg.
    destruct (pow_lt_1_zero 0.9608) with (y := eps / (D + 1)) as [N HN].
    + rewrite Rabs_pos_eq; lra.
    + apply Rdiv_lt_0_compat; lra.
    + exists N. intros k Hk.
      pose proof (lod_model_frames t k fps m) as H. cbv zeta in H. fold D in H.
      unfold unrest at 1 in H.
      pose proof (Rmax_l (Rabs (t - Lod.Model.currentRotation
                                       (lodModelFrames fps t k m)))
                    (2 * Rabs (Lod.Model.velocity (lodModelFrames fps t k m)))).
      specialize (HN k ltac:(lia)).
      assert (Hp : 0 <= 0.9608 ^ k) by (apply pow_le; lra).
      rewrite Rabs_pos_eq in HN by exact Hp.
      assert (H1 : 0.9608 ^ k * (D + 1) < eps).
      { apply (Rmult_lt_compat_r (D + 1)) in HN; [ | lra ].
        replace (eps / (D + 1) * (D + 1)) with eps in HN by (field; lra).
        exact HN. }
      nra.
Qed.

Lemma model_rotation_settles_witness :
  exists N : nat, forall k : nat, (N <= k)%nat ->
    Rabs (1 - Lod.Model.currentRotation
                (lodModelFrames (fun _ => 60%Z) 1 k (Lod.Model.mk 0 0))) < 1 / 100.
Proof.
  apply (proj2 (proj2 (proj2 (model_rotation_settles 1 0)))
           (fun _ => 60%Z) (Lod.Model.mk 0 0) (1 / 100)).
  lra.
Defined.

(** ** Level of detail by distance *)

Lemma lod_by_distance (position camera : Vec3) (focusedSphere : option Z)
  (sphereId : Z) :
  notFocused focusedSphere sphereId ->
  let d := distance camera position in
  Lod.useDistanceLOD position camera focusedSphere (Some sphereId)
  = if Js.lt d 2 then Lod.Detail.mk Lod.high true true true 16 16
    else if Js.lt d 5 then Lod.Detail.mk Lod.medium true true true 12 12
    else if Js.lt d 10 then Lod.Detail.mk Lod.low true false false 8 8
    else Lod.Detail.mk Lod.low false false false 6 6.
Proof.
  unfold notFocused, Lod.useDistanceLOD. intros ->. reflexivity.
Qed.

Lemma floor_between (a : R) (n : Z) :
  IZR n <= a < IZR n + 1 -> Js.floor a = IZR n.
Proof.
  intros H. unfold Js.floor. f_equal. symmetry. apply Int_part_spec.
  lra.
Qed.


(** X20.  The level of detail of an anchor that is not the focused one follows
    its distance from the camera: it is drawn exactly when the distance is
    below 10, with wireframe and floating exactly when it is below 5, and a
    farther anchor never gets a higher level, more segments, or a flag that a
    nearer one does not get.  For every anchor, focused or not, the two
    segment counts are equal and lie between 6 and 32, wireframe and floating
    go together, and neither is on for an anchor that is not drawn. *)
Theorem detail_decreases_with_distance (camera : Vec3) (focusedSphere : option Z) :
  (forall (position position' : Vec3) (sphereId sphereId' : Z),
      notFocused focusedSphere sphereId ->
      notFocused focusedSphere sphereId' ->
      distance camera position <= distance camera position' ->
      let lod := Lod.useDistanceLOD position camera focusedSphere (Some sphereId) in
      let lod' :=
        Lod.useDistanceLOD position' camera focusedSphere (Some sphereId') in
      (detailRank (Lod.Detail.detail lod') <= detailRank (Lod.Detail.detail lod))%Z
      /\ (Lod.Detail.widthSegments lod' <= Lod.Detail.widthSegments lod)%Z
      /\ flagLe (Lod.Detail.visible lod') (Lod.Detail.visible lod)
      /\ flagLe (Lod.Detail.showWireframe lod') (Lod.Detail.showWireframe lod)
      /\ flagLe (Lod.Detail.showFloating lod') (Lod.Detail.showFloating lod))
  /\ (forall (position : Vec3) (sphereId : Z),
      notFocused focusedSphere sphereId ->
      let lod := Lod.useDistanceLOD position camera focusedSphere (Some sphereId) in
      (Lod.Detail.visible lod = true <-> distance camera position < 10)
      /\ (Lod.Detail.showWireframe lod = true <-> distance camera position < 5)
      /\ (Lod.Detail.detail lod = Lod.high <-> distance camera position < 2))
  /\ (forall (position : Vec3) (sphereId : option Z),
      let lod := Lod.useDistanceLOD position camera focusedSphere sphereId in
      Lod.Detail.heightSegments lod = Lod.Detail.widthSegments lod
      /\ (6 <= Lod.Detail.widthSegments lod <= 32)%Z
      /\ Lod.Detail.showFloating lod = Lod.Detail.showWireframe lod
      /\ flagLe (Lod.Detail.showWireframe lod) (Lod.Detail.visible lod)).
Proof.
  split; [ | split ].
  - intros position position' sphereId sphereId' Hn Hn' Hd lod lod'.
    subst lod lod'. rewrite (lod_by_distance _ _ _ _ Hn), (lod_by_distance _ _ _ _ Hn').
    cbv zeta. unfold flagLe.
    destruct (Js.lt (distance camera position) 2) eqn:H2;
      destruct (Js.lt (distance camera position) 5) eqn:H5;
      destruct (Js.lt (distance camera position) 10) eqn:H10;
      destruct (Js.lt (distance camera position') 2) eqn:H2';
      destruct (Js.lt (distance camera position') 5) eqn:H5';
      destruct (Js.lt (distance camera position') 10) eqn:H10';
      reflect_cmp; try (exfalso; lra);
      cbn [Lod.Detail.detail Lod.Detail.widthSegments Lod.Detail.visible
           Lod.Detail.showWireframe Lod.Detail.showFloating detailRank];
      (split; [ lia | split; [ lia | repeat split; intros H; exact H ] ]).
  - intros position sphereId Hn lod. subst lod.
    rewrite (lod_by_distance _ _ _ _ Hn). cbv zeta.
    destruct (Js.lt (distance camera position) 2) eqn:H2;
      destruct (Js.lt (distance camera position) 5) eqn:H5;
      destruct (Js.lt (distance camera position) 10) eqn:H10;
      reflect_cmp; try (exfalso; lra);
      cbn [Lod.Detail.detail Lod.Detail.visible Lod.Detail.showWireframe];
      (split; [ | split ]); split; intros H; try reflexivity; try discriminate H;
      lra.
  - intros position sphereId lod. subst lod. unfold Lod.useDistanceLOD, flagLe.
    destruct (match sphereId with
              | Some id => Js.truthy id && Js.eqOpt focusedSphere id
              | None => false
              end);
      [ | destruct (Js.lt (distance camera position) 2);
          [ | destruct (Js.lt (distance camera position) 5);
              [ | destruct (Js.lt (distance camera position) 10) ] ] ];
      cbn [Lod.Detail.heightSegments Lod.Detail.widthSegments
           Lod.Detail.showFloating Lod.Detail.showWireframe Lod.Detail.visible];
      (split; [ reflexivity | split; [ lia | split; [ reflexivity | auto ] ] ]).
Qed.

Lemma detail_decreases_with_distance_witness :
  let lod := Lod.useDistanceLOD (3, 0, 0) (0, 0, 0) (Some 2%Z) (Some 1%Z) in
  let lod' := Lod.useDistanceLOD (3, 4, 0) (0, 0, 0) (Some 2%Z) (Some 3%Z) in
  (Lod.Detail.widthSegments lod' <= Lod.Detail.widthSegments lod)%Z.
Proof.
  assert (H1 : notFocused (Some 2%Z) 1) by reflexivity.
  assert (H3 : notFocused (Some 2%Z) 3) by reflexivity.
  assert (Hd : distance (0, 0, 0) (3, 0, 0) <= distance (0, 0, 0) (3, 4, 0)).
  { unfold distance, c0, c1, c2, Js.pow2. cbn [fst snd].
    apply sqrt_le_1_alt. lra. }
  exact (proj1 (proj2 (proj1 (detail_decreases_with_distance (0, 0, 0) (Some 2%Z))
                         (3, 0, 0) (3, 4, 0) 1%Z 3%Z H1 H3 Hd))).
Defined.

(** ** Quality of a rendered sphere *)

Lemma Rmax_left (a b : R) : b <= a -> Rmax a b = a.
Proof. intros H. unfold Rmax. destruct (Rle_dec a b); lra. Qed.

Lemma Rmax_right (a b : R) : a <= b -> Rmax a b = b.
Proof. intros H. unfold Rmax. destruct (Rle_dec a b); lra. Qed.

Lemma lod_segments (position camera : Vec3) (focusedSphere sphereId : option Z) :
  let lod := Lod.useDistanceLOD position camera focusedSphere sphereId in
  In (Lod.Detail.widthSegments lod) segmentCounts
  /\ Lod.Detail.heightSegments lod = Lod.Detail.widthSegments lod.
Proof.
  unfold Lod.useDistanceLOD, segmentCounts.
  destruct (match sphereId with
            | Some id => Js.truthy id && Js.eqOpt focusedSphere id
            | None => false
            end);
    [ | destruct (Js.lt (distance camera position) 2);
        [ | destruct (Js.lt (distance camera position) 5);
            [ | destruct (Js.lt (distance camera position) 10) ] ] ];
    cbn [Lod.Detail.heightSegments Lod.Detail.widthSegments In];
    (split; [ tauto | reflexivity ]).
Qed.

(** [Math.max(4, Math.floor(seg * performanceAdjustment))] in integers. *)
Lemma adjusted_segments (seg fps : Z) :
  In seg segmentCounts ->
  Rmax 4 (Js.floor (IZR seg * Lod.performanceAdjustment fps))
  = IZR (Z.max 4 (seg * quarters fps / 4)).
Proof.
  unfold segmentCounts, Lod.performanceAdjustment, quarters. cbn [In].
  intros [<- | [<- | [<- | [<- | [<- | []]]]]];
    destruct (fps <? 30)%Z; [ | destruct (fps <? 45)%Z | | destruct (fps <? 45)%Z
                              | | destruct (fps <? 45)%Z | | destruct (fps <? 45)%Z
                              | | destruct (fps <? 45)%Z ].
  all: match goal with
       | |- Rmax 4 (Js.floor ?a) = IZR ?z =>
         let n := eval vm_compute in z in
         change (IZR z) with (IZR n)
       end.
  all: try (rewrite (floor_between _ 3) by lra; apply Rmax_left; lra).
  all: try (rewrite (floor_between _ 4) by lra; apply Rmax_left; lra).
  all: try (rewrite (floor_between _ 6) by lra; apply Rmax_right; lra).
  all: try (rewrite (floor_between _ 8) by lra; apply Rmax_right; lra).
  all: try (rewrite (floor_between _ 9) by lra; apply Rmax_right; lra).
  all: try (rewrite (floor_between _ 12) by lra; apply Rmax_right; lra).
  all: try (rewrite (floor_between _ 16) by lra; apply Rmax_right; lra).
  all: try (rewrite (floor_between _ 24) by lra; apply Rmax_right; lra).
  all: try (rewrite (floor_between _ 32) by lra; apply Rmax_right; lra).
Qed.

Lemma adjusted_range (seg fps : Z) :
  In seg segmentCounts ->
  (4 <= Z.max 4 (seg * quarters fps / 4) <= seg)%Z
  /\ ((45 <= fps)%Z -> Z.max 4 (seg * quarters fps / 4) = seg)
  /\ (seg <= 32)%Z.
Proof.
  unfold segmentCounts, quarters. cbn [In].
  intros [<- | [<- | [<- | [<- | [<- | []]]]]];
    destruct (fps <? 30)%Z eqn:H30; destruct (fps <? 45)%Z eqn:H45;
    try apply Z.ltb_lt in H30; try apply Z.ltb_lt in H45;
    try apply Z.ltb_ge in H30; try apply Z.ltb_ge in H45;
    vm_compute Z.max; (split; [ lia | split; [ intros; lia | lia ] ]).
Qed.

Lemma opacity_range (lod : Lod.Detail.t) (fps : Z) :
  0.27 <= Lod.opacity lod fps <= 0.9.
Proof.
  unfold Lod.opacity, Lod.performanceAdjustment.
  destruct (Lod.Detail.detail lod), (fps <? 30)%Z, (fps <? 45)%Z; lra.
Qed.

Lemma floor_le (a : R) : Js.floor a <= a.
Proof. unfold Js.floor. apply (proj1 (base_Int_part a)). Qed.

(** X21.  The quality of a sphere component stays within bounds, for every
    position, camera, focus and frame rate.  The segments after the
    performance adjustment are the level's segments times 2/4 (below 30
    frames per second), 3/4 (below 45) or 4/4, rounded down and at least 4:
    a whole number between 4 and the level's own count, equal to it from 45
    frames per second on, and the same in width and height.  The opacity lies
    between 0.27 and 0.9.  The component renders nothing exactly when the
    anchor is hidden or its level is culled; otherwise the wireframe overlay
    is drawn exactly when the level allows it and more than 30 frames per
    second are read, with between 6 and 24 segments and 0.4 times the
    opacity. *)
Theorem sphere_quality_stays_in_bounds (position camera : Vec3) (visible : bool)
  (sphereId : Z) (focusedSphere : option Z) (fps : Z) :
  let lod := Lod.useDistanceLOD position camera focusedSphere (Some sphereId) in
  let seg := Lod.Detail.widthSegments lod in
  let final := Lod.finalGeometryDetail lod fps in
  (fst final = IZR (Z.max 4 (seg * quarters fps / 4))
   /\ snd final = fst final
   /\ 4 <= fst final <= IZR seg
   /\ IZR seg <= 32
   /\ ((45 <= fps)%Z -> fst final = IZR seg))
  /\ 0.27 <= Lod.opacity lod fps <= 0.9
  /\ (Lod.LODPositioningSphere position camera visible sphereId focusedSphere fps
      = None
      <-> visible = false \/ Lod.Detail.visible lod = false)
  /\ (forall mesh : Lod.Mesh.t,
      Lod.LODPositioningSphere position camera visible sphereId focusedSphere fps
      = Some mesh ->
      Lod.Mesh.widthSegments mesh = fst final
      /\ Lod.Mesh.heightSegments mesh = fst final
      /\ Lod.Mesh.opacity mesh = Lod.opacity lod fps
      /\ (Lod.Mesh.wireframe mesh <> None
          <-> Lod.Detail.showWireframe lod = true /\ (30 < fps)%Z)
      /\ (forall ww wh wo : R,
          Lod.Mesh.wireframe mesh = Some (ww, wh, wo) ->
          6 <= ww <= 24 /\ wh = ww /\ wo = Lod.opacity lod fps * 0.4)).
Proof.
  intros lod seg final.
  destruct (lod_segments position camera focusedSphere (Some sphereId))
    as [Hin Hh]. fold lod in Hin, Hh. fold seg in Hin.
  destruct (adjusted_range seg fps Hin) as (Hr & H45 & H32).
  assert (Hw : fst final = IZR (Z.max 4 (seg * quarters fps / 4))).
  { subst final. unfold Lod.finalGeometryDetail. cbn [fst]. fold seg.
    apply adjusted_segments. exact Hin. }
  assert (Hs : snd final = fst final).
  { subst final. unfold Lod.finalGeometryDetail. cbn [fst snd]. rewrite Hh.
    reflexivity. }
  assert (Hb : 4 <= fst final <= IZR seg).
  { rewrite Hw. split; [ apply (IZR_le 4) | apply IZR_le ]; lia. }
  assert (Hseg : IZR seg <= 32) by (apply (IZR_le seg 32); lia).
  split; [ | split; [ apply opacity_range | split ] ].
  - split; [ exact Hw | ]. split; [ exact Hs | ]. split; [ exact Hb | ].
    split; [ exact Hseg | ]. intros H. rewrite Hw, (H45 H). reflexivity.
  - unfold Lod.LODPositioningSphere. fold lod.
    destruct visible, (Lod.Detail.visible lod); cbn [negb orb];
      split; try discriminate; try tauto.
    intros [H | H]; discriminate H.
  - intros mesh. unfold Lod.LODPositioningSphere. fold lod. fold final.
    destruct (negb visible || negb (Lod.Detail.visible lod));
      [ intros H; discriminate H | ].
    intros [= <-].
    cbn [Lod.Mesh.widthSegments Lod.Mesh.heightSegments Lod.Mesh.opacity
         Lod.Mesh.wireframe].
    split; [ reflexivity | ]. split; [ exact Hs | ]. split; [ reflexivity | ].
    destruct (Lod.Detail.showWireframe lod); cbn [andb].
    + destruct (fps >? 30)%Z eqn:Hf.
      * split.
        { split; [ intros _ | intros _ H; discriminate H ].
          split; [ reflexivity | ]. apply Z.gtb_lt in Hf. lia. }
        intros ww wh wo H. injection H as <- <- <-.
        change (Rmax 4 (Js.floor (IZR (Lod.Detail.widthSegments lod)
                                  * Lod.performanceAdjustment fps)))
          with (fst final).
        change (Rmax 4 (Js.floor (IZR (Lod.Detail.heightSegments lod)
                                  * Lod.performanceAdjustment fps)))
          with (snd final).
        rewrite Hs.
        split; [ | split; reflexivity ].
        split; [ apply Rmax_l | ].
        apply Rmax_lub; [ lra | ].
        pose proof (floor_le (fst final * 0.75)). lra.
      * split; [ | intros ww wh wo H; discriminate H ].
        split; [ intros H; contradiction | ].
        intros [_ H]. exfalso.
        assert (Hgt : (fps >? 30)%Z = true) by (apply Z.gtb_lt; lia).
        congruence.
    + split; [ | intros ww wh wo H; discriminate H ].
      split; [ intros H; contradiction | intros [H _]; discriminate H ].
Qed.

(** ** The spheres on the canvas *)









(** ** The scroll-driven pages *)

Lemma le_true (a b : R) : Js.le a b = true <-> a <= b.
Proof. unfold Js.le. apply ge_true. Qed.

Lemma le_false (a b : R) : Js.le a b = false <-> b < a.
Proof. unfold Js.le. apply ge_false. Qed.

Lemma scrollPercent_range (w : Window.t) :
  scrollable w -> 0 <= scrollPercentOf w <= 100.
Proof.
  intros [Hh [H0 H1]]. unfold scrollPercentOf.
  set (d := Window.scrollHeight w - Window.innerHeight w) in *.
  assert (Hd : 0 < d) by (subst d; lra).
  assert (Hq : 0 <= Window.pageYOffset w / d <= 1).
  { split.
    - apply Rmult_le_pos; [ lra | left; apply Rinv_0_lt_compat; exact Hd ].
    - apply (Rmult_le_reg_r d); [ exact Hd | ].
      unfold Rdiv. rewrite Rmult_assoc, Rinv_l by lra. lra. }
  lra.
Qed.

Lemma scrollDegrees_eq (w : Window.t) :
  scrollDegreesOf w = Rmin (scrollPercentOf w / 25) 1 * 90.
Proof. unfold scrollDegreesOf. field. apply PI_neq0. Qed.

(** What one call of the handler stores, field by field. *)
Lemma rotate_handler (w : Window.t) (st : ScrollRotate.State) :
  let st' := ScrollRotate.handleScroll w st in
  let deg := scrollDegreesOf w in
  let opens := Js.ge deg 30 && negb (ScrollRotate.sidebarOpen st) in
  let notifies := opens && negb (ScrollRotate.notificationShown st) in
  ScrollRotate.sidebarOpen st' = Js.ge deg 30
  /\ ScrollRotate.modelRotation st' = Rmin (scrollPercentOf w / 25) 1 * (PI / 2)
  /\ ScrollRotate.scrollProgress st' = Js.round (scrollPercentOf w)
  /\ ScrollRotate.heroOpacity st'
     = (if Js.lt deg 60 then Rmax (1 - deg / 60 * 0.8) 0.2 else 0)
  /\ ScrollRotate.titleOpacity st'
     = (if Js.lt deg 30 then Rmax (1 - deg / 30) 0 else 0)
  /\ ScrollRotate.scrollTimeout st' = ScrollRotate.scrollTimeout st
  /\ ScrollRotate.dropdownStates st'
     = (if Js.lt deg 30 && ScrollRotate.sidebarOpen st then allClosed
        else ScrollRotate.dropdownStates st)
  /\ ScrollRotate.notificationShown st'
     = (ScrollRotate.notificationShown st || opens)
  /\ ScrollRotate.showNotification st'
     = (ScrollRotate.showNotification st || notifies)
  /\ ScrollRotate.timers st'
     = (if notifies
        then ScrollRotate.timers st ++ [ScrollRotate.HideNotification 3000]
        else ScrollRotate.timers st).
Proof.
  unfold ScrollRotate.handleScroll, scrollDegreesOf, scrollPercentOf. cbv zeta.
  set (deg := _ * 180 / PI).
  destruct (Js.ge deg 30) eqn:Hge; destruct (Js.lt deg 30) eqn:Hlt;
    reflect_cmp; try (exfalso; lra);
    destruct (ScrollRotate.sidebarOpen st) eqn:Hs;
    destruct (ScrollRotate.notificationShown st) eqn:Hn;
    destruct (ScrollRotate.showNotification st) eqn:Hsh;
    cbn [andb orb negb]; unfold ScrollRotate.setTimeout;
    cbn [ScrollRotate.sidebarOpen ScrollRotate.modelRotation
         ScrollRotate.scrollProgress ScrollRotate.heroOpacity
         ScrollRotate.titleOpacity ScrollRotate.scrollTimeout
         ScrollRotate.dropdownStates ScrollRotate.notificationShown
         ScrollRotate.showNotification ScrollRotate.timers
         ScrollRotate.setSidebarOpen ScrollRotate.setModelRotation
         ScrollRotate.setScrollProgress ScrollRotate.setHeroOpacity
         ScrollRotate.setTitleOpacity ScrollRotate.setDropdownStates
         ScrollRotate.setNotificationShown ScrollRotate.setShowNotification
         ScrollRotate.setTimers];
    rewrite ?Hs, ?Hn, ?Hsh; repeat split; reflexivity.
Qed.






(** What one call of the handler stores, field by field. *)
Lemma hero_handler (w : Window.t) (st : ScrollHero.State) :
  let st' := ScrollHero.handleScroll w st in
  let p := scrollPercentOf w in
  let opens := Js.ge p 10 && negb (ScrollHero.sidebarOpen st) in
  let notifies := opens && negb (ScrollHero.notificationShown st) in
  ScrollHero.sidebarOpen st' = Js.ge p 10
  /\ ScrollHero.heroScale st'
     = (if Js.le p 10 then Rmax (1 - p / 10 * 1) 0.1 else 0)
  /\ ScrollHero.scrollProgress st' = Js.round (scrollPercentOf w)
  /\ ScrollHero.heroOpacity st'
     = (if Js.le p 10 then Rmax (1 - p / 10 * 1) 0 else 0)
  /\ ScrollHero.titleOpacity st'
     = (if Js.le p 8 then Rmax (1 - p / 8 * 1) 0 else 0)
  /\ ScrollHero.scrollTimeout st' = ScrollHero.scrollTimeout st
  /\ ScrollHero.dropdownStates st'
     = (if Js.lt p 10 && ScrollHero.sidebarOpen st then allClosed
        else ScrollHero.dropdownStates st)
  /\ ScrollHero.notificationShown st'
     = (ScrollHero.notificationShown st || opens)
  /\ ScrollHero.showNotification st'
     = (ScrollHero.showNotification st || notifies)
  /\ ScrollHero.timers st'
     = (if notifies
        then ScrollHero.timers st ++ [ScrollHero.HideNotification 3000]
        else ScrollHero.timers st).
Proof.
  unfold ScrollHero.handleScroll, scrollPercentOf. cbv zeta.
  set (p := _ / _ * 100).
  destruct (Js.ge p 10) eqn:Hge; destruct (Js.lt p 10) eqn:Hlt;
    reflect_cmp; try (exfalso; lra);
    destruct (ScrollHero.sidebarOpen st) eqn:Hs;
    destruct (ScrollHero.notificationShown st) eqn:Hn;
    destruct (ScrollHero.showNotification st) eqn:Hsh;
    cbn [andb orb negb]; unfold ScrollHero.setTimeout;
    cbn [ScrollHero.sidebarOpen ScrollHero.heroScale
         ScrollHero.scrollProgress ScrollHero.heroOpacity
         ScrollHero.titleOpacity ScrollHero.scrollTimeout
         ScrollHero.dropdownStates ScrollHero.notificationShown
         ScrollHero.showNotification ScrollHero.timers
         ScrollHero.setSidebarOpen ScrollHero.setHeroScale
         ScrollHero.setScrollProgress ScrollHero.setHeroOpacity
         ScrollHero.setTitleOpacity ScrollHero.setDropdownStates
         ScrollHero.setNotificationShown ScrollHero.setShowNotification
         ScrollHero.setTimers];
    rewrite ?Hs, ?Hn, ?Hsh; repeat split; reflexivity.
Qed.













(** ** What the scroll position shows *)


(** The degrees of the first page are 3.6 times the percentage, capped at 90. *)
Lemma scrollDegrees_cases (w : Window.t) :
  (scrollPercentOf w <= 25 /\ scrollDegreesOf w = scrollPercentOf w * 3.6)
  \/ (25 < scrollPercentOf w /\ scrollDegreesOf w = 90).
Proof.
  rewrite scrollDegrees_eq. unfold Rmin.
  destruct (Rle_dec (scrollPercentOf w / 25) 1); [ left | right ]; lra.
Qed.

Lemma Rmax_cases (a b : R) : (b <= a /\ Rmax a b = a) \/ (a <= b /\ Rmax a b = b).
Proof. unfold Rmax. destruct (Rle_dec a b); [ right | left ]; lra. Qed.

(** The outputs of the first page as functions of the percentage. *)
Lemma rotate_outputs (w : Window.t) (st : ScrollRotate.State) :
  let st' := ScrollRotate.handleScroll w st in
  let p := scrollPercentOf w in
  0 <= p ->
  (ScrollRotate.sidebarOpen st' = true <-> 25 / 3 <= p)
  /\ ScrollRotate.modelRotation st' = Rmin (p / 25) 1 * (PI / 2)
  /\ 0 <= ScrollRotate.modelRotation st' <= PI / 2
  /\ ScrollRotate.titleOpacity st' = Rmax (1 - p * 0.12) 0
  /\ ScrollRotate.heroOpacity st'
     = (if Js.lt p (50 / 3) then Rmax (1 - p * 0.048) 0.2 else 0).
Proof.
  intros st' p Hp. subst st'.
  destruct (rotate_handler w st) as (H1 & H2 & _ & H4 & H5 & _).
  cbv zeta in H1, H2, H4, H5. fold p in H2.
  destruct (scrollDegrees_cases w) as [[Hc Hd] | [Hc Hd]]; fold p in Hc, Hd.
  - rewrite H1, H2, H4, H5, Hd.
    split; [ rewrite ge_true; split; intros; lra | ].
    split; [ reflexivity | ].
    split.
    { unfold Rmin. pose proof PI_RGT_0.
      destruct (Rle_dec (p / 25) 1); [ | lra ].
      split; [ apply Rmult_le_pos; lra | nra ]. }
    split.
    + destruct (Js.lt (p * 3.6) 30) eqn:E; reflect_cmp.
      * f_equal. lra.
      * symmetry. apply Rmax_right. lra.
    + destruct (Js.lt (p * 3.6) 60) eqn:E; destruct (Js.lt p (50 / 3)) eqn:E';
        reflect_cmp; try (exfalso; lra); [ f_equal; lra | reflexivity ].
  - rewrite H1, H2, H4, H5, Hd.
    split; [ rewrite ge_true; split; intros; lra | ].
    split; [ reflexivity | ].
    split.
    { unfold Rmin. pose proof PI_RGT_0.
      destruct (Rle_dec (p / 25) 1); lra. }
    split.
    + destruct (Js.lt 90 30) eqn:E; reflect_cmp; [ exfalso; lra | ].
      symmetry. apply Rmax_right. lra.
    + destruct (Js.lt 90 60) eqn:E; destruct (Js.lt p (50 / 3)) eqn:E';
        reflect_cmp; try (exfalso; lra); reflexivity.
Qed.

(** The outputs of the second page as functions of the percentage. *)
Lemma hero_outputs (w : Window.t) (st : ScrollHero.State) :
  let st' := ScrollHero.handleScroll w st in
  let p := scrollPercentOf w in
  (ScrollHero.sidebarOpen st' = true <-> 10 <= p)
  /\ ScrollHero.heroScale st' = (if Js.le p 10 then Rmax (1 - p / 10) 0.1 else 0)
  /\ ScrollHero.heroOpacity st' = Rmax (1 - p / 10) 0
  /\ ScrollHero.titleOpacity st' = Rmax (1 - p / 8) 0.
Proof.
  intros st' p. subst st'.
  destruct (hero_handler w st) as (H1 & H2 & _ & H4 & H5 & _).
  cbv zeta in H1, H2, H4, H5. fold p in H1, H2, H4, H5.
  rewrite H1, H2, H4, H5.
  split; [ apply ge_true | ].
  split; [ destruct (Js.le p 10); [ f_equal; lra | reflexivity ] | ].
  split.
  - destruct (Js.le p 10) eqn:E.
    + f_equal. lra.
    + apply le_false in E. symmetry. apply Rmax_right. lra.
  - destruct (Js.le p 8) eqn:E.
    + f_equal. lra.
    + apply le_false in E. symmetry. apply Rmax_right. lra.
Qed.




(** X26.  Scrolling further down never brings anything back.  Of two
    positions of a window that can be scrolled, the one further down gives a
    rotation at least as large, a hero and a title at most as opaque (and a
    hero at most as large), and an open sidebar whenever the other one does;
    whatever the states the handler runs in. *)
Theorem scrolling_down_only_fades (w w' : Window.t) :
  scrollable w -> scrollable w' ->
  scrollPercentOf w <= scrollPercentOf w' ->
  (forall st st0 : ScrollRotate.State,
      let a := ScrollRotate.handleScroll w st in
      let b := ScrollRotate.handleScroll w' st0 in
      ScrollRotate.modelRotation a <= ScrollRotate.modelRotation b
      /\ ScrollRotate.heroOpacity b <= ScrollRotate.heroOpacity a
      /\ ScrollRotate.titleOpacity b <= ScrollRotate.titleOpacity a
      /\ (ScrollRotate.sidebarOpen a = true -> ScrollRotate.sidebarOpen b = true))
  /\ (forall st st0 : ScrollHero.State,
      let a := ScrollHero.handleScroll w st in
      let b := ScrollHero.handleScroll w' st0 in
      ScrollHero.heroScale b <= ScrollHero.heroScale a
      /\ ScrollHero.heroOpacity b <= ScrollHero.heroOpacity a
      /\ ScrollHero.titleOpacity b <= ScrollHero.titleOpacity a
      /\ (ScrollHero.sidebarOpen a = true -> ScrollHero.sidebarOpen b = true)).
Proof.
  intros Hw Hw' Hle.
  pose proof (scrollPercent_range w Hw) as Hp.
  pose proof (scrollPercent_range w' Hw') as Hp'.
  set (p := scrollPercentOf w) in *. set (p' := scrollPercentOf w') in *.
  split.
  - intros st st0 a b. subst a b.
    destruct (rotate_outputs w st (proj1 Hp)) as (H1 & H2 & _ & H4 & H5).
    destruct (rotate_outputs w' st0 (proj1 Hp')) as (G1 & G2 & _ & G4 & G5).
    fold p in H1, H2, H4, H5. fold p' in G1, G2, G4, G5.
    rewrite H2, G2, H4, G4, H5, G5.
    split.
    { pose proof PI_RGT_0. unfold Rmin.
      destruct (Rle_dec (p / 25) 1), (Rle_dec (p' / 25) 1); nra. }
    split.
    { destruct (Js.lt p (50 / 3)) eqn:E; destruct (Js.lt p' (50 / 3)) eqn:E';
        reflect_cmp; try (exfalso; lra).
      - destruct (Rmax_cases (1 - p * 0.048) 0.2) as [[H ->] | [H ->]];
          destruct (Rmax_cases (1 - p' * 0.048) 0.2) as [[H' ->] | [H' ->]]; lra.
      - destruct (Rmax_cases (1 - p * 0.048) 0.2) as [[H ->] | [H ->]]; lra.
      - lra. }
    split.
    { destruct (Rmax_cases (1 - p * 0.12) 0) as [[H ->] | [H ->]];
        destruct (Rmax_cases (1 - p' * 0.12) 0) as [[H' ->] | [H' ->]]; lra. }
    rewrite H1, G1. lra.
  - intros st st0 a b. subst a b.
    destruct (hero_outputs w st) as (H1 & H2 & H4 & H5).
    destruct (hero_outputs w' st0) as (G1 & G2 & G4 & G5).
    fold p in H1, H2, H4, H5. fold p' in G1, G2, G4, G5.
    rewrite H2, G2, H4, G4, H5, G5.
    split.
    { destruct (Js.le p 10) eqn:E; destruct (Js.le p' 10) eqn:E';
        try apply le_true in E; try apply le_false in E;
        try apply le_true in E'; try apply le_false in E';
        try (exfalso; lra).
      - destruct (Rmax_cases (1 - p / 10) 0.1) as [[H ->] | [H ->]];
          destruct (Rmax_cases (1 - p' / 10) 0.1) as [[H' ->] | [H' ->]]; lra.
      - destruct (Rmax_cases (1 - p / 10) 0.1) as [[H ->] | [H ->]]; lra.
      - lra. }
    split.
    { destruct (Rmax_cases (1 - p / 10) 0) as [[H ->] | [H ->]];
        destruct (Rmax_cases (1 - p' / 10) 0) as [[H' ->] | [H' ->]]; lra. }
    split.
    { destruct (Rmax_cases (1 - p / 8) 0) as [[H ->] | [H ->]];
        destruct (Rmax_cases (1 - p' / 8) 0) as [[H' ->] | [H' ->]]; lra. }
    rewrite H1, G1. lra.
Qed.

Lemma scrolling_down_only_fades_witness :
  let w := Window.mk 100 2000 1000 in
  let w' := Window.mk 500 2000 1000 in
  scrollable w /\ scrollable w'
  /\ ScrollHero.heroOpacity (ScrollHero.handleScroll w' ScrollHero.initialState)
     <= ScrollHero.heroOpacity (ScrollHero.handleScroll w ScrollHero.initialState).
Proof.
  intros w w'.
  assert (Hw : scrollable w).
  { unfold scrollable, w. cbn [Window.innerHeight Window.scrollHeight
                               Window.pageYOffset]. lra. }
  assert (Hw' : scrollable w').
  { unfold scrollable, w'. cbn [Window.innerHeight Window.scrollHeight
                                Window.pageYOffset]. lra. }
  assert (Hle : scrollPercentOf w <= scrollPercentOf w').
  { unfold scrollPercentOf, w, w'.
    cbn [Window.innerHeight Window.scrollHeight Window.pageYOffset]. lra. }
  split; [ exact Hw | ]. split; [ exact Hw' | ].
  exact (proj1 (proj2 (proj2 (scrolling_down_only_fades w w' Hw Hw' Hle)
                         ScrollHero.initialState ScrollHero.initialState))).
Defined.

(** ** Stage labels *)

Lemma floor_lt_iff (y : R) (n : Z) : Js.floor y < IZR n <-> y < IZR n.
Proof.
  unfold Js.floor. destruct (base_Int_part y) as [H1 H2]. split; intros H.
  - apply lt_IZR in H.
    assert (Hk : (Int_part y + 1 <= n)%Z) by lia.
    apply IZR_le in Hk. rewrite plus_IZR in Hk. lra.
  - lra.
Qed.

Lemma round_lt_iff (x : R) (n : Z) : Js.round x < IZR n <-> x < IZR n - 1 / 2.
Proof. unfold Js.round. rewrite floor_lt_iff. split; intros; lra. Qed.

Lemma sps_step_target (st : Sps.State) (e : Sps.Event) :
  match e with
  | Sps.Wheel deltaY =>
    Sps.targetRotation (Sps.step st e)
    = (Sps.accumulatedDegrees st + wheelStep deltaY) * PI / 180
  | _ => Sps.targetRotation (Sps.step st e) = Sps.targetRotation st
  end.
Proof.
  unfold Sps.step. rewrite sps_rerun_target.
  destruct e; cbn [Sps.handle]; try reflexivity.
  - apply sps_wheel_target.
  - unfold Sps.handleKeyDown. destruct (String.eqb key "Escape" && _); reflexivity.
  - unfold Sps.zoomToSphere. destruct (findSphere _ _); reflexivity.
  - unfold Sps.fireTimer. destruct (nth_error _ _) as [[d] |]; reflexivity.
Qed.

Lemma sps_staged_step (st : Sps.State) (e : Sps.Event) :
  spsStaged st -> spsStaged (Sps.step st e).
Proof.
  intros [Hd [Hs Ho]]. unfold spsStaged, stageAt.
  pose proof (sps_step_fields st e) as Hf.
  pose proof (sps_step_target st e) as Ht.
  destruct e; try (destruct Hf as (-> & -> & ->); rewrite Ht;
                   split; [ exact Hd | split; [ exact Hs | exact Ho ] ]).
  destruct Hf as (-> & -> & ->). rewrite Ht.
  rewrite sps_wheel_degrees, sps_wheel_scale, sps_wheel_title.
  split; [ | split; reflexivity ].
  f_equal. f_equal. field. apply PI_neq0.
Qed.

Lemma sps_staged_run (es : list Sps.Event) :
  spsStaged (Sps.run Sps.initialState es).
Proof.
  unfold Sps.run.
  apply (fold_invariant Sps.step spsStaged);
    [ intros st e; apply sps_staged_step | ].
  unfold spsStaged, stageAt.
  cbn [Sps.rotationDegrees Sps.targetRotation Sps.modelScale Sps.titleOpacity
       Sps.initialState].
  replace (0 * 180 / PI) with 0 by (field; apply PI_neq0).
  rewrite zero_degrees.
  assert (H : Js.lt 0 30 = true) by (apply lt_true; lra).
  rewrite H. split; [ reflexivity | split; [ reflexivity | ] ].
  symmetry. replace (1 - 0 / 30) with 1 by lra. apply Rmax_left. lra.
Qed.

Lemma menu_staged_step (st : MenuHome.State) (e : MenuHome.Event) :
  menuStaged st -> menuStaged (MenuHome.step st e).
Proof.
  intros [Hs Ho]. unfold menuStaged, stageAt.
  pose proof (menu_step_fields st e) as Hf.
  destruct e; try (destruct Hf as (-> & -> & ->); split; [ exact Hs | exact Ho ]).
  destruct Hf as (-> & -> & ->).
  rewrite menu_wheel_scale, menu_wheel_title. split; reflexivity.
Qed.

Lemma menu_staged_run (es : list MenuHome.Event) :
  menuStaged (MenuHome.run MenuHome.initialState es).
Proof.
  unfold MenuHome.run.
  apply (fold_invariant MenuHome.step menuStaged);
    [ intros st e; apply menu_staged_step | ].
  unfold menuStaged, stageAt, MenuHome.degreesOf.
  cbn [MenuHome.targetRotation MenuHome.modelScale MenuHome.titleOpacity
       MenuHome.initialState].
  replace (0 * 180 / PI) with 0 by (field; apply PI_neq0).
  rewrite zero_degrees.
  assert (H : Js.lt 0 30 = true) by (apply lt_true; lra).
  rewrite H. split; [ reflexivity | ].
  symmetry. replace (1 - 0 / 30) with 1 by lra. apply Rmax_left. lra.
Qed.

(** A non-negative number is its whole multiples of 360 plus the rest. *)
Lemma turns_and_rest (a : R) :
  0 <= a ->
  a = 360 * Js.floor (a / 360) + Js.rem a 360
  /\ exists n : Z, Js.floor (a / 360) = IZR n /\ (0 <= n)%Z.
Proof.
  intros Ha. unfold Js.rem, Js.trunc, Js.floor.
  assert (Hq : 0 <= a / 360) by lra.
  destruct (Rle_dec 0 (a / 360)) as [_ | n]; [ | contradiction ].
  split; [ lra | ].
  exists (Int_part (a / 360)). split; [ reflexivity | ].
  destruct (base_Int_part (a / 360)) as [H1 H2].
  assert (H : (-1 < Int_part (a / 360))%Z); [ | lia ].
  apply lt_IZR. lra.
Qed.

(** X27.  What the stage label says against what the stage is.  In the
    positioning scene, in every session, the label, the scale and the title
    agree: the label is "Stage 1: Title Visible" exactly while the title is
    visible, and then the scale is 1.5; it is the third label exactly when the
    scale is 2.8; and the magnitude of the target rotation in degrees is 360
    times the number of full turns the label counts plus the degrees on
    display.  In the menu page the label reads the rounded degrees while the
    stage was computed from the exact ones, so the label runs up to half a
    degree ahead: it leaves the first stage at 29.5 degrees, with the scale
    still 1.5 and the title still visible up to 30, and announces the third
    stage from 59.5 degrees, with the scale still below 2.8 up to 60. *)
Theorem stage_label_follows_the_degrees :
  (forall es : list Sps.Event,
      let st := Sps.run Sps.initialState es in
      (Sps.getCurrentStage st = "Stage 1: Title Visible"%string
       <-> 0 < Sps.titleOpacity st)
      /\ (Sps.getCurrentStage st = "Stage 1: Title Visible"%string ->
          Sps.modelScale st = 1.5)
      /\ (Sps.getCurrentStage st = "Stage 3: Navigation + Spheres Active"%string
          <-> Sps.modelScale st = 2.8)
      /\ Rabs (Sps.targetRotation st * 180 / PI)
         = 360 * Sps.totalRotations st + Sps.rotationDegrees st
      /\ exists n : Z, Sps.totalRotations st = IZR n /\ (0 <= n)%Z)
  /\ (forall es : list MenuHome.Event,
      let st := MenuHome.run MenuHome.initialState es in
      let d := MenuHome.degreesOf (MenuHome.targetRotation st) in
      (MenuHome.getCurrentStage st = "Stage 1: Title Visible"%string <-> d < 29.5)
      /\ (MenuHome.getCurrentStage st = "Stage 3: Navigation Active"%string
          <-> 59.5 <= d)
      /\ (29.5 <= d < 30 ->
          MenuHome.getCurrentStage st = "Stage 2: Model Growing"%string
          /\ MenuHome.modelScale st = 1.5
          /\ 0 < MenuHome.titleOpacity st)
      /\ (59.5 <= d < 60 ->
          MenuHome.getCurrentStage st = "Stage 3: Navigation Active"%string
          /\ MenuHome.modelScale st < 2.8)).
Proof.
  split.
  - intros es st. destruct (sps_staged_run es) as (Hd & Hs & Ho).
    fold st in Hd, Hs, Ho.
    destruct (turns_and_rest (Rabs (Sps.targetRotation st * 180 / PI))
                (Rabs_pos _)) as [Hturn Hn].
    assert (Hsum : Rabs (Sps.targetRotation st * 180 / PI)
                   = 360 * Sps.totalRotations st + Sps.rotationDegrees st).
    { unfold Sps.totalRotations. rewrite Hd. exact Hturn. }
    unfold Sps.getCurrentStage. rewrite Hs, Ho.
    destruct (Js.lt (Sps.rotationDegrees st) 30) eqn:H30;
      destruct (Js.lt (Sps.rotationDegrees st) 60) eqn:H60;
      reflect_cmp; try (exfalso; lra).
    + split.
      { split; [ intros _ | reflexivity ].
        apply Rlt_le_trans with (1 - Sps.rotationDegrees st / 30);
          [ lra | apply Rmax_l ]. }
      split; [ reflexivity | ].
      split; [ split; [ discriminate | intros H; exfalso; lra ] | ].
      split; [ exact Hsum | exact Hn ].
    + split; [ split; [ discriminate | intros H; exfalso; lra ] | ].
      split; [ discriminate | ].
      split; [ split; [ discriminate | intros H; exfalso; lra ] | ].
      split; [ exact Hsum | exact Hn ].
    + split; [ split; [ discriminate | intros H; exfalso; lra ] | ].
      split; [ discriminate | ].
      split; [ split; reflexivity | ].
      split; [ exact Hsum | exact Hn ].
  - intros es st d. destruct (menu_staged_run es) as (Hs & Ho).
    fold st in Hs, Ho. fold d in Hs, Ho.
    unfold MenuHome.getCurrentStage, MenuHome.rotationDegrees.
    change (Js.rem (Rabs (MenuHome.targetRotation st * 180 / PI)) 360) with d.
    pose proof (round_lt_iff d 30) as R30. pose proof (round_lt_iff d 60) as R60.
    destruct (Js.lt (Js.round d) 30) eqn:H30;
      destruct (Js.lt (Js.round d) 60) eqn:H60; reflect_cmp;
      try (apply R30 in H30); try (apply R60 in H60).
    + split; [ split; [ intros _; lra | reflexivity ] | ].
      split; [ split; [ discriminate | intros H; exfalso; lra ] | ].
      split; intros H; exfalso; lra.
    + exfalso. assert (~ Js.round d < 60) by lra. apply H. apply R60. lra.
    + assert (Hge : 29.5 <= d).
      { destruct (Rlt_dec d 29.5) as [Hlt | Hlt]; [ | lra ].
        exfalso. assert (Js.round d < 30) by (apply R30; lra). lra. }
      split; [ split; [ discriminate | intros H; exfalso; lra ] | ].
      split; [ split; [ discriminate | intros H; exfalso; lra ] | ].
      split.
      * intros Hd. split; [ reflexivity | ].
        rewrite Hs, Ho.
        assert (E : Js.lt d 30 = true) by (apply lt_true; lra). rewrite E.
        split; [ reflexivity | ].
        apply Rlt_le_trans with (1 - d / 30); [ lra | apply Rmax_l ].
      * intros Hd. exfalso. lra.
    + assert (Hge : 59.5 <= d).
      { destruct (Rlt_dec d 59.5) as [Hlt | Hlt]; [ | lra ].
        exfalso. assert (Js.round d < 60) by (apply R60; lra). lra. }
      split; [ split; [ discriminate | intros H; exfalso; lra ] | ].
      split; [ split; [ intros _; exact Hge | reflexivity ] | ].
      split.
      * intros Hd. exfalso. lra.
      * intros Hd. split; [ reflexivity | ].
        rewrite Hs.
        assert (E : Js.lt d 30 = false) by (apply lt_false; lra).
        assert (E' : Js.lt d 60 = true) by (apply lt_true; lra).
        rewrite E, E'. lra.
Qed.

Lemma stage_label_follows_the_degrees_witness :
  let st :=
    MenuHome.run MenuHome.initialState
      [MenuHome.Wheel (29.7 * PI / 180 / 0.005)] in
  29.5 <= MenuHome.degreesOf (MenuHome.targetRotation st) < 30
  /\ MenuHome.getCurrentStage st = "Stage 2: Model Growing"%string
  /\ MenuHome.modelScale st = 1.5.
Proof.
  intros st.
  assert (Hd : MenuHome.degreesOf (MenuHome.targetRotation st) = 29.7).
  { pose proof (menu_step_fields MenuHome.initialState
                  (MenuHome.Wheel (29.7 * PI / 180 / 0.005))) as (Ht & _).
    change (MenuHome.step MenuHome.initialState
              (MenuHome.Wheel (29.7 * PI / 180 / 0.005))) with st in Ht.
    rewrite Ht. cbn [MenuHome.accumulatedRotation MenuHome.initialState].
    unfold MenuHome.degreesOf.
    replace ((0 + 29.7 * PI / 180 / 0.005 * 0.005) * 180 / PI) with 29.7
      by (field; split; [ lra | apply PI_neq0 ]).
    rewrite Rabs_pos_eq by lra. apply rem_small. lra. }
  assert (Hr : 29.5 <= MenuHome.degreesOf (MenuHome.targetRotation st) < 30)
    by (rewrite Hd; lra).
  split; [ exact Hr | ].
  destruct (proj1 (proj2 (proj2 (proj2 stage_label_follows_the_degrees
                                   [MenuHome.Wheel (29.7 * PI / 180 / 0.005)])))
              Hr) as (H1 & H2 & _).
  split; [ exact H1 | exact H2 ].
Defined.

(** ** The performance monitor *)

Lemma monitor_counts (t0 dt : R) (f : Z) (n : nat) :
  0 < dt -> INR n * dt < 1000 ->
  monitorFrames t0 dt n (Lod.Monitor.mk f 0 t0)
  = Lod.Monitor.mk f (Z.of_nat n) t0.
Proof.
  intros Hdt. induction n as [| n IH]; intros Hn.
  - reflexivity.
  - cbn [monitorFrames]. rewrite S_INR in Hn. rewrite IH by nra.
    unfold Lod.usePerformanceMonitor.
    cbn [Lod.Monitor.frameCount Lod.Monitor.lastTime Lod.Monitor.fps].
    assert (E : Js.ge (t0 + INR (S n) * dt - t0) 1000 = false).
    { apply ge_false. rewrite S_INR. lra. }
    rewrite E. f_equal. lia.
Qed.

(** X28.  What the performance monitor reads.  Whatever the times of the
    frames, the reading is never below 1 once it starts at 60 and the frame
    counter never negative.  With frames every [dt] milliseconds the monitor
    keeps its reading for the first [k] frames after a reading, [k + 1] being
    the least number of frames that take a second or more, and reads [k + 1]
    in the next one, with the counter back at 0: the reading is the number of
    frames per second, rounded up. *)
Theorem monitor_reads_frames_per_second :
  (forall (times : list R) (now : R),
      let m :=
        fold_left (fun m t => Lod.usePerformanceMonitor t m) times
          (Lod.initialMonitor now) in
      (1 <= Lod.Monitor.fps m)%Z /\ (0 <= Lod.Monitor.frameCount m)%Z)
  /\ (forall (t0 dt : R) (f : Z) (k : nat),
      0 < dt -> INR k * dt < 1000 -> 1000 <= INR (S k) * dt ->
      (forall n : nat, (n <= k)%nat ->
         monitorFrames t0 dt n (Lod.Monitor.mk f 0 t0)
         = Lod.Monitor.mk f (Z.of_nat n) t0)
      /\ monitorFrames t0 dt (S k) (Lod.Monitor.mk f 0 t0)
         = Lod.Monitor.mk (Z.of_nat (S k)) 0 (t0 + INR (S k) * dt)).
Proof.
  split.
  - intros times now m. subst m.
    apply (fold_invariant (fun m t => Lod.usePerformanceMonitor t m)
             (fun m => (1 <= Lod.Monitor.fps m)%Z
                       /\ (0 <= Lod.Monitor.frameCount m)%Z)).
    + intros m t [H1 H2]. unfold Lod.usePerformanceMonitor.
      destruct (Js.ge (t - Lod.Monitor.lastTime m) 1000);
        cbn [Lod.Monitor.fps Lod.Monitor.frameCount]; lia.
    + cbn. lia.
  - intros t0 dt f k Hdt Hk HS. split.
    + intros n Hn. apply monitor_counts; [ exact Hdt | ].
      assert (INR n <= INR k) by (apply le_INR; exact Hn). nra.
    + cbn [monitorFrames]. rewrite (monitor_counts t0 dt f k Hdt Hk).
      unfold Lod.usePerformanceMonitor.
      cbn [Lod.Monitor.frameCount Lod.Monitor.lastTime Lod.Monitor.fps].
      assert (E : Js.ge (t0 + INR (S k) * dt - t0) 1000 = true).
      { apply ge_true. lra. }
      rewrite E. f_equal. lia.
Qed.

Lemma monitor_reads_frames_per_second_witness :
  monitorFrames 0 40 25 (Lod.Monitor.mk 60 0 0) = Lod.Monitor.mk 25 0 (0 + INR 25 * 40).
Proof.
  apply (proj2 (proj2 monitor_reads_frames_per_second 0 40 60%Z 24%nat
                  ltac:(lra) ltac:(simpl; lra) ltac:(simpl; lra))).
Defined.
